(* ===== verification/_CoqProject ===== *)
-Q . S2P
Prelude.v
Varint.v
Alloc.v
StringPool.v
PArray.v
Chain.v
PMap.v
SpMap.v
Context.v
Proto.v
Wmessage.v
Decode.v
Packed.v
CMem.v
Pattern.v
PatternRT.v
PatternNew.v
Rmessage.v
RmessageRT.v
PackedRT.v
MessageTree.v
Bootstrap.v
Descriptor.v
Register.v
RegisterFiles.v
RegisterTypes.v
Defaults.v
Double.v
LuaApi.v
PbcLua.v
LuaDecode.v
LuaPattern.v
LuaPatternRT.v
LuaGc.v
ProtobufLua.v
LuaRT.v
Dump.v
Codec.v
Framing.v
Sender.v
Channel.v
Client.v
IndexMgr.v
Sessions.v
Tasks.v
Rpc.v
RpcLive.v
Strop.v
Dispatch.v
CfgReader.v
Timers.v
Driver.v
Startup.v
Md5.v
Md5Spec.v
