(* ===== verification/Prelude.v ===== *)
(** * BlackCat: a verification development

    BlackCat is a game server framework.  Its servers talk to each other and to
    clients in protobuf messages over TCP; scripts and C code read and write
    these messages with the pbc library of src/3rd/pbc, which the repository
    carries and builds.  This development models pbc, from the varint up to whole
    messages, and the C++ code that moves messages between services.

    ** The program and the files

    pbc (src/3rd/pbc/src) is built in layers, and each layer has a file:

    - Varint (varint.c): encoding and decoding of numbers, zigzag;
    - Alloc (alloc.c): the heap whose blocks live as long as a message;
    - StringPool (stringpool.c): interned strings;
    - PArray (array.c): growing arrays of the variant [pbc_var];
    - Chain, PMap, SpMap (map.c): the collision chains the three hash tables
      share, the two read-only tables (string to number, number to pointer) and
      the growing table by string;
    - Context (context.c): cutting a message into atoms;
    - Proto (proto.c, with the field registration of register.c): the
      environment of message, field and enum descriptors;
    - Wmessage and Packed (wmessage.c): writing messages;
    - Decode (decode.c): reading a message through callbacks;
    - CMem, Pattern, PatternRT, PatternNew (pattern.c): a byte memory for C
      structs, packing and unpacking structs with a pattern, the round trip, and
      building patterns from format strings;
    - Rmessage, RmessageRT (rmessage.c): reading a message into an index, and its
      accessors;
    - PackedRT (wmessage.c, pattern.c, rmessage.c): packed fields, written and read
      back;
    - MessageTree (wmessage.c, rmessage.c): messages with sub-messages, written in
      any order of the calls and read back;
    - Bootstrap, Descriptor (bootstrap.c, descriptor.pbc.h): the descriptor of
      descriptors a new environment starts from, and the resolution of type
      names;
    - Register, RegisterFiles, RegisterTypes, Defaults (register.c): registering
      sets of files with their messages, enums, extensions and defaults; the order
      in which dependencies are met; the types of the fields; the values of integer
      defaults.

    The Lua binding (src/3rd/pbc/binding/lua) and the dump tool (src/3rd/pbc/tool):

    - Double: doubles as 64-bit patterns, and the integers they hold exactly;
    - LuaApi (lapi.c, lauxlib.c of src/3rd/lua-5.2.3): the Lua stack, tables and
      errors as a state monad, over the class [Lua] of the conversions, the
      border of a table and the order of its entries;
    - PbcLua, LuaDecode, LuaPattern, LuaGc (pbc-lua.c): the functions of the module
      [protobuf.c], over the worlds of live messages, patterns and environments
      that the pointers given to Lua lead to; LuaGc has the object that frees them;
    - ProtobufLua (protobuf.lua): [encode] and [decode] with the caches of writers
      and of tables of defaults, [pairs] and [ipairs], and sub-messages that are
      decoded when they are used; the fuel of [encode_message] is the room of the
      Lua stack, and running out of it is the error Lua raises;
    - LuaRT, LuaPatternRT: the round trips from Lua values to Lua values;
    - Dump (dump.c): printing a message, and reading one as numbers.

    The servers (src/ServerLib, src/RpcLib, src/RpcProxyServer, src/Gateway):

    - Codec (Codec.h): the transport format, over the class [Protobuf] of the
      protobuf operations it calls;
    - Framing (Dispatcher.h, TcpConnection.cpp, the read callbacks of
      RpcProxyServer.cpp, rpc_service.h and GenericServer.cpp): from the bytes of
      a connection to messages.  The class [FrameReader] is what a connection
      expects of its callback;
    - Sender (TcpConnection.cpp, Socket.cpp): the send queue as a step relation;
    - Channel (rpc_service.h): a message from [Send] of a service at one end of a
      connection to the callback at the other end, over Codec, Sender and Framing;
    - Client (TcpClient.cpp, TcpClient.h, [OnConnected] of rpc_service.h): the
      connection a service opens, its attempts, and the login;
    - Tasks (rpc_task.h): the task queue of a service with its threads, the mutex
      and the condition variable step by step;
    - IndexMgr (IndexMgr.h, TcpServer.cpp): connection numbers;
    - Sessions (io_service_pool.cpp, SessionMgr.cpp, GateUserMgr.cpp,
      TcpServer.cpp): the tables of connections, over the class [ConnTable] of
      what a server needs of one, and the server that fills them;
    - Rpc (ConnMgr.h, RpcProxyServer.cpp, rpc_service.h, rpc_stubs.h): calls between
      services through the proxy, and the system they form;
    - RpcLive: the same system under a schedule that handles every packet;
    - Strop, CfgReader (strop.h, CfgReader.h): strings and configuration files;
    - Dispatch (Dispatcher.h, rpc_service.h, Gateway.cpp): the table of typed
      callbacks behind the handlers of Rpc, [Connect], and the gateway's table of
      protocols;
    - Timers (TimerMgr.cpp of ServerLib and of Driver, Timer.h): timers over the
      readings of a clock, with arbitrary callbacks;
    - Driver (Driver.cpp, DriverFunc.cpp, GameScript.cpp, LuaVM.cpp, LuaVM.h): the
      script server, over a parameter for the Lua machine;
    - Startup (Main.cpp of the gateway, of the driver and of the data server,
      GenericServer.cpp): the configurations and how the servers start;
    - Md5, Md5Spec (md5.cpp, md5.h): the digest and its definition in RFC 1321.

    ** How the code is represented

    Functions keep the names of the source; loops that are cut out of a function
    have names of their own.  Integers are [Z] with the conversions of their
    width written out ([u32], [s32], ...); buffers are lists of bytes; a struct is
    a record and a tagged union an inductive type.  A function that can leave
    what the language defines (a null pointer, an access outside an array, a
    signed overflow, an exception) returns an [outcome], with the [fault] as a
    value, so that theorems can state that it does or does not happen.
    Uninitialised memory the code reads is a parameter ([junk], [stk]) over which
    the theorems quantify.  Conversions between float and double ([d2f], [f2d])
    and [strtod] are parameters.  Shared state that is updated in place is passed through
    and returned.

    ** What the theorems show

    - Round trips, each for the field types its theorem lists: varints and zigzag; what [pbc_wmessage_*] writes is what
      [pbc_decode] calls back and, for messages nested to any depth, what
      [pbc_rmessage_*] reads, and so for packed fields between other fields;
      packing and unpacking structs; [Encode] and [Decode] of the transport.
      From Lua to Lua: [encode] and [decode] of a table of scalar fields (but for the
      values that are left out as defaults), and
      [_pattern_pack] and [_pattern_unpack] of a list of arguments.
    - References: [_pbcV_decode] against the base-128 value, [_pbcC_open] against
      a field-by-field parser of the wire format, the three hash tables against
      finite maps, packed varints against their exact bytes; the inputs on which they
      differ are stated.
    - Memory: arrays, heaps (for sizes an int can round up) and string pools never
      write outside of their blocks, and what they hand out stays valid; what a Lua script makes is released
      once, and all of it.
    - Registration: a new environment knows the messages of descriptor.proto with
      every type reference resolved, and whatever is registered afterwards leaves no
      field with an unresolved type; a set of files is registered in finitely many
      passes, completely exactly when the dependencies allow it.
    - Against standards: the digest is that of RFC 1321 however the message is cut.
    - The servers: messages sent over a connection are handed over once, in order
      and unchanged however the stream is cut and whatever fails, and in fair runs
      all of them; a client that is used as its service means it gets the login
      through first; the task queue behaves as if its operations were atomic, and
      no wake-up is lost; connection numbers are distinct and the tables have
      exactly the open connections; an RPC callback runs at most once with the
      answer to its own call, and does run when nothing is lost; timers run in
      time, again and again, and never after they were cancelled; the driver keeps
      calling its script until it is stopped; the gateway starts as its
      configuration says.
    - Faults of the code are stated as theorems too: inputs on which it leaves its
      bounds, loses data or stops.

    ** Fuel

    Loops without a structural argument take a number of rounds: the length of a
    buffer for loops that use a byte per round, the number of slots for walks
    along collision chains, the depth of the value for nested messages, one more
    than the numbers in use for [GetId], one more than the files for the passes of
    [pbc_register].  Each theorem that a result is produced
    states it as an equation with [Done], so running out is excluded where the
    theorem applies.

    ** What is not modelled

    The functions that only release memory; the threads of the io_service pool,
    sockets and the logger, which are calls of boost (what the servers rely on are
    the steps of Sender, Channel and Client); the Lua machine below its C interface and the
    readers of protobuf.lua behind the metatable of defaults; the formatting of real
    numbers; generated code other than descriptor.pbc.h and the other vendored
    libraries.

    This file holds what the others share: widths, little-endian integers,
    outcomes, tactics and lemmas on lists. *)

From Stdlib Require Export ZArith Lia.
From stdpp Require Export base strings numbers gmap list.

#[export] Set Default Goal Selector "!".

(** ** Machine integers

    Every C and C++ integer is a [Z]; the functions below are the conversions
    the language applies when a value is stored in a variable of that width. *)

Definition u8 (z : Z) : Z := (z mod 2 ^ 8)%Z.
Definition u16 (z : Z) : Z := (z mod 2 ^ 16)%Z.
Definition u32 (z : Z) : Z := (z mod 2 ^ 32)%Z.
Definition u64 (z : Z) : Z := (z mod 2 ^ 64)%Z.
Definition s8 (z : Z) : Z := ((z + 2 ^ 7) mod 2 ^ 8 - 2 ^ 7)%Z.
Definition s32 (z : Z) : Z := ((z + 2 ^ 31) mod 2 ^ 32 - 2 ^ 31)%Z.
Definition s64 (z : Z) : Z := ((z + 2 ^ 63) mod 2 ^ 64 - 2 ^ 63)%Z.

Definition is_u8 (z : Z) : Prop := (0 <= z < 2 ^ 8)%Z.
Definition is_u32 (z : Z) : Prop := (0 <= z < 2 ^ 32)%Z.
Definition is_u64 (z : Z) : Prop := (0 <= z < 2 ^ 64)%Z.
Definition is_s32 (z : Z) : Prop := (- 2 ^ 31 <= z < 2 ^ 31)%Z.
Definition is_s64 (z : Z) : Prop := (- 2 ^ 63 <= z < 2 ^ 63)%Z.

(** A buffer is a list of bytes. *)
Definition bytes_ok (l : list Z) : Prop := Forall is_u8 l.

(** Length of a buffer as an integer of the program. *)
Definition zlen {A} (l : list A) : Z := Z.of_nat (length l).

(** ** Little-endian integers (the hosts of the build files are x86) *)

Fixpoint le_split (n : nat) (z : Z) : list Z :=
  match n with
  | O => []
  | S n' => (z mod 256)%Z :: le_split n' (z / 256)%Z
  end.

Fixpoint le_join (l : list Z) : Z :=
  match l with
  | [] => 0%Z
  | b :: l' => (b + 256 * le_join l')%Z
  end.

(** ** Outcomes

    A computation of the program ends with a value, or stops at an operation
    the language leaves undefined or that raises an exception.  [OutOfFuel] is
    the outcome of a loop that was given too few iterations; the theorems show
    it does not happen. *)

Inductive fault :=
  | NullDeref
  | OutOfBounds
  | DivByZero
  | LengthError
  | SignedOverflow
  | AssertFailed
  | BadRead
  | OutOfFuel.

Inductive outcome (A : Type) :=
  | Done (a : A)
  | Fault (f : fault).
Arguments Done {A} a.
Arguments Fault {A} f.

Definition obind {A B} (x : outcome A) (k : A → outcome B) : outcome B :=
  match x with
  | Done a => k a
  | Fault f => Fault f
  end.

Declare Scope outcome_scope.
Delimit Scope outcome_scope with outcome.
Notation "'do!' x <- e ; k" := (obind e (λ x, k))
  (at level 10, x pattern, e at level 100, k at level 200) : outcome_scope.
#[global] Open Scope outcome_scope.

(** Reading a cell of an array: outside the array the language defines nothing. *)
Definition read_at {A} (l : list A) (i : Z) : outcome A :=
  if (i <? 0)%Z then Fault OutOfBounds
  else match l !! Z.to_nat i with
       | Some a => Done a
       | None => Fault OutOfBounds
       end.

(** Writing the bytes [bs] at offset [i] of an array. *)
Definition write_at {A} (l : list A) (i : Z) (bs : list A) : outcome (list A) :=
  if (0 <=? i)%Z && (i + zlen bs <=? zlen l)%Z
  then Done (take (Z.to_nat i) l ++ bs ++ drop (Z.to_nat i + length bs) l)
  else Fault OutOfBounds.

(** [for (i = i0; i < i0 + n; i++) body] *)
Fixpoint for_loop {S} (n : nat) (i : Z) (body : Z → S → outcome S) (s : S) : outcome S :=
  match n with
  | O => Done s
  | Datatypes.S n' => do! s <- body i s; for_loop n' (i + 1)%Z body s
  end.

(** An effectful function on the elements of a list, from left to right. *)
Fixpoint traverse {A B} (g : A → outcome B) (l : list A) : outcome (list B) :=
  match l with
  | [] => Done []
  | a :: l' => do! b <- g a; do! r <- traverse g l'; Done (b :: r)
  end.

Definition traverse_option {A B} (g : A → outcome B) (o : option A) : outcome (option B) :=
  match o with
  | None => Done None
  | Some a => do! b <- g a; Done (Some b)
  end.

(** The bytes of a string literal. *)
Definition lit (s : string) : list Z := List.map (λ c, Z.of_nat (Ascii.nat_of_ascii c)) (String.list_ascii_of_string s).

(** A string used as a C string: what is before its first zero. *)
Fixpoint c_string (s : list Z) : list Z :=
  match s with
  | [] => []
  | c :: s' => if (c =? 0)%Z then [] else c :: c_string s'
  end.

(** The decimal text of a number; twenty digits are enough for 64 bits. *)
Fixpoint dec_digits (fuel : nat) (n : Z) : list Z :=
  match fuel with
  | O => []
  | S fuel' => if (n <? 10)%Z then [(48 + n)%Z] else dec_digits fuel' (n / 10)%Z ++ [(48 + n mod 10)%Z]
  end.

Definition decimal (v : Z) : list Z := if (v <? 0)%Z then 45%Z :: dec_digits 20 (- v) else dec_digits 20 v.

#[export] Instance fault_eq_dec : EqDecision fault.
Proof. solve_decision. Defined.
#[export] Instance outcome_eq_dec {A} `{EqDecision A} : EqDecision (outcome A).
Proof. solve_decision. Defined.

Lemma for_loop_inv {S} (I : S → Prop) n i (body : Z → S → outcome S) s s' :
  (∀ j x y, body j x = Done y → I x → I y) → for_loop n i body s = Done s' → I s → I s'.
Proof.
  intros Hb. revert i s. induction n as [|n IH]; intros i s H HI; simpl in H.
  - by injection H as <-.
  - destruct (body i s) as [s1|] eqn:E; [|discriminate H]. eapply IH; eauto.
Qed.

(** ** Tactics *)

(** Turn boolean comparisons into propositions. *)
Ltac bprop :=
  repeat match goal with
  | H : (_ && _)%bool = true |- _ => apply andb_true_iff in H as [? ?]
  | H : (_ || _)%bool = false |- _ => apply orb_false_iff in H as [? ?]
  | H : (_ || _)%bool = true |- _ => apply orb_true_iff in H
  | H : (_ && _)%bool = false |- _ => apply andb_false_iff in H
  | H : negb _ = true |- _ => apply negb_true_iff in H
  | H : negb _ = false |- _ => apply negb_false_iff in H
  | H : (_ <? _)%Z = true |- _ => apply Z.ltb_lt in H
  | H : (_ <? _)%Z = false |- _ => apply Z.ltb_ge in H
  | H : (_ <=? _)%Z = true |- _ => apply Z.leb_le in H
  | H : (_ <=? _)%Z = false |- _ => apply Z.leb_gt in H
  | H : (_ =? _)%Z = true |- _ => apply Z.eqb_eq in H
  | H : (_ =? _)%Z = false |- _ => apply Z.eqb_neq in H
  | H : (_ <? _)%nat = true |- _ => apply Nat.ltb_lt in H
  | H : (_ <? _)%nat = false |- _ => apply Nat.ltb_ge in H
  | H : (_ <=? _)%nat = true |- _ => apply Nat.leb_le in H
  | H : (_ <=? _)%nat = false |- _ => apply Nat.leb_gt in H
  | H : (_ =? _)%nat = true |- _ => apply Nat.eqb_eq in H
  | H : (_ =? _)%nat = false |- _ => apply Nat.eqb_neq in H
  end.

(** Case analysis on the condition of a conditional of the goal. *)
Ltac case_if :=
  match goal with
  | |- context [if ?b then _ else _] =>
      match type of b with
      | bool => let H := fresh "Hif" in destruct b eqn:H; bprop
      end
  end.

(** Follow a computation that is known to have ended with a value: every step of
    it did. *)
Ltac unbind H :=
  cbv beta in H;
  repeat match type of H with
  | obind ?x _ = Done _ =>
      let E := fresh "E" in
      destruct x as [?|?] eqn:E; cbn [obind] in H; [|discriminate H];
      repeat match goal with y : (_ * _)%type |- _ => destruct y end
  end.

(** Linear arithmetic with [mod] and [/] by constants. *)
Ltac zmod := Z.div_mod_to_equations; lia.

(** Unfold the widths and finish with arithmetic. *)
Ltac width :=
  unfold is_u8, is_u32, is_u64, is_s32, is_s64, u8, u16, u32, u64, s8, s32, s64 in *;
  zmod.

Create HintDb width discriminated.
Create Rewrite HintDb width.
Create Rewrite HintDb zlen.

(** ** Lemmas on widths *)

Open Scope Z_scope.

Lemma u8_range z : is_u8 (u8 z).
Proof. width. Qed.
Lemma u32_range z : is_u32 (u32 z).
Proof. width. Qed.
Lemma u64_range z : is_u64 (u64 z).
Proof. width. Qed.
Lemma s32_range z : is_s32 (s32 z).
Proof. width. Qed.
Lemma s64_range z : is_s64 (s64 z).
Proof. width. Qed.
Lemma u8_id z : is_u8 z → u8 z = z.
Proof. intros; width. Qed.
Lemma u32_id z : is_u32 z → u32 z = z.
Proof. intros; width. Qed.
Lemma u64_id z : is_u64 z → u64 z = z.
Proof. intros; width. Qed.
Lemma s32_id z : is_s32 z → s32 z = z.
Proof. intros; width. Qed.
Lemma s64_id z : is_s64 z → s64 z = z.
Proof. intros; width. Qed.
Lemma u32_s32 z : u32 (s32 z) = u32 z.
Proof. width. Qed.
Lemma s32_u32 z : s32 (u32 z) = s32 z.
Proof. width. Qed.
Lemma u64_s64 z : u64 (s64 z) = u64 z.
Proof. width. Qed.
Lemma s64_u64 z : s64 (u64 z) = s64 z.
Proof. width. Qed.
#[export] Hint Resolve u8_range u32_range u64_range s32_range s64_range : width.
#[export] Hint Rewrite u8_id u32_id u64_id s32_id s64_id using (assumption || width) : width.

Lemma bytes_ok_app a b : bytes_ok (a ++ b) ↔ bytes_ok a ∧ bytes_ok b.
Proof. apply Forall_app. Qed.
Lemma bytes_ok_drop n l : bytes_ok l → bytes_ok (drop n l).
Proof. apply Forall_drop. Qed.
Lemma bytes_ok_take n l : bytes_ok l → bytes_ok (take n l).
Proof. apply Forall_take. Qed.

Lemma zlen_nonneg {A} (l : list A) : 0 <= zlen l.
Proof. unfold zlen; lia. Qed.
Lemma zlen_app {A} (l k : list A) : zlen (l ++ k) = zlen l + zlen k.
Proof. unfold zlen; rewrite length_app; lia. Qed.
Lemma zlen_cons {A} (x : A) l : zlen (x :: l) = 1 + zlen l.
Proof. unfold zlen; simpl length; lia. Qed.
Lemma zlen_pos {A} (l : list A) : l ≠ [] → 0 < zlen l.
Proof. destruct l; [done|]. unfold zlen. simpl length. lia. Qed.
Lemma zlen_nil {A} : zlen (@nil A) = 0.
Proof. reflexivity. Qed.
#[export] Hint Rewrite @zlen_app @zlen_cons @zlen_nil : zlen.

(** ** Little-endian round trips *)

Lemma length_le_split n z : length (le_split n z) = n.
Proof. revert z; induction n; simpl; auto. Qed.

Lemma le_split_bytes n z : bytes_ok (le_split n z).
Proof. revert z; induction n; simpl; constructor; [width | apply IHn]. Qed.

Lemma le_join_split n z : le_join (le_split n z) = z mod 256 ^ Z.of_nat n.
Proof.
  revert z; induction n as [|n IH]; intros z; simpl.
  - by rewrite Z.mod_1_r.
  - rewrite IH. replace (Z.of_nat (S n)) with (Z.of_nat n + 1) by lia.
    rewrite Z.pow_add_r, Z.pow_1_r by lia.
    rewrite (Z.mul_comm (256 ^ _)), Z.rem_mul_r by lia. lia.
Qed.

Lemma le_split_join l : bytes_ok l → le_split (length l) (le_join l) = l.
Proof.
  induction 1 as [|b l Hb Hl IH]; simpl; [done|].
  rewrite (Z.add_comm b), (Z.mul_comm 256).
  rewrite Z.div_add_l by lia. rewrite Z.add_comm, Z.mod_add by lia.
  rewrite (Z.div_small b), Z.add_0_r, IH by width. f_equal. width.
Qed.

Lemma le_join_range l : bytes_ok l → 0 <= le_join l < 256 ^ zlen l.
Proof.
  unfold zlen. induction 1 as [|b l Hb Hl IH]; simpl; [lia|].
  replace (Z.of_nat (S (length l))) with (Z.of_nat (length l) + 1) by lia.
  rewrite Z.pow_add_r, Z.pow_1_r by lia. unfold is_u8 in *. lia.
Qed.

Lemma le_split_app n m z : le_split (n + m) z = le_split n z ++ le_split m (z / 256 ^ Z.of_nat n).
Proof.
  revert z; induction n as [|n IH]; intros z; cbn [Nat.add le_split app].
  - change (256 ^ Z.of_nat 0) with 1. by rewrite Z.div_1_r.
  - rewrite IH, Nat2Z.inj_succ, Z.pow_succ_r, Z.div_div by lia. done.
Qed.

Lemma le_split_mod n z : le_split n (z mod 256 ^ Z.of_nat n) = le_split n z.
Proof.
  revert z; induction n as [|n IH]; intros z; cbn [le_split]; [done|].
  rewrite Nat2Z.inj_succ, Z.pow_succ_r, Z.rem_mul_r by lia.
  rewrite (Z.mul_comm 256), Z.mod_add, Z.div_add, Zmod_mod, (Z.div_small (z mod 256)) by (lia || (apply Z.mod_pos_bound; lia)).
  by rewrite Z.add_0_l, IH.
Qed.

(** ** Bit operations as arithmetic *)

(** Disjoint bits: [a | b << k] is [a + b * 2^k]. *)
Lemma land_shiftl_disjoint a b k :
  0 <= k → 0 <= a < 2 ^ k → Z.land a (b * 2 ^ k) = 0.
Proof.
  intros Hk Ha. rewrite <- (Z.mod_small a (2 ^ k)) by done.
  rewrite <- Z.land_ones, <- Z.shiftl_mul_pow2 by done.
  apply Z.bits_inj'; intros n Hn. rewrite !Z.land_spec, Z.bits_0, Z.shiftl_spec by done.
  rewrite Z.testbit_ones by lia. destruct (Z.ltb_spec n k).
  - by rewrite (Z.testbit_neg_r b), andb_false_r by lia.
  - by rewrite !andb_false_r.
Qed.

Lemma lor_shiftl_add a b k :
  0 <= k → 0 <= a < 2 ^ k → Z.lor a (Z.shiftl b k) = a + b * 2 ^ k.
Proof.
  intros Hk Ha. rewrite Z.shiftl_mul_pow2 by done.
  rewrite <- Z.lxor_lor by (by apply land_shiftl_disjoint).
  rewrite <- Z.add_nocarry_lxor; [done | by apply land_shiftl_disjoint].
Qed.

Lemma land_low z k : 0 <= k → Z.land z (2 ^ k - 1) = z mod 2 ^ k.
Proof. intros. rewrite <- Z.land_ones, Z.ones_equiv, Z.sub_1_r by done. done. Qed.

Lemma land_1 z : Z.land z 1 = z mod 2.
Proof. exact (land_low z 1 ltac:(lia)). Qed.

Lemma land_127 z : Z.land z 127 = z mod 128.
Proof. exact (land_low z 7 ltac:(lia)). Qed.

Lemma land_255 z : Z.land z 255 = z mod 256.
Proof. exact (land_low z 8 ltac:(lia)). Qed.

Lemma land_7 z : Z.land z 7 = z mod 8.
Proof. exact (land_low z 3 ltac:(lia)). Qed.

(** The continuation bit of a varint byte. *)
Lemma land_128 b : is_u8 b → Z.land b 128 = if b <? 128 then 0 else 128.
Proof.
  intros Hb. change 128 with (2 ^ 7) at 1.
  destruct (Z.ltb_spec b 128); apply Z.bits_inj'; intros n Hn; rewrite Z.land_spec.
  - rewrite Z.bits_0, Z.pow2_bits_eqb by lia. destruct (Z.eqb_spec 7 n) as [<-|]; [|by rewrite andb_false_r].
    rewrite andb_true_r, Z.testbit_false by lia. unfold is_u8 in *. by rewrite Z.div_small by lia.
  - change 128 with (2 ^ 7). rewrite Z.pow2_bits_eqb by lia. destruct (Z.eqb_spec 7 n) as [<-|]; [|by rewrite andb_false_r].
    rewrite andb_true_r, Z.testbit_true by lia. unfold is_u8 in *.
    replace (b / 2 ^ 7) with 1 by width. done.
Qed.

Lemma u8_lor_128 n : 0 <= n → u8 (Z.lor n 128) = n mod 128 + 128.
Proof.
  intros Hn. unfold u8. rewrite <- (Z.land_ones _ 8), Z.land_lor_distr_l by lia.
  rewrite Z.land_ones by lia. change (Z.land 128 (Z.ones 8)) with 128.
  assert (0 <= n mod 128 < 2 ^ 7) as Hr by zmod.
  assert (n mod 2 ^ 8 = n mod 128 ∨ n mod 2 ^ 8 = n mod 128 + 1 * 2 ^ 7) as [-> | ->] by zmod.
  - exact (lor_shiftl_add _ 1 7 ltac:(lia) Hr).
  - rewrite <- (lor_shiftl_add _ 1 7) by lia. change (Z.shiftl 1 7) with 128.
    rewrite <- Z.lor_assoc, Z.lor_diag. exact (lor_shiftl_add _ 1 7 ltac:(lia) Hr).
Qed.

Lemma read_at_app_l {A} (l k : list A) i a : read_at l i = Done a → read_at (l ++ k) i = Done a.
Proof.
  unfold read_at. destruct (i <? 0); [done|]. destruct (l !! Z.to_nat i) eqn:E; [|done].
  intros [= ->]. by rewrite (lookup_app_l_Some _ _ _ _ E).
Qed.

Lemma read_at_nat {A} (l : list A) (i : nat) :
  read_at l (Z.of_nat i) = match l !! i with Some a => Done a | None => Fault OutOfBounds end.
Proof. unfold read_at. rewrite (proj2 (Z.ltb_ge _ _)) by lia. by rewrite Nat2Z.id. Qed.

(** In an association list with distinct keys a key has one value. *)
Lemma fst_unique {K V} (l : list (K * V)) k v v' :
  NoDup l.*1 → (k, v) ∈ l → (k, v') ∈ l → v = v'.
Proof.
  induction l as [|[a b] l IH]; intros Hnd H1 H2; [by apply elem_of_nil in H1|]. cbn in Hnd.
  apply NoDup_cons in Hnd as [Ha Hnd]. apply elem_of_cons in H1, H2.
  assert (∀ x, (a, x) ∉ l) as Hno by (intros x Hx; apply Ha, list_elem_of_fmap; by exists (a, x)).
  destruct H1 as [[= -> ->]|H1], H2 as [[= ]|H2]; subst; try done; [by apply Hno in H2 | by apply Hno in H1 | auto].
Qed.

Lemma write_at_insert {A} (l : list A) i a :
  0 <= i < zlen l → write_at l i [a] = Done (<[Z.to_nat i := a]> l).
Proof.
  intros Hi. unfold write_at. rewrite (proj2 (Z.leb_le 0 i)) by lia.
  rewrite (proj2 (Z.leb_le (i + _) _)) by (rewrite zlen_cons, zlen_nil; lia). cbn [andb]. f_equal.
  rewrite insert_take_drop by (unfold zlen in Hi; lia). cbn [length app]. by rewrite Nat.add_1_r.
Qed.

Lemma write_at_here {A} (l1 old l2 bs : list A) :
  length old = length bs → write_at (l1 ++ old ++ l2) (zlen l1) bs = Done (l1 ++ bs ++ l2).
Proof.
  intros Hl. unfold write_at, zlen. rewrite !length_app, Hl.
  rewrite (proj2 (Z.leb_le _ _)), (proj2 (Z.leb_le _ _)) by lia. cbn [andb]. f_equal.
  rewrite Nat2Z.id, take_app_length. f_equal. f_equal. rewrite drop_app_add', drop_app_length' by done. done.
Qed.

Lemma c_string_id s : 0 ∉ s → c_string s = s.
Proof.
  induction s as [|x s IH]; intros Hn; [done|]. cbn. rewrite (proj2 (Z.eqb_neq x 0)) by set_solver. by rewrite IH by set_solver.
Qed.
