(* ===== verification/Varint.v ===== *)
(** * pbc varints ([3rd/pbc/src/varint.c])

    The base-128 integers of the protocol buffer wire format and the zigzag
    maps.  A routine that fills [buffer] is modelled by the list of bytes it
    writes, its return value being the length of that list; [_pbcV_decode]
    reads the buffer it is given byte by byte and faults outside of it. *)

From S2P Require Import Prelude.

(** ** The code *)

Record longlong := Longlong { low : Z; hi : Z }.

#[export] Instance longlong_eq_dec : EqDecision longlong.
Proof. solve_decision. Defined.

Definition _pbcV_encode32 (number : Z) : list Z :=
  if number <? 0x80 then [u8 number] else
  let b0 := u8 (Z.lor number 0x80) in
  if number <? 0x4000 then [b0; u8 (Z.shiftr number 7)] else
  let b1 := u8 (Z.lor (Z.shiftr number 7) 0x80) in
  if number <? 0x200000 then [b0; b1; u8 (Z.shiftr number 14)] else
  let b2 := u8 (Z.lor (Z.shiftr number 14) 0x80) in
  if number <? 0x10000000 then [b0; b1; b2; u8 (Z.shiftr number 21)] else
  let b3 := u8 (Z.lor (Z.shiftr number 21) 0x80) in
  [b0; b1; b2; b3; u8 (Z.shiftr number 28)].

(** The [do ... while (number >= 0x80)] loop and the store after it. *)
Fixpoint _pbcV_encode_loop (fuel : nat) (number : Z) : list Z :=
  match fuel with
  | O => []
  | S fuel' =>
      let b := u8 (Z.lor number 0x80) in
      let number := Z.shiftr number 7 in
      if 0x80 <=? number then b :: _pbcV_encode_loop fuel' number
      else [b; u8 number]
  end.

(** Nine iterations are enough for 64 bits. *)
Definition _pbcV_encode (number : Z) : list Z :=
  if Z.land number 0xffffffff =? number then _pbcV_encode32 (u32 number)
  else _pbcV_encode_loop 9 number.

(** [for (i=4;i<10;i++)]: [n] iterations are left. *)
Fixpoint _pbcV_decode_hi (buffer : list Z) (r lr : Z) (i : Z) (n : nat) : outcome (Z * longlong) :=
  match n with
  | O => Done (10, Longlong 0 0)
  | S n' =>
      do! b <- read_at buffer i;
      let lr := Z.lor lr (Z.shiftl (Z.land b 0x7f) (7 * (i - 4))) in
      if Z.land b 0x80 =? 0
      then Done (i + 1, Longlong (Z.lor r (u32 (Z.shiftl (Z.land (u32 lr) 0xf) 28)))
                                 (u32 (Z.shiftr lr 4)))
      else _pbcV_decode_hi buffer r lr (i + 1) n'
  end.

(** [for (i=1;i<4;i++)], then the high part. *)
Fixpoint _pbcV_decode_lo (buffer : list Z) (r : Z) (i : Z) (n : nat) : outcome (Z * longlong) :=
  match n with
  | O => _pbcV_decode_hi buffer r 0 4 6
  | S n' =>
      do! b <- read_at buffer i;
      let r := Z.lor r (Z.shiftl (Z.land b 0x7f) (7 * i)) in
      if Z.land b 0x80 =? 0 then Done (i + 1, Longlong r 0)
      else _pbcV_decode_lo buffer r (i + 1) n'
  end.

Definition _pbcV_decode (buffer : list Z) : outcome (Z * longlong) :=
  do! b0 <- read_at buffer 0;
  if Z.land b0 0x80 =? 0 then Done (1, Longlong b0 0)
  else _pbcV_decode_lo buffer (Z.land b0 0x7f) 1 3.

(** The parameter is an [int32_t]; the call converts the result to [uint32_t]. *)
Definition _pbcV_zigzag32 (n : Z) : list Z :=
  _pbcV_encode32 (u32 (Z.lxor (s32 (Z.shiftl n 1)) (Z.shiftr n 31))).

Definition _pbcV_zigzag (n : Z) : list Z :=
  _pbcV_encode (u64 (Z.lxor (s64 (Z.shiftl n 1)) (Z.shiftr n 63))).

Definition _pbcV_dezigzag64 (r : longlong) : longlong :=
  let m := u32 (- Z.land (low r) 1) in
  Longlong (Z.lxor (Z.lor (Z.shiftr (low r) 1) (u32 (Z.shiftl (Z.land (hi r) 1) 31))) m)
           (Z.lxor (Z.shiftr (hi r) 1) m).

Definition _pbcV_dezigzag32 (r : longlong) : longlong :=
  Longlong (Z.lxor (Z.shiftr (low r) 1) (u32 (- Z.land (low r) 1)))
           (u32 (- Z.shiftr (low r) 31)).

(** ** The reference: base-128 digits *)

(** The value carried by a 64-bit pair, and the pair of a 64-bit value. *)
Definition ll_val (r : longlong) : Z := low r + 2 ^ 32 * hi r.
Definition ll_of (z : Z) : longlong := Longlong (u32 z) (u32 (z / 2 ^ 32)).

(** The canonical varint of [n], with at most [fuel] continuation bytes. *)
Fixpoint varint (fuel : nat) (n : Z) : list Z :=
  match fuel with
  | O => [n]
  | S fuel' => if n <? 128 then [n] else (n mod 128 + 128) :: varint fuel' (n / 128)
  end.

(** Bytes that form one varint: every byte but the last has its top bit set. *)
Fixpoint is_varint (l : list Z) : bool :=
  match l with
  | [] => false
  | [b] => (0 <=? b) && (b <? 128)
  | b :: l' => (128 <=? b) && (b <? 256) && is_varint l'
  end.

(** The number those bytes stand for. *)
Fixpoint varint_val (l : list Z) : Z :=
  match l with
  | [] => 0
  | b :: l' => b mod 128 + 128 * varint_val l'
  end.

(** ** Lemmas *)

Lemma varint_is_varint fuel n : 0 <= n < 128 ^ (Z.of_nat fuel + 1) → is_varint (varint fuel n) = true.
Proof.
  revert n; induction fuel as [|fuel IH]; intros n Hn; simpl.
  - rewrite !andb_true_iff, Z.leb_le, Z.ltb_lt. lia.
  - destruct (n <? 128) eqn:E; bprop; simpl.
    + rewrite !andb_true_iff, Z.leb_le, Z.ltb_lt. lia.
    + assert (is_varint (varint fuel (n / 128)) = true) as Hv.
      { apply IH. replace (Z.of_nat (S fuel) + 1) with (1 + (Z.of_nat fuel + 1)) in Hn by lia.
        rewrite Z.pow_add_r in Hn by lia. split; [zmod|]. apply Z.div_lt_upper_bound; lia. }
      rewrite Hv. destruct (varint fuel (n / 128)); [done|].
      rewrite andb_true_r, andb_true_iff, Z.leb_le, Z.ltb_lt. zmod.
Qed.

Lemma varint_val_varint fuel n : 0 <= n < 128 ^ (Z.of_nat fuel + 1) → varint_val (varint fuel n) = n.
Proof.
  revert n; induction fuel as [|fuel IH]; intros n Hn; simpl.
  - change (128 ^ (0 + 1)) with 128 in Hn. zmod.
  - destruct (n <? 128) eqn:E; bprop; simpl; [zmod|].
    rewrite IH.
    + rewrite <- Zplus_mod_idemp_l. zmod.
    + replace (Z.of_nat (S fuel) + 1) with (1 + (Z.of_nat fuel + 1)) in Hn by lia.
      rewrite Z.pow_add_r in Hn by lia. split; [zmod|]. apply Z.div_lt_upper_bound; lia.
Qed.

(** More fuel than needed changes nothing. *)
Lemma varint_fuel f g n : (f <= g)%nat → 0 <= n < 128 ^ (Z.of_nat f + 1) → varint g n = varint f n.
Proof.
  revert g n; induction f as [|f IH]; intros g n Hfg Hn.
  - change (128 ^ (Z.of_nat 0 + 1)) with 128 in Hn.
    destruct g; simpl; [done|]. by rewrite (proj2 (Z.ltb_lt n 128)) by lia.
  - destruct g; [lia|]. simpl. case_if; [done|]. f_equal. apply IH; [lia|].
    replace (Z.of_nat (S f) + 1) with (1 + (Z.of_nat f + 1)) in Hn by lia.
    rewrite Z.pow_add_r in Hn by lia. split; [zmod|]. apply Z.div_lt_upper_bound; lia.
Qed.

Lemma shiftr7 n : Z.shiftr n 7 = n / 128.
Proof. by rewrite Z.shiftr_div_pow2 by lia. Qed.

Lemma shiftr14 n : Z.shiftr n 14 = n / 128 / 128.
Proof. rewrite Z.shiftr_div_pow2 by lia. by rewrite Z.div_div by lia. Qed.

Lemma shiftr21 n : Z.shiftr n 21 = n / 128 / 128 / 128.
Proof. rewrite Z.shiftr_div_pow2 by lia. by rewrite !Z.div_div by lia. Qed.

Lemma shiftr28 n : Z.shiftr n 28 = n / 128 / 128 / 128 / 128.
Proof. rewrite Z.shiftr_div_pow2 by lia. by rewrite !Z.div_div by lia. Qed.

Lemma encode_byte n : 0 <= n < 128 → u8 n = n.
Proof. intros. apply u8_id. width. Qed.

Lemma encode32_varint n : is_u32 n → _pbcV_encode32 n = varint 4 n.
Proof.
  intros Hn. unfold _pbcV_encode32.
  rewrite shiftr7, shiftr14, shiftr21, shiftr28.
  unfold is_u32 in Hn. cbn [varint].
  change 0x80 with 128. change 0x4000 with (128 * 128).
  change 0x200000 with (128 * (128 * 128)). change 0x10000000 with (128 * (128 * (128 * 128))).
  case_if; [by rewrite encode_byte by lia|].
  rewrite !u8_lor_128 by zmod.
  case_if; [rewrite (proj2 (Z.ltb_lt (n / 128) 128)), encode_byte by zmod; done|].
  rewrite (proj2 (Z.ltb_ge (n / 128) 128)) by zmod.
  case_if; [rewrite (proj2 (Z.ltb_lt (n / 128 / 128) 128)), encode_byte by zmod; done|].
  rewrite (proj2 (Z.ltb_ge (n / 128 / 128) 128)) by zmod.
  case_if; [rewrite (proj2 (Z.ltb_lt (n / 128 / 128 / 128) 128)), encode_byte by zmod; done|].
  rewrite (proj2 (Z.ltb_ge (n / 128 / 128 / 128) 128)) by zmod.
  rewrite encode_byte by zmod. done.
Qed.

Lemma encode_loop_varint f n :
  128 <= n < 128 ^ (Z.of_nat f + 1) → _pbcV_encode_loop f n = varint f n.
Proof.
  revert n; induction f as [|f IH]; intros n Hn.
  - change (128 ^ (Z.of_nat 0 + 1)) with 128 in Hn. lia.
  - cbn [_pbcV_encode_loop varint]. change 0x80 with 128.
    rewrite (proj2 (Z.ltb_ge n 128)), u8_lor_128 by lia.
    rewrite shiftr7.
    replace (Z.of_nat (S f) + 1) with (1 + (Z.of_nat f + 1)) in Hn by lia.
    rewrite Z.pow_add_r in Hn by lia.
    assert (n / 128 < 128 ^ (Z.of_nat f + 1)) by (apply Z.div_lt_upper_bound; lia).
    case_if.
    + by rewrite IH by lia.
    + rewrite encode_byte by zmod. destruct f; [done|]. cbn [varint].
      by rewrite (proj2 (Z.ltb_lt _ _)) by lia.
Qed.

Lemma encode_varint n : is_u64 n → _pbcV_encode n = varint 9 n.
Proof.
  unfold is_u64, _pbcV_encode. intros Hn.
  change 0xffffffff with (2 ^ 32 - 1). rewrite land_low by lia.
  case_if.
  - rewrite encode32_varint by apply u32_range. unfold u32. rewrite Hif.
    symmetry. apply varint_fuel; [lia|]. change (128 ^ (Z.of_nat 4 + 1)) with 34359738368. zmod.
  - apply encode_loop_varint. change (128 ^ (Z.of_nat 9 + 1)) with 1180591620717411303424. zmod.
Qed.

Lemma varint_length_le f n : (1 <= length (varint f n) <= S f)%nat.
Proof. revert n; induction f as [|f IH]; intros n; simpl; [lia|]. case_if; simpl; [lia|]. specialize (IH (n / 128)). lia. Qed.

Lemma is_varint_bytes l : is_varint l = true → bytes_ok l.
Proof.
  induction l as [|b l IH]; [done|]. destruct l as [|b' l].
  - simpl. intros ?. bprop. constructor; [width | constructor].
  - cbn [is_varint]. intros H. bprop. constructor; [width|]. apply IH. done.
Qed.

Lemma varint_val_nonneg l : 0 <= varint_val l.
Proof. induction l as [|b l IH]; simpl; [lia|]. zmod. Qed.

(** ** Decoding *)

Lemma land_127_128 b :
  is_u8 b → Z.land b 0x7f = b mod 128 ∧ (Z.land b 0x80 =? 0) = (b <? 128).
Proof.
  intros Hb. split; [apply land_127|]. change 0x80 with 128. rewrite land_128 by done.
  destruct (b <? 128); done.
Qed.

Lemma read_at_split {A} (pre : list A) x post i :
  i = zlen pre → read_at (pre ++ x :: post) i = Done x.
Proof. intros ->. unfold zlen. rewrite read_at_nat. by rewrite list_lookup_middle. Qed.

(** The loop over the high bytes, with [lr] bytes already in. *)
Lemma decode_hi_spec pre l rest r lr i n :
  is_varint l = true → i = zlen pre → 4 <= i → (length l <= n)%nat → Z.of_nat n = 10 - i →
  0 <= r < 2 ^ 28 → 0 <= lr < 2 ^ (7 * (i - 4)) →
  _pbcV_decode_hi (pre ++ l ++ rest) r lr i n =
    Done (i + zlen l, ll_of (r + 2 ^ 28 * (lr + 2 ^ (7 * (i - 4)) * varint_val l))).
Proof.
  revert pre r lr i n; induction l as [|b l IH]; intros pre r lr i n Hv Hi H4 Hn Hin Hr Hlr; [done|].
  destruct n as [|n]; [simpl in Hn; lia|]. cbn [_pbcV_decode_hi].
  rewrite <- app_comm_cons, read_at_split by done. cbn [obind].
  pose proof (is_varint_bytes _ Hv) as Hb. apply Forall_cons_1 in Hb as [Hb Hl].
  destruct (land_127_128 b Hb) as [-> ->]. clear Hb.
  set (p := 2 ^ (7 * (i - 4))) in *.
  rewrite lor_shiftl_add by lia. fold p.
  assert (0 < p) by (subst p; apply Z.pow_pos_nonneg; lia).
  assert (0 <= b mod 128 < 128) as Hbm by zmod.
  destruct l as [|b' l].
  - cbn [is_varint] in Hv. bprop. rewrite (proj2 (Z.ltb_lt b 128)) by lia.
    autorewrite with zlen. f_equal. f_equal. cbn [varint_val]. rewrite Z.mul_0_r, Z.add_0_r, (Z.mul_comm p).
    unfold ll_of. set (v := lr + b mod 128 * p). assert (0 <= v) by (subst v; nia).
    f_equal.
    + change 0xf with (2 ^ 4 - 1). rewrite land_low by lia.
      assert (u32 (Z.shiftl (u32 v mod 2 ^ 4) 28) = Z.shiftl (u32 v mod 2 ^ 4) 28) as ->.
      { apply u32_id. rewrite Z.shiftl_mul_pow2 by lia. width. }
      rewrite lor_shiftl_add by lia. width.
    + rewrite Z.shiftr_div_pow2 by lia. f_equal. zmod.
  - change (is_varint (b :: b' :: l)) with ((128 <=? b) && (b <? 256) && is_varint (b' :: l)) in Hv.
    bprop. rewrite (proj2 (Z.ltb_ge b 128)) by lia.
    assert (2 ^ (7 * (i + 1 - 4)) = 128 * p) as Hp.
    { replace (7 * (i + 1 - 4)) with (7 + 7 * (i - 4)) by lia. by rewrite Z.pow_add_r by lia. }
    replace (pre ++ b :: (b' :: l) ++ rest) with ((pre ++ [b]) ++ (b' :: l) ++ rest) by (by rewrite <- app_assoc).
    rewrite (IH (pre ++ [b]) r (lr + b mod 128 * p) (i + 1) n).
    + rewrite Hp. f_equal. f_equal; [unfold zlen; simpl length; lia|].
      f_equal. cbn [varint_val]. lia.
    + done.
    + rewrite zlen_app, zlen_cons, zlen_nil. lia.
    + lia.
    + simpl in Hn |- *. lia.
    + lia.
    + done.
    + rewrite Hp. nia.
Qed.

Lemma is_varint_cons2 b b' l :
  is_varint (b :: b' :: l) = (128 <=? b) && (b <? 256) && is_varint (b' :: l).
Proof. done. Qed.

Lemma ll_of_small r : 0 <= r < 2 ^ 32 → ll_of r = Longlong r 0.
Proof. intros. unfold ll_of. f_equal; width. Qed.

(** The loop over bytes 1 to 3, with [i] bytes already in [r]. *)
Lemma decode_lo_spec pre l rest r i n :
  is_varint l = true → i = zlen pre → 1 <= i → Z.of_nat n = 4 - i →
  i + zlen l <= 10 → 0 <= r < 2 ^ (7 * i) →
  _pbcV_decode_lo (pre ++ l ++ rest) r i n =
    Done (i + zlen l, ll_of (r + 2 ^ (7 * i) * varint_val l)).
Proof.
  revert pre r i l; induction n as [|n IH]; intros pre r i l Hv Hi H1 Hn Hlen Hr; cbn [_pbcV_decode_lo].
  - replace i with 4 in * by lia. change (2 ^ (7 * 4)) with (2 ^ 28) in *.
    rewrite decode_hi_spec by (done || unfold zlen in *; lia).
    change (2 ^ (7 * (4 - 4))) with 1. by rewrite Z.mul_1_l, Z.add_0_l.
  - destruct l as [|b l]; [done|].
    rewrite <- app_comm_cons, read_at_split by done. cbn [obind].
    pose proof (is_varint_bytes _ Hv) as Hb. apply Forall_cons_1 in Hb as [Hb _].
    destruct (land_127_128 b Hb) as [-> ->]. clear Hb.
    rewrite lor_shiftl_add by lia.
    set (p := 2 ^ (7 * i)) in *.
    assert (2 ^ (7 * (i + 1)) = 128 * p) as Hp.
    { replace (7 * (i + 1)) with (7 + 7 * i) by lia. by rewrite Z.pow_add_r by lia. }
    assert (128 * p <= 2 ^ 28) as Hp28 by (rewrite <- Hp; apply Z.pow_le_mono_r; lia).
    assert (0 <= b mod 128 < 128) as Hbm by zmod.
    destruct l as [|b' l].
    + cbn [is_varint] in Hv. bprop. rewrite (proj2 (Z.ltb_lt b 128)) by lia.
      cbn [varint_val]. replace (p * (b mod 128 + 128 * 0)) with (b mod 128 * p) by lia.
      rewrite ll_of_small by nia. done.
    + rewrite is_varint_cons2 in Hv. bprop. rewrite (proj2 (Z.ltb_ge b 128)) by lia.
      replace (pre ++ b :: (b' :: l) ++ rest) with ((pre ++ [b]) ++ (b' :: l) ++ rest) by (by rewrite <- app_assoc).
      rewrite (zlen_cons b) in Hlen.
      rewrite (IH (pre ++ [b])); [| done | rewrite zlen_app, zlen_cons, zlen_nil; lia | lia | lia | lia | rewrite Hp; nia].
      rewrite Hp. f_equal. f_equal; [unfold zlen; simpl length; lia|]. f_equal. cbn [varint_val]. lia.
Qed.

Lemma decode_spec l rest :
  is_varint l = true → zlen l <= 10 →
  _pbcV_decode (l ++ rest) = Done (zlen l, ll_of (varint_val l)).
Proof.
  intros Hv Hlen. destruct l as [|b l]; [done|]. unfold _pbcV_decode.
  change ((b :: l) ++ rest) with ([] ++ b :: (l ++ rest)) at 1. rewrite read_at_split by done. cbn [obind].
  pose proof (is_varint_bytes _ Hv) as Hb. apply Forall_cons_1 in Hb as [Hb _].
  destruct (land_127_128 b Hb) as [-> ->]. destruct l as [|b' l].
  - cbn [is_varint] in Hv. bprop. rewrite (proj2 (Z.ltb_lt b 128)) by lia. cbn [varint_val].
    rewrite Z.mul_0_r, Z.add_0_r, Z.mod_small, ll_of_small by lia. done.
  - rewrite is_varint_cons2 in Hv. bprop. rewrite (proj2 (Z.ltb_ge b 128)) by lia.
    change ((b :: b' :: l) ++ rest) with ([b] ++ (b' :: l) ++ rest).
    rewrite zlen_cons in Hlen.
    rewrite decode_lo_spec; [| done | done | lia | lia | lia | change (2 ^ (7 * 1)) with 128; zmod].
    change (2 ^ (7 * 1)) with 128. rewrite (zlen_cons b). done.
Qed.

(** Ten continuation bytes: the decoder gives up with the value 0. *)
Lemma decode_overlong l rest :
  length l = 10%nat → Forall (λ b, 128 <= b < 256) l →
  _pbcV_decode (l ++ rest) = Done (10, Longlong 0 0).
Proof.
  intros Hl Hb. do 10 (destruct l as [|? l]; [done|]). destruct l; [|done].
  repeat match goal with H : Forall _ (_ :: _) |- _ => apply Forall_cons_1 in H as [? H] end.
  assert (∀ b, 128 <= b < 256 → (Z.land b 128 =? 0) = false) as Hc.
  { intros b Hb'. destruct (land_127_128 b ltac:(width)) as [_ ->]. apply Z.ltb_ge. lia. }
  cbv [_pbcV_decode _pbcV_decode_lo _pbcV_decode_hi app].
  repeat (match goal with |- context [read_at (?x :: ?l) ?i] =>
    let v := eval lazy in (read_at (x :: l) i) in change (read_at (x :: l) i) with v end;
    cbn [obind]; rewrite ?Hc by done).
  done.
Qed.

Lemma encode_is_varint n : is_u64 n → is_varint (_pbcV_encode n) = true ∧ varint_val (_pbcV_encode n) = n ∧ (length (_pbcV_encode n) <= 10)%nat.
Proof.
  intros Hn. rewrite encode_varint by done.
  assert (0 <= n < 128 ^ (Z.of_nat 9 + 1)) by (change (128 ^ (Z.of_nat 9 + 1)) with 1180591620717411303424; width).
  split_and!; [by apply varint_is_varint | by apply varint_val_varint | apply (varint_length_le 9)].
Qed.

Lemma encode32_is_varint n : is_u32 n → is_varint (_pbcV_encode32 n) = true ∧ varint_val (_pbcV_encode32 n) = n ∧ (1 <= length (_pbcV_encode32 n) <= 5)%nat.
Proof.
  intros Hn. rewrite encode32_varint by done.
  assert (0 <= n < 128 ^ (Z.of_nat 4 + 1)) by (change (128 ^ (Z.of_nat 4 + 1)) with 34359738368; width).
  split_and!; [by apply varint_is_varint | by apply varint_val_varint | apply (varint_length_le 4) ..].
Qed.

Lemma decode_encode n rest : is_u64 n →
  _pbcV_decode (_pbcV_encode n ++ rest) = Done (zlen (_pbcV_encode n), ll_of n).
Proof.
  intros Hn. destruct (encode_is_varint n Hn) as (Hv & Hval & Hl).
  rewrite decode_spec by (done || unfold zlen; lia). by rewrite Hval.
Qed.

Lemma decode_encode32 n rest : is_u32 n →
  _pbcV_decode (_pbcV_encode32 n ++ rest) = Done (zlen (_pbcV_encode32 n), Longlong n 0).
Proof.
  intros Hn. destruct (encode32_is_varint n Hn) as (Hv & Hval & Hl).
  rewrite decode_spec by (done || unfold zlen; lia). by rewrite Hval, ll_of_small.
Qed.

(** ** Zigzag *)

(** The zigzag number of [n]. *)
Definition zz (n : Z) : Z := if 0 <=? n then 2 * n else - 2 * n - 1.

Lemma zigzag32_encode n : is_s32 n → _pbcV_zigzag32 n = _pbcV_encode32 (zz n).
Proof.
  intros Hn. unfold _pbcV_zigzag32, zz. f_equal.
  rewrite Z.shiftl_mul_pow2, Z.shiftr_div_pow2 by lia. case_if.
  - replace (n / 2 ^ 31) with 0 by width. rewrite Z.lxor_0_r. width.
  - replace (n / 2 ^ 31) with (-1) by width. rewrite Z.lxor_m1_r. unfold Z.lnot, Z.pred. width.
Qed.

Lemma zigzag_encode n : is_s64 n → _pbcV_zigzag n = _pbcV_encode (zz n).
Proof.
  intros Hn. unfold _pbcV_zigzag, zz. f_equal.
  rewrite Z.shiftl_mul_pow2, Z.shiftr_div_pow2 by lia. case_if.
  - replace (n / 2 ^ 63) with 0 by width. rewrite Z.lxor_0_r. width.
  - replace (n / 2 ^ 63) with (-1) by width. rewrite Z.lxor_m1_r. unfold Z.lnot, Z.pred. width.
Qed.

Lemma zz_u32 n : is_s32 n → is_u32 (zz n).
Proof. intros. unfold zz. case_if; width. Qed.
Lemma zz_u64 n : is_s64 n → is_u64 (zz n).
Proof. intros. unfold zz. case_if; width. Qed.

Lemma lxor_mask32 x : is_u32 x → Z.lxor x (2 ^ 32 - 1) = 2 ^ 32 - 1 - x.
Proof.
  intros Hx. change (2 ^ 32 - 1) with (Z.ones 32).
  rewrite <- (Z.land_ones_low x 32 ltac:(unfold is_u32 in Hx; lia)) at 2.
  - rewrite Z.sub_nocarry_ldiff.
    + apply Z.bits_inj'; intros k Hk.
      rewrite Z.lxor_spec, Z.ldiff_spec, Z.land_spec, Z.testbit_ones by lia.
      destruct (Z.ltb_spec k 32), (Z.leb_spec 0 k); simpl; try lia;
        rewrite ?andb_true_r, ?andb_false_r, ?xorb_true_r, ?xorb_false_r; try done.
      rewrite Z.bits_above_log2; [done | unfold is_u32 in Hx; lia |].
      destruct (Z.eq_dec x 0) as [->|]; [simpl; lia|]. apply Z.log2_lt_pow2; [unfold is_u32 in Hx; lia|].
      unfold is_u32 in Hx. apply Z.lt_le_trans with (2 ^ 32); [lia|]. apply Z.pow_le_mono_r; lia.
    + apply Z.bits_inj'; intros k Hk. rewrite Z.ldiff_spec, Z.land_spec, Z.bits_0, Z.testbit_ones by lia.
      destruct (Z.testbit x k), (0 <=? k), (k <? 32); done.
  - unfold is_u32 in Hx. destruct (Z.eq_dec x 0) as [->|]; [simpl; lia|]. apply Z.log2_lt_pow2; lia.
Qed.

(** The sign mask: 0 for an even number, all ones for an odd one. *)
Lemma sign_mask x y : is_u32 y → Z.lxor y (u32 (- Z.land x 1)) = if Z.even x then y else 2 ^ 32 - 1 - y.
Proof.
  intros Hy. rewrite land_1, Zmod_even. destruct (Z.even x).
  - change (u32 (- 0)) with 0. by rewrite Z.lxor_0_r.
  - change (u32 (- 1)) with (2 ^ 32 - 1). by apply lxor_mask32.
Qed.

Lemma zz_even n : Z.even (zz n) = (0 <=? n).
Proof.
  unfold zz. case_if; rewrite ?Z.even_mul; [done|].
  replace (-2 * n - 1) with (1 + 2 * (- n - 1)) by lia. by rewrite Z.even_add_mul_2.
Qed.

Lemma dezigzag32_low n h : is_s32 n → low (_pbcV_dezigzag32 (Longlong (zz n) h)) = u32 n.
Proof.
  intros Hn. cbn [_pbcV_dezigzag32 low]. pose proof (zz_u32 n Hn) as Hz.
  rewrite Z.shiftr_div_pow2 by lia. rewrite sign_mask by (unfold is_u32 in *; zmod).
  rewrite zz_even. unfold zz in *. case_if; width.
Qed.

Lemma dezigzag64_val n : is_s64 n → ll_val (_pbcV_dezigzag64 (ll_of (zz n))) = u64 n.
Proof.
  intros Hn. pose proof (zz_u64 n Hn) as Hz.
  unfold ll_val, _pbcV_dezigzag64, ll_of. cbn [low hi].
  set (z := zz n) in *.
  assert (u32 (Z.shiftl (Z.land (u32 (z / 2 ^ 32)) 1) 31) = Z.shiftl (u32 (z / 2 ^ 32) mod 2) 31) as ->.
  { rewrite land_1, Z.shiftl_mul_pow2 by lia. apply u32_id. unfold is_u32. zmod. }
  rewrite !Z.shiftr_div_pow2 by lia. rewrite lor_shiftl_add by (lia || width).
  rewrite !sign_mask by width.
  assert (Z.even (u32 z) = Z.even z) as ->.
  { unfold u32. rewrite !Zeven_mod. f_equal. zmod. }
  subst z. rewrite zz_even. unfold zz in *. case_if; width.
Qed.

(** ** Properties *)

(** C28: What [_pbcV_encode] writes for a 64-bit number never needs more than the
    ten bytes of the caller's buffer, and [_pbcV_decode] reads exactly those
    bytes back and returns the number, whatever follows them. *)
Theorem varint_roundtrip n rest (Hn : is_u64 n) :
  _pbcV_decode (_pbcV_encode n ++ rest) = Done (zlen (_pbcV_encode n), ll_of n)
  ∧ ll_val (ll_of n) = n
  ∧ 1 <= zlen (_pbcV_encode n) <= 10.
Proof.
  split_and!; [by apply decode_encode | unfold ll_val, ll_of; cbn [low hi]; width | ..];
    destruct (encode_is_varint n Hn) as (Hv & _ & Hl); unfold zlen; [|lia].
  destruct (_pbcV_encode n); [done | simpl; lia].
Qed.

Lemma varint_roundtrip_witness :
  is_u64 300 ∧ _pbcV_decode (_pbcV_encode 300 ++ [7]) = Done (2, Longlong 300 0).
Proof. split; [width|]. apply (varint_roundtrip 300 [7]). width. Defined.

(** C30: [_pbcV_decode] computes the base-128 value of any sequence of at most
    ten bytes that forms a varint (canonical or padded), modulo 2^64, and
    reports its length; on ten continuation bytes it reports ten bytes and the
    value 0. *)
Theorem decode_reference l rest :
  (is_varint l = true → zlen l <= 10 →
     _pbcV_decode (l ++ rest) = Done (zlen l, ll_of (varint_val l)))
  ∧ (length l = 10%nat → Forall (λ b, 128 <= b < 256) l →
     _pbcV_decode (l ++ rest) = Done (10, Longlong 0 0)).
Proof. split; [apply decode_spec | apply decode_overlong]. Qed.

Lemma decode_reference_witness :
  _pbcV_decode ([0x80; 0x80; 0x01] ++ [9]) = Done (3, Longlong 16384 0)
  ∧ _pbcV_decode (replicate 10 255 ++ []) = Done (10, Longlong 0 0).
Proof.
  split.
  - apply (decode_reference [0x80; 0x80; 0x01] [9]); vm_compute; congruence.
  - apply (decode_reference (replicate 10 255) []); [reflexivity|].
    repeat constructor; lia.
Defined.

(** The unrolled 32-bit encoder and the loop of the 64-bit encoder write the
    same bytes as the digit-by-digit reference encoder: the canonical varint. *)
Theorem encode_canonical n (Hn : is_u64 n) :
  _pbcV_encode n = varint 9 n ∧ (is_u32 n → _pbcV_encode32 n = varint 9 n).
Proof.
  split; [by apply encode_varint|]. intros H32. rewrite encode32_varint by done.
  symmetry. apply varint_fuel; [lia|]. change (128 ^ (Z.of_nat 4 + 1)) with 34359738368. width.
Qed.

Lemma encode_canonical_witness :
  is_u64 (2 ^ 35) ∧ _pbcV_encode (2 ^ 35) = [128; 128; 128; 128; 128; 1].
Proof. split; [width|]. apply (encode_canonical (2 ^ 35)). width. Defined.

(** Zigzag round trips: a signed 32-bit number written by [_pbcV_zigzag32]
    and a signed 64-bit number written by [_pbcV_zigzag] are recovered by
    [_pbcV_decode] followed by the matching dezigzag (for 32 bits, in the low
    word). *)
Theorem zigzag_roundtrip n rest :
  (is_s32 n → ∃ len r, _pbcV_decode (_pbcV_zigzag32 n ++ rest) = Done (len, r)
     ∧ low (_pbcV_dezigzag32 r) = u32 n)
  ∧ (is_s64 n → ∃ len r, _pbcV_decode (_pbcV_zigzag n ++ rest) = Done (len, r)
     ∧ ll_val (_pbcV_dezigzag64 r) = u64 n).
Proof.
  split; intros Hn.
  - rewrite zigzag32_encode, decode_encode32 by (done || by apply zz_u32).
    eexists _, _; split; [done|]. by apply dezigzag32_low.
  - rewrite zigzag_encode, decode_encode by (done || by apply zz_u64).
    eexists _, _; split; [done|]. by apply dezigzag64_val.
Qed.

Lemma zigzag_roundtrip_witness :
  ∃ len r, _pbcV_decode (_pbcV_zigzag32 (-5) ++ []) = Done (len, r)
    ∧ low (_pbcV_dezigzag32 r) = u32 (-5).
Proof. apply (zigzag_roundtrip (-5) []). width. Defined.

(** The high word [_pbcV_dezigzag32] leaves is not the sign extension of the
    number it decodes: it is all ones exactly when the number lies outside
    [-2^30, 2^30), so a small negative number is left with a zero high word
    and a large positive one with an all-ones high word. *)
Theorem dezigzag32_hi_not_sign n (Hn : is_s32 n) :
  hi (_pbcV_dezigzag32 (Longlong (zz n) 0)) =
    if (n <? - 2 ^ 30) || (2 ^ 30 <=? n) then 2 ^ 32 - 1 else 0.
Proof.
  cbn [_pbcV_dezigzag32 hi low]. rewrite Z.shiftr_div_pow2 by lia. unfold zz.
  destruct (0 <=? n) eqn:?, (n <? - 2 ^ 30) eqn:?, (2 ^ 30 <=? n) eqn:?; bprop; cbn [orb]; width.
Qed.

Lemma dezigzag32_hi_not_sign_witness :
  is_s32 (-1) ∧ hi (_pbcV_dezigzag32 (Longlong (zz (-1)) 0)) = 0.
Proof. split; [width|]. apply (dezigzag32_hi_not_sign (-1)). width. Defined.
