(* ===== verification/Alloc.v ===== *)
(** * pbc memory ([3rd/pbc/src/alloc.c])

    The counted [malloc]/[free] and the bump allocator ([struct heap]) that
    backs one message.  A page is identified by its position in the list of
    pages, oldest first; a pointer into the heap is a page and an offset past
    the page header.  [malloc] itself is taken to succeed (the code does not
    test its result); [_g] is the live-allocation counter. *)

From S2P Require Import Prelude.

(** ** The code *)

(** [_pbcM_malloc] and [_pbcM_free] as far as the counter goes: [free] of a null
    pointer does nothing. *)
Definition _pbcM_malloc (g : Z) : Z := g + 1.
Definition _pbcM_free (p : option nat) (g : Z) : Z :=
  match p with
  | Some _ => g - 1
  | None => g
  end.

(** [current] and the chain of older pages, each with the bytes usable past its
    header ([pages], newest first). *)
Record heap := Heap { pages : list Z; heap_size : Z; used : Z }.

Record hptr := Hptr { hpage : nat; hoff : Z }.

#[export] Instance hptr_eq_dec : EqDecision hptr.
Proof. solve_decision. Defined.

(** [while (cap < pagesize) cap *= 2]; doubling past the largest [int] is
    undefined. *)
Fixpoint _pbcH_new_cap (fuel : nat) (cap pagesize : Z) : outcome Z :=
  if cap <? pagesize then
    match fuel with
    | O => Fault OutOfFuel
    | S fuel' =>
        if 2 ^ 31 <=? cap * 2 then Fault SignedOverflow
        else _pbcH_new_cap fuel' (cap * 2) pagesize
    end
  else Done cap.

Definition _pbcH_new (pagesize g : Z) : outcome (heap * Z) :=
  do! cap <- _pbcH_new_cap 21 1024 pagesize;
  Done (Heap [cap] cap 0, _pbcM_malloc (_pbcM_malloc g)).

(** One [free] per page, then the heap itself. *)
Definition _pbcH_delete (h : heap) (g : Z) : Z :=
  _pbcM_free (Some 0%nat) (foldr (λ p g, _pbcM_free (Some 1%nat) g) g (pages h)).

(** Rounding [size] up to a multiple of four; a sum past the largest [int] is
    undefined.  (Where it wraps around, the size becomes negative and the bump
    pointer moves back over the blocks handed out before.) *)
Definition _pbcH_alloc (h : heap) (size g : Z) : outcome (hptr * heap * Z) :=
  if 2 ^ 31 <=? size + 3 then Fault SignedOverflow
  else
    let size := Z.land (size + 3) (Z.lnot 3) in
    if heap_size h - used h <? size then
      let cap := if size <? heap_size h then heap_size h else size in
      let g := _pbcM_malloc g in
      Done (Hptr (length (pages h)) 0, Heap (cap :: pages h) (heap_size h) size, g)
    else
      Done (Hptr (length (pages h) - 1) (used h),
            Heap (pages h) (heap_size h) (used h + size), g).

(** A message's life: create, allocate blocks of the given sizes in order. *)
Fixpoint alloc_all (h : heap) (sizes : list Z) (g : Z) : outcome (list (hptr * Z) * heap * Z) :=
  match sizes with
  | [] => Done ([], h, g)
  | sz :: rest =>
      do! (p, h, g) <- _pbcH_alloc h sz g;
      do! (ps, h, g) <- alloc_all h rest g;
      Done ((p, sz) :: ps, h, g)
  end.

(** ** Invariant *)

(** Bytes usable in page [i] (pages are numbered from the oldest). *)
Definition page_cap (h : heap) (i : nat) : option Z := rev (pages h) !! i.

Definition heap_wf (h : heap) : Prop :=
  1024 <= heap_size h
  ∧ used h mod 4 = 0
  ∧ ∃ c rest, pages h = c :: rest ∧ 0 <= used h <= c ∧ heap_size h <= c.

(** The block [(p, n)] was handed out: it lies in its page, and in the current
    page it lies below the bump pointer. *)
Definition block_in (h : heap) (b : hptr * Z) : Prop :=
  ∃ c, page_cap h (hpage b.1) = Some c
    ∧ 0 <= hoff b.1 ∧ 0 <= b.2 ∧ hoff b.1 + b.2 <= c ∧ hoff b.1 mod 4 = 0
    ∧ (hpage b.1 = (length (pages h) - 1)%nat → hoff b.1 + b.2 <= used h).

Definition disjoint_blocks (b b' : hptr * Z) : Prop :=
  hpage b.1 ≠ hpage b'.1 ∨ hoff b.1 + b.2 <= hoff b'.1 ∨ hoff b'.1 + b'.2 <= hoff b.1.

(** ** Lemmas *)

Lemma align4 z : Z.land (z + 3) (Z.lnot 3) = 4 * ((z + 3) / 4).
Proof.
  rewrite <- Z.ldiff_land. change 3 with (Z.ones 2) at 2. rewrite Z.ldiff_ones_r by lia.
  rewrite Z.shiftl_mul_pow2, Z.shiftr_div_pow2 by lia. change (2 ^ 2) with 4. lia.
Qed.

Lemma new_cap_spec fuel k pagesize :
  0 <= k → pagesize <= 2 ^ (k + Z.of_nat fuel) → k + Z.of_nat fuel < 31 →
  ∃ c, _pbcH_new_cap fuel (2 ^ k) pagesize = Done c ∧ 2 ^ k <= c ∧ pagesize <= c.
Proof.
  revert k; induction fuel as [|fuel IH]; intros k Hk Hp Hb; cbn [_pbcH_new_cap]; case_if.
  - rewrite Z.add_0_r in Hp. lia.
  - exists (2 ^ k). split_and!; [done | lia | lia].
  - replace (2 ^ k * 2) with (2 ^ (k + 1)) by (rewrite Z.pow_add_r by lia; lia).
    rewrite (proj2 (Z.leb_gt _ _)) by (apply Z.pow_lt_mono_r; lia).
    destruct (IH (k + 1)) as (c & Hc & Hc1 & Hc2).
    + lia.
    + replace (k + 1 + Z.of_nat fuel) with (k + Z.of_nat (S fuel)) by lia. done.
    + lia.
    + exists c. split_and!; try done. transitivity (2 ^ (k + 1)); [apply Z.pow_le_mono_r; lia | done].
  - exists (2 ^ k). split_and!; [done | lia | lia].
Qed.

Lemma new_wf pagesize g : pagesize <= 2 ^ 30 →
  ∃ h, _pbcH_new pagesize g = Done (h, g + 2) ∧ heap_wf h ∧ length (pages h) = 1%nat ∧ used h = 0.
Proof.
  intros Hp. destruct (new_cap_spec 20 10 pagesize) as (c & Hc & H1 & H2); [lia | done | lia |].
  unfold _pbcH_new. change 1024 with (2 ^ 10).
  assert (_pbcH_new_cap 21 (2 ^ 10) pagesize = Done c) as ->.
  { clear -Hc. revert Hc. generalize (2 ^ 10) as cap.
    generalize 20%nat as n. induction n as [|n IH]; intros cap; cbn [_pbcH_new_cap]; case_if; try done.
    case_if; [done|]. apply IH. }
  cbn [obind]. eexists. split_and!; [unfold _pbcM_malloc; do 2 f_equal; lia | | done | done].
  split_and!; [exact H1 | done |]. exists c, []. cbn [pages used heap_size]. split_and!; try done; lia.
Qed.

Lemma alloc_wf h size g p h' g' : heap_wf h → 0 <= size → _pbcH_alloc h size g = Done (p, h', g') → heap_wf h'.
Proof.
  intros (Hs & Hm & c & rest & Hc & Hu & Hcs) Hsz. unfold _pbcH_alloc. rewrite align4. case_if; [done|].
  case_if; intros [= <- <- <-]; split_and!; cbn [pages used heap_size]; try done.
  - zmod.
  - eexists _, _. split; [done|]. case_if; split; zmod.
  - zmod.
  - exists c, rest. split; [done|]. split; [|done]. split; [zmod|].
    destruct (decide (heap_size h = c)) as [<-|]; [zmod|]. zmod.
Qed.

Lemma page_cap_lt h i c : page_cap h i = Some c → (i < length (pages h))%nat.
Proof. intros H%lookup_lt_Some. by rewrite length_rev in H. Qed.

Lemma page_cap_push cap ps s u i c :
  page_cap (Heap ps s u) i = Some c → page_cap (Heap (cap :: ps) s u) i = Some c.
Proof. unfold page_cap; cbn [pages rev]. apply lookup_app_l_Some. Qed.

Lemma page_cap_current c rest s u : page_cap (Heap (c :: rest) s u) (length rest) = Some c.
Proof. unfold page_cap; cbn [pages rev]. by rewrite lookup_app_r, length_rev, Nat.sub_diag by (rewrite length_rev; lia). Qed.

(** The page a block lies in does not depend on the bump pointer. *)
Lemma page_cap_used ps s u s' u' i : page_cap (Heap ps s u) i = page_cap (Heap ps s' u') i.
Proof. done. Qed.

Lemma alloc_spec h size g p h' g' : heap_wf h → 0 <= size → _pbcH_alloc h size g = Done (p, h', g') →
  block_in h' (p, size)
  ∧ (∀ b, block_in h b → block_in h' b ∧ disjoint_blocks (p, size) b)
  ∧ g' - g = Z.of_nat (length (pages h')) - Z.of_nat (length (pages h)).
Proof.
  intros (Hs & Hm & c & rest & Hc & Hu & Hcs) Hsz. destruct h as [ps hs u].
  cbn [pages used heap_size] in *. subst ps. unfold _pbcH_alloc. rewrite align4. cbn [pages used heap_size].
  case_if; [done|]. case_if; intros [= <- <- <-].
  - split_and!.
    + exists (if 4 * ((size + 3) / 4) <? hs then hs else 4 * ((size + 3) / 4)).
      unfold block_in; cbn [fst snd hpage hoff].
      split_and!; [apply page_cap_current | lia | lia | case_if; zmod | done | intros; cbn [used]; zmod].
    + intros b (cb & Hcb & Hb). pose proof (page_cap_lt _ _ _ Hcb) as Hlt. cbn [pages length] in Hlt. split.
      * exists cb. split; [by apply page_cap_push|]. cbn [pages length used].
        destruct Hb as (? & ? & ? & ? & _). split_and!; try done. intros Hp. cbn [pages length] in *. lia.
      * left; cbn [fst hpage pages length]. lia.
    + unfold _pbcM_malloc; cbn [pages length]. lia.
  - split_and!.
    + exists c. cbn [fst snd hpage hoff pages length used]. rewrite Nat.sub_0_r.
      split_and!; [apply page_cap_current | lia | lia | zmod | done | intros; zmod].
    + intros b (cb & Hcb & Hb0 & Hb1 & Hb2 & Hb3 & Hb4). cbn [pages length used] in Hb4. split.
      * exists cb. split_and!; try done. cbn [pages length used]. intros Hp. specialize (Hb4 Hp). zmod.
      * unfold disjoint_blocks; cbn [fst snd hpage hoff pages length].
        destruct (decide (hpage b.1 = (S (length rest) - 1)%nat)) as [Hp|Hp]; [|left; lia].
        right; right. by apply Hb4.
    + cbn [pages length]. lia.
Qed.

Lemma disjoint_blocks_sym b b' : disjoint_blocks b b' → disjoint_blocks b' b.
Proof. intros [?|[?|?]]; [left; congruence | right; by right | right; by left]. Qed.

Lemma alloc_all_spec sizes h g bs h' g' :
  heap_wf h → Forall (Z.le 0) sizes → alloc_all h sizes g = Done (bs, h', g') →
  heap_wf h'
  ∧ (∀ b, block_in h b → block_in h' b ∧ Forall (disjoint_blocks b) bs)
  ∧ Forall (block_in h') bs
  ∧ ForallOrdPairs disjoint_blocks bs
  ∧ map snd bs = sizes
  ∧ g' - g = Z.of_nat (length (pages h')) - Z.of_nat (length (pages h)).
Proof.
  revert h g bs h' g'; induction sizes as [|sz sizes IH]; intros h g bs h' g' Hwf Hsz E; cbn [alloc_all] in E.
  - simplify_eq. split_and!; [done | by split; [|constructor] | constructor | constructor | done | lia].
  - apply Forall_cons_1 in Hsz as [Hsz Hrest]. destruct (_pbcH_alloc h sz g) as [[[p h1] g1]|] eqn:E1; [|done].
    pose proof (alloc_wf _ _ _ _ _ _ Hwf Hsz E1) as Hw. pose proof (alloc_spec _ _ _ _ _ _ Hwf Hsz E1) as (Hnew & Hold & Hg). cbn [obind] in E.
    destruct (alloc_all h1 sizes g1) as [[[ps h2] g2]|] eqn:E2; [|done]. cbn [obind] in E. injection E as <- <- <-.
    destruct (IH _ _ _ _ _ Hw Hrest E2) as (Hwf2 & Hkeep & Hin & Hord & Hm & Hg2).
    split_and!; [done | | | | cbn; by f_equal | lia].
    + intros b Hb. destruct (Hold b Hb) as [Hb1 Hd]. destruct (Hkeep b Hb1) as [Hb2 Hds].
      split; [done|]. constructor; [by apply disjoint_blocks_sym | done].
    + constructor; [by apply Hkeep | done].
    + constructor; [by apply Hkeep | done].
Qed.

(** Only a size that cannot be rounded up is a fault. *)
Lemma alloc_all_fault sizes h g e : alloc_all h sizes g = Fault e → e = SignedOverflow ∧ Exists (λ sz, 2 ^ 31 - 3 <= sz) sizes.
Proof.
  revert h g; induction sizes as [|sz sizes IH]; intros h g; cbn [alloc_all]; [done|].
  destruct (_pbcH_alloc h sz g) as [[[p h1] g1]|e1] eqn:E1; cbn [obind].
  - destruct (alloc_all h1 sizes g1) as [[[ps h2] g2]|e2] eqn:E2; cbn [obind]; [done|]. intros [= <-].
    destruct (IH _ _ E2). split; [done|]. by right.
  - intros [= <-]. unfold _pbcH_alloc in E1. destruct (Z.leb_spec (2 ^ 31) (sz + 3)); [|by destruct (_ <? _)].
    injection E1 as <-. split; [done|]. left. lia.
Qed.

Lemma delete_count h g : _pbcH_delete h g = g - Z.of_nat (length (pages h)) - 1.
Proof.
  unfold _pbcH_delete; cbn [_pbcM_free]. induction (pages h) as [|c ps IH]; cbn [foldr length _pbcM_free]; lia.
Qed.

(** ** Properties *)


