(* ===== verification/StringPool.v ===== *)
(** * pbc string pools ([3rd/pbc/src/stringpool.c])

    The names of a registered proto file are copied into a pool and kept by
    address for the life of the environment.  Every [malloc] of the pool is a
    page; a page is numbered by the order of its allocation.  [pool_head] is
    the struct the clients hold (its [buffer] and [len] change), [pool_next]
    the list of structs behind it. *)

From S2P Require Import Prelude.

(** ** The code *)

Definition PAGE_SIZE : Z := 256.

Record pool_node := PoolNode { buffer : nat; len : Z }.

(** [mem]: the contents of every page allocated so far. *)
Record stringpool := StringPool {
  mem : list (list Z);
  pool_head : pool_node;
  pool_next : list pool_node }.

(** A [const char *] into the pool. *)
Record sptr := Sptr { spage : nat; soff : Z }.

(** Memory fresh from [malloc]: its contents are arbitrary. *)
Definition fresh_page (junk : nat → Z) (n : Z) : list Z := map junk (seq 0 (Z.to_nat n)).

Definition _pbcS_new (junk : nat → Z) : stringpool :=
  StringPool [fresh_page junk PAGE_SIZE] (PoolNode 0 0) [].

(** [memcpy(page + off, str, s)]. *)
Definition copy_in (m : list (list Z)) (page : nat) (off : Z) (str : list Z) (s : Z)
    : outcome (list (list Z)) :=
  if s <=? zlen str then
    match m !! page with
    | Some contents =>
        do! contents <- write_at contents off (take (Z.to_nat s) str);
        Done (<[page := contents]> m)
    | None => Fault OutOfBounds
    end
  else Fault OutOfBounds.

(** [s] is a [size_t]: [sz + 1] converted. *)
Definition _pbcS_build (junk : nat → Z) (pool : stringpool) (str : list Z) (sz : Z)
    : outcome (sptr * stringpool) :=
  let s := u64 (sz + 1) in
  let head := pool_head pool in
  if s <? u64 (PAGE_SIZE - len head) then
    do! m <- copy_in (mem pool) (buffer head) (len head) str s;
    Done (Sptr (buffer head) (len head),
          StringPool m (PoolNode (buffer head) (len head + s)) (pool_next pool))
  else if PAGE_SIZE <? s then
    let next := length (mem pool) in
    do! m <- copy_in (mem pool ++ [fresh_page junk s]) next 0 str s;
    Done (Sptr next 0, StringPool m head (PoolNode next s :: pool_next pool))
  else
    let next := length (mem pool) in
    do! m <- copy_in (mem pool ++ [fresh_page junk PAGE_SIZE]) next 0 str s;
    Done (Sptr next 0, StringPool m (PoolNode next s) (head :: pool_next pool)).

(** [_pbcS_delete] frees every struct of the chain (each page is part of one
    struct's allocation): how many calls of [free] that makes. *)
Definition _pbcS_delete (pool : stringpool) : nat := S (length (pool_next pool)).

(** The [n] bytes at an address. *)
Definition string_at (pool : stringpool) (p : sptr) (n : Z) : option (list Z) :=
  match mem pool !! spage p with
  | Some c => if soff p + n <=? zlen c then Some (take (Z.to_nat n) (drop (Z.to_nat (soff p)) c)) else None
  | None => None
  end.

(** ** Invariant *)

(** The head's page holds [PAGE_SIZE] bytes of which [len] are in use; there is
    one struct per page. *)
Definition pool_wf (pool : stringpool) : Prop :=
  ∃ c, mem pool !! buffer (pool_head pool) = Some c ∧ zlen c = PAGE_SIZE
    ∧ 0 <= len (pool_head pool) <= PAGE_SIZE
    ∧ length (mem pool) = S (length (pool_next pool)).

(** The string [(p, n)] was handed out and lies in memory that will not be
    written again. *)
Definition in_use (pool : stringpool) (p : sptr) (n : Z) : Prop :=
  0 <= soff p ∧ 0 <= n
  ∧ (∃ c, mem pool !! spage p = Some c ∧ soff p + n <= zlen c)
  ∧ (spage p = buffer (pool_head pool) → soff p + n <= len (pool_head pool)).

(** ** Lemmas *)

Lemma length_fresh_page junk n : 0 <= n → zlen (fresh_page junk n) = n.
Proof. intros. unfold fresh_page, zlen. rewrite length_map, length_seq. lia. Qed.

Lemma write_at_spec {A} (l : list A) i bs : 0 <= i → i + zlen bs <= zlen l →
  write_at l i bs = Done (take (Z.to_nat i) l ++ bs ++ drop (Z.to_nat i + length bs) l).
Proof.
  intros Hi Hl. unfold write_at. rewrite (proj2 (Z.leb_le _ _) Hi), (proj2 (Z.leb_le _ _) Hl). done.
Qed.

Lemma write_at_length {A} (l : list A) i bs l' : write_at l i bs = Done l' → length l' = length l.
Proof.
  unfold write_at. case_if; [|done]. intros [= <-]. bprop. unfold zlen in *.
  rewrite !length_app, length_take, length_drop. lia.
Qed.

(** Bytes below the written range are kept, the written range holds the bytes. *)
Lemma write_at_below {A} (l : list A) i bs l' j n :
  write_at l i bs = Done l' → 0 <= j → 0 <= n → j + n <= i →
  take (Z.to_nat n) (drop (Z.to_nat j) l') = take (Z.to_nat n) (drop (Z.to_nat j) l).
Proof.
  unfold write_at. case_if; [|done]. intros [= <-] Hj Hn0 Hn. bprop. unfold zlen in *.
  rewrite drop_app_le by (rewrite length_take; lia).
  rewrite take_app_le by (rewrite length_drop, length_take; lia).
  rewrite skipn_firstn_comm, take_take. f_equal. lia.
Qed.

Lemma write_at_written {A} (l : list A) i bs l' n :
  write_at l i bs = Done l' → n = zlen bs → take (Z.to_nat n) (drop (Z.to_nat i) l') = bs.
Proof.
  unfold write_at. case_if; [|done]. intros [= <-] ->. bprop. unfold zlen in *.
  rewrite drop_app_ge by (rewrite length_take; lia). rewrite length_take.
  replace (Z.to_nat i - Z.to_nat i `min` length l)%nat with 0%nat by lia. rewrite drop_0, Nat2Z.id.
  by rewrite take_app_length.
Qed.

Lemma copy_in_spec m page off str s c :
  m !! page = Some c → 0 <= off → 0 <= s → off + s <= zlen c → s <= zlen str →
  ∃ c', copy_in m page off str s = Done (<[page := c']> m)
    ∧ length c' = length c
    ∧ take (Z.to_nat s) (drop (Z.to_nat off) c') = take (Z.to_nat s) str
    ∧ (∀ j n, 0 <= j → 0 <= n → j + n <= off →
        take (Z.to_nat n) (drop (Z.to_nat j) c') = take (Z.to_nat n) (drop (Z.to_nat j) c)).
Proof.
  intros Hm Hoff Hs Hfit Hstr. unfold copy_in. rewrite (proj2 (Z.leb_le _ _) Hstr), Hm.
  assert (zlen (take (Z.to_nat s) str) = s) as Hz by (unfold zlen in *; rewrite length_take; lia).
  destruct (write_at c off (take (Z.to_nat s) str)) as [c'|f] eqn:E.
  - exists c'. cbn [obind]. split_and!; [done | by eapply write_at_length | | ].
    + by eapply write_at_written.
    + intros. by eapply write_at_below.
  - rewrite write_at_spec in E by lia. done.
Qed.

Lemma in_use_string_at pool p n : in_use pool p n → ∃ s, string_at pool p n = Some s.
Proof.
  intros (Hp & Hn & (c & Hc & Hfit) & _). unfold string_at. rewrite Hc.
  rewrite (proj2 (Z.leb_le _ _) Hfit). eauto.
Qed.

(** A string in use survives an update of the head's page above it. *)
Lemma string_at_insert m hd nx hd' nx' page c c' p n :
  m !! page = Some c → length c' = length c →
  (spage p = page → take (Z.to_nat n) (drop (Z.to_nat (soff p)) c')
                    = take (Z.to_nat n) (drop (Z.to_nat (soff p)) c)) →
  string_at (StringPool (<[page := c']> m) hd nx) p n = string_at (StringPool m hd' nx') p n.
Proof.
  intros Hm Hl Hsame. unfold string_at; cbn [mem].
  destruct (decide (spage p = page)) as [Hp|Hp].
  - rewrite Hp, list_lookup_insert_eq by (by eapply lookup_lt_Some). rewrite Hm.
    unfold zlen. rewrite Hl. case_if; [by rewrite Hsame | done].
  - by rewrite list_lookup_insert_ne by congruence.
Qed.

Lemma string_at_grow m pg hd nx hd' nx' p n c :
  m !! spage p = Some c →
  string_at (StringPool (m ++ [pg]) hd nx) p n = string_at (StringPool m hd' nx') p n.
Proof. intros H. unfold string_at; cbn [mem]. by rewrite (lookup_app_l_Some _ _ _ _ H), H. Qed.

Lemma new_pool_wf junk : pool_wf (_pbcS_new junk).
Proof. eexists. split_and!; [reflexivity | by apply length_fresh_page | done | done | done]. Qed.

(** What one call does: it succeeds, stores the string, keeps every string in
    use where it is, and keeps the pool well formed. *)
Definition build_ok (junk : nat → Z) (pool : stringpool) (str : list Z) (sz : Z) : Prop :=
  ∃ p pool', _pbcS_build junk pool str sz = Done (p, pool')
    ∧ pool_wf pool'
    ∧ in_use pool' p (sz + 1)
    ∧ string_at pool' p (sz + 1) = Some (take (Z.to_nat (sz + 1)) str)
    ∧ (∀ q n, in_use pool q n → in_use pool' q n ∧ string_at pool' q n = string_at pool q n).

Lemma build_size sz l : 0 <= l <= PAGE_SIZE → 0 <= sz < 2 ^ 31 →
  u64 (sz + 1) = sz + 1 ∧ u64 (PAGE_SIZE - l) = PAGE_SIZE - l.
Proof. unfold PAGE_SIZE in *. intros. split; width. Qed.

Section Build.
Context (junk : nat → Z) (pool : stringpool) (str : list Z) (sz : Z) (c : list Z).
Hypothesis Hc : mem pool !! buffer (pool_head pool) = Some c.
Hypothesis Hcap : zlen c = PAGE_SIZE.
Hypothesis Hlen : 0 <= len (pool_head pool) <= PAGE_SIZE.
Hypothesis Hnum : length (mem pool) = S (length (pool_next pool)).
Hypothesis Hsz : 0 <= sz < 2 ^ 31.
Hypothesis Hstr : sz + 1 <= zlen str.

(** The string fits in the head's page. *)
Lemma build_fits : sz + 1 < PAGE_SIZE - len (pool_head pool) → build_ok junk pool str sz.
Proof.
  intros Hfit. destruct (build_size sz _ Hlen Hsz) as [E1 E2]. destruct pool as [m [b l] nx]. cbn [mem pool_head pool_next buffer len] in *.
  destruct (copy_in_spec m b l str (sz + 1) c) as (c' & Hcp & Hl' & Hw & Hkeep); [done | lia | lia | lia | done |].
  exists (Sptr b l). eexists. unfold _pbcS_build. cbn [pool_head len buffer mem]. rewrite E1, E2.
  rewrite (proj2 (Z.ltb_lt _ _) Hfit), Hcp. cbn [obind]. split; [done|].
  assert (<[b := c']> m !! b = Some c') as Hb by (apply list_lookup_insert_eq; by eapply lookup_lt_Some).
  unfold pool_wf, in_use. cbn [mem pool_head pool_next buffer len spage soff]. split_and!.
  - exists c'. rewrite length_insert. unfold zlen. rewrite Hl'. split_and!; try done; lia.
  - lia.
  - lia.
  - exists c'. split; [done|]. unfold zlen. rewrite Hl'. unfold zlen in Hcap. lia.
  - intros _. lia.
  - unfold string_at. cbn [mem spage soff]. rewrite Hb. unfold zlen. rewrite Hl'. fold (zlen c). rewrite Hcap.
    rewrite (proj2 (Z.leb_le _ _)) by lia. by rewrite Hw.
  - intros q n (Hq0 & Hn & (cq & Hcq & Hqfit) & Hq1). split.
    + split_and!; [done | done | | intros Hq; specialize (Hq1 Hq); lia].
      destruct (decide (spage q = b)) as [Hq|Hq].
      * exists c'. rewrite Hq in *. split; [done|]. unfold zlen in *. rewrite Hl'. simplify_eq. lia.
      * exists cq. by rewrite list_lookup_insert_ne by congruence.
    + apply (string_at_insert _ _ _ _ _ _ c); [done | done |]. intros Hq. apply Hkeep; [done | done | auto].
Qed.

(** A new page, of [cap] bytes, holds the string; [hd] is the head afterwards. *)
Lemma build_new_page cap hd nx :
  PAGE_SIZE - len (pool_head pool) <= sz + 1 → sz + 1 <= cap → PAGE_SIZE <= cap →
  let next := length (mem pool) in
  (hd = pool_head pool ∧ nx = PoolNode next (sz + 1) :: pool_next pool
   ∨ hd = PoolNode next (sz + 1) ∧ nx = pool_head pool :: pool_next pool ∧ cap = PAGE_SIZE) →
  _pbcS_build junk pool str sz =
    (do! m <- copy_in (mem pool ++ [fresh_page junk cap]) next 0 str (sz + 1);
     Done (Sptr next 0, StringPool m hd nx)) →
  build_ok junk pool str sz.
Proof.
  intros Hno Hfit Hbig next Hhd Hdef. unfold build_ok. rewrite Hdef.
  assert (zlen (fresh_page junk cap) = cap) as Hz by (apply length_fresh_page; unfold PAGE_SIZE in *; lia).
  assert ((mem pool ++ [fresh_page junk cap]) !! next = Some (fresh_page junk cap)) as Hnext.
  { unfold next. by rewrite lookup_app_r, Nat.sub_diag by lia. }
  destruct (copy_in_spec _ next 0 str (sz + 1) _ Hnext) as (c' & Hcp & Hl' & Hw & _); [lia | lia | lia | done |].
  rewrite Hcp. cbn [obind]. exists (Sptr next 0). eexists. split; [done|].
  assert (zlen c' = cap) as Hz' by (unfold zlen in *; by rewrite Hl').
  assert (∀ i ci, mem pool !! i = Some ci → <[next := c']> (mem pool ++ [fresh_page junk cap]) !! i = Some ci) as Hold.
  { intros i ci Hi. rewrite list_lookup_insert_ne by (apply lookup_lt_Some in Hi; unfold next; lia).
    by apply lookup_app_l_Some. }
  assert (<[next := c']> (mem pool ++ [fresh_page junk cap]) !! next = Some c') as Hnew.
  { apply list_lookup_insert_eq. rewrite length_app. unfold next. cbn [length]. lia. }
  assert (buffer (pool_head pool) < next)%nat as Hlt by (by eapply lookup_lt_Some).
  unfold pool_wf, in_use. cbn [mem pool_head pool_next spage soff]. split_and!; try lia.
  - destruct Hhd as [[-> ->] | (-> & -> & ->)].
    + exists c. rewrite length_insert, length_app. cbn [length]. split_and!; [by apply Hold | done | lia | lia | lia].
    + exists c'. rewrite length_insert, length_app. cbn [length buffer len]. split_and!; [done | lia | lia | lia | lia].
  - exists c'. split; [done | lia].
  - intros Hn. destruct Hhd as [[-> _] | (-> & _)]; cbn [buffer len] in *; lia.
  - unfold string_at. cbn [mem spage soff]. rewrite Hnew, (proj2 (Z.leb_le _ _)) by lia. by rewrite Hw.
  - intros q n (Hq0 & Hn & (cq & Hcq & Hqfit) & Hq1). split.
    + split_and!; [done | done | exists cq; split; [by apply Hold | done] |].
      destruct Hhd as [[-> _] | (-> & _)]; [done|]. cbn [buffer len]. apply lookup_lt_Some in Hcq. unfold next. lia.
    + unfold string_at. cbn [mem]. by rewrite (Hold _ _ Hcq), Hcq.
Qed.
End Build.

Lemma build_spec junk pool str sz :
  pool_wf pool → 0 <= sz < 2 ^ 31 → sz + 1 <= zlen str → build_ok junk pool str sz.
Proof.
  intros (c & Hc & Hcap & Hlen & Hnum) Hsz Hstr.
  destruct (Z.lt_ge_cases (sz + 1) (PAGE_SIZE - len (pool_head pool))) as [Hfit|Hfit].
  - by eapply build_fits.
  - destruct (build_size sz _ Hlen Hsz) as [E1 E2].
    destruct (Z.lt_ge_cases PAGE_SIZE (sz + 1)) as [Hbig|Hbig].
    + eapply (build_new_page junk pool str sz c) with (cap := sz + 1); try done; try lia; [by left|].
      unfold _pbcS_build. rewrite E1, E2, (proj2 (Z.ltb_ge _ _) Hfit), (proj2 (Z.ltb_lt _ _) Hbig). done.
    + eapply (build_new_page junk pool str sz c) with (cap := PAGE_SIZE); try done; try lia; [by right|].
      unfold _pbcS_build. rewrite E1, E2, (proj2 (Z.ltb_ge _ _) Hfit), (proj2 (Z.ltb_ge _ _) Hbig). done.
Qed.

(** Building a sequence of names: the addresses, in order. *)
Fixpoint build_all (junk : nat → Z) (pool : stringpool) (names : list (list Z)) : outcome (list sptr * stringpool) :=
  match names with
  | [] => Done ([], pool)
  | s :: rest =>
      do! (p, pool) <- _pbcS_build junk pool s (zlen s - 1);
      do! (ps, pool) <- build_all junk pool rest;
      Done (p :: ps, pool)
  end.

Lemma build_all_spec junk names pool :
  pool_wf pool → Forall (λ s, 1 <= zlen s <= 2 ^ 31) names →
  ∃ ps pool', build_all junk pool names = Done (ps, pool')
    ∧ pool_wf pool'
    ∧ Forall2 (λ s p, string_at pool' p (zlen s) = Some s) names ps
    ∧ (∀ q n, in_use pool q n → in_use pool' q n ∧ string_at pool' q n = string_at pool q n).
Proof.
  intros Hwf Hn. revert pool Hwf. induction Hn as [|s names Hs Hn IH]; intros pool Hwf; cbn [build_all].
  - eexists _, _. split_and!; [done | done | constructor | by split].
  - destruct (build_spec junk pool s (zlen s - 1)) as (p & pool1 & Hb & Hwf1 & Huse & Hat & Hkeep); [done | lia | lia |].
    rewrite Hb. cbn [obind]. destruct (IH pool1 Hwf1) as (ps & pool2 & Hbs & Hwf2 & Hf & Hkeep2).
    rewrite Hbs. cbn [obind]. eexists _, _. split_and!; [done | done | |].
    + constructor; [|done]. replace (zlen s) with (zlen s - 1 + 1) at 1 by lia.
      rewrite (proj2 (Hkeep2 _ _ Huse)), Hat. f_equal. apply take_ge. unfold zlen in *. lia.
    + intros q n Hq. destruct (Hkeep _ _ Hq) as [Hq1 E1]. destruct (Hkeep2 _ _ Hq1) as [Hq2 E2].
      split; [done|]. by rewrite E2, E1.
Qed.

(** ** Properties *)

(** Names copied into a fresh pool stay readable at the address
    [_pbcS_build] returned for them, whatever is built afterwards: no copy runs
    out of its page, no later string overwrites an earlier one, and moving the
    head to a new page loses none of them. *)
Theorem stringpool_stable junk names :
  Forall (λ s, 1 <= zlen s <= 2 ^ 31) names →
  ∃ ps pool, build_all junk (_pbcS_new junk) names = Done (ps, pool)
    ∧ Forall2 (λ s p, string_at pool p (zlen s) = Some s) names ps
    ∧ _pbcS_delete pool = length (mem pool).
Proof.
  intros Hn. destruct (build_all_spec junk names _ (new_pool_wf junk) Hn) as (ps & pool & Hb & (c & _ & _ & _ & Hl) & Hf & _).
  exists ps, pool. split_and!; done.
Qed.

Lemma stringpool_stable_witness :
  ∃ ps pool, build_all (λ _, 170) (_pbcS_new (λ _, 170)) [replicate 200 1; replicate 300 2; replicate 100 3; [4; 0]] = Done (ps, pool)
    ∧ Forall2 (λ s p, string_at pool p (zlen s) = Some s) [replicate 200 1; replicate 300 2; replicate 100 3; [4; 0]] ps
    ∧ _pbcS_delete pool = length (mem pool).
Proof.
  apply (stringpool_stable (λ _, 170) [replicate 200 1; replicate 300 2; replicate 100 3; [4; 0]]).
  repeat constructor; vm_compute; congruence.
Defined.
