(* ===== verification/PArray.v ===== *)
(** * pbc arrays ([3rd/pbc/src/array.c])

    A [pbc_array] keeps its first [INNER_FIELD] elements inside the struct and
    moves to memory obtained from the message's heap (or from [malloc]) when
    they are full.  A cell is [None] until it is written.  The element type is
    left open: [union _pbc_var] is copied as a whole. *)

From S2P Require Import Prelude.

(** ** The code *)

Section Array.
Context {A : Type}.

(** [(PBC_ARRAY_CAP - sizeof(struct array)) / sizeof(pbc_var)] on a 64-bit host:
    (64 - 24) / 16. *)
Definition INNER_FIELD : Z := 2.

(** What [a->a] points to: the cells inside the struct, a block of its own, or
    nothing. *)
Inductive cells_ptr :=
  | Inner
  | Outer (o : list (option A))
  | NullCells.

(** [a_heap]: whether memory comes from a [struct heap]. *)
Record array := Arr {
  number : Z;
  a_heap : bool;
  a_inner : list (option A);
  a_ptr : cells_ptr }.

(** The cells [a->a] points to. *)
Definition cells (a : array) : list (option A) :=
  match a_ptr a with
  | Inner => a_inner a
  | Outer o => o
  | NullCells => []
  end.

Definition set_cells (a : array) (c : list (option A)) : array :=
  match a_ptr a with
  | Inner => Arr (number a) (a_heap a) c Inner
  | _ => Arr (number a) (a_heap a) (a_inner a) (Outer c)
  end.

Definition uninit (n : Z) : list (option A) := replicate (Z.to_nat n) None.

Definition _pbcA_open : array := Arr 0 false (uninit INNER_FIELD) Inner.

Definition _pbcA_open_heap : array := Arr 0 true (uninit INNER_FIELD) Inner.

(** A block of its own is freed when it did not come from a heap; the second
    component tells whether [_pbcM_free] was called. *)
Definition _pbcA_close (a : array) : array * bool :=
  match a_heap a, a_ptr a with
  | false, Outer _ => (Arr (number a) false (a_inner a) NullCells, true)
  | _, _ => (a, false)
  end.

(** [while (cap <= a->number + 1) cap *= 2]. *)
Fixpoint grow_cap (fuel : nat) (cap n : Z) : outcome Z :=
  if cap <=? n + 1 then
    match fuel with
    | O => Fault OutOfFuel
    | S fuel' => grow_cap fuel' (cap * 2) n
    end
  else Done cap.

(** A block of [cap] cells whose first [n] cells are copied from [src]. *)
Definition move_cells (src : list (option A)) (n cap : Z) : outcome (list (option A)) :=
  if (n <=? zlen src) && (n <=? cap)
  then Done (take (Z.to_nat n) src ++ uninit (cap - n))
  else Fault OutOfBounds.

Definition _pbcA_push (a : array) (var : A) : outcome array :=
  do! a <-
    (if number a =? 0 then Done (Arr (number a) (a_heap a) (a_inner a) Inner)
     else if INNER_FIELD <=? number a then
       if number a =? INNER_FIELD then
         do! cap <- grow_cap 31 1 (number a);
         do! outer <- move_cells (cells a) INNER_FIELD cap;
         Done (Arr (number a) (a_heap a) (a_inner a) (Outer outer))
       else
         let size := number a in
         if size <? Z.lxor (size + 1) size then
           do! outer <- move_cells (cells a) size ((size + 1) * 2);
           Done (Arr (number a) (a_heap a) (a_inner a) (Outer outer))
         else Done a
     else Done a);
  do! c <- write_at (cells a) (number a) [Some var];
  let a := set_cells a c in
  Done (Arr (number a + 1) (a_heap a) (a_inner a) (a_ptr a)).

(** [a->a[idx]]; a cell that was never written holds no value. *)
Definition _pbcA_index (a : array) (idx : Z) : outcome A :=
  do! c <- read_at (cells a) idx;
  match c with
  | Some v => Done v
  | None => Fault OutOfBounds
  end.

(** The address of a cell, as its index; taking it is defined up to one past
    the end of the block. *)
Definition _pbcA_index_p (a : array) (idx : Z) : outcome Z :=
  if (0 <=? idx) && (idx <=? zlen (cells a)) then Done idx else Fault OutOfBounds.

Definition pbc_array_size (a : array) : Z := number a.

(** [None] is the null pointer. *)
Definition pbc_array_slice (a : array) (index : Z) : outcome (option Z) :=
  if (index <? 0) || (number a <? index) then Done None
  else do! p <- _pbcA_index_p a index; Done (Some p).

(** The elements, when every cell below [number] is written. *)
Definition contents (a : array) : list (option A) := take (Z.to_nat (number a)) (cells a).

(** ** Invariant *)

(** Enough room, and past the inner cells a block whose size is the least power
    of two above the number of elements. *)
Definition arr_wf (a : array) : Prop :=
  0 <= number a
  ∧ zlen (a_inner a) = INNER_FIELD
  ∧ (0 < number a <= INNER_FIELD → a_ptr a = Inner)
  ∧ (INNER_FIELD < number a → ∃ o, a_ptr a = Outer o ∧ zlen o = 2 ^ (Z.log2 (number a) + 1)).

(** The array holds exactly the elements [l]. *)
Definition holds (a : array) (l : list A) : Prop :=
  arr_wf a ∧ contents a = map Some l ∧ number a = zlen l.

(** ** Lemmas *)

Lemma grow_cap_INNER : grow_cap 31 1 INNER_FIELD = Done 4.
Proof. reflexivity. Qed.

Lemma open_holds : holds _pbcA_open [] ∧ holds _pbcA_open_heap [].
Proof.
  unfold holds, arr_wf, INNER_FIELD; cbn [number a_inner a_ptr _pbcA_open _pbcA_open_heap].
  split_and!; first [done | lia].
Qed.

Lemma lxor_lt_pow2 a b n : 0 <= n → 0 <= a → 0 <= b →
  Z.shiftr a n = Z.shiftr b n → Z.lxor a b < 2 ^ n.
Proof.
  intros Hn Ha Hb E. assert (Z.shiftr (Z.lxor a b) n = 0) as Hz by (by rewrite Z.shiftr_lxor, E, Z.lxor_nilpotent).
  assert (0 <= Z.lxor a b) by (apply Z.lxor_nonneg; lia).
  rewrite Z.shiftr_div_pow2 in Hz by done. apply Z.div_small_iff in Hz; [|lia]. lia.
Qed.

(** [((size + 1) ^ size) > size] holds exactly when [size + 1] is a power of two. *)
Lemma lxor_succ_pow2 k : 0 <= k → 2 ^ k - 1 < Z.lxor (2 ^ k) (2 ^ k - 1).
Proof.
  intros Hk. assert (0 < 2 ^ k) by (apply Z.pow_pos_nonneg; lia).
  rewrite Z.lxor_comm. rewrite <- Z.add_nocarry_lxor; [lia|].
  pose proof (land_shiftl_disjoint (2 ^ k - 1) 1 k Hk) as Hd. rewrite Z.mul_1_l in Hd. apply Hd. lia.
Qed.

Lemma log2_succ_not_pow2 n : 0 < n → n + 1 ≠ 2 ^ (Z.log2 n + 1) → Z.log2 (n + 1) = Z.log2 n.
Proof.
  intros Hn Hne. pose proof (Z.log2_spec n Hn) as [H1 H2]. unfold Z.succ in H2.
  apply Z.log2_unique; [apply Z.log2_nonneg|]. unfold Z.succ. lia.
Qed.

Lemma lxor_succ_not_pow2 n : 0 < n → n + 1 ≠ 2 ^ (Z.log2 n + 1) → Z.lxor (n + 1) n <= n.
Proof.
  intros Hn Hne. pose proof (Z.log2_nonneg n). pose proof (Z.log2_spec n Hn) as [H1 H2]. unfold Z.succ in H2.
  enough (Z.lxor (n + 1) n < 2 ^ Z.log2 n) by lia. apply lxor_lt_pow2; try lia.
  rewrite !Z.shiftr_div_pow2 by done.
  assert (∀ m, 2 ^ Z.log2 n <= m < 2 ^ (Z.log2 n + 1) → m / 2 ^ Z.log2 n = 1) as Hone.
  { intros m Hm. rewrite Z.pow_add_r in Hm by lia. symmetry. apply (Z.div_unique_pos _ _ 1 (m - 2 ^ Z.log2 n)); lia. }
  rewrite !Hone by lia. done.
Qed.

Lemma holds_length a l : holds a l → (length l <= length (cells a))%nat.
Proof.
  intros (_ & Hc & _). apply (f_equal length) in Hc. unfold contents in Hc.
  rewrite length_take, length_map in Hc. lia.
Qed.

(** Writing the next element into a block with room for it. *)
Lemma write_next (c : list (option A)) l v n :
  take (length l) c = map Some l → n = zlen l → zlen l < zlen c →
  ∃ c', write_at c n [Some v] = Done c' ∧ length c' = length c
    ∧ take (length (l ++ [v])) c' = map Some (l ++ [v]).
Proof.
  intros Hc -> Hlt. unfold write_at, zlen in *. cbn [length].
  rewrite (proj2 (Z.leb_le _ _)), (proj2 (Z.leb_le _ _)) by lia. cbn [andb].
  eexists. split; [done|]. rewrite Nat2Z.id. split.
  - rewrite !length_app, length_take, length_drop. cbn [length]. lia.
  - rewrite Hc, app_assoc, take_app_le by (rewrite !length_app, length_map; cbn [length]; lia).
    rewrite map_app. apply take_ge. rewrite !length_app, !length_map. cbn [length]. lia.
Qed.

Lemma move_cells_spec (c : list (option A)) l n cap :
  take (length l) c = map Some l → n = zlen l → zlen l <= cap →
  ∃ c', move_cells c n cap = Done c' ∧ zlen c' = cap ∧ take (length l) c' = map Some l.
Proof.
  intros Hc -> Hcap. pose proof (f_equal length Hc) as Hl. rewrite length_take, length_map in Hl.
  unfold move_cells, zlen in *. rewrite (proj2 (Z.leb_le _ _)), (proj2 (Z.leb_le _ _)) by lia. cbn [andb].
  eexists. split; [done|]. rewrite Nat2Z.id, Hc. unfold uninit. split.
  - rewrite length_app, length_map, length_replicate. lia.
  - rewrite take_app_le by (rewrite length_map; lia). apply take_ge. rewrite length_map. lia.
Qed.

(** Storing into an array whose block has room: what the last two statements of
    [_pbcA_push] do. *)
Lemma store_holds a l v :
  0 <= number a → zlen (a_inner a) = INNER_FIELD → number a = zlen l →
  take (length l) (cells a) = map Some l → zlen l < zlen (cells a) →
  (number a < INNER_FIELD → a_ptr a = Inner) →
  (INNER_FIELD <= number a → ∃ o, a_ptr a = Outer o ∧ zlen o = 2 ^ (Z.log2 (number a + 1) + 1)) →
  ∃ a', (do! c <- write_at (cells a) (number a) [Some v];
         let a := set_cells a c in
         Done (Arr (number a + 1) (a_heap a) (a_inner a) (a_ptr a))) = Done a' ∧ holds a' (l ++ [v]).
Proof.
  intros H0 Hin Hn Hc Hlt Hi Ho. destruct (write_next _ _ v _ Hc Hn Hlt) as (c' & -> & Hl & Ht).
  cbn [obind]. eexists. split; [done|]. unfold holds, arr_wf, contents, cells, set_cells in *.
  destruct a as [n h inn ptr]. cbn [number a_heap a_inner a_ptr] in *.
  assert (Z.to_nat (n + 1) = length (l ++ [v])) as Hnn by (subst n; unfold zlen; rewrite length_app; cbn [length]; lia).
  assert (n + 1 = zlen (l ++ [v])) as Hz by (subst n; by rewrite zlen_app).
  unfold INNER_FIELD in *. destruct ptr as [|o|]; cbn [number a_heap a_inner a_ptr].
  - rewrite Hnn. split_and!; [lia | unfold zlen in *; lia | done | | done | done].
    intros. destruct Ho as (? & ? & _); [lia | done].
  - destruct (Z.lt_ge_cases n 2) as [Hlt2|Hge]; [by specialize (Hi Hlt2)|].
    destruct (Ho Hge) as (o' & [= <-] & Ho'). rewrite Hnn.
    split_and!; [lia | done | lia | | done | done]. intros _. exists c'. split; [done|]. unfold zlen in *. lia.
  - cbn in Hlt. pose proof (zlen_nonneg l). rewrite zlen_nil in Hlt. lia.
Qed.

Lemma push_holds a l v : holds a l → ∃ a', _pbcA_push a v = Done a' ∧ holds a' (l ++ [v]).
Proof.
  intros ((H0 & Hin & Hi & Ho) & Hc & Hn). unfold contents in Hc.
  assert (take (length l) (cells a) = map Some l) as Hc' by (rewrite <- Hc, Hn; unfold zlen; by rewrite Nat2Z.id).
  unfold _pbcA_push, INNER_FIELD in *. destruct (Z.eqb_spec (number a) 0) as [E0|E0].
  { cbn [obind]. assert (l = []) as -> by (destruct l; [done | rewrite zlen_cons in Hn; pose proof (zlen_nonneg l); lia]).
    apply store_holds; unfold INNER_FIELD; cbn [cells number a_inner a_ptr]; try done; try lia. }
  destruct (2 <=? number a) eqn:E2; bprop.
  2: { cbn [obind]. assert (a_ptr a = Inner) as Hptr by (apply Hi; lia).
       apply store_holds; unfold INNER_FIELD; try done; try lia. unfold cells. rewrite Hptr. lia. }
  destruct (Z.eqb_spec (number a) 2) as [E3|E3].
  - assert (grow_cap 31 1 (number a) = Done 4) as -> by (rewrite E3; apply grow_cap_INNER). cbn [obind].
    destruct (move_cells_spec (cells a) l 2 4) as (c' & -> & Hcap & Ht); [done | lia | lia |]. cbn [obind].
    apply store_holds; unfold INNER_FIELD; cbn [cells number a_inner a_ptr]; try done; try lia.
    intros _. exists c'. rewrite E3. done.
  - destruct (Ho ltac:(lia)) as (o & Hptr & Hcap).
    pose proof (Z.log2_nonneg (number a)). pose proof (Z.log2_spec (number a) ltac:(lia)) as [Hl1 Hl2]. unfold Z.succ in Hl2.
    destruct (Z.eq_dec (number a + 1) (2 ^ (Z.log2 (number a) + 1))) as [Ep|Ep].
    + assert ((number a <? Z.lxor (number a + 1) (number a)) = true) as ->.
      { apply Z.ltb_lt. replace (number a) with (2 ^ (Z.log2 (number a) + 1) - 1) at 1 3 by lia. rewrite Ep. apply lxor_succ_pow2. lia. }
      destruct (move_cells_spec (cells a) l (number a) ((number a + 1) * 2)) as (c' & -> & Hcap' & Ht); [done | lia | lia |]. cbn [obind].
      apply store_holds; unfold INNER_FIELD; cbn [cells number a_inner a_ptr]; try done; try lia.
      intros _. exists c'. split; [done|]. rewrite Hcap', Ep, Z.log2_pow2 by lia. rewrite (Z.pow_add_r 2 (_ + 1)) by lia. lia.
    + assert ((number a <? Z.lxor (number a + 1) (number a)) = false) as ->.
      { apply Z.ltb_ge. apply lxor_succ_not_pow2; lia. }
      cbn [obind]. apply store_holds; unfold INNER_FIELD; try done; try lia.
      * unfold cells. rewrite Hptr. lia.
      * intros _. exists o. split; [done|]. by rewrite log2_succ_not_pow2 by lia.
Qed.

Lemma index_holds a l i : holds a l → 0 <= i →
  _pbcA_index a i = match l !! Z.to_nat i with Some v => Done v | None => _pbcA_index a i end.
Proof.
  intros (_ & Hc & Hn) Hi. destruct (l !! Z.to_nat i) as [v|] eqn:E; [|done].
  unfold _pbcA_index, read_at. rewrite (proj2 (Z.ltb_ge _ _) Hi).
  assert (cells a !! Z.to_nat i = Some (Some v)) as ->; [|done].
  unfold contents in Hc. pose proof (lookup_lt_Some _ _ _ E).
  assert (take (Z.to_nat (number a)) (cells a) !! Z.to_nat i = Some (Some v)) as Ht.
  { rewrite Hc. change (map Some l) with (Some <$> l). by rewrite list_lookup_fmap, E. }
  apply lookup_take_Some in Ht as [Ht _]. done.
Qed.

(** Writing over an element in place. *)
Lemma set_holds a l i v : holds a l → (i < length l)%nat →
  ∃ c, write_at (cells a) (Z.of_nat i) [Some v] = Done c ∧ holds (set_cells a c) (<[i := v]> l).
Proof.
  intros Hh Hi. pose proof (holds_length a l Hh) as Hl. destruct Hh as ((H0 & Hin & Hp & Ho) & Hc & Hn).
  rewrite write_at_insert by (unfold zlen; lia). eexists. split; [done|]. rewrite Nat2Z.id.
  assert (take (Z.to_nat (number a)) (<[i := Some v]> (cells a)) = map Some (<[i := v]> l)) as Ht.
  { rewrite take_insert_lt by (unfold zlen in Hn; lia). unfold contents in Hc. rewrite Hc. symmetry. apply (list_fmap_insert Some). }
  assert (length (<[i := Some v]> (cells a)) = length (cells a)) as Hlen by apply length_insert.
  unfold holds, arr_wf, contents, cells, set_cells, zlen in *. destruct a as [n h inn ptr]. rewrite (length_insert l). cbn [number a_heap a_inner a_ptr] in *.
  destruct ptr as [|o|]; cbn [number a_heap a_inner a_ptr length] in *; [..|lia].
  - by rewrite Hlen.
  - split_and!; try done; [intros H; by specialize (Hp H)|]. intros H. destruct (Ho H) as (o' & [= <-] & Ho'). eexists. split; [done|]. by rewrite Hlen.
Qed.

(** Pushing a sequence of values. *)
Fixpoint push_all (a : array) (l : list A) : outcome array :=
  match l with
  | [] => Done a
  | v :: rest => do! a <- _pbcA_push a v; push_all a rest
  end.

Lemma push_all_holds l a l0 : holds a l0 → ∃ a', push_all a l = Done a' ∧ holds a' (l0 ++ l).
Proof.
  revert a l0; induction l as [|v l IH]; intros a l0 Ha; cbn [push_all].
  - exists a. by rewrite app_nil_r.
  - destruct (push_holds a l0 v Ha) as (a1 & -> & H1). cbn [obind].
    destruct (IH a1 _ H1) as (a2 & H2 & Hh). exists a2. by rewrite <- app_assoc in Hh.
Qed.

End Array.
Arguments array : clear implicits.
Arguments cells_ptr : clear implicits.

(** ** The typed accessors

    [union _pbc_var] of [array.h]; a value keeps the member it was written
    with.  A pointer is the memory from the address on ([None] for NULL); a
    [const char *] of a descriptor is the string without its end.  Reading
    another member reinterprets the bytes; the bytes of a pointer and the
    padding of [e] have no value. *)

Inductive pbc_var :=
  | VInteger (low hi : Z)
  | VReal (bits : Z)
  | VStr (str : list Z) (len : Z)
  | VEnum (id : Z) (name : option (list Z))
  | VSlice (buffer : option (list Z)) (len : Z).

#[export] Instance pbc_var_eq_dec : EqDecision pbc_var.
Proof. solve_decision. Defined.

Definition int_low (v : pbc_var) : outcome Z :=
  match v with
  | VInteger l _ => Done l
  | VReal r => Done (u32 r)
  | VEnum id _ => Done (u32 id)
  | VSlice None _ => Done 0
  | _ => Fault BadRead
  end.

Definition int_hi (v : pbc_var) : outcome Z :=
  match v with
  | VInteger _ h => Done h
  | VReal r => Done (u32 (r / 2 ^ 32))
  | VSlice None _ => Done 0
  | _ => Fault BadRead
  end.

Definition real_bits (v : pbc_var) : outcome Z :=
  match v with
  | VReal r => Done r
  | _ => do! l <- int_low v; do! h <- int_hi v; Done (l + 2 ^ 32 * h)
  end.

(** The high word is read when the caller asks for it. *)
Definition pbc_array_integer (a : array pbc_var) (index : Z) (hi : bool) : outcome (Z * option Z) :=
  do! v <- _pbcA_index a index;
  do! h <- (if hi then do! h <- int_hi v; Done (Some h) else Done None);
  do! l <- int_low v;
  Done (l, h).

Definition pbc_array_real (a : array pbc_var) (index : Z) : outcome Z :=
  do! v <- _pbcA_index a index;
  real_bits v.

Definition pbc_array_push_integer (a : array pbc_var) (low hi : Z) : outcome (array pbc_var) :=
  _pbcA_push a (VInteger (u32 low) (u32 hi)).

Definition pbc_array_push_slice (a : array pbc_var) (buffer : option (list Z)) (len : Z) : outcome (array pbc_var) :=
  _pbcA_push a (VSlice buffer len).

Definition pbc_array_push_real (a : array pbc_var) (v : Z) : outcome (array pbc_var) :=
  _pbcA_push a (VReal v).

(** Pushing integers one by one. *)
Fixpoint push_integers (a : array pbc_var) (l : list (Z * Z)) : outcome (array pbc_var) :=
  match l with
  | [] => Done a
  | (low, hi) :: rest => do! a <- pbc_array_push_integer a low hi; push_integers a rest
  end.

Lemma push_integers_push_all l a :
  push_integers a l = push_all a (map (λ p, VInteger (u32 p.1) (u32 p.2)) l).
Proof.
  revert a; induction l as [|[lo hi] l IH]; intros a; [done|]. cbn [push_integers push_all map fst snd].
  unfold pbc_array_push_integer. destruct (_pbcA_push a _); cbn [obind]; auto.
Qed.

(** ** Properties *)

(** any sequence of pushes onto a fresh array (on a heap or not) succeeds,
    never writing outside the current block, however often the block is moved
    and doubled; the array then has the size of the sequence, and every index
    below it gives back the element pushed at that position. *)
Theorem array_push_index {A} (l : list A) (h : bool) :
  ∃ a, push_all (if h then _pbcA_open_heap else _pbcA_open) l = Done a
    ∧ pbc_array_size a = zlen l
    ∧ ∀ i v, l !! i = Some v → _pbcA_index a (Z.of_nat i) = Done v.
Proof.
  destruct (push_all_holds l (if h then _pbcA_open_heap else _pbcA_open) []) as (a & Hp & Ha).
  { destruct h; apply open_holds. }
  exists a. split_and!; [done | apply Ha |]. intros i v Hi.
  rewrite (index_holds a _ _ Ha) by lia. cbn [app]. by rewrite Nat2Z.id, Hi.
Qed.

(** the block an array owns after [n] pushes has the least power of two
    above [n] cells, so a push moves the elements only when [n + 1] is a power
    of two, and the cell a push writes always exists. *)
Theorem array_capacity {A} (l : list A) (a : array A) :
  push_all _pbcA_open l = Done a → INNER_FIELD < zlen l →
  zlen (cells a) = 2 ^ (Z.log2 (zlen l) + 1) ∧ zlen l < zlen (cells a).
Proof.
  intros Hp Hl. destruct (push_all_holds l _pbcA_open [] (proj1 open_holds)) as (a' & Hp' & Ha).
  rewrite Hp in Hp'. injection Hp' as <-. destruct Ha as ((_ & _ & _ & Ho) & _ & Hn). cbn [app] in Hn.
  destruct Ho as (o & Hptr & Hcap); [lia|]. unfold cells. rewrite Hptr, Hcap, Hn. split; [done|].
  unfold INNER_FIELD in Hl. pose proof (Z.log2_spec (zlen l) ltac:(lia)). unfold Z.succ in *. lia.
Qed.

Lemma array_capacity_witness :
  ∃ a : array Z, zlen (cells a) = 2 ^ (Z.log2 (zlen [1; 2; 3; 4; 5]) + 1) ∧ zlen [1; 2; 3; 4; 5] < zlen (cells a).
Proof. eexists. eapply (array_capacity [1; 2; 3; 4; 5]); [vm_compute; reflexivity | vm_compute; reflexivity]. Defined.

(** [pbc_array_slice] accepts the index one past the last element: on an
    array of [n] elements it returns a pointer, not [NULL], to the cell [n],
    which no push has written. *)
Theorem array_slice_past_end {A} (l : list A) (a : array A) :
  push_all _pbcA_open l = Done a →
  pbc_array_slice a (pbc_array_size a) = Done (Some (zlen l)) ∧ l !! Z.to_nat (pbc_array_size a) = None.
Proof.
  intros Hp. destruct (push_all_holds l _pbcA_open [] (proj1 open_holds)) as (a' & Hp' & Ha).
  rewrite Hp in Hp'. injection Hp' as <-. pose proof (holds_length _ _ Ha) as Hlen. cbn [app] in *.
  destruct Ha as (_ & _ & Hn). unfold pbc_array_slice, pbc_array_size, _pbcA_index_p. cbn [app] in Hn. rewrite Hn.
  unfold zlen in *. rewrite Z.ltb_irrefl, (proj2 (Z.ltb_ge _ _)) by lia. cbn [orb].
  rewrite (proj2 (Z.leb_le _ _)), (proj2 (Z.leb_le _ _)) by lia. cbn [andb obind]. split; [done|].
  apply lookup_ge_None. lia.
Qed.

Lemma array_slice_past_end_witness :
  ∃ a : array Z, pbc_array_slice a (pbc_array_size a) = Done (Some (zlen [7])) ∧ [7] !! Z.to_nat (pbc_array_size a) = None.
Proof. eexists. eapply (array_slice_past_end [7]). vm_compute; reflexivity. Defined.
