(* ===== verification/Chain.v ===== *)
(** * Chained slots

    The three hash tables of [3rd/pbc/src/map.c] store their elements in one
    array of slots and chain the colliding ones inside it: [next] is 0 at the
    end of a chain and the index plus one of the following slot otherwise.
    This file holds what they share: the loop that follows a chain, the link
    that adds a slot to a chain, the invariant of such an array and the lemmas
    that the three components instantiate through the class [ChainSlot]. *)

From S2P Require Import Prelude.

(** What a slot type provides.  [payload] is [None] for a slot not in use. *)
Class ChainSlot (S P : Type) := {
  s_next : S → Z;
  set_next : Z → S → S;
  payload : S → option P;
  s_next_set n s : s_next (set_next n s) = n;
  payload_set n s : payload (set_next n s) = payload s }.

Section Chain.
Context {S P : Type} `{!ChainSlot S P}.
Implicit Types (t : list S) (s : S) (i h e : nat).

(** [for (;;) { if (test) return; if (slot->next == 0) break; slot = &slot[slot->next-1]; }]:
    the slot where the test holds, or the last slot of the chain. *)
Fixpoint walk (fuel : nat) t (test : S → outcome bool) (i : Z) : outcome (nat * S + nat * S) :=
  do! s <- read_at t i;
  do! b <- test s;
  if (b : bool) then Done (inl (Z.to_nat i, s))
  else if s_next s =? 0 then Done (inr (Z.to_nat i, s))
  else match fuel with
       | O => Fault OutOfFuel
       | Datatypes.S fuel' => walk fuel' t test (s_next s - 1)
       end.

(** [empty_slot->next = slot->next; slot->next = empty + 1;] and the other
    fields of [empty_slot] from [new]. *)
Definition link t (h e : nat) (new : S) : list S :=
  match t !! h with
  | Some sh => <[h := set_next (Z.of_nat e + 1) sh]> (<[e := set_next (s_next sh) new]> t)
  | None => t
  end.

Definition used s : bool := match payload s with Some _ => true | None => false end.

(** [while (slot[empty] in use) ++empty;] *)
Fixpoint find_empty (fuel : nat) t (i : Z) : outcome Z :=
  do! s <- read_at t i;
  if used s then
    match fuel with
    | O => Fault OutOfFuel
    | Datatypes.S fuel' => find_empty fuel' t (i + 1)
    end
  else Done i.

(** The body of the loops that build [map_si] and [map_ip]: the home slot takes
    the new element when it is free, its [next] kept; otherwise the next free
    slot takes it and is linked after the home slot.  [e] is [empty]. *)
Definition place t (e : Z) (home : Z) (new : S) : outcome (list S * Z) :=
  do! slot <- read_at t home;
  if used slot then
    do! f <- find_empty (length t) t e;
    Done (link t (Z.to_nat home) (Z.to_nat f) new, f)
  else Done (<[Z.to_nat home := set_next (s_next slot) new]> t, e).

(** [while (slot[empty] in use) empty = (empty + 1) & (cap - 1);] *)
Fixpoint find_empty_wrap (fuel : nat) t (cap i : Z) : outcome Z :=
  do! s <- read_at t i;
  if used s then
    match fuel with
    | O => Fault OutOfFuel
    | Datatypes.S fuel' => find_empty_wrap fuel' t cap (Z.land (i + 1) (cap - 1))
    end
  else Done i.

(** ** Specification *)

(** The slots a walk from [i] visits. *)
Inductive chain t : nat → list nat → Prop :=
  | chain_end i s : t !! i = Some s → s_next s = 0 → chain t i [i]
  | chain_step i s k l :
      t !! i = Some s → s_next s = Z.of_nat k + 1 → chain t k l → chain t i (i :: l).

(** What is stored. *)
Definition entries t : list P := omap payload t.

Record table_ok (home : P → nat) t : Prop := {
  ok_chain i : (i < length t)%nat → ∃ l, chain t i l;
  ok_next i s k : t !! i = Some s → s_next s = Z.of_nat k + 1 → ∃ s', t !! k = Some s' ∧ used s' = true;
  ok_free i s : t !! i = Some s → used s = false → s_next s = 0;
  ok_home i s p : t !! i = Some s → payload s = Some p → ∃ l, chain t (home p) l ∧ i ∈ l }.

(** ** Chains *)

Lemma chain_det t i l l' : chain t i l → chain t i l' → l = l'.
Proof.
  intros H; revert l'; induction H as [i s Hs Hn | i s k l Hs Hn Hc IH]; intros l' H'; inversion H'; simplify_eq; try done.
  - lia.
  - lia.
  - assert (k0 = k) as -> by lia. f_equal. auto.
Qed.

Lemma chain_suffix t i l j : chain t i l → j ∈ l → ∃ l1 l2, l = l1 ++ l2 ∧ chain t j l2.
Proof.
  induction 1 as [i s Hs Hn | i s k l Hs Hn Hc IH]; intros Hj.
  - apply list_elem_of_singleton in Hj as ->. exists [], [i]. split; [done|]. by eapply chain_end.
  - apply elem_of_cons in Hj as [-> | Hj].
    + exists [], (i :: l). split; [done|]. by eapply chain_step.
    + destruct (IH Hj) as (l1 & l2 & -> & H2). exists (i :: l1), l2. done.
Qed.

Lemma chain_NoDup t i l : chain t i l → NoDup l.
Proof.
  induction 1 as [i s Hs Hn | i s k l Hs Hn Hc IH]; constructor; try done; try set_solver; [constructor|].
  intros Hi. destruct (chain_suffix _ _ _ _ Hc Hi) as (l1 & l2 & -> & H2).
  pose proof (chain_det _ _ _ _ H2 (chain_step t i s k _ Hs Hn Hc)) as E.
  apply (f_equal length) in E. cbn [length] in E. rewrite length_app in E. lia.
Qed.

Lemma chain_bound t i l j : chain t i l → j ∈ l → (j < length t)%nat.
Proof.
  induction 1 as [i s Hs Hn | i s k l Hs Hn Hc IH]; intros Hj.
  - apply list_elem_of_singleton in Hj as ->. by apply lookup_lt_Some in Hs.
  - apply elem_of_cons in Hj as [-> | Hj]; [by apply lookup_lt_Some in Hs | auto].
Qed.

(** A chain visits every slot at most once. *)
Lemma chain_length t i l : chain t i l → (length l <= length t)%nat.
Proof.
  intros H. rewrite <- (length_seq (length t) 0). apply submseteq_length, NoDup_submseteq.
  - by eapply chain_NoDup.
  - intros j Hj. apply elem_of_seq. pose proof (chain_bound _ _ _ _ H Hj). lia.
Qed.

Lemma chain_head t i l : chain t i l → i ∈ l.
Proof. destruct 1; set_solver. Qed.

(** The loop that follows a chain ends, at the first slot that passes the test
    or at the end of the chain. *)
Lemma walk_chain t test i l fuel :
  chain t i l → (length l <= fuel + 1)%nat →
  (∀ j s, j ∈ l → t !! j = Some s → ∃ b, test s = Done b) →
  ∃ r, walk fuel t test (Z.of_nat i) = Done r ∧
    match r with
    | inl (j, s) => j ∈ l ∧ t !! j = Some s ∧ test s = Done true
    | inr (j, s) => j ∈ l ∧ t !! j = Some s ∧ s_next s = 0
                    ∧ ∀ j' s', j' ∈ l → t !! j' = Some s' → test s' = Done false
    end.
Proof.
  intros Hc; revert fuel; induction Hc as [i s Hs Hn | i s k l Hs Hn Hc IH]; intros fuel Hf Ht.
  - destruct (Ht i s ltac:(set_solver) Hs) as (b & Hb).
    destruct fuel; cbn [walk]; rewrite read_at_nat, Hs; cbn [obind]; rewrite Hb; cbn [obind];
      (destruct b; [|rewrite Hn; cbn [Z.eqb]]); (eexists; split; [done|]);
      rewrite Nat2Z.id; (split; [set_solver|]); (split; [done|]); try done; (split; [done|]);
      intros j' s' Hj; apply list_elem_of_singleton in Hj as ->; congruence.
  - destruct (Ht i s ltac:(set_solver) Hs) as (b & Hb).
    destruct fuel as [|fuel]; [cbn [length] in Hf; destruct Hc; cbn [length] in Hf; lia|].
    cbn [walk]. rewrite read_at_nat, Hs. cbn [obind]. rewrite Hb. cbn [obind]. destruct b.
    { eexists. split; [done|]. rewrite Nat2Z.id. split; [set_solver | done]. }
    rewrite Hn. replace (Z.of_nat k + 1 =? 0) with false by (symmetry; apply Z.eqb_neq; lia).
    replace (Z.of_nat k + 1 - 1) with (Z.of_nat k) by lia. cbn [length] in Hf.
    destruct (IH fuel) as (r & -> & Hr); [lia | intros j sj Hj Hsj; apply (Ht j sj); [set_solver | done] |].
    exists r. split; [done|]. destruct r as [[j sj]|[j sj]].
    + destruct Hr as (? & ? & ?). split_and!; [set_solver | done | done].
    + destruct Hr as (? & ? & ? & Hall). split_and!; [set_solver | done | done |].
      intros j' s' Hj' Hs'. apply elem_of_cons in Hj' as [-> | Hj']; [congruence | eauto].
Qed.

(** ** Linking a slot *)

(** A chain with [e] added after [h]. *)
Fixpoint after (h e : nat) (l : list nat) : list nat :=
  match l with
  | [] => []
  | x :: l' => if decide (x = h) then x :: e :: l' else x :: after h e l'
  end.

Lemma elem_of_after h e l j : j ∈ after h e l ↔ j ∈ l ∨ (j = e ∧ h ∈ l).
Proof.
  induction l as [|x l IH]; cbn [after]; [set_solver|].
  case_decide as Hx; [subst x|]; rewrite !elem_of_cons; [|rewrite IH]; naive_solver.
Qed.

Lemma lookup_link t h e new sh se j s :
  t !! h = Some sh → t !! e = Some se → h ≠ e →
  link t h e new !! j = Some s →
  (j = h ∧ s = set_next (Z.of_nat e + 1) sh) ∨ (j = e ∧ s = set_next (s_next sh) new)
  ∨ (j ≠ h ∧ j ≠ e ∧ t !! j = Some s).
Proof.
  intros Hh He Hne. unfold link. rewrite Hh. intros Hj.
  apply list_lookup_insert_Some in Hj as [(<- & -> & _) | (Hjh & Hj)]; [by left|].
  apply list_lookup_insert_Some in Hj as [(<- & -> & _) | (Hje & Hj)]; [by right; left|]. right; right; done.
Qed.

Lemma link_at_h t h e new sh se :
  t !! h = Some sh → t !! e = Some se → h ≠ e →
  link t h e new !! h = Some (set_next (Z.of_nat e + 1) sh).
Proof.
  intros Hh He Hne. unfold link. rewrite Hh, list_lookup_insert_eq; [done|].
  rewrite length_insert. by apply lookup_lt_Some in Hh.
Qed.

Lemma link_at_e t h e new sh se :
  t !! h = Some sh → t !! e = Some se → h ≠ e →
  link t h e new !! e = Some (set_next (s_next sh) new).
Proof.
  intros Hh He Hne. unfold link. rewrite Hh, list_lookup_insert_ne, list_lookup_insert_eq by first [done | by apply lookup_lt_Some in He]. done.
Qed.

Lemma link_other t h e new j : j ≠ h → j ≠ e → link t h e new !! j = t !! j.
Proof. intros. unfold link. destruct (t !! h); [|done]. by rewrite !list_lookup_insert_ne. Qed.

Lemma length_link t h e new : length (link t h e new) = length t.
Proof. unfold link. destruct (t !! h); [|done]. by rewrite !length_insert. Qed.

(** Chains that do not pass the empty slot keep their slots, and gain the new
    one when they pass the slot it is linked after. *)
Lemma link_chain t h e new sh se i l :
  t !! h = Some sh → t !! e = Some se → h ≠ e → chain t i l → e ∉ l →
  chain (link t h e new) i (after h e l).
Proof.
  intros Hh He Hne Hc. induction Hc as [i s Hs Hn | i s k l Hs Hn Hc IH]; intros Hel; cbn [after].
  - assert (i ≠ e) by set_solver. case_decide as Hi.
    + subst i. simplify_eq. eapply (chain_step _ h _ e); [by eapply link_at_h | apply s_next_set |].
      eapply chain_end; [by eapply link_at_e | by rewrite s_next_set].
    + eapply chain_end; [|done]. by rewrite link_other.
  - assert (i ≠ e ∧ e ∉ l) as [Hie Hel'] by set_solver. specialize (IH Hel').
    case_decide as Hi.
    + subst i. assert (s = sh) as -> by congruence. eapply (chain_step _ h _ e); [by eapply link_at_h | apply s_next_set |].
      eapply (chain_step _ e _ k); [by eapply link_at_e | by rewrite s_next_set |].
      assert (h ∉ l) as Hhl.
      { pose proof (chain_NoDup _ _ _ (chain_step t h sh k l Hs Hn Hc)) as Hnd. by apply NoDup_cons_1_1 in Hnd. }
      replace l with (after h e l); [done|]. clear -Hhl. induction l as [|x l IHl]; [done|]. cbn [after].
      case_decide; [set_solver|]. f_equal. apply IHl. set_solver.
    + eapply chain_step; [by rewrite link_other | done | done].
Qed.

Lemma length_fill t h new : length (<[h := new]> t) = length t.
Proof. apply length_insert. Qed.

(** Filling a slot in place, its [next] kept. *)
Lemma fill_chain t h new sh i l :
  t !! h = Some sh → s_next new = s_next sh → chain t i l → chain (<[h := new]> t) i l.
Proof.
  intros Hh Hn Hc. assert (∀ j s, t !! j = Some s → ∃ s', <[h := new]> t !! j = Some s' ∧ s_next s' = s_next s) as Hl.
  { intros j s Hs. destruct (decide (j = h)) as [->|Hj].
    - rewrite list_lookup_insert_eq by (by apply lookup_lt_Some in Hh). exists new. split; congruence.
    - rewrite list_lookup_insert_ne by done. eauto. }
  induction Hc as [i s Hs Hn' | i s k l Hs Hn' Hc IH]; destruct (Hl _ _ Hs) as (s' & Hs' & Hns').
  - eapply chain_end; [done | congruence].
  - eapply chain_step; [done | by rewrite Hns' | done].
Qed.

(** ** The invariant *)

Lemma used_Some s p : payload s = Some p → used s = true.
Proof. unfold used. by intros ->. Qed.

Lemma used_None s : used s = false ↔ payload s = None.
Proof. unfold used. destruct (payload s); split; congruence. Qed.

Lemma used_set n s : used (set_next n s) = used s.
Proof. unfold used. by rewrite payload_set. Qed.

(** An empty slot is on no chain but its own. *)
Lemma free_not_in_chain home t e se i l :
  table_ok home t → t !! e = Some se → used se = false → chain t i l → i ≠ e → e ∉ l.
Proof.
  intros Hok He Hu Hc. induction Hc as [i s Hs Hn | i s k l Hs Hn Hc IH]; intros Hie Hin.
  - apply list_elem_of_singleton in Hin. congruence.
  - apply elem_of_cons in Hin as [->|Hin]; [done|]. apply IH; [|done]. intros ->.
    destruct (ok_next _ _ Hok i s e Hs Hn) as (s' & Hs' & Hu'). congruence.
Qed.

Lemma fill_ok home t h sh new p :
  table_ok home t → t !! h = Some sh → used sh = false →
  payload new = Some p → home p = h → s_next new = s_next sh →
  table_ok home (<[h := new]> t).
Proof.
  intros Hok Hh Hu Hp Hhome Hn. pose proof (ok_free _ _ Hok _ _ Hh Hu) as Hz.
  assert ((h < length t)%nat) as Hlt by (by apply lookup_lt_Some in Hh).
  assert (∀ j s, <[h := new]> t !! j = Some s → j = h ∧ s = new ∨ j ≠ h ∧ t !! j = Some s) as Hl.
  { intros j s Hj. apply list_lookup_insert_Some in Hj as [(<- & <- & _)|(? & ?)]; auto. }
  split.
  - intros i Hi. rewrite length_fill in Hi. destruct (ok_chain _ _ Hok i Hi) as (l & Hc).
    exists l. by eapply fill_chain.
  - intros i s k Hs Hsn. destruct (Hl _ _ Hs) as [(-> & ->)|(Hi & Hs')]; [lia|].
    destruct (ok_next _ _ Hok _ _ _ Hs' Hsn) as (s' & Hk & Hus).
    exists s'. split; [|done]. rewrite list_lookup_insert_ne; [done|]. intros ->. congruence.
  - intros i s Hs Hus. destruct (Hl _ _ Hs) as [(-> & ->)|(Hi & Hs')]; [lia|]. by eapply (ok_free _ _ Hok).
  - intros i s q Hs Hq. destruct (Hl _ _ Hs) as [(-> & ->)|(Hi & Hs')].
    + assert (q = p) as -> by congruence. rewrite Hhome. exists [h]. split; [|set_solver].
      eapply chain_end; [by apply list_lookup_insert_eq | lia].
    + destruct (ok_home _ _ Hok _ _ _ Hs' Hq) as (l & Hc & Hin). exists l. split; [|done]. by eapply fill_chain.
Qed.

Lemma link_ok home t h e sh se new p l0 :
  table_ok home t → t !! h = Some sh → used sh = true → t !! e = Some se → used se = false →
  payload new = Some p → chain t (home p) l0 → h ∈ l0 →
  table_ok home (link t h e new).
Proof.
  intros Hok Hh Hus He Hue Hp Hc0 Hin0. assert (h ≠ e) as Hne by congruence.
  assert (home p ≠ e) as Hpe.
  { intros E. rewrite E in Hc0. pose proof (ok_free _ _ Hok _ _ He Hue) as Hz.
    pose proof (chain_det _ _ _ _ Hc0 (chain_end t e se He Hz)) as ->. set_solver. }
  assert (∀ i l, chain t i l → i ≠ e → chain (link t h e new) i (after h e l)) as Hch.
  { intros i l Hc Hi. eapply link_chain; try done. by eapply free_not_in_chain. }
  assert (chain (link t h e new) (home p) (after h e l0)) as Hc0' by auto.
  split.
  - intros i Hi. rewrite length_link in Hi. destruct (decide (i = e)) as [->|Hie].
    + destruct (chain_suffix _ _ _ e Hc0') as (l1 & l2 & _ & H2); [|eauto].
      apply elem_of_after. auto.
    + destruct (ok_chain _ _ Hok i Hi) as (l & Hc). eauto.
  - assert (∀ k s', t !! k = Some s' → used s' = true → ∃ s'', link t h e new !! k = Some s'' ∧ used s'' = true) as Hkeep.
    { intros k s' Hk Hu'. destruct (decide (k = h)) as [->|Hkh].
      - rewrite (link_at_h _ _ _ _ _ _ Hh He Hne). eexists. split; [done|]. by rewrite used_set.
      - rewrite link_other by congruence. eauto. }
    intros i s k Hs Hsn. destruct (lookup_link _ _ _ _ _ _ _ _ Hh He Hne Hs) as [(-> & ->)|[(-> & ->)|(Hi & Hi' & Hs')]].
    + rewrite s_next_set in Hsn. assert (k = e) as -> by lia. rewrite (link_at_e _ _ _ _ _ _ Hh He Hne).
      eexists. split; [done|]. rewrite used_set. by eapply used_Some.
    + rewrite s_next_set in Hsn. destruct (ok_next _ _ Hok _ _ _ Hh Hsn) as (s' & Hk & Hu'). eauto.
    + destruct (ok_next _ _ Hok _ _ _ Hs' Hsn) as (s' & Hk & Hu'). eauto.
  - intros i s Hs Hu. destruct (lookup_link _ _ _ _ _ _ _ _ Hh He Hne Hs) as [(-> & ->)|[(-> & ->)|(Hi & Hi' & Hs')]].
    + rewrite used_set in Hu. congruence.
    + rewrite used_set, (used_Some _ _ Hp) in Hu. done.
    + by eapply (ok_free _ _ Hok).
  - assert (∀ i s q, t !! i = Some s → payload s = Some q → ∃ l, chain (link t h e new) (home q) l ∧ i ∈ l) as Hold.
    { intros i s q Hs Hq. destruct (ok_home _ _ Hok _ _ _ Hs Hq) as (l & Hc & Hin).
      assert (home q ≠ e) as Hqe.
      { intros E. rewrite E in Hc. pose proof (ok_free _ _ Hok _ _ He Hue) as Hz.
        pose proof (chain_det _ _ _ _ Hc (chain_end t e se He Hz)) as ->.
        apply list_elem_of_singleton in Hin as ->. apply used_Some in Hq. congruence. }
      exists (after h e l). split; [auto|]. apply elem_of_after. auto. }
    intros i s q Hs Hq. destruct (lookup_link _ _ _ _ _ _ _ _ Hh He Hne Hs) as [(-> & ->)|[(-> & ->)|(Hi & Hi' & Hs')]].
    + rewrite payload_set in Hq. eauto.
    + rewrite payload_set in Hq. assert (q = p) as -> by congruence. exists (after h e l0). split; [done|].
      apply elem_of_after. auto.
    + eauto.
Qed.

(** Changing the content of a slot in use, its home kept. *)
Lemma update_ok home t i s s' :
  table_ok home t → t !! i = Some s → s_next s' = s_next s → used s' = used s →
  (∀ p', payload s' = Some p' → ∃ p, payload s = Some p ∧ home p = home p') →
  table_ok home (<[i := s']> t).
Proof.
  intros Hok Hs Hn Hu Hp.
  assert (∀ j l, chain t j l → chain (<[i := s']> t) j l) as Hch by (intros; by eapply fill_chain).
  assert (∀ j sj, <[i := s']> t !! j = Some sj → j = i ∧ sj = s' ∨ j ≠ i ∧ t !! j = Some sj) as Hl.
  { intros j sj Hj. apply list_lookup_insert_Some in Hj as [(<- & <- & _)|(? & ?)]; auto. }
  split.
  - rewrite length_insert. intros j Hj. destruct (ok_chain _ _ Hok j Hj) as (l & Hc). eauto.
  - intros j sj k Hj Hk.
    assert (∃ sk, t !! k = Some sk ∧ used sk = true) as (sk & Hsk & Huk).
    { destruct (Hl _ _ Hj) as [(-> & ->)|(_ & Hj')]; eapply (ok_next _ _ Hok); [exact Hs | congruence | exact Hj' | done]. }
    destruct (decide (k = i)) as [->|Hki].
    + exists s'. rewrite list_lookup_insert_eq by (by apply lookup_lt_Some in Hs). split; congruence.
    + exists sk. by rewrite list_lookup_insert_ne.
  - intros j sj Hj Huj. destruct (Hl _ _ Hj) as [(-> & ->)|(_ & Hj')]; [rewrite Hn; eapply (ok_free _ _ Hok); [done | congruence] | by eapply (ok_free _ _ Hok)].
  - intros j sj p Hj Hpj. destruct (Hl _ _ Hj) as [(-> & ->)|(_ & Hj')].
    + destruct (Hp _ Hpj) as (p0 & Hp0 & <-). destruct (ok_home _ _ Hok _ _ _ Hs Hp0) as (l & Hc & Hin). eauto.
    + destruct (ok_home _ _ Hok _ _ _ Hj' Hpj) as (l & Hc & Hin). eauto.
Qed.

(** ** What is stored *)

Lemma entries_same t h s s' : t !! h = Some s → payload s' = payload s → entries (<[h := s']> t) = entries t.
Proof.
  unfold entries. revert h; induction t as [|x t IH]; intros [|h] Hh Hp; simplify_eq/=; try done.
  - by rewrite Hp.
  - by rewrite IH.
Qed.

Lemma entries_new t h s s' p :
  t !! h = Some s → used s = false → payload s' = Some p → entries (<[h := s']> t) ≡ₚ p :: entries t.
Proof.
  unfold entries. intros Hh Hu Hp. apply used_None in Hu. revert h Hh; induction t as [|x t IH]; intros [|h] Hh; simplify_eq/=.
  - by rewrite Hp, Hu.
  - destruct (payload x); rewrite (IH _ Hh); [apply Permutation_swap | done].
Qed.

Lemma entries_link t h e sh se new p :
  t !! h = Some sh → t !! e = Some se → h ≠ e → used se = false → payload new = Some p →
  entries (link t h e new) ≡ₚ p :: entries t.
Proof.
  intros Hh He Hne Hu Hp. unfold link. rewrite Hh. rewrite (entries_same _ h sh).
  - eapply entries_new; [done | done | by rewrite payload_set].
  - by rewrite list_lookup_insert_ne.
  - apply payload_set.
Qed.

Lemma elem_of_entries t p : p ∈ entries t ↔ ∃ i s, t !! i = Some s ∧ payload s = Some p.
Proof.
  unfold entries. rewrite list_elem_of_omap. split.
  - intros (s & Hs & Hp). apply list_elem_of_lookup in Hs as (i & Hi). eauto.
  - intros (i & s & Hi & Hp). exists s. split; [by eapply list_elem_of_lookup_2 | done].
Qed.

Lemma entries_cons x t :
  entries (x :: t) = match payload x with Some p => p :: entries t | None => entries t end.
Proof. reflexivity. Qed.

Lemma entries_le t : (length (entries t) <= length t)%nat.
Proof. induction t as [|x t IH]; [done|]. rewrite entries_cons. destruct (payload x); cbn [length]; lia. Qed.

Lemma free_exists t : (length (entries t) < length t)%nat → ∃ j s, t !! j = Some s ∧ used s = false.
Proof.
  induction t as [|x t IH]; [cbn; lia|]. rewrite entries_cons. destruct (payload x) eqn:E; cbn [length]; intros Hl.
  - destruct IH as (j & s & Hj & Hu); [lia|]. exists (Datatypes.S j), s. done.
  - exists 0%nat, x. split; [done | by apply used_None].
Qed.

Lemma full_no_free t j s : length (entries t) = length t → t !! j = Some s → used s = true.
Proof.
  revert j; induction t as [|x t IH]; intros j Hl Hj; [done|]. rewrite entries_cons in Hl.
  pose proof (entries_le t). destruct (payload x) eqn:E; cbn [length] in Hl; [|lia].
  destruct j as [|j]; [|apply (IH j); [lia | done]]. injection Hj as <-. by eapply used_Some.
Qed.

(** Scanning upward for an empty slot. *)
Lemma find_empty_spec t i j s fuel :
  (i <= j)%nat → t !! j = Some s → used s = false → (j - i <= fuel)%nat →
  ∃ e se, find_empty fuel t (Z.of_nat i) = Done (Z.of_nat e) ∧ (i <= e <= j)%nat
    ∧ t !! e = Some se ∧ used se = false
    ∧ ∀ k sk, (i <= k < e)%nat → t !! k = Some sk → used sk = true.
Proof.
  revert i; induction fuel as [|fuel IH]; intros i Hij Hj Hu Hf;
    (destruct (lookup_lt_is_Some_2 t i) as (si & Hi); [apply lookup_lt_Some in Hj; lia|]);
    cbn [find_empty]; rewrite read_at_nat, Hi; cbn [obind]; destruct (used si) eqn:Hui;
    try (exists i, si; split_and!; [done | lia | lia | done | done | lia]).
  - assert (i = j) as -> by lia. congruence.
  - assert (i ≠ j) by congruence. replace (Z.of_nat i + 1) with (Z.of_nat (Datatypes.S i)) by lia.
    destruct (IH (Datatypes.S i)) as (e & se & -> & He & Hse & Hue & Hall); [lia | done | done | lia |].
    exists e, se. split_and!; [done | lia | lia | done | done |]. intros k sk Hk Hsk.
    destruct (decide (k = i)) as [->|]; [congruence | eapply Hall; [|done]; lia].
Qed.

(** Scanning around the table for an empty slot: the distance to an empty slot
    [j] bounds the number of steps. *)
Lemma find_empty_wrap_spec t k i j s fuel :
  length t = Z.to_nat (2 ^ k) → 0 <= k → (i < length t)%nat → t !! j = Some s → used s = false →
  (Z.of_nat j - Z.of_nat i) mod 2 ^ k <= Z.of_nat fuel →
  ∃ e se, find_empty_wrap fuel t (2 ^ k) (Z.of_nat i) = Done (Z.of_nat e)
    ∧ t !! e = Some se ∧ used se = false.
Proof.
  intros Hlen Hk. assert (0 < 2 ^ k) as Hpos by (apply Z.pow_pos_nonneg; lia).
  revert i; induction fuel as [|fuel IH]; intros i Hi Hj Hu Hf;
    (destruct (lookup_lt_is_Some_2 t i) as (si & Hsi); [done|]);
    cbn [find_empty_wrap]; rewrite read_at_nat, Hsi; cbn [obind]; destruct (used si) eqn:Hui; try eauto;
    pose proof (lookup_lt_Some _ _ _ Hj) as Hjl.
  - pose proof (Z.mod_pos_bound (Z.of_nat j - Z.of_nat i) (2 ^ k)).
    assert ((Z.of_nat j - Z.of_nat i) mod 2 ^ k = 0) as E by lia.
    apply Z.mod_divide in E as [q Hq]; [|lia]. assert (q = 0) as -> by nia.
    assert (i = j) as -> by lia. congruence.
  - rewrite land_low by done. set (i' := (Z.of_nat i + 1) mod 2 ^ k).
    assert (0 <= i' < 2 ^ k) as Hi' by (apply Z.mod_pos_bound; lia).
    replace i' with (Z.of_nat (Z.to_nat i')) by lia. apply IH; try done; [lia|].
    assert (i ≠ j) by congruence.
    assert ((Z.of_nat j - Z.of_nat i) mod 2 ^ k ≠ 0).
    { intros E. apply Z.mod_divide in E as [q Hq]; [|lia]. assert (q = 0) as -> by nia. lia. }
    rewrite Z2Nat.id by lia. subst i'. rewrite Zminus_mod_idemp_r.
    replace (Z.of_nat j - (Z.of_nat i + 1)) with ((Z.of_nat j - Z.of_nat i) - 1) by lia.
    rewrite <- Zminus_mod_idemp_l. rewrite Z.mod_small; [lia|].
    pose proof (Z.mod_pos_bound (Z.of_nat j - Z.of_nat i) (2 ^ k)). lia.
Qed.

(** Every slot below [e] is in use. *)
Definition used_below t (e : Z) : Prop :=
  0 <= e ∧ ∀ k s, Z.of_nat k < e → t !! k = Some s → used s = true.

Lemma used_fill t h sh new p k s :
  t !! h = Some sh → payload new = Some p → (∀ s, t !! k = Some s → used s = true) →
  <[h := new]> t !! k = Some s → used s = true.
Proof.
  intros Hh Hp Hk Hs. apply list_lookup_insert_Some in Hs as [(<- & <- & _)|(? & ?)]; [by eapply used_Some | auto].
Qed.

(** One element more, while there is room for it. *)
Lemma place_ok home t (e : Z) new p :
  table_ok home t → used_below t e → (length (entries t) < length t)%nat →
  payload new = Some p → (home p < length t)%nat →
  ∃ t' (e' : Z), place t e (Z.of_nat (home p)) new = Done (t', e') ∧ table_ok home t' ∧ used_below t' e'
    ∧ length t' = length t ∧ entries t' ≡ₚ p :: entries t.
Proof.
  intros Hok [He Hb] Hroom Hp Hlt. destruct (lookup_lt_is_Some_2 t (home p) Hlt) as (sh & Hh).
  unfold place. rewrite read_at_nat, Hh. cbn [obind]. rewrite Nat2Z.id. destruct (used sh) eqn:Hu.
  - destruct (free_exists t Hroom) as (j & s & Hj & Hju).
    assert (e <= Z.of_nat j) as Hej.
    { destruct (Z.lt_ge_cases (Z.of_nat j) e) as [Hlt'|]; [|lia]. rewrite (Hb _ _ Hlt' Hj) in Hju. done. }
    pose proof (lookup_lt_Some _ _ _ Hj).
    destruct (find_empty_spec t (Z.to_nat e) j s (length t)) as (f & sf & Hf & Hfb & Hsf & Huf & Hall); [lia | done | done | lia |].
    rewrite Z2Nat.id in Hf by done. rewrite Hf. cbn [obind]. rewrite Nat2Z.id. assert (home p ≠ f) by congruence.
    destruct (ok_chain _ _ Hok _ Hlt) as (l & Hc).
    exists (link t (home p) f new), (Z.of_nat f). split_and!; [done | | | |].
    + eapply link_ok; try done. by eapply chain_head.
    + split; [lia|]. intros k sk Hk Hsk.
      destruct (lookup_link _ _ _ _ _ _ _ _ Hh Hsf ltac:(done) Hsk) as [(-> & ->)|[(-> & ->)|(_ & _ & Hsk')]].
      * by rewrite used_set.
      * lia.
      * destruct (Z.lt_ge_cases (Z.of_nat k) e); [by eapply Hb | eapply Hall; [|done]; lia].
    + by apply length_link.
    + by eapply entries_link.
  - exists (<[home p := set_next (s_next sh) new]> t), e. split_and!; [done | | | |].
    + eapply fill_ok; try done; [by rewrite payload_set | by rewrite s_next_set].
    + split; [done|]. intros k sk Hk. eapply used_fill; [done | by rewrite payload_set | intros; by eapply Hb].
    + apply length_insert.
    + eapply entries_new; [done | done | by rewrite payload_set].
Qed.

(** A table of empty slots. *)
Lemma empty_ok home n s : payload s = None → s_next s = 0 → table_ok home (replicate n s).
Proof.
  intros Hp Hn. split.
  - intros i Hi. rewrite length_replicate in Hi. exists [i]. eapply chain_end; [|done]. by apply lookup_replicate_2.
  - intros i s' k Hs. apply lookup_replicate in Hs as [-> _]. lia.
  - intros i s' Hs _. by apply lookup_replicate in Hs as [-> _].
  - intros i s' p Hs Hp'. apply lookup_replicate in Hs as [-> _]. congruence.
Qed.

Lemma entries_empty n s : payload s = None → entries (replicate n s) = [].
Proof. intros Hp. induction n as [|n IH]; [done|]. cbn [replicate]. by rewrite entries_cons, Hp. Qed.

(** ** Looking up

    A walk from the home slot of a key that only tests slots in use finds the
    entry with that key, when there is one. *)
Lemma lookup_walk home t (K : Type) (key : P → K) (k : K) test i l fuel :
  table_ok home t → chain t i l → (length t <= fuel + 1)%nat →
  (∀ p, p ∈ entries t → key p = k → home p = i) →
  (∀ j s p, t !! j = Some s → payload s = Some p → ∃ b : bool, test s = Done b ∧ (b = true ↔ key p = k)) →
  (∀ s, t !! i = Some s → used s = false → test s = Done false) →
  ∃ r, walk fuel t test (Z.of_nat i) = Done r ∧
    match r with
    | inl (j, s) => ∃ p, t !! j = Some s ∧ payload s = Some p ∧ key p = k
    | inr (j, s) => j ∈ l ∧ t !! j = Some s ∧ s_next s = 0 ∧ ∀ p, p ∈ entries t → key p ≠ k
    end.
Proof.
  intros Hok Hc Hf Hhome Htest Hfree.
  assert (∀ j s, j ∈ l → t !! j = Some s → (∃ p, payload s = Some p) ∨ j = i) as Hused.
  { intros j s Hj Hs. destruct (decide (j = i)) as [|Hji]; [auto|]. left. destruct (payload s) eqn:Hp; [eauto|].
    apply used_None in Hp. exfalso. by eapply (free_not_in_chain home t j s i l). }
  destruct (walk_chain t test i l fuel Hc) as (r & Hw & Hr).
  { pose proof (chain_length _ _ _ Hc). lia. }
  { intros j s Hj Hs. destruct (payload s) as [p|] eqn:Hp.
    - destruct (Htest _ _ _ Hs Hp) as (b & ? & _). eauto.
    - destruct (Hused _ _ Hj Hs) as [(p & ?) | ->]; [congruence|]. exists false. apply Hfree; [done | by apply used_None]. }
  exists r. split; [done|]. destruct r as [[j s]|[j s]].
  - destruct Hr as (Hj & Hs & Ht). destruct (payload s) as [p|] eqn:Hp.
    + exists p. split_and!; [done | done |]. destruct (Htest _ _ _ Hs Hp) as (b & Hb & Hk). apply Hk. congruence.
    + destruct (Hused _ _ Hj Hs) as [(p & ?) | ->]; [congruence|].
      apply used_None in Hp. rewrite (Hfree _ Hs Hp) in Ht. done.
  - destruct Hr as (Hj & Hs & Hn & Hall). split_and!; [done | done | done |].
    intros p Hin' Hkey. pose proof Hin' as Hp. apply elem_of_entries in Hp as (j' & s' & Hs' & Hp').
    destruct (ok_home _ _ Hok _ _ _ Hs' Hp') as (l' & Hc' & Hin). rewrite (Hhome _ Hin' Hkey) in Hc'.
    pose proof (chain_det _ _ _ _ Hc Hc') as <-. pose proof (Hall _ _ Hin Hs') as Hf'.
    destruct (Htest _ _ _ Hs' Hp') as (b & Hb & Hk). assert (b = true) as -> by (by apply Hk). congruence.
Qed.

End Chain.
