(* ===== verification/PMap.v ===== *)
(** * pbc hash tables ([3rd/pbc/src/map.c])

    Three tables: [map_si] from names to ids and [map_ip] from ids to pointers,
    both built once from an array of pairs, and [map_sp] from names to
    pointers, which grows.  A C string is the list of its bytes before the
    terminating zero; a pointer is an [option], [None] being the null pointer.
    A [struct map_kv] array of [size] elements is a list of that length. *)

From S2P Require Import Prelude Chain.

Notation cstring := (list Z) (only parsing).

(** ** The hash of a name *)

(** [char] is signed on the hosts of the build: [(size_t)name[i-1]] extends the
    sign. *)
Fixpoint calc_hash_loop (fuel : nat) (name : list Z) (h i step : Z) : Z :=
  match fuel with
  | O => h
  | S fuel' =>
      if step <=? i then
        let c := nth (Z.to_nat (i - 1)) name 0 in
        calc_hash_loop fuel' name
          (Z.lxor h (u64 (u64 (Z.shiftl h 5) + Z.shiftr h 2 + u64 (s8 c)))) (i - step) step
      else h
  end.

Definition calc_hash (name : list Z) : Z :=
  let len := zlen name in
  calc_hash_loop (length name) name len len (Z.shiftr len 5 + 1).

(** ** [map_si] *)

Record si_slot := SiSlot { si_key : option (list Z); si_hash : Z; si_id : Z; si_next : Z }.
Record map_si := MapSi { si_size : Z; si_slots : list si_slot }.

Definition si_empty_slot : si_slot := SiSlot None 0 0 0.

#[export] Instance si_chain : ChainSlot si_slot (list Z * Z * Z).
Proof.
  refine {| s_next := si_next;
            set_next n s := SiSlot (si_key s) (si_hash s) (si_id s) n;
            payload s := match si_key s with Some k => Some (k, si_hash s, si_id s) | None => None end |}; done.
Defined.

(** One iteration of the loop of [_pbcM_si_new]; [e] is [empty]. *)
Definition si_new_step (size : Z) (st : list si_slot * Z) (kv : Z * list Z) : outcome (list si_slot * Z) :=
  let '(slots, e) := st in
  let '(id, name) := kv in
  let hash_full := calc_hash name in
  let hash := hash_full mod size in
  place slots e hash (SiSlot (Some name) hash_full id 0).

Fixpoint si_new_loop (size : Z) (st : list si_slot * Z) (table : list (Z * list Z)) : outcome (list si_slot * Z) :=
  match table with
  | [] => Done st
  | kv :: rest => do! st <- si_new_step size st kv; si_new_loop size st rest
  end.

Definition _pbcM_si_new (table : list (Z * list Z)) : outcome map_si :=
  let size := zlen table in
  do! (slots, _) <- si_new_loop size (replicate (length table) si_empty_slot, 0) table;
  Done (MapSi size slots).

(** [slot->hash == hash_full && strcmp(slot->key, key) == 0] *)
Definition slot_matches (k : option (list Z)) (h hash_full : Z) (key : list Z) : outcome bool :=
  if h =? hash_full then
    match k with
    | None => Fault NullDeref
    | Some k => Done (bool_decide (k = key))
    end
  else Done false.

(** [Some id] stands for the return value 0 with [id] in [*result], [None] for
    the return value 1. *)
Definition _pbcM_si_query (map : map_si) (key : list Z) : outcome (option Z) :=
  let hash_full := calc_hash key in
  if si_size map =? 0 then Fault DivByZero
  else
    let hash := hash_full mod si_size map in
    do! r <- walk (length (si_slots map)) (si_slots map)
               (λ s, slot_matches (si_key s) (si_hash s) hash_full key) hash;
    match r with
    | inl (_, s) => Done (Some (si_id s))
    | inr _ => Done None
    end.

(** *** Correctness of [map_si] *)

(** The hash of a name stays in [size_t]. *)
Lemma calc_hash_loop_nonneg fuel name h i step : 0 <= h → 0 <= calc_hash_loop fuel name h i step.
Proof.
  revert h i; induction fuel as [|fuel IH]; intros h i Hh; cbn [calc_hash_loop]; [done|]. case_if; [|done].
  apply IH, Z.lxor_nonneg. split; intros; [|done]. unfold u64. apply Z.mod_pos_bound. lia.
Qed.

Lemma calc_hash_nonneg name : 0 <= calc_hash name.
Proof. apply calc_hash_loop_nonneg, zlen_nonneg. Qed.

(** The loop ends by its own condition: more iterations change nothing. *)
Lemma calc_hash_loop_fuel fuel fuel' name h i step :
  1 <= step → i <= Z.of_nat fuel → i <= Z.of_nat fuel' →
  calc_hash_loop fuel name h i step = calc_hash_loop fuel' name h i step.
Proof.
  intros Hs. revert fuel' h i; induction fuel as [|fuel IH]; intros [|fuel'] h i Hf Hf'; cbn [calc_hash_loop]; try done.
  - by rewrite (proj2 (Z.leb_gt step i)) by lia.
  - by rewrite (proj2 (Z.leb_gt step i)) by lia.
  - case_if; [|done]. apply IH; lia.
Qed.

Definition si_home (size : Z) (p : list Z * Z * Z) : nat := Z.to_nat (p.1.2 mod size).

(** What the pairs of the table become. *)
Definition si_entry (kv : Z * list Z) : list Z * Z * Z := (kv.2, calc_hash kv.2, kv.1).

Lemma si_new_loop_ok size table slots e :
  table_ok (si_home size) slots → used_below slots e → size = zlen slots →
  (length (entries slots) + length table <= length slots)%nat →
  ∃ slots' e', si_new_loop size (slots, e) table = Done (slots', e') ∧ table_ok (si_home size) slots'
    ∧ length slots' = length slots ∧ entries slots' ≡ₚ map si_entry table ++ entries slots.
Proof.
  revert slots e; induction table as [|[id name] table IH]; intros slots e Hok Hb -> Hroom; cbn [si_new_loop length] in *.
  { exists slots, e. done. }
  assert (0 <= calc_hash name mod zlen slots < zlen slots) as Hm by (apply Z.mod_pos_bound; unfold zlen; lia).
  destruct (place_ok (si_home (zlen slots)) slots e (SiSlot (Some name) (calc_hash name) id 0) (si_entry (id, name)))
    as (s1 & e1 & Hp & Hok1 & Hb1 & Hl1 & He1); [done | done | lia | done | unfold si_home, zlen in *; cbn [fst snd si_entry]; lia |].
  unfold si_new_step. unfold si_home in Hp. cbn [fst snd si_entry] in Hp. rewrite Z2Nat.id in Hp by lia.
  rewrite Hp. cbn [obind].
  assert (zlen slots = zlen s1) as Hz by (unfold zlen; lia). rewrite Hz in *.
  destruct (IH s1 e1 Hok1 Hb1 eq_refl) as (s2 & e2 & -> & Hok2 & Hl2 & He2).
  { rewrite (Permutation_length He1). cbn [length]. lia. }
  exists s2, e2. split_and!; [done | done | lia |]. rewrite He2, He1. cbn [map app]. by rewrite Permutation_middle.
Qed.

(** [_pbcM_si_new] stores its pairs and fills every slot. *)
Lemma si_new_ok table : ∃ slots, _pbcM_si_new table = Done (MapSi (zlen table) slots)
  ∧ table_ok (si_home (zlen table)) slots ∧ length slots = length table ∧ entries slots ≡ₚ map si_entry table.
Proof.
  destruct (si_new_loop_ok (zlen table) table (replicate (length table) si_empty_slot) 0) as (sl & e & Hl & Hok & Hlen & He).
  - by apply empty_ok.
  - split; lia.
  - unfold zlen. by rewrite length_replicate.
  - rewrite entries_empty, length_replicate by done. done.
  - rewrite length_replicate in Hlen. rewrite entries_empty, app_nil_r in He by done.
    exists sl. unfold _pbcM_si_new. rewrite Hl. done.
Qed.

Lemma slot_matches_spec k h hash_full key :
  h = calc_hash k → hash_full = calc_hash key →
  ∃ b : bool, slot_matches (Some k) h hash_full key = Done b ∧ (b = true ↔ k = key).
Proof.
  intros -> ->. unfold slot_matches. destruct (Z.eqb_spec (calc_hash k) (calc_hash key)) as [E|E].
  - exists (bool_decide (k = key)). by rewrite bool_decide_eq_true.
  - exists false. split; [done|]. split; [done|]. congruence.
Qed.

(** Every lookup in a table built by [_pbcM_si_new]. *)
Lemma si_query_ok table m key : _pbcM_si_new table = Done m → table ≠ [] →
  (∃ id, _pbcM_si_query m key = Done (Some id) ∧ (id, key) ∈ table)
  ∨ (_pbcM_si_query m key = Done None ∧ ∀ id, (id, key) ∉ table).
Proof.
  intros Hm Hne. destruct (si_new_ok table) as (sl & Hn & Hok & Hlen & He). rewrite Hn in Hm. injection Hm as <-.
  pose proof (zlen_pos table ltac:(done)) as Hz.
  unfold _pbcM_si_query. cbn [si_size si_slots]. rewrite (proj2 (Z.eqb_neq _ _)) by lia.
  assert (0 <= calc_hash key mod zlen table < zlen table) as Hb by (apply Z.mod_pos_bound; lia).
  set (i := Z.to_nat (calc_hash key mod zlen table)).
  assert (i < length sl)%nat as Hi by (unfold i; clear -Hb Hlen; revert Hb; generalize (calc_hash key mod zlen table); unfold zlen; lia).
  destruct (ok_chain _ _ Hok i Hi) as (l & Hc).
  assert (∀ p, p ∈ entries sl → p.1.2 = calc_hash p.1.1) as Hh.
  { intros p Hp. rewrite He in Hp. apply list_elem_of_fmap in Hp as (kv & -> & _). done. }
  destruct (lookup_walk (si_home (zlen table)) sl (list Z) (λ p, p.1.1) key
             (λ s, slot_matches (si_key s) (si_hash s) (calc_hash key) key) i l (length sl)) as (r & Hw & Hr); try done.
  - lia.
  - intros p Hp <-. unfold si_home, i. by rewrite (Hh p Hp).
  - intros j s p Hs Hp. assert (p.1.2 = calc_hash p.1.1) as Hhp by (apply Hh, elem_of_entries; eauto).
    cbn in Hp. destruct (si_key s) as [k|] eqn:Ek; [|done]. injection Hp as <-. cbn in Hhp. by apply slot_matches_spec.
  - intros s Hs Hu. assert (length (entries sl) = length sl) as Hfull by (rewrite (Permutation_length He), length_map; lia).
    rewrite (full_no_free _ _ _ Hfull Hs) in Hu. done.
  - unfold i in Hw. rewrite Z2Nat.id in Hw by lia. rewrite Hw. cbn [obind]. destruct r as [[j s]|[j s]].
    + left. destruct Hr as (p & Hs & Hp & Hk). exists (si_id s). split; [done|].
      assert (p ∈ entries sl) as Hin by (apply elem_of_entries; eauto). rewrite He in Hin.
      apply list_elem_of_fmap in Hin as ([id k] & -> & Hin). cbn in Hp, Hk. subst k.
      destruct (si_key s); [|done]. injection Hp as -> _ ->. done.
    + right. destruct Hr as (_ & _ & _ & Hall). split; [done|]. intros id Hin.
      apply (Hall (si_entry (id, key))); [|done]. rewrite He. apply list_elem_of_fmap. eauto.
Qed.

(** ** [map_ip] *)

Record ip_slot (V : Type) := IpSlot { ip_id : Z; ip_pointer : option V; ip_next : Z }.
Arguments IpSlot {V}. Arguments ip_id {V}. Arguments ip_pointer {V}. Arguments ip_next {V}.

(** [ip_array] is [Some] when the table is indexed directly by the id
    ([array_size] is its length), and [ip_slots] the hash slots otherwise. *)
Record map_ip (V : Type) := MapIp {
  ip_array : option (list (option V));
  ip_hash_size : Z;
  ip_slots : list (ip_slot V) }.
Arguments MapIp {V}. Arguments ip_array {V}. Arguments ip_hash_size {V}. Arguments ip_slots {V}.

#[export] Instance ip_chain {V} : ChainSlot (ip_slot V) (Z * V).
Proof.
  refine {| s_next := ip_next;
            set_next n s := IpSlot (ip_id s) (ip_pointer s) n;
            payload s := match ip_pointer s with Some p => Some (ip_id s, p) | None => None end |}; done.
Defined.

Section MapIp.
Context {V : Type}.
Implicit Types table : list (Z * option V).

Fixpoint ip_new_hash_loop (size : Z) (st : list (ip_slot V) * Z) table : outcome (list (ip_slot V) * Z) :=
  match table with
  | [] => Done st
  | (id, pointer) :: rest =>
      let hash := u32 id mod size in
      do! st <- place st.1 st.2 hash (IpSlot id pointer 0);
      ip_new_hash_loop size st rest
  end.

Definition _pbcM_ip_new_hash table : outcome (map_ip V) :=
  let size := zlen table in
  do! (slots, _) <- ip_new_hash_loop size (replicate (length table) (IpSlot 0 None 0), 0) table;
  Done (MapIp None size slots).

(** The scan for the largest id: [None] where the code falls back on the hash
    slots. *)
Fixpoint ip_max (size max : Z) table : option Z :=
  match table with
  | [] => Some max
  | (id, _) :: rest =>
      if id <? 0 then None
      else if max <? id then
        if size * 2 <? id then None else ip_max size id rest
      else ip_max size max rest
  end.

Fixpoint ip_fill (array : list (option V)) table : outcome (list (option V)) :=
  match table with
  | [] => Done array
  | (id, pointer) :: rest => do! array <- write_at array id [pointer]; ip_fill array rest
  end.

Definition _pbcM_ip_new table : outcome (map_ip V) :=
  let size := zlen table in
  match table with
  | [] => Fault OutOfBounds
  | (max, _) :: rest =>
      if (size * 2 <? max) || (max <? 0) then _pbcM_ip_new_hash table
      else match ip_max size max rest with
           | None => _pbcM_ip_new_hash table
           | Some max =>
               do! array <- ip_fill (replicate (Z.to_nat (max + 1)) None) table;
               Done (MapIp (Some array) size [])
           end
  end.

(** The non-null cells of an array with their indices, from index [i] on. *)
Fixpoint ip_array_pairs (i : Z) (array : list (option V)) : list (Z * option V) :=
  match array with
  | [] => []
  | Some p :: rest => (i, Some p) :: ip_array_pairs (i + 1) rest
  | None :: rest => ip_array_pairs (i + 1) rest
  end.

(** Writes the pairs of [map] into [table] from position [at_] on. *)
Definition _inject table (at_ : Z) (map : map_ip V) : outcome (list (Z * option V)) :=
  match ip_array map with
  | Some array => write_at table at_ (ip_array_pairs 0 array)
  | None => write_at table at_ (List.map (λ s, (ip_id s, ip_pointer s)) (ip_slots map))
  end.

Definition _pbcM_ip_combine (a b : map_ip V) : outcome (map_ip V) :=
  let sz := ip_hash_size a + ip_hash_size b in
  let table := replicate (Z.to_nat sz) (0, None) in
  do! table <- _inject table 0 a;
  do! table <- _inject table (ip_hash_size a) b;
  _pbcM_ip_new table.

Definition _pbcM_ip_query (map : option (map_ip V)) (id : Z) : outcome (option V) :=
  match map with
  | None => Done None
  | Some map =>
      match ip_array map with
      | Some array =>
          if (0 <=? id) && (id <? zlen array) then read_at array id else Done None
      | None =>
          if ip_hash_size map =? 0 then Fault DivByZero
          else
            let hash := u32 id mod ip_hash_size map in
            do! r <- walk (length (ip_slots map)) (ip_slots map) (λ s, Done (ip_id s =? id)) hash;
            match r with
            | inl (_, s) => Done (ip_pointer s)
            | inr _ => Done None
            end
      end
  end.

(** *** Correctness of [map_ip] *)

(** The pairs a table is built from: ids of type [int], distinct, no null pointer. *)
Definition kv_ok (l : list (Z * V)) : Prop := NoDup l.*1 ∧ Forall is_s32 l.*1.

Definition to_table (l : list (Z * V)) : list (Z * option V) := List.map (λ p, (p.1, Some p.2)) l.

(** The pairs a table holds. *)
Definition ip_pairs (m : map_ip V) : list (Z * option V) :=
  match ip_array m with
  | Some array => ip_array_pairs 0 array
  | None => List.map (λ s, (ip_id s, ip_pointer s)) (ip_slots m)
  end.

(** [m] was built from [l]: it answers every query like the finite map [l] is. *)
Definition ip_holds (m : map_ip V) (l : list (Z * V)) : Prop :=
  ip_hash_size m = zlen l
  ∧ ip_pairs m ≡ₚ to_table l
  ∧ ∀ id, is_s32 id → _pbcM_ip_query (Some m) id = Done ((list_to_map l : gmap Z V) !! id).

Definition ip_home (size : Z) (p : Z * V) : nat := Z.to_nat (u32 p.1 mod size).

Lemma ip_new_hash_loop_ok size (l : list (Z * V)) slots e :
  table_ok (ip_home size) slots → used_below slots e → size = zlen slots →
  (length (entries slots) + length l <= length slots)%nat →
  ∃ slots' e', ip_new_hash_loop size (slots, e) (to_table l) = Done (slots', e') ∧ table_ok (ip_home size) slots'
    ∧ length slots' = length slots ∧ entries slots' ≡ₚ l ++ entries slots.
Proof.
  revert slots e; induction l as [|[id v] l IH]; intros slots e Hok Hb -> Hroom; cbn [ip_new_hash_loop to_table List.map length fst snd] in *.
  { exists slots, e. done. }
  assert (0 <= u32 id mod zlen slots < zlen slots) as Hm by (apply Z.mod_pos_bound; unfold zlen; lia).
  destruct (place_ok (ip_home (zlen slots)) slots e (IpSlot id (Some v) 0) (id, v))
    as (s1 & e1 & Hp & Hok1 & Hb1 & Hl1 & He1); [done | done | lia | done | |].
  { unfold ip_home. cbn [fst]. revert Hm. generalize (u32 id mod zlen slots). unfold zlen. lia. }
  unfold ip_home in Hp. cbn [fst snd] in Hp. rewrite Z2Nat.id in Hp by lia. rewrite Hp. cbn [obind].
  assert (zlen slots = zlen s1) as Hz by (unfold zlen; lia). rewrite Hz in *.
  destruct (IH s1 e1 Hok1 Hb1 eq_refl) as (s2 & e2 & Hs2 & Hok2 & Hl2 & He2).
  { rewrite (Permutation_length He1). cbn [length]. lia. }
  unfold to_table in Hs2. rewrite Hs2.
  exists s2, e2. split_and!; [done | done | lia |]. rewrite He2, He1. cbn [app]. by rewrite Permutation_middle.
Qed.

(** The slots of a full table, as pairs. *)
Lemma full_slots_pairs (sl : list (ip_slot V)) : length (entries sl) = length sl →
  List.map (λ s, (ip_id s, ip_pointer s)) sl = to_table (entries sl).
Proof.
  induction sl as [|s sl IH]; [done|]. rewrite entries_cons. pose proof (entries_le sl).
  destruct s as [id [v|] n]; cbn [payload ip_chain ip_pointer ip_id length]; intros Hl; [|lia].
  cbn [List.map to_table fst snd]. f_equal. apply IH. lia.
Qed.

(** The outcome of a walk in a full table. *)
Lemma ip_walk size (sl : list (ip_slot V)) id :
  table_ok (ip_home size) sl → length (entries sl) = length sl → size = zlen sl → 0 < size →
  ∃ r, walk (length sl) sl (λ s, Done (ip_id s =? id)) (u32 id mod size) = Done r ∧
    match r with
    | inl (j, s) => ∃ v, (id, v) ∈ entries sl ∧ ip_pointer s = Some v
    | inr _ => id ∉ (entries sl).*1
    end.
Proof.
  intros Hok Hfull -> Hpos. assert (0 <= u32 id mod zlen sl < zlen sl) as Hb by (apply Z.mod_pos_bound; lia).
  set (i := Z.to_nat (u32 id mod zlen sl)).
  assert (i < length sl)%nat as Hi by (unfold i; clear -Hb; revert Hb; generalize (u32 id mod zlen sl); unfold zlen; lia).
  destruct (ok_chain _ _ Hok i Hi) as (c & Hc).
  destruct (lookup_walk (ip_home (zlen sl)) sl Z fst id (λ s, Done (ip_id s =? id)) i c (length sl)) as (r & Hw & Hr); try done.
  - lia.
  - intros p Hp <-. done.
  - intros j s p Hs Hp. exists (ip_id s =? id). split; [done|]. cbn in Hp. destruct (ip_pointer s); [|done].
    injection Hp as <-. apply Z.eqb_eq.
  - intros s Hs Hu. rewrite (full_no_free _ _ _ Hfull Hs) in Hu. done.
  - unfold i in Hw. rewrite Z2Nat.id in Hw by lia. exists r. split; [done|]. destruct r as [[j s]|[j s]].
    + destruct Hr as ([id' v] & Hs & Hp & <-). exists v. split; [apply elem_of_entries; eauto|].
      cbn in Hp. destruct (ip_pointer s); [|done]. by injection Hp as _ ->.
    + destruct Hr as (_ & _ & _ & Hall). intros Hin. apply list_elem_of_fmap in Hin as (p & -> & Hp). by apply (Hall p).
Qed.

Lemma ip_new_hash_holds (l : list (Z * V)) : kv_ok l → l ≠ [] →
  ∃ m, _pbcM_ip_new_hash (to_table l) = Done m ∧ ip_holds m l.
Proof.
  intros [Hnd Hr] Hne. assert (zlen (to_table l) = zlen l) as Hz by (unfold zlen, to_table; by rewrite length_map).
  pose proof (zlen_pos l ltac:(done)) as Hpos.
  destruct (ip_new_hash_loop_ok (zlen l) l (replicate (length l) (IpSlot 0 None 0)) 0) as (sl & e & Hl & Hok & Hlen & He).
  { by apply empty_ok. } { split; lia. } { unfold zlen. by rewrite length_replicate. }
  { rewrite entries_empty, length_replicate by done. done. }
  rewrite length_replicate in Hlen. rewrite entries_empty, app_nil_r in He by done.
  assert (length (entries sl) = length sl) as Hfull by (rewrite (Permutation_length He); lia).
  exists (MapIp None (zlen l) sl). split.
  { unfold _pbcM_ip_new_hash. rewrite Hz. replace (length (to_table l)) with (length l) by (unfold zlen in Hz; lia). rewrite Hl. done. }
  unfold ip_holds, ip_pairs. cbn [ip_array ip_hash_size ip_slots]. split_and!; [done | |].
  - rewrite full_slots_pairs by done. unfold to_table. by rewrite He.
  - intros id Hid. unfold _pbcM_ip_query. cbn [ip_array ip_hash_size ip_slots]. rewrite (proj2 (Z.eqb_neq _ _)) by lia.
    destruct (ip_walk (zlen l) sl id) as (r & -> & Hr'); [done | done | unfold zlen; lia | done |]. cbn [obind].
    destruct r as [[j s]|[j s]].
    + destruct Hr' as (v & Hin & ->). rewrite He in Hin. f_equal. symmetry. by apply elem_of_list_to_map.
    + rewrite He in Hr'. f_equal. symmetry. by apply not_elem_of_list_to_map.
Qed.

(** *** The direct array *)

Lemma ip_max_spec size max (l : list (Z * V)) max' :
  ip_max size max (to_table l) = Some max' → max <= max' ∧ ∀ id, id ∈ l.*1 → 0 <= id <= max'.
Proof.
  revert max; induction l as [|[id v] l IH]; intros max; cbn [to_table List.map ip_max fst snd].
  - intros [= ->]. split; [lia|]. intros id Hid. by apply elem_of_nil in Hid.
  - case_if; [done|]. case_if.
    + case_if; [done|]. intros Hm. apply IH in Hm as [Hle Hall]. split; [lia|].
      intros id' Hin. cbn in Hin. apply elem_of_cons in Hin as [->|Hin]; [lia | auto].
    + intros Hm. apply IH in Hm as [Hle Hall]. split; [lia|].
      intros id' Hin. cbn in Hin. apply elem_of_cons in Hin as [->|Hin]; [lia | auto].
Qed.

Lemma ip_fill_spec (l : list (Z * V)) array :
  NoDup l.*1 → (∀ id, id ∈ l.*1 → 0 <= id < zlen array) →
  ∃ array', ip_fill array (to_table l) = Done array' ∧ length array' = length array
    ∧ (∀ id v, (id, v) ∈ l → array' !! Z.to_nat id = Some (Some v))
    ∧ (∀ k, Z.of_nat k ∉ l.*1 → array' !! k = array !! k).
Proof.
  revert array; induction l as [|[id v] l IH]; intros array Hnd Hr; cbn [to_table List.map ip_fill fst snd].
  { exists array. split_and!; [done | done | | done]. intros id v Hin. by apply elem_of_nil in Hin. }
  cbn in Hnd, Hr. apply NoDup_cons in Hnd as [Hid Hnd].
  assert (0 <= id < zlen array) as Hid' by (apply Hr; set_solver).
  rewrite write_at_insert by done. cbn [obind].
  destruct (IH (<[Z.to_nat id := Some v]> array) Hnd) as (a' & Hf & Hlen & Hin & Hout).
  { intros i Hi. unfold zlen. rewrite length_insert. apply Hr. set_solver. }
  exists a'. split_and!; [done | by rewrite length_insert in Hlen | |].
  - intros i w Hiw. apply elem_of_cons in Hiw as [[= -> ->]|Hiw]; [|by apply Hin].
    rewrite Hout by (by rewrite Z2Nat.id by lia). apply list_lookup_insert_eq. unfold zlen in Hid'. lia.
  - intros k Hk. cbn in Hk. rewrite Hout by set_solver. rewrite list_lookup_insert_ne; [done|].
    intros E. apply Hk. replace (Z.of_nat k) with id by lia. set_solver.
Qed.

Lemma elem_of_ip_array_pairs (array : list (option V)) i q :
  q ∈ ip_array_pairs i array ↔ ∃ k v, array !! k = Some (Some v) ∧ q = (i + Z.of_nat k, Some v).
Proof.
  revert i; induction array as [|c array IH]; intros i; cbn [ip_array_pairs].
  { split; [intros H; by apply elem_of_nil in H | intros (k & v & H & _); by rewrite lookup_nil in H]. }
  assert (q ∈ ip_array_pairs (i + 1) array ↔ ∃ k v, (c :: array) !! S k = Some (Some v) ∧ q = (i + Z.of_nat (S k), Some v)) as IH'.
  { rewrite IH. cbn. split; intros (k & v & ? & ->); exists k, v; (split; [done|]); f_equal; lia. }
  destruct c as [w|]; [rewrite elem_of_cons|]; rewrite IH'; split.
  - intros [->|(k & v & ? & ->)]; [exists 0%nat, w; split; [done|]; f_equal; lia | by exists (S k), v].
  - intros ([|k] & v & Hk & ->); [left; injection Hk as ->; f_equal; lia | right; by exists k, v].
  - intros (k & v & ? & ->). by exists (S k), v.
  - intros ([|k] & v & Hk & ->); [done | by exists k, v].
Qed.

Lemma NoDup_ip_array_pairs (array : list (option V)) i : NoDup (ip_array_pairs i array).
Proof.
  revert i; induction array as [|[w|] array IH]; intros i; cbn [ip_array_pairs]; [constructor | | apply IH].
  apply NoDup_cons. split; [|apply IH]. intros Hin. apply elem_of_ip_array_pairs in Hin as (k & v & _ & E).
  injection E as E _. lia.
Qed.

Lemma NoDup_to_table (l : list (Z * V)) : NoDup l.*1 → NoDup (to_table l).
Proof.
  intros Hnd. apply (NoDup_fmap_1 fst). unfold to_table. rewrite <- list_fmap_compose. apply Hnd.
Qed.

Lemma ip_new_holds (l : list (Z * V)) : kv_ok l → l ≠ [] → ∃ m, _pbcM_ip_new (to_table l) = Done m ∧ ip_holds m l.
Proof.
  intros Hkv Hne. pose proof (ip_new_hash_holds l Hkv Hne) as Hhash. destruct Hkv as [Hnd Hr].
  assert (zlen (to_table l) = zlen l) as Hz by (unfold zlen, to_table; by rewrite length_map).
  unfold _pbcM_ip_new. rewrite Hz. destruct l as [|[id v] l]; [done|].
  change (to_table ((id, v) :: l)) with ((id, Some v) :: to_table l) in *.
  cbv beta iota. case_if; [done|]. destruct (ip_max _ id (to_table l)) as [max|] eqn:Hmax; [|done].
  apply ip_max_spec in Hmax as [Hle Hall].
  assert (∀ i, i ∈ ((id, v) :: l).*1 → 0 <= i < zlen (replicate (Z.to_nat (max + 1)) (@None V))) as Hb.
  { unfold zlen. rewrite length_replicate. intros i Hi. cbn in Hi. apply elem_of_cons in Hi as [->|Hi]; [lia|]. apply Hall in Hi. lia. }
  destruct (ip_fill_spec _ _ Hnd Hb) as (array & Hf & Hlen & Hin & Hout).
  change (to_table ((id, v) :: l)) with ((id, Some v) :: to_table l) in *. rewrite Hf. cbn [obind].
  eexists. split; [done|]. unfold ip_holds, ip_pairs. cbn [ip_array ip_hash_size].
  set (l' := (id, v) :: l) in *. change ((id, Some v) :: to_table l) with (to_table l').
  assert (∀ k w, array !! k = Some (Some w) → (Z.of_nat k, w) ∈ l') as Hback.
  { intros k w Hk. destruct (decide (Z.of_nat k ∈ l'.*1)) as [Hkin|Hkout].
    - apply list_elem_of_fmap in Hkin as ([i' w'] & E & Hin'). cbn in E. subst i'.
      pose proof (Hin _ _ Hin') as Hk'. rewrite Nat2Z.id, Hk in Hk'. injection Hk' as ->. done.
    - rewrite (Hout k Hkout) in Hk. by apply lookup_replicate in Hk as [? _]. }
  split_and!; [done | |].
  - apply NoDup_Permutation; [apply NoDup_ip_array_pairs | by apply NoDup_to_table |]. intros q.
    rewrite elem_of_ip_array_pairs. unfold to_table. rewrite (list_elem_of_fmap (λ p : Z * V, (p.1, Some p.2))). split.
    + intros (k & w & Hk & ->). exists (Z.of_nat k, w). split; [done | auto].
    + intros ([i w] & -> & Hiw). exists (Z.to_nat i), w. split; [auto|]. cbn. f_equal.
      assert (i ∈ l'.*1) as Hi by (apply list_elem_of_fmap; by exists (i, w)). apply Hb in Hi. lia.
  - intros i Hi. unfold _pbcM_ip_query. cbn [ip_array]. destruct ((0 <=? i) && (i <? zlen array)) eqn:Hif; bprop.
    + unfold read_at. rewrite (proj2 (Z.ltb_ge i 0)) by lia.
      destruct (array !! Z.to_nat i) as [[w|]|] eqn:Hk.
      * f_equal. symmetry. apply elem_of_list_to_map; [done|]. apply Hback in Hk. by rewrite Z2Nat.id in Hk by lia.
      * f_equal. symmetry. apply not_elem_of_list_to_map. intros Hi'.
        apply list_elem_of_fmap in Hi' as ([i' w] & E & Hin'). cbn in E. subst i'. rewrite (Hin _ _ Hin') in Hk. done.
      * apply lookup_ge_None in Hk. unfold zlen in *. lia.
    + f_equal. symmetry. apply not_elem_of_list_to_map. intros Hi'. apply Hb in Hi'. unfold zlen in *. rewrite <- Hlen in Hi'.
      destruct Hif; bprop; lia.
Qed.

(** *** Combining two tables *)

Lemma to_table_perm_inv t l : t ≡ₚ to_table l → ∃ l', t = to_table l' ∧ l ≡ₚ l'.
Proof. intros Hp. apply Permutation_map_inv in Hp as (l' & -> & Hl). by exists l'. Qed.

Lemma _inject_pairs t at_ m : _inject t at_ m = write_at t at_ (ip_pairs m).
Proof. unfold _inject, ip_pairs. by destruct (ip_array m). Qed.

Lemma ip_holds_perm m l l' : l ≡ₚ l' → NoDup l.*1 → ip_holds m l → ip_holds m l'.
Proof.
  intros Hp Hnd (Hs & Hpairs & Hq). unfold ip_holds. split_and!.
  - rewrite Hs. unfold zlen. by rewrite Hp.
  - rewrite Hpairs. unfold to_table. by rewrite Hp.
  - intros id Hid. by rewrite Hq, (list_to_map_proper l l').
Qed.

Lemma ip_combine_holds a b la lb : ip_holds a la → ip_holds b lb → kv_ok (la ++ lb) → la ++ lb ≠ [] →
  ∃ m, _pbcM_ip_combine a b = Done m ∧ ip_holds m (la ++ lb).
Proof.
  intros (Hsa & Hpa & _) (Hsb & Hpb & _) Hkv Hne. unfold _pbcM_ip_combine. rewrite !_inject_pairs.
  assert (∀ m l, ip_pairs m ≡ₚ to_table l → length (ip_pairs m) = length l) as Hlen.
  { intros m l ->. unfold to_table. by rewrite length_map. }
  pose proof (Hlen _ _ Hpa) as Hla. pose proof (Hlen _ _ Hpb) as Hlb.
  rewrite Hsa, Hsb. unfold zlen at 1 2.
  replace (Z.to_nat (Z.of_nat (length la) + Z.of_nat (length lb))) with (length la + length lb)%nat by lia.
  rewrite replicate_add. pose proof (write_at_here [] (replicate (length la) (0, @None V)) (replicate (length lb) (0, None)) (ip_pairs a)) as Hw1.
  change (zlen []) with 0 in Hw1. cbn [app] in Hw1. rewrite Hw1 by (rewrite length_replicate; lia). cbn [obind].
  pose proof (write_at_here (ip_pairs a) (replicate (length lb) (0, @None V)) [] (ip_pairs b)) as Hw2.
  rewrite !app_nil_r in Hw2. replace (zlen la) with (zlen (ip_pairs a)) by (unfold zlen; lia).
  rewrite _inject_pairs, Hw2 by (rewrite length_replicate; lia). cbn [obind].
  destruct (to_table_perm_inv (ip_pairs a ++ ip_pairs b) (la ++ lb)) as (l' & -> & Hl').
  { rewrite Hpa, Hpb. unfold to_table. by rewrite map_app. }
  destruct (ip_new_holds l') as (m & -> & Hm).
  - destruct Hkv as [Hnd Hr]. split; by rewrite <- Hl'.
  - intros ->. apply Hne. by apply Permutation_nil_r in Hl'.
  - exists m. split; [done|]. eapply ip_holds_perm; [by symmetry | | done]. rewrite <- Hl'. apply Hkv.
Qed.

End MapIp.

(** ** Properties *)

(** for every non-empty table of names and ids with distinct names,
    [_pbcM_si_new] builds its slots without leaving the array, and every later
    [_pbcM_si_query], for a name of the table or not, ends and answers exactly
    like the finite map from names to ids. *)
Theorem si_query_reference (table : list (Z * list Z)) (key : list Z) :
  table ≠ [] → NoDup table.*2 →
  ∃ m, _pbcM_si_new table = Done m
    ∧ _pbcM_si_query m key = Done ((list_to_map (List.map (λ p, (p.2, p.1)) table) : gmap (list Z) Z) !! key).
Proof.
  intros Hne Hnd. destruct (si_new_ok table) as (sl & Hm & _). exists (MapSi (zlen table) sl). split; [done|].
  set (l := List.map (λ p : Z * list Z, (p.2, p.1)) table).
  assert (l.*1 = table.*2) as Hl by (unfold l; by rewrite <- list_fmap_compose).
  assert (∀ id, (id, key) ∈ table ↔ (key, id) ∈ l) as Hin.
  { intros id. unfold l. rewrite (list_elem_of_fmap (λ p : Z * list Z, (p.2, p.1))). split; [by exists (id, key)|].
    intros ([i k] & [= <- <-] & H). done. }
  destruct (si_query_ok table _ key Hm Hne) as [(id & -> & Hid)|[-> Hno]]; f_equal; symmetry.
  - apply elem_of_list_to_map; [by rewrite Hl | by apply Hin].
  - apply not_elem_of_list_to_map. intros Hk. apply list_elem_of_fmap in Hk as ([k id] & -> & Hk).
    apply Hin in Hk. by apply Hno in Hk.
Qed.

Lemma si_query_reference_witness :
  ∃ m, _pbcM_si_new [(3, [97]); (1, [98; 99]); (2, [])] = Done m
    ∧ _pbcM_si_query m [98; 99]
      = Done ((list_to_map (List.map (λ p, (p.2, p.1)) [(3, [97]); (1, [98; 99]); (2, [])]) : gmap (list Z) Z) !! [98; 99]).
Proof. apply si_query_reference; [done | apply (bool_decide_unpack _); vm_compute; exact I]. Defined.

(** C34: whether [_pbcM_ip_new] chooses the direct array or the hash slots, every
    [_pbcM_ip_query] for an [int] ends inside the table and answers exactly like
    the finite map from ids to pointers the table was built from. *)
Theorem ip_query_reference {V} (l : list (Z * V)) (id : Z) :
  l ≠ [] → kv_ok l → is_s32 id →
  ∃ m, _pbcM_ip_new (to_table l) = Done m
    ∧ _pbcM_ip_query (Some m) id = Done ((list_to_map l : gmap Z V) !! id).
Proof. intros Hne Hkv Hid. destruct (ip_new_holds l Hkv Hne) as (m & Hm & _ & _ & Hq). exists m. auto. Qed.

Lemma ip_query_reference_witness :
  ∃ m, _pbcM_ip_new (to_table [(1, 10); (1000, 20); (4, 30)]) = Done m
    ∧ _pbcM_ip_query (Some m) 1000 = Done ((list_to_map [(1, 10); (1000, 20); (4, 30)] : gmap Z Z) !! 1000).
Proof.
  apply (ip_query_reference [(1, 10); (1000, 20); (4, 30)]); [done | split | width].
  - apply (bool_decide_unpack _). vm_compute. exact I.
  - cbn [app fmap list_fmap fst]. repeat (apply Forall_cons; split; [width|]). by apply Forall_nil.
Defined.

(** combining the tables of two disjoint id sets gives a table that answers
    every query like the union of the two maps. *)
Theorem ip_combine_union {V} (la lb : list (Z * V)) (a b : map_ip V) (id : Z) :
  la ≠ [] → lb ≠ [] → kv_ok (la ++ lb) → is_s32 id →
  _pbcM_ip_new (to_table la) = Done a → _pbcM_ip_new (to_table lb) = Done b →
  ∃ m, _pbcM_ip_combine a b = Done m
    ∧ _pbcM_ip_query (Some m) id = Done ((list_to_map la ∪ list_to_map lb : gmap Z V) !! id).
Proof.
  intros Hna Hnb Hkv Hid Ha Hb. pose proof Hkv as [Hnd Hr]. rewrite fmap_app in Hnd, Hr.
  apply NoDup_app in Hnd as (Hnda & _ & Hndb). apply Forall_app in Hr as [Hra Hrb].
  destruct (ip_new_holds la) as (a' & Ha' & Hha); [split; done | done|].
  destruct (ip_new_holds lb) as (b' & Hb' & Hhb); [split; done | done|]. assert (a' = a) as -> by congruence. assert (b' = b) as -> by congruence.
  destruct (ip_combine_holds a b la lb Hha Hhb Hkv) as (m & Hm & _ & _ & Hq); [by destruct la|].
  exists m. split; [done|]. by rewrite Hq, list_to_map_app.
Qed.

Lemma ip_combine_union_witness :
  ∃ a b m : map_ip Z, _pbcM_ip_combine a b = Done m
    ∧ _pbcM_ip_query (Some m) 500 = Done ((list_to_map [(1, 10); (2, 20)] ∪ list_to_map [(500, 30)] : gmap Z Z) !! 500).
Proof.
  eexists _, _. eapply (ip_combine_union [(1, 10); (2, 20)] [(500, 30)]); [done | done | split | width | vm_compute; reflexivity | vm_compute; reflexivity].
  - apply (bool_decide_unpack _). vm_compute. exact I.
  - cbn [app fmap list_fmap fst]. repeat (apply Forall_cons; split; [width|]). by apply Forall_nil.
Defined.

(** with a repeated id the two layouts of [map_ip] disagree: the direct array
    keeps the last pointer given for the id, the hash slots keep the first. *)
Theorem ip_duplicate_layouts :
  (∃ m, _pbcM_ip_new [(1, Some 10); (1, Some 20)] = Done m ∧ _pbcM_ip_query (Some m) 1 = Done (Some 20))
  ∧ (∃ m, _pbcM_ip_new [(100, Some 10); (100, Some 20)] = Done m ∧ _pbcM_ip_query (Some m) 100 = Done (Some 10)).
Proof. split; eexists; (split; [vm_compute; reflexivity | vm_compute; reflexivity]). Qed.
