(* ===== verification/SpMap.v ===== *)
(** * The growing table of pbc ([struct map_sp] of [3rd/pbc/src/map.c])

    Names to pointers, open to insertion: the slots are doubled when they are
    full.  The component is proved to implement a finite map. *)

From S2P Require Import Prelude Chain PMap.

Record sp_slot (V : Type) := SpSlot { sp_key : option (list Z); sp_hash : Z; sp_pointer : option V; sp_next : Z }.
Arguments SpSlot {V}. Arguments sp_key {V}. Arguments sp_hash {V}. Arguments sp_pointer {V}. Arguments sp_next {V}.

(** [sp_heap]: whether memory comes from a [struct heap]. *)
Record map_sp (V : Type) := MapSp { sp_cap : Z; sp_size : Z; sp_heap : bool; sp_slots : list (sp_slot V) }.
Arguments MapSp {V}. Arguments sp_cap {V}. Arguments sp_size {V}. Arguments sp_heap {V}. Arguments sp_slots {V}.

#[export] Instance sp_chain {V} : ChainSlot (sp_slot V) (list Z * Z * option V).
Proof.
  refine {| s_next := sp_next;
            set_next n s := SpSlot (sp_key s) (sp_hash s) (sp_pointer s) n;
            payload s := match sp_key s with Some k => Some (k, sp_hash s, sp_pointer s) | None => None end |}; done.
Defined.

(** ** The code *)

Section MapSp.
Context {V : Type}.
Implicit Types m : map_sp V.

Definition sp_blank : sp_slot V := SpSlot None 0 None 0.

(** [while (cap < max) cap *= 2]; thirty doublings reach the largest power of
    two an [int] holds. *)
Fixpoint sp_new_cap (fuel : nat) (cap max : Z) : outcome Z :=
  if cap <? max then
    match fuel with
    | O => Fault SignedOverflow
    | S fuel' => sp_new_cap fuel' (cap * 2) max
    end
  else Done cap.

Definition _pbcM_sp_new (max : Z) (h : bool) : outcome (map_sp V) :=
  do! cap <- sp_new_cap 30 1 max;
  Done (MapSp cap 0 h (replicate (Z.to_nat cap) sp_blank)).

(** The slots are freed when they did not come from a heap. *)
Definition _pbcM_sp_delete (map : option (map_sp V)) : bool :=
  match map with
  | Some m => negb (sp_heap m)
  | None => false
  end.

(** The branch of [_pbcM_sp_insert_hash] taken while there is room. *)
Definition sp_insert_free m (key : option (list Z)) (hash_full : Z) (value : option V) : outcome (map_sp V) :=
  let hash := Z.land hash_full (sp_cap m - 1) in
  do! slot <- read_at (sp_slots m) hash;
  do! slots <-
    match sp_key slot with
    | None => Done (<[Z.to_nat hash := SpSlot key hash_full value (sp_next slot)]> (sp_slots m))
    | Some _ =>
        do! e <- find_empty_wrap (length (sp_slots m)) (sp_slots m) (sp_cap m)
                   (Z.land (hash + 1) (sp_cap m - 1));
        Done (link (sp_slots m) (Z.to_nat hash) (Z.to_nat e) (SpSlot key hash_full value 0))
    end;
  Done (MapSp (sp_cap m) (sp_size m + 1) (sp_heap m) slots).

(** The loop of [_pbcM_sp_rehash] over the old slots, for a given insertion. *)
Fixpoint sp_reinsert (ins : map_sp V → option (list Z) → Z → option V → outcome (map_sp V))
    m (old : list (sp_slot V)) : outcome (map_sp V) :=
  match old with
  | [] => Done m
  | s :: rest => do! m <- ins m (sp_key s) (sp_hash s) (sp_pointer s); sp_reinsert ins m rest
  end.

Definition sp_rehash_with ins m : outcome (map_sp V) :=
  let cap := sp_cap m * 2 in
  sp_reinsert ins (MapSp cap 0 (sp_heap m) (replicate (Z.to_nat cap) sp_blank))
    (take (Z.to_nat (sp_size m)) (sp_slots m)).

(** [fuel] bounds the depth of the mutual recursion with [_pbcM_sp_rehash]; one
    level is enough because the doubled table has room. *)
Fixpoint _pbcM_sp_insert_hash (fuel : nat) m (key : option (list Z)) (hash_full : Z) (value : option V)
    : outcome (map_sp V) :=
  if sp_size m <? sp_cap m then sp_insert_free m key hash_full value
  else match fuel with
       | O => Fault OutOfFuel
       | S fuel' =>
           do! m <- sp_rehash_with (_pbcM_sp_insert_hash fuel') m;
           _pbcM_sp_insert_hash fuel' m key hash_full value
       end.

Definition _pbcM_sp_rehash m : outcome (map_sp V) := sp_rehash_with (_pbcM_sp_insert_hash 0) m.

Definition _pbcM_sp_insert m (key : list Z) (value : option V) : outcome (map_sp V) :=
  _pbcM_sp_insert_hash 1 m (Some key) (calc_hash key) value.

(** The pointer returned to the caller is the index of the slot whose [pointer]
    field it addresses. *)
Fixpoint _pbcM_sp_query_insert_hash (fuel : nat) m (key : list Z) (hash_full : Z) : outcome (map_sp V * nat) :=
  let rehash :=
    match fuel with
    | O => Fault OutOfFuel
    | S fuel' => do! m <- _pbcM_sp_rehash m; _pbcM_sp_query_insert_hash fuel' m key hash_full
    end in
  let hash := Z.land hash_full (sp_cap m - 1) in
  do! slot <- read_at (sp_slots m) hash;
  match sp_key slot with
  | None =>
      if sp_cap m <=? sp_size m then rehash
      else Done (MapSp (sp_cap m) (sp_size m + 1) (sp_heap m)
                   (<[Z.to_nat hash := SpSlot (Some key) hash_full (sp_pointer slot) (sp_next slot)]> (sp_slots m)),
                 Z.to_nat hash)
  | Some _ =>
      do! r <- walk (length (sp_slots m)) (sp_slots m)
                 (λ s, slot_matches (sp_key s) (sp_hash s) hash_full key) hash;
      match r with
      | inl (i, _) => Done (m, i)
      | inr (last, _) =>
          if sp_cap m <=? sp_size m then rehash
          else
            do! e <- find_empty_wrap (length (sp_slots m)) (sp_slots m) (sp_cap m)
                       (Z.land (hash + 1) (sp_cap m - 1));
            do! empty_slot <- read_at (sp_slots m) e;
            Done (MapSp (sp_cap m) (sp_size m + 1) (sp_heap m)
                    (link (sp_slots m) last (Z.to_nat e) (SpSlot (Some key) hash_full (sp_pointer empty_slot) 0)),
                  Z.to_nat e)
      end
  end.

Definition _pbcM_sp_query_insert m (key : list Z) : outcome (map_sp V * nat) :=
  _pbcM_sp_query_insert_hash 1 m key (calc_hash key).

(** [*result = value] through the pointer [_pbcM_sp_query_insert] returned. *)
Definition sp_store m (i : nat) (value : option V) : map_sp V :=
  MapSp (sp_cap m) (sp_size m) (sp_heap m)
    (match sp_slots m !! i with
     | Some s => <[i := SpSlot (sp_key s) (sp_hash s) value (sp_next s)]> (sp_slots m)
     | None => sp_slots m
     end).

Definition _pbcM_sp_query (map : option (map_sp V)) (key : list Z) : outcome (option V) :=
  match map with
  | None => Done None
  | Some m =>
      let hash_full := calc_hash key in
      let hash := Z.land hash_full (sp_cap m - 1) in
      do! r <- walk (length (sp_slots m)) (sp_slots m)
                 (λ s, slot_matches (sp_key s) (sp_hash s) hash_full key) hash;
      match r with
      | inl (_, s) => Done (sp_pointer s)
      | inr _ => Done None
      end
  end.

(** The pointers [func] is called with, in order ([_pbcM_sp_foreach_ud] passes
    the same sequence). *)
Definition _pbcM_sp_foreach m : list V := omap sp_pointer (sp_slots m).

(** The first slot from index [i] on whose pointer is not null, or -1. *)
Fixpoint sp_scan (i : Z) (slots : list (sp_slot V)) : Z :=
  match slots with
  | [] => -1
  | s :: rest => match sp_pointer s with Some _ => i | None => sp_scan (i + 1) rest end
  end.

Definition _find_first m : Z := sp_scan 0 (sp_slots m).

Definition _find_next m (key : list Z) : outcome Z :=
  let hash_full := calc_hash key in
  let hash := Z.land hash_full (sp_cap m - 1) in
  do! r <- walk (length (sp_slots m)) (sp_slots m)
             (λ s, slot_matches (sp_key s) (sp_hash s) hash_full key) hash;
  match r with
  | inl (i, _) => Done (sp_scan (Z.of_nat i + 1) (drop (S i) (sp_slots m)))
  | inr _ => Done (-1)
  end.

(** The pointer returned and the new value of [*key]. *)
Definition _pbcM_sp_next (map : option (map_sp V)) (key : option (list Z)) : outcome (option V * option (list Z)) :=
  match map with
  | None => Done (None, None)
  | Some m =>
      do! idx <- match key with None => Done (_find_first m) | Some k => _find_next m k end;
      if idx <? 0 then Done (None, None)
      else do! s <- read_at (sp_slots m) idx; Done (sp_pointer s, sp_key s)
  end.

(** ** Invariant and abstraction *)

Definition sp_home (cap : Z) (p : list Z * Z * option V) : nat := Z.to_nat (p.1.2 mod cap).

Record sp_wf m : Prop := {
  wf_cap : ∃ k, 0 <= k ∧ sp_cap m = 2 ^ k;
  wf_len : zlen (sp_slots m) = sp_cap m;
  wf_table : table_ok (sp_home (sp_cap m)) (sp_slots m);
  wf_size : sp_size m = zlen (entries (sp_slots m));
  wf_hash p : p ∈ entries (sp_slots m) → p.1.2 = calc_hash p.1.1;
  wf_blank i s : sp_slots m !! i = Some s → sp_key s = None → s = sp_blank }.

(** The pairs stored, in slot order, and the finite map they are. *)
Definition sp_assoc m : list (list Z * option V) := List.map (λ p, (p.1.1, p.2)) (entries (sp_slots m)).

Definition sp_abs m : gmap (list Z) (option V) := list_to_map (sp_assoc m).

Definition sp_ok m : Prop := sp_wf m ∧ NoDup (sp_assoc m).*1.

(** ** Lemmas *)

Lemma used_sp_key (s : sp_slot V) : used s = match sp_key s with Some _ => true | None => false end.
Proof. unfold used. cbn. by destruct (sp_key s). Qed.

Lemma wf_pos m : sp_wf m → 0 < sp_cap m.
Proof. intros H. destruct (wf_cap _ H) as (k & Hk & ->). apply Z.pow_pos_nonneg; lia. Qed.

(** [hash & (cap - 1)] is the home slot. *)
Lemma wf_mask m h : sp_wf m → Z.land h (sp_cap m - 1) = h mod sp_cap m.
Proof. intros H. destruct (wf_cap _ H) as (k & Hk & ->). by apply land_low. Qed.

Lemma wf_home_lt m h : sp_wf m → 0 <= h mod sp_cap m < zlen (sp_slots m).
Proof. intros H. rewrite (wf_len _ H). apply Z.mod_pos_bound, wf_pos, H. Qed.

Lemma wf_home_slot m h : sp_wf m →
  ∃ s, sp_slots m !! Z.to_nat (h mod sp_cap m) = Some s ∧ read_at (sp_slots m) (Z.land h (sp_cap m - 1)) = Done s.
Proof.
  intros H. pose proof (wf_home_lt m h H) as Hb. unfold zlen in Hb. set (i := h mod sp_cap m) in *.
  destruct (lookup_lt_is_Some_2 (sp_slots m) (Z.to_nat i)) as (s & Hs); [lia|]. exists s. split; [done|].
  rewrite wf_mask by done. fold i. unfold read_at. rewrite (proj2 (Z.ltb_ge i 0)) by lia. by rewrite Hs.
Qed.

Lemma blank_ok (cap k : Z) h : 0 <= k → cap = 2 ^ k → sp_wf (MapSp cap 0 h (replicate (Z.to_nat cap) sp_blank)).
Proof.
  intros Hk ->. assert (0 < 2 ^ k) by (apply Z.pow_pos_nonneg; lia). split; cbn [sp_cap sp_slots sp_size].
  - eauto.
  - unfold zlen. rewrite length_replicate. lia.
  - by apply empty_ok.
  - by rewrite entries_empty.
  - rewrite entries_empty by done. intros p Hp. by apply elem_of_nil in Hp.
  - intros i s Hs _. by apply lookup_replicate in Hs as [-> _].
Qed.

Lemma sp_new_cap_spec fuel c max : 0 <= c → max <= 2 ^ (c + Z.of_nat fuel) →
  ∃ k, c <= k ∧ sp_new_cap fuel (2 ^ c) max = Done (2 ^ k) ∧ max <= 2 ^ k.
Proof.
  revert c; induction fuel as [|fuel IH]; intros c Hc Hm; cbn [sp_new_cap].
  - rewrite Z.add_0_r in Hm. rewrite (proj2 (Z.ltb_ge _ _)) by lia. exists c. split_and!; [lia | done | done].
  - case_if; [|exists c; split_and!; [lia | done | done]].
    replace (2 ^ c * 2) with (2 ^ (c + 1)) by (rewrite Z.pow_add_r by lia; lia).
    destruct (IH (c + 1)) as (k & Hk & He & Hle); [lia | replace (c + 1 + Z.of_nat fuel) with (c + Z.of_nat (S fuel)) by lia; done |].
    exists k. split_and!; [lia | done | done].
Qed.

Lemma sp_new_ok max h : max <= 2 ^ 30 → ∃ m, _pbcM_sp_new max h = Done m ∧ sp_wf m ∧ sp_assoc m = [] ∧ max <= sp_cap m.
Proof.
  intros Hm. destruct (sp_new_cap_spec 30 0 max) as (k & Hk & He & Hle); [lia | done |].
  unfold _pbcM_sp_new. change (2 ^ 0) with 1 in He. rewrite He. cbn [obind]. eexists. split; [done|].
  split_and!; [by eapply blank_ok | | done]. unfold sp_assoc. cbn [sp_slots]. by rewrite entries_empty.
Qed.

(** Room for an element means an empty slot, which the scan from the slot after
    the home slot finds. *)
Lemma scan_empty m start : sp_wf m → sp_size m < sp_cap m →
  ∃ e se, find_empty_wrap (length (sp_slots m)) (sp_slots m) (sp_cap m) (Z.land start (sp_cap m - 1)) = Done (Z.of_nat e)
    ∧ sp_slots m !! e = Some se ∧ used se = false.
Proof.
  intros Hwf Hlt. rewrite (wf_mask _ _ Hwf). pose proof (wf_home_lt m start Hwf) as Hb.
  pose proof (wf_len _ Hwf) as Hl. rewrite (wf_size _ Hwf), <- Hl in Hlt. unfold zlen in *.
  destruct (free_exists (sp_slots m)) as (j & s & Hj & Hu); [lia|].
  destruct (wf_cap _ Hwf) as (k & Hk & Hcap). rewrite Hcap in *. set (i := start mod 2 ^ k) in *.
  replace i with (Z.of_nat (Z.to_nat i)) by lia. eapply find_empty_wrap_spec; try done; [lia | lia |].
  pose proof (Z.mod_pos_bound (Z.of_nat j - Z.of_nat (Z.to_nat i)) (2 ^ k)). lia.
Qed.

(** Placing an element: in its empty home slot, or in an empty slot linked
    somewhere on the chain of its home slot. *)
Lemma wf_fill m k v s :
  let i := Z.to_nat (calc_hash k mod sp_cap m) in
  sp_wf m → sp_size m < sp_cap m → sp_slots m !! i = Some s → sp_key s = None →
  let m' := MapSp (sp_cap m) (sp_size m + 1) (sp_heap m) (<[i := SpSlot (Some k) (calc_hash k) v (sp_next s)]> (sp_slots m)) in
  sp_wf m' ∧ sp_assoc m' ≡ₚ (k, v) :: sp_assoc m.
Proof.
  intros i Hwf Hlt Hs Hk m'. assert (used s = false) as Hu by (by rewrite used_sp_key, Hk).
  set (new := SpSlot (Some k) (calc_hash k) v (sp_next s)) in *.
  pose proof (entries_new (sp_slots m) i s new _ Hs Hu eq_refl) as He. split.
  - split; cbn [sp_cap sp_slots sp_size m'].
    + by apply wf_cap.
    + unfold zlen. rewrite length_insert. by apply wf_len.
    + eapply (fill_ok _ _ _ _ _ (k, calc_hash k, v)); [by apply wf_table | done | done | done | done | done].
    + rewrite (wf_size _ Hwf). unfold zlen. rewrite (Permutation_length He). cbn [length]. lia.
    + intros p Hp. rewrite He in Hp. apply elem_of_cons in Hp as [->|Hp]; [done | by apply (wf_hash _ Hwf)].
    + intros j sj Hj Hkj. apply list_lookup_insert_Some in Hj as [(_ & <- & _)|(_ & Hj)]; [done | by eapply (wf_blank _ Hwf)].
  - unfold sp_assoc. cbn [sp_slots m']. rewrite He. done.
Qed.

Lemma wf_link m k v h sh e se l :
  sp_wf m → sp_size m < sp_cap m →
  chain (sp_slots m) (Z.to_nat (calc_hash k mod sp_cap m)) l → h ∈ l →
  sp_slots m !! h = Some sh → used sh = true → sp_slots m !! e = Some se → used se = false →
  let m' := MapSp (sp_cap m) (sp_size m + 1) (sp_heap m) (link (sp_slots m) h e (SpSlot (Some k) (calc_hash k) v 0)) in
  sp_wf m' ∧ sp_assoc m' ≡ₚ (k, v) :: sp_assoc m.
Proof.
  intros Hwf Hlt Hc Hin Hh Hus He Hu m'. assert (h ≠ e) as Hne by congruence.
  set (new := SpSlot (Some k) (calc_hash k) v 0) in *.
  pose proof (entries_link (sp_slots m) h e sh se new _ Hh He Hne Hu eq_refl) as Hent. split.
  - split; cbn [sp_cap sp_slots sp_size m'].
    + by apply wf_cap.
    + unfold zlen. rewrite length_link. by apply wf_len.
    + eapply (link_ok _ _ _ _ _ _ _ (k, calc_hash k, v)); [by apply wf_table | done | done | done | done | done | exact Hc | done].
    + rewrite (wf_size _ Hwf). unfold zlen. rewrite (Permutation_length Hent). cbn [length]. lia.
    + intros p Hp. rewrite Hent in Hp. apply elem_of_cons in Hp as [->|Hp]; [done | by apply (wf_hash _ Hwf)].
    + intros j sj Hj Hkj.
      destruct (lookup_link _ _ _ _ _ _ _ _ Hh He Hne Hj) as [(-> & ->)|[(-> & ->)|(_ & _ & Hj')]]; [| done | by eapply (wf_blank _ Hwf)].
      cbn in Hkj. rewrite used_sp_key, Hkj in Hus. done.
  - unfold sp_assoc. cbn [sp_slots m']. rewrite Hent. done.
Qed.

Lemma insert_free_ok m k v : sp_wf m → sp_size m < sp_cap m →
  ∃ m', sp_insert_free m (Some k) (calc_hash k) v = Done m' ∧ sp_wf m' ∧ sp_assoc m' ≡ₚ (k, v) :: sp_assoc m
    ∧ sp_cap m' = sp_cap m ∧ sp_size m' = sp_size m + 1.
Proof.
  intros Hwf Hlt. destruct (wf_home_slot m (calc_hash k) Hwf) as (s & Hs & Hrd).
  unfold sp_insert_free. rewrite Hrd. cbn [obind]. rewrite (wf_mask _ (calc_hash k) Hwf).
  destruct (sp_key s) as [k'|] eqn:Hk.
  - destruct (scan_empty m (calc_hash k mod sp_cap m + 1) Hwf Hlt) as (e & se & -> & He & Hu). cbn [obind]. rewrite Nat2Z.id.
    destruct (ok_chain _ _ (wf_table _ Hwf) _ (lookup_lt_Some _ _ _ Hs)) as (l & Hc).
    destruct (wf_link m k v _ s e se l Hwf Hlt Hc (chain_head _ _ _ Hc) Hs) as [Hwf' Ha]; [by rewrite used_sp_key, Hk | done | done |].
    eexists. split; [done|]. done.
  - cbn [obind]. destruct (wf_fill m k v s Hwf Hlt Hs Hk) as [Hwf' Ha]. eexists. split; [done|]. done.
Qed.

Lemma insert_hash_room fuel m key h v : sp_size m < sp_cap m →
  _pbcM_sp_insert_hash fuel m key h v = sp_insert_free m key h v.
Proof. intros Hlt. destruct fuel; cbn [_pbcM_sp_insert_hash]; by rewrite (proj2 (Z.ltb_lt _ _) Hlt). Qed.

Lemma insert_hash_full fuel m key h v : sp_cap m <= sp_size m →
  _pbcM_sp_insert_hash (S fuel) m key h v
  = (do! m <- sp_rehash_with (_pbcM_sp_insert_hash fuel) m; _pbcM_sp_insert_hash fuel m key h v).
Proof.
  intros Hge. transitivity (if sp_size m <? sp_cap m then sp_insert_free m key h v
    else do! m <- sp_rehash_with (_pbcM_sp_insert_hash fuel) m; _pbcM_sp_insert_hash fuel m key h v); [reflexivity|].
  by rewrite (proj2 (Z.ltb_ge _ _) Hge).
Qed.

(** Reinserting slots in use into a table with room for all of them. *)
Lemma reinsert_ok fuel (old : list (sp_slot V)) m :
  sp_wf m → sp_size m + zlen old <= sp_cap m →
  length (entries old) = length old → (∀ p, p ∈ entries old → p.1.2 = calc_hash p.1.1) →
  ∃ m', sp_reinsert (_pbcM_sp_insert_hash fuel) m old = Done m' ∧ sp_wf m'
    ∧ sp_assoc m' ≡ₚ List.map (λ p, (p.1.1, p.2)) (entries old) ++ sp_assoc m ∧ sp_cap m' = sp_cap m
    ∧ sp_size m' = sp_size m + zlen old.
Proof.
  revert m; induction old as [|s old IH]; intros m Hwf Hroom Hfull Hhash; cbn [sp_reinsert].
  { exists m. rewrite zlen_nil, Z.add_0_r. done. }
  rewrite zlen_cons in Hroom. pose proof (zlen_nonneg old). rewrite entries_cons in Hfull, Hhash. pose proof (entries_le old).
  destruct s as [[k|] h v n]; cbn [payload sp_chain sp_key sp_hash sp_pointer length] in *; [|lia].
  assert (h = calc_hash k) as -> by (apply (Hhash (k, h, v)); set_solver).
  rewrite insert_hash_room by lia. destruct (insert_free_ok m k v Hwf) as (m1 & -> & Hwf1 & Ha1 & Hc1 & Hs1); [lia|]. cbn [obind].
  destruct (IH m1 Hwf1) as (m2 & -> & Hwf2 & Ha2 & Hc2 & Hs2); [lia | lia | intros p Hp; apply Hhash; set_solver |].
  exists m2. split_and!; [done | done | | congruence | rewrite zlen_cons; lia].
  rewrite Ha2, Ha1. rewrite entries_cons. cbn [payload sp_chain sp_key sp_hash sp_pointer List.map app fst snd].
  by rewrite Permutation_middle.
Qed.

Lemma rehash_ok fuel m : sp_wf m → sp_size m = sp_cap m →
  ∃ m', sp_rehash_with (_pbcM_sp_insert_hash fuel) m = Done m' ∧ sp_wf m' ∧ sp_assoc m' ≡ₚ sp_assoc m
    ∧ sp_cap m' = 2 * sp_cap m ∧ sp_size m' = sp_size m.
Proof.
  intros Hwf Hfull. destruct (wf_cap _ Hwf) as (k & Hk & Hcap). pose proof (wf_len _ Hwf) as Hl. pose proof (wf_pos _ Hwf).
  unfold sp_rehash_with. rewrite Hfull.
  rewrite take_ge by (unfold zlen in Hl; lia).
  destruct (reinsert_ok fuel (sp_slots m) (MapSp (sp_cap m * 2) 0 (sp_heap m) (replicate (Z.to_nat (sp_cap m * 2)) sp_blank)))
    as (m' & Hm' & Hwf' & Ha' & Hc' & Hs').
  - apply (blank_ok _ (k + 1)); [lia|]. rewrite Hcap, Z.pow_add_r by lia. lia.
  - cbn [sp_size sp_cap]. lia.
  - rewrite (wf_size _ Hwf) in Hfull. unfold zlen in *. lia.
  - apply (wf_hash _ Hwf).
  - exists m'. cbn [sp_cap sp_size] in *. split_and!; [done | done | | lia | lia].
    rewrite Ha'. unfold sp_assoc at 1. cbn [sp_slots]. rewrite entries_empty by done. by rewrite app_nil_r.
Qed.

(** Insertion, growing the table when it is full. *)
Lemma insert_ok m k v : sp_wf m →
  ∃ m', _pbcM_sp_insert m k v = Done m' ∧ sp_wf m' ∧ sp_assoc m' ≡ₚ (k, v) :: sp_assoc m.
Proof.
  intros Hwf. unfold _pbcM_sp_insert. destruct (Z.lt_ge_cases (sp_size m) (sp_cap m)) as [Hlt|Hge].
  - rewrite insert_hash_room by done. destruct (insert_free_ok m k v Hwf Hlt) as (m' & -> & ? & ? & _). eauto.
  - assert (sp_size m = sp_cap m) as Hfull.
    { pose proof (wf_size _ Hwf) as Hs. pose proof (wf_len _ Hwf) as Hl. pose proof (entries_le (sp_slots m)). unfold zlen in *. lia. }
    rewrite insert_hash_full by done.
    destruct (rehash_ok 0 m Hwf Hfull) as (m1 & -> & Hwf1 & Ha1 & Hc1 & Hs1). cbn [obind]. pose proof (wf_pos _ Hwf).
    rewrite insert_hash_room by lia.
    destruct (insert_free_ok m1 k v Hwf1) as (m2 & -> & Hwf2 & Ha2 & _); [lia|]. exists m2. split_and!; [done | done |]. by rewrite Ha2, Ha1.
Qed.

(** A walk from the home slot of a name. *)
Lemma sp_walk m key s0 :
  sp_wf m → sp_slots m !! Z.to_nat (calc_hash key mod sp_cap m) = Some s0 →
  (sp_key s0 = None → calc_hash key ≠ 0) →
  ∃ l r, chain (sp_slots m) (Z.to_nat (calc_hash key mod sp_cap m)) l
    ∧ walk (length (sp_slots m)) (sp_slots m) (λ s, slot_matches (sp_key s) (sp_hash s) (calc_hash key) key)
        (Z.land (calc_hash key) (sp_cap m - 1)) = Done r
    ∧ match r with
      | inl (j, s) => sp_slots m !! j = Some s ∧ sp_key s = Some key
      | inr (j, s) => j ∈ l ∧ sp_slots m !! j = Some s ∧ key ∉ (sp_assoc m).*1
      end.
Proof.
  intros Hwf Hs0 Hz. set (i := Z.to_nat (calc_hash key mod sp_cap m)) in *.
  pose proof (wf_home_lt m (calc_hash key) Hwf) as Hb.
  destruct (ok_chain _ _ (wf_table _ Hwf) i (lookup_lt_Some _ _ _ Hs0)) as (l & Hc).
  destruct (lookup_walk (sp_home (sp_cap m)) (sp_slots m) (list Z) (λ p, p.1.1) key
             (λ s, slot_matches (sp_key s) (sp_hash s) (calc_hash key) key) i l (length (sp_slots m))) as (r & Hw & Hr).
  - by apply wf_table.
  - done.
  - lia.
  - intros p Hp <-. unfold sp_home, i. by rewrite (wf_hash _ Hwf p Hp).
  - intros j s p Hs Hp. assert (p.1.2 = calc_hash p.1.1) as Hh by (apply (wf_hash _ Hwf), elem_of_entries; eauto).
    cbn in Hp. destruct (sp_key s) as [k|]; [|done]. injection Hp as <-. cbn in Hh. by apply slot_matches_spec.
  - intros s Hs Hu. assert (s0 = s) as -> by congruence. rewrite used_sp_key in Hu. destruct (sp_key s) eqn:Hk; [done|].
    rewrite (wf_blank _ Hwf _ _ Hs Hk). unfold slot_matches. cbn [sp_hash sp_blank sp_key].
    by rewrite (proj2 (Z.eqb_neq 0 _)) by (specialize (Hz eq_refl); lia).
  - exists l, r. split; [done|]. rewrite (wf_mask _ _ Hwf). unfold i in Hw. rewrite Z2Nat.id in Hw by lia. split; [done|].
    destruct r as [[j s]|[j s]].
    + destruct Hr as (p & Hs & Hp & Hk). split; [done|]. cbn in Hp. destruct (sp_key s); [|done]. injection Hp as <-. by cbn in Hk; subst.
    + destruct Hr as (Hj & Hs & _ & Hall). split_and!; [done | done |]. intros Hin.
      apply list_elem_of_fmap in Hin as (q & -> & Hq). unfold sp_assoc in Hq.
      apply list_elem_of_fmap in Hq as (p & -> & Hp). by apply (Hall p Hp).
Qed.

Lemma slot_assoc m i s k : sp_slots m !! i = Some s → sp_key s = Some k → (k, sp_pointer s) ∈ sp_assoc m.
Proof.
  intros Hs Hk. unfold sp_assoc. apply list_elem_of_fmap. exists (k, sp_hash s, sp_pointer s). split; [done|].
  apply elem_of_entries. exists i, s. split; [done|]. cbn. by rewrite Hk.
Qed.

Lemma sp_abs_Some m k p : sp_ok m → (k, p) ∈ sp_assoc m → sp_abs m !! k = Some p.
Proof. intros [_ Hnd]. by apply elem_of_list_to_map. Qed.

Lemma sp_abs_None m k : k ∉ (sp_assoc m).*1 → sp_abs m !! k = None.
Proof. apply not_elem_of_list_to_map. Qed.

(** The home slot of a stored name is in use. *)
Lemma home_used m k p s0 : sp_wf m → (k, p) ∈ sp_assoc m →
  sp_slots m !! Z.to_nat (calc_hash k mod sp_cap m) = Some s0 → sp_key s0 ≠ None.
Proof.
  intros Hwf Hin Hs0 Hk. unfold sp_assoc in Hin. apply list_elem_of_fmap in Hin as ([[k' h] v] & [= -> ->] & Hin).
  pose proof (wf_hash _ Hwf _ Hin) as Hh. cbn in Hh. subst h.
  apply elem_of_entries in Hin as (i & s & Hs & Hp).
  destruct (ok_home _ _ (wf_table _ Hwf) _ _ _ Hs Hp) as (l & Hc & Hil).
  assert (used s0 = false) as Hu by (by rewrite used_sp_key, Hk).
  pose proof (ok_free _ _ (wf_table _ Hwf) _ _ Hs0 Hu) as Hn.
  pose proof (chain_det _ _ _ _ Hc (chain_end _ _ _ Hs0 Hn)) as ->.
  apply list_elem_of_singleton in Hil as ->. assert (s = s0) as -> by (unfold sp_home in Hs; cbn in Hs; congruence).
  cbn in Hp. by rewrite Hk in Hp.
Qed.

Lemma query_ok m key : sp_ok m → calc_hash key ≠ 0 ∨ key ∈ (sp_assoc m).*1 →
  _pbcM_sp_query (Some m) key = Done (mjoin (sp_abs m !! key)).
Proof.
  intros Hok Hor. pose proof Hok as [Hwf _]. destruct (wf_home_slot m (calc_hash key) Hwf) as (s0 & Hs0 & _).
  destruct (sp_walk m key s0 Hwf Hs0) as (l & r & _ & Hw & Hr).
  { intros Hk. destruct Hor as [?|Hin]; [done|]. apply list_elem_of_fmap in Hin as ([k p] & -> & Hin). by eapply home_used in Hk. }
  unfold _pbcM_sp_query. rewrite Hw. cbn [obind]. destruct r as [[j s]|[j s]].
  - destruct Hr as [Hs Hk]. rewrite (sp_abs_Some m key (sp_pointer s) Hok); [done|]. by eapply slot_assoc.
  - destruct Hr as (_ & _ & Hno). by rewrite sp_abs_None.
Qed.

(** The slot where names whose hash is zero are looked for is free. *)
Definition first_free m : bool := match sp_slots m !! 0%nat with Some s => bool_decide (sp_key s = None) | None => false end.

(** The query of any name: one whose hash is zero and that is not there reads the
    null name of the first slot when that is free. *)
Lemma query_any m key : sp_ok m → _pbcM_sp_query (Some m) key =
  match sp_abs m !! key with
  | Some v => Done v
  | None => if (calc_hash key =? 0) && first_free m then Fault NullDeref else Done None
  end.
Proof.
  intros Hok. pose proof Hok as [Hwf _]. destruct (sp_abs m !! key) as [v|] eqn:Ha.
  { rewrite query_ok; [by rewrite Ha|done|]. right. destruct (decide (key ∈ (sp_assoc m).*1)) as [|Hno]; [done|]. apply sp_abs_None in Hno. congruence. }
  destruct (Z.eqb_spec (calc_hash key) 0) as [Hz|Hz]; cbn [andb]; [|rewrite query_ok by auto; by rewrite Ha].
  destruct (wf_home_slot m (calc_hash key) Hwf) as (s0 & Hs0 & Hrd). unfold first_free. pose proof Hs0 as Hs. rewrite Hz, Z.mod_0_l in Hs by (pose proof (wf_pos m Hwf); lia).
  change (Z.to_nat 0) with 0%nat in Hs. rewrite Hs. destruct (sp_key s0) as [k0|] eqn:Hk0.
  - rewrite bool_decide_eq_false_2 by done. destruct (sp_walk m key s0 Hwf Hs0) as (l & r & _ & Hw & Hr); [congruence|].
    unfold _pbcM_sp_query. rewrite Hw. cbn [obind]. destruct r as [[j s]|[j s]]; [|done]. destruct Hr as [Hj Hk].
    rewrite (sp_abs_Some m key (sp_pointer s) Hok) in Ha; [done|]. by eapply slot_assoc.
  - rewrite bool_decide_eq_true_2 by done. unfold _pbcM_sp_query. destruct (length (sp_slots m)); cbn [walk]; rewrite Hrd; cbn [obind];
      unfold slot_matches; by rewrite Hk0, Hz, (wf_blank _ Hwf _ _ Hs0 Hk0).
Qed.

(** [_pbcM_sp_query_insert]: the slot of the name, added when it is not there. *)
Definition query_insert_post m key m' i : Prop :=
  sp_wf m' ∧ ∃ s, sp_slots m' !! i = Some s ∧ sp_key s = Some key ∧
    ((key ∈ (sp_assoc m).*1 ∧ sp_assoc m' ≡ₚ sp_assoc m)
     ∨ (key ∉ (sp_assoc m).*1 ∧ sp_pointer s = None ∧ sp_assoc m' ≡ₚ (key, None) :: sp_assoc m)).

Lemma assoc_entry m k p : (k, p) ∈ sp_assoc m → k ∈ (sp_assoc m).*1.
Proof. intros H. apply list_elem_of_fmap. by exists (k, p). Qed.

Lemma query_insert_room fuel m key : sp_wf m → sp_size m < sp_cap m ∨ key ∈ (sp_assoc m).*1 →
  ∃ m' i, _pbcM_sp_query_insert_hash fuel m key (calc_hash key) = Done (m', i) ∧ query_insert_post m key m' i.
Proof.
  intros Hwf Hor. destruct (wf_home_slot m (calc_hash key) Hwf) as (s0 & Hs0 & Hrd).
  assert (key ∉ (sp_assoc m).*1 → sp_size m < sp_cap m ∧ (sp_cap m <=? sp_size m) = false) as Hroom.
  { intros Hno. destruct Hor as [Hlt|]; [|done]. split; [done|]. by apply Z.leb_gt. }
  destruct fuel as [|fuel]; cbn [_pbcM_sp_query_insert_hash]; rewrite Hrd; cbn [obind]; destruct (sp_key s0) as [k0|] eqn:Hk0.
  2, 4: assert (key ∉ (sp_assoc m).*1) as Hno by (intros Hin; apply list_elem_of_fmap in Hin as ([k p] & -> & Hin); by eapply home_used in Hk0);
        destruct (Hroom Hno) as [Hlt ->]; rewrite (wf_mask _ _ Hwf);
        assert (sp_pointer s0 = None) as Hp0 by (by rewrite (wf_blank _ Hwf _ _ Hs0 Hk0)); rewrite Hp0;
        destruct (wf_fill m key None s0 Hwf Hlt Hs0 Hk0) as [Hwf' Ha];
        eexists _, _; (split; [done|]); split; [done|]; eexists; (split; [apply list_lookup_insert_eq; by apply lookup_lt_Some in Hs0|]);
        (split; [done|]); right; done.
  all: destruct (sp_walk m key s0 Hwf Hs0) as (l & r & Hc & -> & Hr); [by rewrite Hk0|]; cbn [obind]; destruct r as [[j s]|[j s]].
  1, 3: destruct Hr as [Hs Hk]; eexists _, _; (split; [done|]); split; [done|]; exists s; (split; [done|]); (split; [done|]); left;
        split; [|done]; by eapply assoc_entry, slot_assoc.
  all: destruct Hr as (Hj & Hs & Hno); destruct (Hroom Hno) as [Hlt ->]; rewrite (wf_mask _ (calc_hash key) Hwf);
    destruct (scan_empty m (calc_hash key mod sp_cap m + 1) Hwf Hlt) as (e & se & -> & He & Hu); cbn [obind];
    rewrite read_at_nat, He; cbn [obind]; rewrite Nat2Z.id.
  all: assert (used s = true) as Hus by
    (destruct (used s) eqn:Hus; [done|]; exfalso;
     destruct (decide (Z.to_nat (calc_hash key mod sp_cap m) = j)) as [<-|Hji];
     [assert (s = s0) as -> by congruence; by rewrite used_sp_key, Hk0 in Hus
     | by eapply (free_not_in_chain _ _ j s _ l (wf_table _ Hwf))]).
  all: assert (sp_pointer se = None) as Hpe by
    (rewrite (wf_blank _ Hwf _ _ He); [done|]; rewrite used_sp_key in Hu; by destruct (sp_key se)); rewrite Hpe;
    destruct (wf_link m key None j s e se l Hwf Hlt Hc Hj Hs Hus He Hu) as [Hwf' Ha];
    eexists _, _; (split; [done|]); split; [done|]; eexists;
    (split; [apply (link_at_e _ _ _ _ _ _ Hs He); congruence|]); (split; [done|]); right; done.
Qed.

Lemma query_insert_full fuel m key : sp_wf m → sp_size m = sp_cap m → key ∉ (sp_assoc m).*1 →
  _pbcM_sp_query_insert_hash (S fuel) m key (calc_hash key)
  = (do! m <- _pbcM_sp_rehash m; _pbcM_sp_query_insert_hash fuel m key (calc_hash key)).
Proof.
  intros Hwf Hfull Hno. destruct (wf_home_slot m (calc_hash key) Hwf) as (s0 & Hs0 & Hrd).
  set (rhs := do! m <- _pbcM_sp_rehash m; _). cbn [_pbcM_sp_query_insert_hash]. rewrite Hrd. cbn [obind].
  rewrite (proj2 (Z.leb_le (sp_cap m) (sp_size m))) by lia.
  destruct (sp_key s0) as [k0|] eqn:Hk0; [|done].
  destruct (sp_walk m key s0 Hwf Hs0) as (l & r & _ & -> & Hr); [by rewrite Hk0|]. cbn [obind].
  destruct r as [[j s]|[j s]]; [|done]. destruct Hr as [Hs Hk]. exfalso. by eapply Hno, assoc_entry, slot_assoc.
Qed.

Lemma query_insert_ok m key : sp_wf m →
  ∃ m' i, _pbcM_sp_query_insert m key = Done (m', i) ∧ query_insert_post m key m' i.
Proof.
  intros Hwf. unfold _pbcM_sp_query_insert. destruct (decide (key ∈ (sp_assoc m).*1)) as [Hin|Hno].
  { apply query_insert_room; auto. }
  destruct (Z.lt_ge_cases (sp_size m) (sp_cap m)) as [Hlt|Hge]; [apply query_insert_room; auto|].
  assert (sp_size m = sp_cap m) as Hfull.
  { pose proof (wf_size _ Hwf) as Hs. pose proof (wf_len _ Hwf) as Hl. pose proof (entries_le (sp_slots m)). unfold zlen in *. lia. }
  rewrite query_insert_full by done. unfold _pbcM_sp_rehash.
  destruct (rehash_ok 0 m Hwf Hfull) as (m1 & -> & Hwf1 & Ha1 & Hc1 & Hs1). cbn [obind]. pose proof (wf_pos _ Hwf).
  destruct (query_insert_room 0 m1 key Hwf1) as (m' & i & Hq & Hwf' & s & Hs & Hk & Hor); [left; lia|].
  exists m', i. split; [done|]. split; [done|]. exists s. split_and!; [done | done |].
  rewrite !Ha1 in Hor. exact Hor.
Qed.

Lemma query_insert_sp_ok m key m' i : sp_ok m → query_insert_post m key m' i → sp_ok m'.
Proof.
  intros [_ Hnd] (Hwf' & s & _ & _ & [[_ Ha]|(Hno & _ & Ha)]); (split; [done|]); rewrite Ha; [done|].
  cbn. by apply NoDup_cons.
Qed.

(** What storing through a slot's pointer does to the pairs. *)
Lemma store_entries (t : list (sp_slot V)) i s key v : t !! i = Some s → sp_key s = Some key →
  ∃ l1 l2, entries t = l1 ++ (key, sp_hash s, sp_pointer s) :: l2
    ∧ entries (<[i := SpSlot (sp_key s) (sp_hash s) v (sp_next s)]> t) = l1 ++ (key, sp_hash s, v) :: l2.
Proof.
  intros Hs Hk. exists (entries (take i t)), (entries (drop (S i) t)). unfold entries. split.
  - rewrite <- (take_drop_middle t i s Hs) at 1. rewrite omap_app. cbn. by rewrite Hk.
  - rewrite insert_take_drop by (by apply lookup_lt_Some in Hs). rewrite omap_app. cbn. by rewrite Hk.
Qed.

Lemma store_wf m i s key v : sp_wf m → sp_slots m !! i = Some s → sp_key s = Some key → sp_wf (sp_store m i v).
Proof.
  intros [Hcap Hlen Htab Hsize Hhash Hblank] Hs Hk. destruct (store_entries _ i s key v Hs Hk) as (l1 & l2 & E1 & E2).
  unfold sp_store. rewrite Hs. split; cbn [sp_cap sp_slots sp_size].
  - done.
  - unfold zlen. by rewrite length_insert.
  - eapply update_ok; [done | done | done | by rewrite !used_sp_key |]. intros p' Hp'. cbn in *. rewrite Hk in *.
    injection Hp' as <-. eexists. split; done.
  - rewrite E2, Hsize, E1. unfold zlen. rewrite !length_app. done.
  - rewrite E2. rewrite E1 in Hhash. intros p Hp. apply elem_of_app in Hp as [Hp|Hp]; [apply Hhash; set_solver|].
    apply elem_of_cons in Hp as [->|Hp]; [|apply Hhash; set_solver]. apply (Hhash (key, sp_hash s, sp_pointer s)). set_solver.
  - intros j sj Hj Hkj. apply list_lookup_insert_Some in Hj as [(_ & <- & _)|(_ & Hj)]; [cbn in Hkj; congruence | by eapply Hblank].
Qed.

(** The finite map after [*_pbcM_sp_query_insert(map, key) = value]. *)
Lemma store_ok m i s key v : sp_ok m → sp_slots m !! i = Some s → sp_key s = Some key →
  sp_ok (sp_store m i v) ∧ sp_abs (sp_store m i v) = <[key := v]> (sp_abs m).
Proof.
  intros [Hwf Hnd] Hs Hk. pose proof (store_wf m i s key v Hwf Hs Hk) as Hwf'. revert Hwf'.
  destruct (store_entries _ i s key v Hs Hk) as (l1 & l2 & E1 & E2).
  unfold sp_ok, sp_abs, sp_assoc, sp_store in *. rewrite Hs. cbn [sp_slots]. rewrite E2. rewrite E1 in Hnd |- *.
  set (f := λ p : list Z * Z * option V, (p.1.1, p.2)) in *. rewrite !map_app in *. cbn [List.map] in *.
  change (f (key, sp_hash s, sp_pointer s)) with (key, sp_pointer s) in *. change (f (key, sp_hash s, v)) with (key, v).
  intros Hwf'.
  split; [split; [done | exact Hnd]|].
  assert (∀ w, list_to_map (List.map f l1 ++ (key, w) :: List.map f l2) = <[key := w]> (list_to_map (List.map f l1 ++ List.map f l2)) :> gmap (list Z) (option V)) as El.
  { intros w. rewrite <- list_to_map_cons. apply list_to_map_proper; [rewrite fmap_app; exact Hnd | by rewrite Permutation_middle]. }
  by rewrite !El, insert_insert_eq.
Qed.

(** *** Iteration *)

(** The pairs with a non-null pointer, in slot order. *)
Definition sp_live (slots : list (sp_slot V)) : list (list Z * V) :=
  omap (λ s, match sp_key s, sp_pointer s with Some k, Some p => Some (k, p) | _, _ => None end) slots.

(** A pointer that is not null belongs to a slot in use. *)
Lemma pointer_key m i s p : sp_wf m → sp_slots m !! i = Some s → sp_pointer s = Some p → ∃ k, sp_key s = Some k.
Proof.
  intros Hwf Hs Hp. destruct (sp_key s) eqn:Hk; [eauto|]. rewrite (wf_blank _ Hwf _ _ Hs Hk) in Hp. done.
Qed.

Lemma foreach_live m : sp_wf m → _pbcM_sp_foreach m = (sp_live (sp_slots m)).*2.
Proof.
  intros Hwf. assert (∀ s, s ∈ sp_slots m → sp_key s = None → sp_pointer s = None) as Hb.
  { intros s Hin Hk. apply list_elem_of_lookup in Hin as (i & Hi). by rewrite (wf_blank _ Hwf _ _ Hi Hk). }
  unfold _pbcM_sp_foreach. induction (sp_slots m) as [|s l IH]; [done|]. unfold sp_live in *. cbn.
  destruct (sp_key s) eqn:Hk; [|rewrite (Hb s) by set_solver; apply IH; set_solver].
  destruct (sp_pointer s); cbn; [f_equal|]; apply IH; set_solver.
Qed.

Lemma live_assoc m : sp_wf m →
  List.map (λ q, (q.1, Some q.2)) (sp_live (sp_slots m)) = filter (λ q, is_Some q.2) (sp_assoc m).
Proof.
  intros _. unfold sp_assoc, entries, sp_live. induction (sp_slots m) as [|s l IH]; [done|]. cbn.
  destruct (sp_key s) as [k|]; [|done]. cbn. destruct (sp_pointer s) as [p|]; cbn.
  - case_decide as Hd; [by f_equal | exfalso; apply Hd; done].
  - case_decide as Hd; [by destruct Hd | done].
Qed.

(** The scan finds the first live slot. *)
Lemma sp_scan_spec (slots : list (sp_slot V)) i : 0 <= i →
  (sp_scan i slots = -1 ∧ omap sp_pointer slots = [])
  ∨ ∃ j s p, sp_scan i slots = i + Z.of_nat j ∧ slots !! j = Some s ∧ sp_pointer s = Some p
      ∧ omap sp_pointer (take j slots) = [].
Proof.
  revert i; induction slots as [|s l IH]; intros i Hi; cbn; [by left|]. destruct (sp_pointer s) as [p|] eqn:Hp.
  - right. exists 0%nat, s, p. split_and!; [lia | done | done | done].
  - destruct (IH (i + 1)) as [[-> Hl]|(j & s' & p & -> & Hj & Hp' & Ht)]; [lia | by left |].
    right. exists (S j), s', p. split_and!; [lia | done | done |]. cbn. by rewrite Hp.
Qed.

(** The live slots are the entries of the abstract map that are not null, each
    once. *)
Lemma live_abs m k p : sp_ok m → (k, p) ∈ sp_live (sp_slots m) ↔ sp_abs m !! k = Some (Some p).
Proof.
  intros [Hwf Hnd]. transitivity ((k, Some p) ∈ filter (λ q, is_Some q.2) (sp_assoc m)).
  - rewrite <- (live_assoc m Hwf), (list_elem_of_fmap (λ q : list Z * V, (q.1, Some q.2))). split.
    + intros Hin. by exists (k, p).
    + intros ([k' p'] & [= <- <-] & Hin). done.
  - rewrite list_elem_of_filter. unfold sp_abs. rewrite <- elem_of_list_to_map by done. cbn. split; [by intros [_ ?] | by intros ?].
Qed.

Lemma live_nodup m : sp_ok m → NoDup (sp_live (sp_slots m)).*1.
Proof.
  intros [Hwf Hnd]. assert ((sp_live (sp_slots m)).*1 = (filter (λ q, is_Some q.2) (sp_assoc m)).*1) as ->.
  { rewrite <- (live_assoc m Hwf). by rewrite <- list_fmap_compose. }
  eapply sublist_NoDup; [exact Hnd | apply fmap_sublist, sublist_filter].
Qed.

(** Iterating with [_pbcM_sp_next] from a key, until it returns NULL. *)
Fixpoint sp_iterate (fuel : nat) m (key : option (list Z)) : outcome (list (list Z * V)) :=
  match fuel with
  | O => Fault OutOfFuel
  | S fuel' =>
      do! (p, k) <- _pbcM_sp_next (Some m) key;
      match p, k with
      | Some p, Some k => do! rest <- sp_iterate fuel' m (Some k); Done ((k, p) :: rest)
      | _, _ => Done []
      end
  end.

Lemma live_drop m i : sp_wf m →
  omap sp_pointer (drop i (sp_slots m)) = (sp_live (drop i (sp_slots m))).*2.
Proof.
  intros Hwf. assert (∀ s, s ∈ drop i (sp_slots m) → sp_key s = None → sp_pointer s = None) as Hb.
  { intros s Hin Hk. apply list_elem_of_lookup in Hin as (j & Hj). rewrite lookup_drop in Hj. by rewrite (wf_blank _ Hwf _ _ Hj Hk). }
  induction (drop i (sp_slots m)) as [|s l IH]; [done|]. unfold sp_live in *. cbn.
  destruct (sp_key s) eqn:Hk; [|rewrite (Hb s) by set_solver; apply IH; set_solver].
  destruct (sp_pointer s); cbn; [f_equal|]; apply IH; set_solver.
Qed.

(** One step of the iteration that looks at the slots from [i] on. *)
Lemma next_from m i idx key : sp_wf m →
  (match key with None => Done (_find_first m) | Some k => _find_next m k end) = Done idx →
  idx = sp_scan (Z.of_nat i) (drop i (sp_slots m)) →
  (_pbcM_sp_next (Some m) key = Done (None, None) ∧ sp_live (drop i (sp_slots m)) = [])
  ∨ ∃ j s k p, _pbcM_sp_next (Some m) key = Done (Some p, Some k) ∧ sp_slots m !! (i + j)%nat = Some s
      ∧ sp_key s = Some k ∧ sp_pointer s = Some p
      ∧ sp_live (drop i (sp_slots m)) = (k, p) :: sp_live (drop (S (i + j)) (sp_slots m)).
Proof.
  intros Hwf Hidx ->. unfold _pbcM_sp_next. rewrite Hidx. cbn [obind].
  destruct (sp_scan_spec (drop i (sp_slots m)) (Z.of_nat i)) as [[-> Hl]|(j & s & p & -> & Hj & Hp & Ht)]; [lia | |].
  - left. split; [done|]. rewrite (live_drop _ _ Hwf) in Hl. by apply fmap_nil_inv in Hl.
  - right. pose proof Hj as Hj'. rewrite lookup_drop in Hj'. destruct (pointer_key _ _ _ _ Hwf Hj' Hp) as (k & Hk).
    exists j, s, k, p. rewrite (proj2 (Z.ltb_ge _ _)) by lia. rewrite <- Nat2Z.inj_add, read_at_nat, Hj'. cbn [obind].
    rewrite Hp, Hk. split_and!; [done | done | done | done |].
    rewrite <- (take_drop_middle _ _ _ Hj) at 1. unfold sp_live. rewrite omap_app. cbn. rewrite Hk, Hp, drop_drop.
    replace (i + S j)%nat with (S (i + j)) by lia.
    assert (omap (λ s0 : sp_slot V, match sp_key s0, sp_pointer s0 with Some k0, Some p0 => Some (k0, p0) | _, _ => None end)
              (take j (drop i (sp_slots m))) = []) as ->; [|done].
    clear -Ht. induction (take j (drop i (sp_slots m))) as [|x l IH]; [done|]. cbn in *.
    destruct (sp_pointer x); [done|]. destruct (sp_key x); auto.
Qed.

(** The slot of a stored name is found again: names are distinct. *)
Lemma find_next_slot m i s k : sp_ok m → sp_slots m !! i = Some s → sp_key s = Some k →
  _find_next m k = Done (sp_scan (Z.of_nat (S i)) (drop (S i) (sp_slots m))).
Proof.
  intros [Hwf Hnd] Hs Hk. destruct (wf_home_slot m (calc_hash k) Hwf) as (s0 & Hs0 & _).
  destruct (sp_walk m k s0 Hwf Hs0) as (l & r & _ & Hw & Hr).
  { intros Hk0. exfalso. by apply (home_used m k (sp_pointer s) s0 Hwf (slot_assoc _ _ _ _ Hs Hk) Hs0). }
  unfold _find_next. rewrite Hw. cbn [obind]. destruct r as [[j sj]|[j sj]].
  - destruct Hr as [Hj Hkj]. assert (j = i) as ->; [|f_equal; f_equal; lia].
    clear Hw. destruct (decide (j = i)) as [|Hne]; [done|]. exfalso. revert Hnd.
    unfold sp_assoc, entries. clear -Hs Hk Hj Hkj Hne. revert i j Hs Hj Hne. induction (sp_slots m) as [|x t IH]; intros i j Hs Hj Hne Hnd; [done|].
    assert (∀ i s, t !! i = Some s → sp_key s = Some k → k ∈ (List.map (λ p : list Z * Z * option V, (p.1.1, p.2)) (omap payload t)).*1) as Hin.
    { intros i' s' Hi' Hk'. apply list_elem_of_fmap. exists (k, sp_pointer s'). split; [done|]. apply list_elem_of_fmap.
      exists (k, sp_hash s', sp_pointer s'). split; [done|]. apply list_elem_of_omap. exists s'. split; [by eapply list_elem_of_lookup_2|].
      cbn. by rewrite Hk'. }
    destruct i as [|i], j as [|j]; try done; simplify_eq/=.
    + rewrite Hk in Hnd. cbn in Hnd. apply NoDup_cons in Hnd as [Hno _]. by apply Hno, (Hin _ _ Hj).
    + rewrite Hkj in Hnd. cbn in Hnd. apply NoDup_cons in Hnd as [Hno _]. by apply Hno, (Hin _ _ Hs).
    + eapply (IH i j); try done; [lia|]. destruct (sp_key x); [|done]. cbn in Hnd. by apply NoDup_cons in Hnd as [_ ?].
  - destruct Hr as (_ & _ & Hno). exfalso. by apply Hno, (assoc_entry m k (sp_pointer s)), (slot_assoc _ i).
Qed.

Lemma iterate_from fuel m i key : sp_ok m → (length (sp_slots m) - i < fuel)%nat →
  (match key with None => Done (_find_first m) | Some k => _find_next m k end)
    = Done (sp_scan (Z.of_nat i) (drop i (sp_slots m))) →
  sp_iterate fuel m key = Done (sp_live (drop i (sp_slots m))).
Proof.
  intros Hok. revert i key; induction fuel as [|fuel IH]; intros i key Hf Hidx; [lia|]. cbn [sp_iterate].
  destruct (next_from m i _ key (proj1 Hok) Hidx eq_refl) as [[-> ->]|(j & s & k & p & -> & Hs & Hk & Hp & ->)]; [done|].
  cbn [obind]. pose proof (lookup_lt_Some _ _ _ Hs).
  rewrite (IH (S (i + j)) (Some k)); [done | lia | by eapply find_next_slot].
Qed.

End MapSp.

(** ** Sequences of operations *)

(** [OpInsert]: [_pbcM_sp_insert]; [OpSet]: a store through the pointer
    [_pbcM_sp_query_insert] returns. *)
Inductive sp_op (V : Type) :=
  | OpInsert (key : list Z) (value : option V)
  | OpSet (key : list Z) (value : option V).
Arguments OpInsert {V}. Arguments OpSet {V}.

Definition sp_step {V} (m : map_sp V) (op : sp_op V) : outcome (map_sp V) :=
  match op with
  | OpInsert k v => _pbcM_sp_insert m k v
  | OpSet k v => do! (m, i) <- _pbcM_sp_query_insert m k; Done (sp_store m i v)
  end.

Fixpoint sp_run {V} (m : map_sp V) (ops : list (sp_op V)) : outcome (map_sp V) :=
  match ops with
  | [] => Done m
  | op :: rest => do! m <- sp_step m op; sp_run m rest
  end.

Definition op_key {V} (op : sp_op V) : list Z := match op with OpInsert k _ | OpSet k _ => k end.
Definition op_value {V} (op : sp_op V) : option V := match op with OpInsert _ v | OpSet _ v => v end.

(** The abstract map after the operations. *)
Definition spec_run {V} (g : gmap (list Z) (option V)) (ops : list (sp_op V)) : gmap (list Z) (option V) :=
  foldl (λ g op, <[op_key op := op_value op]> g) g ops.

(** [_pbcM_sp_insert] does not look for an existing name: it is called with new
    names only. *)
Fixpoint inserts_fresh {V} (g : gmap (list Z) (option V)) (ops : list (sp_op V)) : bool :=
  match ops with
  | [] => true
  | op :: rest =>
      match op with OpInsert k _ => bool_decide (g !! k = None) | OpSet _ _ => true end
      && inserts_fresh (<[op_key op := op_value op]> g) rest
  end.

Lemma sp_step_ok {V} (m : map_sp V) op : sp_ok m →
  match op with OpInsert k _ => sp_abs m !! k = None | OpSet _ _ => True end →
  ∃ m', sp_step m op = Done m' ∧ sp_ok m' ∧ sp_abs m' = <[op_key op := op_value op]> (sp_abs m).
Proof.
  intros Hok Hfresh. pose proof Hok as [Hwf Hnd]. destruct op as [k v|k v]; cbn [sp_step op_key op_value].
  - destruct (insert_ok m k v Hwf) as (m' & -> & Hwf' & Ha). apply not_elem_of_list_to_map in Hfresh.
    assert (NoDup ((k, v) :: sp_assoc m).*1) as Hnd' by (cbn; by apply NoDup_cons).
    exists m'. split_and!; [done | split; [done | by rewrite Ha] |]. unfold sp_abs. rewrite <- list_to_map_cons.
    apply list_to_map_proper; [by rewrite Ha | done].
  - destruct (query_insert_ok m k Hwf) as (m1 & i & -> & Hpost). cbn [obind].
    pose proof (query_insert_sp_ok _ _ _ _ Hok Hpost) as Hok1. destruct Hpost as (_ & s & Hs & Hk & Hor).
    destruct (store_ok m1 i s k v Hok1 Hs Hk) as [Hok2 Hab]. eexists. split_and!; [done | done |]. rewrite Hab.
    destruct Hor as [[_ Ha]|(Hno & _ & Ha)].
    + f_equal. apply list_to_map_proper; [|done]. apply Hok1.
    + assert (sp_abs m1 = <[k := None]> (sp_abs m)) as ->; [|by rewrite insert_insert_eq].
      unfold sp_abs. rewrite <- list_to_map_cons. apply list_to_map_proper; [apply Hok1 | done].
Qed.

(** Looking up a name that is there. *)
Lemma index_query {V} (g : map_sp V) name v : sp_ok g → sp_abs g !! name = Some v → _pbcM_sp_query (Some g) name = Done v.
Proof.
  intros Hok Hv. rewrite query_ok; [by rewrite Hv | done |]. right.
  destruct (decide (name ∈ (sp_assoc g).*1)) as [|Hno]; [done|]. apply sp_abs_None in Hno. congruence.
Qed.

(** The slot [_pbcM_sp_query_insert] returns holds the pointer of the name, and
    storing through it changes the name only. *)
Lemma query_insert_slot {V} (m : map_sp V) k : sp_ok m →
  ∃ m1 i s, _pbcM_sp_query_insert m k = Done (m1, i) ∧ sp_slots m1 !! i = Some s ∧ sp_pointer s = mjoin (sp_abs m !! k)
    ∧ ∀ v, sp_ok (sp_store m1 i v) ∧ sp_abs (sp_store m1 i v) = <[k := v]> (sp_abs m).
Proof.
  intros Hok. pose proof Hok as [Hwf Hnd]. destruct (query_insert_ok m k Hwf) as (m1 & i & Hq & Hpost).
  pose proof (query_insert_sp_ok _ _ _ _ Hok Hpost) as Hok1. destruct Hpost as (_ & s & Hs & Hk & Hor).
  exists m1, i, s. split; [done|]. split; [done|]. split.
  - destruct Hor as [[_ Ha]|(Hno & Hp & _)]; [|rewrite Hp; apply sp_abs_None in Hno; by rewrite Hno].
    pose proof (slot_assoc m1 i s k Hs Hk) as Hin. rewrite Ha in Hin. by rewrite (sp_abs_Some m k _ Hok Hin).
  - intros v. destruct (sp_step_ok m (OpSet k v) Hok I) as (m2 & Hm2 & Hok2 & Hab2). cbn [sp_step] in Hm2. rewrite Hq in Hm2. cbn [obind] in Hm2.
    injection Hm2 as <-. done.
Qed.

Lemma sp_run_ok {V} (ops : list (sp_op V)) m : sp_ok m → inserts_fresh (sp_abs m) ops = true →
  ∃ m', sp_run m ops = Done m' ∧ sp_ok m' ∧ sp_abs m' = spec_run (sp_abs m) ops.
Proof.
  revert m; induction ops as [|op ops IH]; intros m Hok Hf; cbn [sp_run spec_run foldl inserts_fresh] in *; [eauto|].
  apply andb_true_iff in Hf as [Hf1 Hf2].
  destruct (sp_step_ok m op Hok) as (m1 & -> & Hok1 & Ha1); [destruct op; [by apply bool_decide_eq_true in Hf1 | done]|].
  cbn [obind]. rewrite <- Ha1 in Hf2. destruct (IH m1 Hok1 Hf2) as (m2 & Hr & Hok2 & Ha2). exists m2. by rewrite Ha2, Ha1.
Qed.

Lemma sp_new_run {V} max h (ops : list (sp_op V)) : max <= 2 ^ 30 → inserts_fresh ∅ ops = true →
  ∃ m, (do! m <- _pbcM_sp_new max h; sp_run m ops) = Done m ∧ sp_ok m ∧ sp_abs m = spec_run ∅ ops.
Proof.
  intros Hmax Hf. destruct (sp_new_ok (V := V) max h Hmax) as (m0 & -> & Hwf & Ha & _). cbn [obind].
  assert (sp_abs m0 = ∅) as H0 by (unfold sp_abs; by rewrite Ha).
  rewrite <- H0. apply sp_run_ok; [|by rewrite H0]. split; [done|]. rewrite Ha. constructor.
Qed.

(** ** Properties *)

(** C18: [map_sp] implements a finite map from names to pointers, for insertions
    of names that are not there yet ([_pbcM_sp_insert] does not look for an existing
    name) and stores to any name through [_pbcM_sp_query_insert].  After any sequence
    of these, including all the doublings of the slots it causes, nothing has been
    accessed out of bounds, and [_pbcM_sp_query] answers like the finite map for
    every name, with one exception, stated too: looking up a name that is not there
    and whose hash is zero (the empty name is one) while the first slot is free
    reads the null name of that slot. *)
Theorem sp_refines_map {V} max h (ops : list (sp_op V)) :
  max <= 2 ^ 30 → inserts_fresh ∅ ops = true →
  ∃ m, (do! m <- _pbcM_sp_new max h; sp_run m ops) = Done m
    ∧ ∀ key, _pbcM_sp_query (Some m) key =
        match spec_run ∅ ops !! key with
        | Some v => Done v
        | None => if (calc_hash key =? 0) && first_free m then Fault NullDeref else Done None
        end.
Proof.
  intros Hmax Hf. destruct (sp_new_run max h ops Hmax Hf) as (m & Hr & Hok & Ha).
  exists m. split; [done|]. intros key. rewrite <- Ha. by apply query_any.
Qed.

Lemma sp_refines_map_witness :
  let ops := [OpInsert [97] (Some 1); OpSet [98] (Some 2); OpInsert [99] None; OpSet [97] (Some 4); OpSet [100] (Some 5)] in
  ∃ m, (do! m <- _pbcM_sp_new 2 false; sp_run m ops) = Done m
    ∧ ∀ key, _pbcM_sp_query (Some m) key =
        match spec_run ∅ ops !! key with
        | Some v => Done v
        | None => if (calc_hash key =? 0) && first_free m then Fault NullDeref else Done None
        end.
Proof. apply sp_refines_map; [lia | vm_compute; reflexivity]. Defined.

(** C35: iterating with [_pbcM_sp_next] from [NULL] ends and visits every name
    with a non-null pointer exactly once, in the order [_pbcM_sp_foreach] calls
    its function; no other name is visited. *)
Theorem sp_iteration_complete {V} max h (ops : list (sp_op V)) :
  max <= 2 ^ 30 → inserts_fresh ∅ ops = true →
  ∃ m l, (do! m <- _pbcM_sp_new max h; sp_run m ops) = Done m
    ∧ sp_iterate (S (length (sp_slots m))) m None = Done l
    ∧ NoDup l.*1 ∧ _pbcM_sp_foreach m = l.*2
    ∧ ∀ k p, (k, p) ∈ l ↔ spec_run ∅ ops !! k = Some (Some p).
Proof.
  intros Hmax Hf. destruct (sp_new_run max h ops Hmax Hf) as (m & Hr & Hok & Ha).
  exists m, (sp_live (sp_slots m)). split; [done|]. split_and!.
  - rewrite (iterate_from _ m 0 None); [done | done | lia | done].
  - by apply live_nodup.
  - apply foreach_live, Hok.
  - intros k p. rewrite live_abs by done. by rewrite Ha.
Qed.

Lemma sp_iteration_complete_witness :
  ∃ m l, (do! m <- _pbcM_sp_new 1 true; sp_run m [OpInsert [97] (Some 1); OpInsert [98] None; OpSet [99] (Some 3)]) = Done m
    ∧ sp_iterate (S (length (sp_slots m))) m None = Done l
    ∧ NoDup l.*1 ∧ _pbcM_sp_foreach m = l.*2
    ∧ ∀ k p, (k, p) ∈ l ↔ spec_run ∅ [OpInsert [97] (Some 1); OpInsert [98] None; OpSet [99] (Some 3)] !! k = Some (Some p).
Proof. apply sp_iteration_complete; [lia | vm_compute; reflexivity]. Defined.

(** the hash of the empty name is 0, the hash field of an empty slot:
    looking the empty name up in a table whose first slot is free calls
    [strcmp] on a null pointer instead of answering that it is not there. *)
Theorem sp_query_empty_name_faults {V} max h (m : map_sp V) :
  _pbcM_sp_new max h = Done m → _pbcM_sp_query (Some m) [] = Fault NullDeref.
Proof.
  unfold _pbcM_sp_new. destruct (sp_new_cap 30 1 max) as [cap|] eqn:Hc; [|done]. cbn [obind]. intros [= <-].
  assert (1 <= cap) as Hcap.
  { assert (∀ fuel c, 1 <= c → sp_new_cap fuel c max = Done cap → 1 <= cap) as H; [|by eapply (H 30%nat 1)].
    clear. induction fuel as [|fuel IH]; intros c Hc; cbn [sp_new_cap]; case_if; try done; try (by intros [= <-]).
    apply IH. lia. }
  unfold _pbcM_sp_query. cbn [sp_cap sp_slots].
  change (calc_hash []) with 0. rewrite Z.land_0_l. unfold read_at.
  destruct (Z.to_nat cap) as [|n] eqn:En; [lia|]. rewrite length_replicate. reflexivity.
Qed.

Lemma sp_query_empty_name_faults_witness : ∃ m : map_sp Z, _pbcM_sp_query (Some m) [] = Fault NullDeref.
Proof. eexists. eapply (sp_query_empty_name_faults 4 false). vm_compute. reflexivity. Defined.
