(* ===== verification/Context.v ===== *)
(** * pbc wire contexts ([3rd/pbc/src/context.c], [context.h])

    [_pbcC_open] splits the bytes of a message into atoms: the wire id of each
    field and its value, or the extent of a length-delimited value.  The buffer
    is the list of its bytes and a pointer into it an offset; a read outside the
    list faults.  The scratch array [temp] of the code is uninitialised stack
    memory: its content at the call for the atom [i] is [stk i], an argument of
    the model, and the theorems hold for all of them. *)

From S2P Require Import Prelude Varint.

(** ** The code *)

Definition WT_VARINT : Z := 0.
Definition WT_BIT64 : Z := 1.
Definition WT_LEND : Z := 2.
Definition WT_BIT32 : Z := 5.

Definition PTYPE_DOUBLE : Z := 1.
Definition PTYPE_FLOAT : Z := 2.
Definition PTYPE_INT64 : Z := 3.
Definition PTYPE_UINT64 : Z := 4.
Definition PTYPE_INT32 : Z := 5.
Definition PTYPE_FIXED64 : Z := 6.
Definition PTYPE_FIXED32 : Z := 7.
Definition PTYPE_BOOL : Z := 8.
Definition PTYPE_STRING : Z := 9.
Definition PTYPE_GROUP : Z := 10.
Definition PTYPE_MESSAGE : Z := 11.
Definition PTYPE_BYTES : Z := 12.
Definition PTYPE_UINT32 : Z := 13.
Definition PTYPE_ENUM : Z := 14.
Definition PTYPE_SFIXED32 : Z := 15.
Definition PTYPE_SFIXED64 : Z := 16.
Definition PTYPE_SINT32 : Z := 17.
Definition PTYPE_SINT64 : Z := 18.

(** The union of a [struct slice] and a [struct longlong] is two 32-bit words:
    [start] or [low], then [end] or [hi]. *)
Record atom := Atom { wire_id : Z; word0 : Z; word1 : Z }.

Definition a_start (a : atom) : Z := s32 (word0 a).
Definition a_end (a : atom) : Z := s32 (word1 a).
Definition a_i (a : atom) : longlong := Longlong (word0 a) (word1 a).

#[export] Instance atom_eq_dec : EqDecision atom.
Proof. solve_decision. Defined.

(** [(PBC_CONTEXT_CAP - sizeof(struct context)) / sizeof(struct atom)] on a
    64-bit host: (256 - 24) / 12. *)
Definition INNER_ATOM : Z := 19.

(** What [ctx->a] points to. *)
Inductive atoms_ptr :=
  | NoAtoms
  | InnerAtoms
  | OuterAtoms (o : list (option atom)).

Record context := Ctx {
  c_size : Z;
  c_number : Z;
  c_inner : list (option atom);
  c_ptr : atoms_ptr }.

(** [memcpy] of [n] bytes from offset [pos]. *)
Definition bytes_at (msg : list Z) (pos n : Z) : outcome (list Z) :=
  if (0 <=? pos) && (0 <=? n) && (pos + n <=? zlen msg)
  then Done (take (Z.to_nat n) (drop (Z.to_nat pos) msg))
  else Fault OutOfBounds.

(** [if (cap >= 10) len = _pbcV_decode(buffer, &r); else { memcpy(temp, buffer, cap);
    len = _pbcV_decode(temp, &r); }], with [temp] after it. *)
Definition varint_at (msg : list Z) (pos cap : Z) (temp : list Z) : outcome (Z * longlong * list Z) :=
  if 10 <=? cap then
    do! (len, r) <- _pbcV_decode (drop (Z.to_nat pos) msg);
    Done (len, r, temp)
  else
    do! bs <- bytes_at msg pos cap;
    let temp := bs ++ drop (length bs) temp in
    do! (len, r) <- _pbcV_decode temp;
    Done (len, r, temp).

(** [buffer[0] | buffer[1] << 8 | buffer[2] << 16 | buffer[3] << 24] as 32 bits. *)
Definition read_u32 (msg : list Z) (pos : Z) : outcome Z :=
  do! b0 <- read_at msg pos;
  do! b1 <- read_at msg (pos + 1);
  do! b2 <- read_at msg (pos + 2);
  do! b3 <- read_at msg (pos + 3);
  Done (u32 (Z.lor (Z.lor (Z.lor b0 (Z.shiftl b1 8)) (Z.shiftl b2 16)) (Z.shiftl b3 24))).

(** The offset of the byte after the field and its atom, or [None] for NULL. *)
Definition wiretype_decode (msg : list Z) (pos cap : Z) (start : Z) (temp : list Z) : outcome (option (Z * atom)) :=
  do! (len, r, temp) <- varint_at msg pos cap temp;
  if ((cap <? 10) && (cap <? len)) || negb (hi r =? 0) then Done None
  else
    let wiretype := Z.land (low r) 7 in
    let wire_id := s32 (low r) in
    let pos := pos + len in
    let start := start + len in
    let cap := cap - len in
    if wiretype =? WT_VARINT then
      do! (len, r, _) <- varint_at msg pos cap temp;
      if (cap <? 10) && (cap <? len) then Done None
      else Done (Some (pos + len, Atom wire_id (low r) (hi r)))
    else if wiretype =? WT_BIT64 then
      if cap <? 8 then Done None
      else
        do! l <- read_u32 msg pos;
        do! h <- read_u32 msg (pos + 4);
        Done (Some (pos + 8, Atom wire_id l h))
    else if wiretype =? WT_LEND then
      do! (len, r, _) <- varint_at msg pos cap temp;
      if (u32 cap <? u32 (len + low r)) || negb (hi r =? 0) then Done None
      else Done (Some (pos + len + low r,
                       Atom wire_id (u32 (start + len)) (u32 (start + len + low r))))
    else if wiretype =? WT_BIT32 then
      if cap <? 4 then Done None
      else
        do! l <- read_u32 msg pos;
        Done (Some (pos + 4, Atom wire_id l 0))
    else Done None.

(** The state of the loops of [_pbcC_open]: offset, remaining size, [start], [i]. *)
Record cursor := Cursor { cu_pos : Z; cu_size : Z; cu_start : Z; cu_i : Z }.

Definition advance (c : cursor) (next : Z) (i : Z) : cursor :=
  let d := next - cu_pos c in
  Cursor next (s32 (cu_size c - d)) (s32 (cu_start c + d)) i.

(** [for (i=0;i<INNER_ATOM;i++)]: [n] iterations are left.  [inr i] is the early
    [return -i]. *)
Fixpoint open_inner (n : nat) (msg : list Z) (stk : Z → list Z) (inner : list (option atom)) (c : cursor)
    : outcome (list (option atom) * cursor + Z) :=
  match n with
  | O => Done (inl (inner, c))
  | S n' =>
      if cu_size c =? 0 then Done (inl (inner, c))
      else
        do! r <- wiretype_decode msg (cu_pos c) (cu_size c) (cu_start c) (stk (cu_i c));
        match r with
        | None => Done (inr (- cu_i c))
        | Some (next, a) =>
            do! inner <- write_at inner (cu_i c) [Some a];
            open_inner n' msg stk inner (advance c next (cu_i c + 1))
        end
  end.

(** [while (size > 0)] over the allocated array. *)
Fixpoint open_outer (fuel : nat) (msg : list Z) (stk : Z → list Z) (outer : list (option atom)) (c : cursor)
    : outcome (list (option atom) * cursor + Z) :=
  if cu_size c <=? 0 then Done (inl (outer, c))
  else match fuel with
       | O => Fault OutOfFuel
       | S fuel' =>
           if zlen outer <=? cu_i c then
             open_outer fuel' msg stk (outer ++ replicate 64 None) c
           else
             do! r <- wiretype_decode msg (cu_pos c) (cu_size c) (cu_start c) (stk (cu_i c));
             match r with
             | None => Done (inr (- cu_i c))
             | Some (next, a) =>
                 do! outer <- write_at outer (cu_i c) [Some a];
                 open_outer fuel' msg stk outer (advance c next (cu_i c + 1))
             end
       end.

(** [memcpy(ctx->a, a, sizeof(struct atom) * INNER_ATOM)] *)
Definition copy_inner (outer inner : list (option atom)) : outcome (list (option atom)) :=
  write_at outer 0 inner.

(** The return value and the context; [None] for a NULL buffer.  The early
    returns leave [number] unset; no caller reads it then. *)
Definition _pbcC_open (buffer : option (list Z)) (size : Z) (stk : Z → list Z) : outcome (Z * context) :=
  let blank := replicate (Z.to_nat INNER_ATOM) None in
  match buffer with
  | None => Done (0, Ctx size 0 blank NoAtoms)
  | Some msg =>
      if size =? 0 then Done (0, Ctx size 0 blank NoAtoms)
      else
        do! r <- open_inner (Z.to_nat INNER_ATOM) msg stk blank (Cursor 0 size 0 0);
        match r with
        | inr e => Done (e, Ctx size 0 blank InnerAtoms)
        | inl (inner, c) =>
            if 0 <? cu_size c then
              do! r <- open_outer (2 * Z.to_nat size) msg stk (replicate 64 None) c;
              match r with
              | inr e => Done (e, Ctx size 0 inner (OuterAtoms []))
              | inl (outer, c) =>
                  do! outer <- copy_inner outer inner;
                  Done (cu_i c, Ctx size (cu_i c) inner (OuterAtoms outer))
              end
            else Done (cu_i c, Ctx size (cu_i c) inner InnerAtoms)
        end
  end.

(** Whether the atoms are freed. *)
Definition _pbcC_close (ctx : context) : context * bool :=
  match c_ptr ctx with
  | OuterAtoms _ => (Ctx (c_size ctx) (c_number ctx) (c_inner ctx) NoAtoms, true)
  | _ => (ctx, false)
  end.

(** [ctx->a[i]] *)
Definition ctx_atom (ctx : context) (i : Z) : outcome atom :=
  do! c <- match c_ptr ctx with
           | NoAtoms => Fault NullDeref
           | InnerAtoms => read_at (c_inner ctx) i
           | OuterAtoms o => read_at o i
           end;
  match c with
  | Some a => Done a
  | None => Fault OutOfBounds
  end.

(** ** The reference: the wire format, field by field *)

(** Length of the varint at the head of [l], at most [n] bytes. *)
Fixpoint vspan (n : nat) (l : list Z) : option nat :=
  match n, l with
  | S n', b :: l' => if b <? 128 then Some 1%nat else S <$> vspan n' l'
  | _, _ => None
  end.

(** Ten continuation bytes count as the value 0. *)
Definition get_varint (l : list Z) : option (Z * longlong) :=
  match vspan 10 l with
  | Some k => Some (Z.of_nat k, ll_of (varint_val (take k l)))
  | None => if 10 <=? zlen l then Some (10, Longlong 0 0) else None
  end.

(** A field: its length and atom, a malformed field, or a length prefix that is
    cut off or exceeds what the code's 32-bit sum can hold. *)
Inductive field_res :=
  | FOk (len : Z) (a : atom)
  | FBad
  | FWrap.

Definition ref_field (l : list Z) (start : Z) : field_res :=
  match get_varint l with
  | None => FBad
  | Some (n, r) =>
      if negb (hi r =? 0) then FBad
      else
        let l' := drop (Z.to_nat n) l in
        let id := s32 (low r) in
        let wt := low r mod 8 in
        if wt =? WT_VARINT then
          match get_varint l' with
          | None => FBad
          | Some (m, v) => FOk (n + m) (Atom id (low v) (hi v))
          end
        else if wt =? WT_BIT64 then
          if zlen l' <? 8 then FBad
          else FOk (n + 8) (Atom id (le_join (take 4 l')) (le_join (take 4 (drop 4 l'))))
        else if wt =? WT_LEND then
          match get_varint l' with
          | None => FWrap
          | Some (m, v) =>
              if negb (hi v =? 0) then FBad
              else if 2 ^ 32 <=? m + low v then FWrap
              else if zlen l' <? m + low v then FBad
              else FOk (n + m + low v) (Atom id (start + n + m) (start + n + m + low v))
          end
        else if wt =? WT_BIT32 then
          if zlen l' <? 4 then FBad
          else FOk (n + 4) (Atom id (le_join (take 4 l')) 0)
        else FBad
  end.

(** A message: its atoms, or how many fields precede the bad one. *)
Inductive parse_res :=
  | POk (atoms : list atom)
  | PBad (before : Z)
  | PWrap.

#[export] Instance parse_res_eq_dec : EqDecision parse_res.
Proof. solve_decision. Defined.

Definition parse_cons (a : atom) (r : parse_res) : parse_res :=
  match r with
  | POk l => POk (a :: l)
  | PBad n => PBad (n + 1)
  | PWrap => PWrap
  end.

Fixpoint ref_parse (fuel : nat) (l : list Z) (start : Z) : parse_res :=
  match l, fuel with
  | [], _ => POk []
  | _, O => PBad 0
  | _, S fuel' =>
      match ref_field l start with
      | FOk len a => parse_cons a (ref_parse fuel' (drop (Z.to_nat len) l) (start + len))
      | FBad => PBad 0
      | FWrap => PWrap
      end
  end.

(** Every field takes at least a byte, so the length is fuel enough. *)
Definition parse (l : list Z) : parse_res := ref_parse (length l) l 0.

(** ** Lemmas *)

Lemma vspan_Some n l k : bytes_ok l → vspan n l = Some k →
  is_varint (take k l) = true ∧ (1 <= k <= n)%nat ∧ (k <= length l)%nat.
Proof.
  revert l k; induction n as [|n IH]; intros l k Hl; cbn [vspan]; [done|]. destruct l as [|b l]; [done|].
  apply Forall_cons_1 in Hl as [Hb Hl]. destruct (Z.ltb_spec b 128) as [Hlt|Hge].
  - intros [= <-]. rewrite firstn_cons, take_0; cbn [is_varint length]. rewrite andb_true_iff, Z.leb_le, Z.ltb_lt. unfold is_u8 in Hb. lia.
  - destruct (vspan n l) as [k'|] eqn:E; [|done]. intros [= <-]. destruct (IH _ _ Hl E) as (Hv & Hk & Hkl).
    cbn [firstn length]. split; [|lia]. destruct (take k' l) as [|b' l'] eqn:Et; [done|].
    rewrite is_varint_cons2, Hv. rewrite !andb_true_iff, Z.leb_le, Z.ltb_lt. unfold is_u8 in Hb. lia.
Qed.

Lemma vspan_None n l : bytes_ok l → vspan n l = None → Forall (λ b, 128 <= b < 256) (take n l).
Proof.
  revert l; induction n as [|n IH]; intros l Hl; cbn [vspan firstn]; [constructor|]. destruct l as [|b l]; [constructor|].
  apply Forall_cons_1 in Hl as [Hb Hl]. destruct (Z.ltb_spec b 128); [done|]. destruct (vspan n l) eqn:E; [done|].
  intros _. constructor; [unfold is_u8 in Hb; lia | auto].
Qed.

Lemma vspan_app n l rest k : vspan n l = Some k → vspan n (l ++ rest) = Some k.
Proof.
  revert l k; induction n as [|n IH]; intros l k; cbn [vspan]; [done|]. destruct l as [|b l]; [done|]. cbn [app].
  destruct (b <? 128); [done|]. destruct (vspan n l) as [k'|] eqn:E; [|done]. by rewrite (IH _ _ E).
Qed.

(** Decoding what [get_varint] accepts; bytes after it do not matter. *)
Lemma decode_get l len r rest : bytes_ok l → get_varint l = Some (len, r) →
  _pbcV_decode (l ++ rest) = Done (len, r) ∧ 1 <= len <= 10 ∧ len <= zlen l.
Proof.
  intros Hl. unfold get_varint. destruct (vspan 10 l) as [k|] eqn:E.
  - intros [= <- <-]. destruct (vspan_Some _ _ _ Hl E) as (Hv & Hk & Hkl). unfold zlen. split; [|lia].
    rewrite <- (take_drop k l) at 1. rewrite <- app_assoc, decode_spec; [|done|unfold zlen; rewrite length_take; lia].
    f_equal. f_equal. unfold zlen. rewrite length_take. lia.
  - case_if; [|done]. intros [= <- <-]. split; [|lia]. rewrite <- (take_drop 10 l), <- app_assoc.
    apply decode_overlong; [rewrite length_take; unfold zlen in Hif; lia | by apply vspan_None].
Qed.

(** A varint that is cut off: the decoder runs into what follows and reports
    more bytes than there are. *)
Lemma decode_cut l g : bytes_ok l → bytes_ok g → get_varint l = None → zlen (l ++ g) = 10 →
  ∃ len r, _pbcV_decode (l ++ g) = Done (len, r) ∧ zlen l < len <= 10 ∧ is_u32 (low r) ∧ is_u32 (hi r).
Proof.
  intros Hl Hg Hn Hlen. unfold get_varint in Hn. destruct (vspan 10 l) eqn:E; [done|]. destruct (Z.leb_spec 10 (zlen l)); [done|].
  assert (bytes_ok (l ++ g)) as Hlg by (by apply Forall_app).
  destruct (get_varint (l ++ g)) as [[len r]|] eqn:Eg.
  - destruct (decode_get _ _ _ [] Hlg Eg) as (Hd & Hb & _). rewrite app_nil_r in Hd. exists len, r. split; [done|].
    unfold get_varint in Eg. destruct (vspan 10 (l ++ g)) as [k|] eqn:E2.
    + injection Eg as <- <-. split; [|split; cbn; apply u32_range]. split; [|lia].
      destruct (Z.lt_ge_cases (zlen l) (Z.of_nat k)) as [|Hge]; [done|]. exfalso.
      destruct (vspan_Some _ _ _ Hlg E2) as (Hv & Hk & _).
      assert (vspan 10 l = Some k) as Hc; [|congruence]. clear -E2 Hge Hk. unfold zlen in Hge.
      assert (k <= length l)%nat as Hge' by lia. clear Hge Hk. generalize dependent 10%nat. intros n. revert n k Hge'.
      induction l as [|b l IH]; intros n k Hkl E2; [destruct k; [destruct n, g; cbn in E2; try done; destruct (_ <? 128); [done|]; by destruct (vspan n g) | cbn in Hkl; lia]|].
      destruct n as [|n]; [done|]. cbn [vspan app] in *. destruct (b <? 128); [done|].
      destruct (vspan n (l ++ g)) as [k'|] eqn:E3; [|done]. injection E2 as <-. cbn [length] in Hkl. rewrite (IH n k'); [done | lia | done].
    + destruct (10 <=? zlen (l ++ g)); [|done]. injection Eg as <- <-. split; [lia|]. split; cbn; width.
  - exfalso. unfold get_varint in Eg. destruct (vspan 10 (l ++ g)); [done|]. rewrite Hlen in Eg. done.
Qed.

(** The scratch array holds ten arbitrary bytes. *)
Definition stack_ok (temp : list Z) : Prop := bytes_ok temp ∧ length temp = 10%nat.

Lemma zlen_drop {A} (l : list A) n : 0 <= n <= zlen l → zlen (drop (Z.to_nat n) l) = zlen l - n.
Proof. unfold zlen. intros. rewrite length_drop. lia. Qed.

Lemma bytes_at_app pre bs post : bytes_at (pre ++ bs ++ post) (zlen pre) (zlen bs) = Done bs.
Proof.
  unfold bytes_at. pose proof (zlen_nonneg pre). pose proof (zlen_nonneg bs). pose proof (zlen_nonneg post).
  rewrite (proj2 (Z.leb_le 0 (zlen pre))), (proj2 (Z.leb_le 0 (zlen bs))), (proj2 (Z.leb_le (_ + _) _)) by (rewrite ?zlen_app; lia).
  cbn [andb]. unfold zlen. by rewrite !Nat2Z.id, drop_app_length, take_app_length.
Qed.

(** Below, [tail] is what follows the message in memory. *)
Lemma drop_tail {A} (msg tail : list A) pos : 0 <= pos <= zlen msg → drop (Z.to_nat pos) (msg ++ tail) = drop (Z.to_nat pos) msg ++ tail.
Proof. intros Hp. apply drop_app_le. unfold zlen in Hp. lia. Qed.

Lemma bytes_at_end msg tail pos cap : 0 <= pos → 0 <= cap → pos + cap = zlen msg →
  bytes_at (msg ++ tail) pos cap = Done (drop (Z.to_nat pos) msg).
Proof.
  intros Hp Hc He. unfold bytes_at. pose proof (zlen_nonneg tail). rewrite zlen_app.
  rewrite (proj2 (Z.leb_le _ _)), (proj2 (Z.leb_le _ _)), (proj2 (Z.leb_le _ _)) by lia. cbn [andb]. f_equal.
  rewrite drop_tail by lia. apply take_app_length'. rewrite length_drop. unfold zlen in He. lia.
Qed.

Lemma ll_words_range l len r : get_varint l = Some (len, r) → is_u32 (low r) ∧ is_u32 (hi r).
Proof.
  unfold get_varint. destruct (vspan 10 l); [intros [= <- <-]; split; apply u32_range|].
  case_if; [|done]. intros [= <- <-]. split; cbn; width.
Qed.

Lemma varint_at_spec msg tail pos cap temp : bytes_ok msg → stack_ok temp → 0 <= pos → 0 <= cap → pos + cap = zlen msg →
  match get_varint (drop (Z.to_nat pos) msg) with
  | Some (len, r) => ∃ temp', varint_at (msg ++ tail) pos cap temp = Done (len, r, temp') ∧ stack_ok temp' ∧ 1 <= len <= cap
  | None => ∃ len r temp', varint_at (msg ++ tail) pos cap temp = Done (len, r, temp') ∧ cap < 10 ∧ cap < len <= 10
              ∧ is_u32 (low r)
  end.
Proof.
  intros Hm [Ht Htl] Hp Hc He. pose proof (bytes_ok_drop (Z.to_nat pos) _ Hm) as Hd.
  assert (zlen (drop (Z.to_nat pos) msg) = cap) as Hcap by (rewrite zlen_drop; lia).
  unfold varint_at. destruct (Z.leb_spec 10 cap) as [Hge|Hlt].
  - destruct (get_varint (drop (Z.to_nat pos) msg)) as [[len r]|] eqn:Eg.
    + destruct (decode_get _ _ _ tail Hd Eg) as (Hdec & Hb & Hl). rewrite drop_tail by lia. rewrite Hdec. cbn [obind].
      exists temp. split; [done|]. split; [by split | lia].
    + exfalso. unfold get_varint in Eg. destruct (vspan 10 _); [done|]. rewrite Hcap, (proj2 (Z.leb_le _ _) Hge) in Eg. done.
  - rewrite bytes_at_end by lia. cbn [obind]. set (t := drop (Z.to_nat pos) msg) in *.
    assert (stack_ok (t ++ drop (length t) temp)) as Hs.
    { split; [apply Forall_app; split; [done | by apply bytes_ok_drop] |]. rewrite length_app, length_drop. unfold zlen in Hcap. lia. }
    destruct (get_varint t) as [[len r]|] eqn:Eg.
    + destruct (decode_get _ _ _ (drop (length t) temp) Hd Eg) as (Hdec & Hb & Hl). rewrite Hdec. cbn [obind].
      eexists. split; [done|]. split; [done|]. lia.
    + destruct (decode_cut t (drop (length t) temp) Hd) as (len & r & Hdec & Hb & Hw & _); [by apply bytes_ok_drop | done | |].
      { destruct Hs as [_ Hs]. unfold zlen. by rewrite Hs. }
      rewrite Hdec. cbn [obind]. eexists _, _, _. split; [done|]. split; [done|]. split; [lia | done].
Qed.

Lemma shiftl_bytes b0 b1 b2 b3 : is_u8 b0 → is_u8 b1 → is_u8 b2 → is_u8 b3 →
  Z.lor (Z.lor (Z.lor b0 (Z.shiftl b1 8)) (Z.shiftl b2 16)) (Z.shiftl b3 24) = le_join [b0; b1; b2; b3].
Proof.
  unfold is_u8. intros. rewrite (lor_shiftl_add b0 b1 8), (lor_shiftl_add _ b2 16), (lor_shiftl_add _ b3 24) by lia.
  cbn [le_join]. lia.
Qed.

Lemma read_u32_spec msg pos : bytes_ok msg → 0 <= pos → pos + 4 <= zlen msg →
  read_u32 msg pos = Done (le_join (take 4 (drop (Z.to_nat pos) msg))).
Proof.
  intros Hm Hp Hl. pose proof (bytes_ok_drop (Z.to_nat pos) _ Hm) as Hd.
  assert (∀ k, read_at msg (pos + Z.of_nat k) = match drop (Z.to_nat pos) msg !! k with Some a => Done a | None => Fault OutOfBounds end) as Hr.
  { intros k. replace (pos + Z.of_nat k) with (Z.of_nat (Z.to_nat pos + k)) by lia. by rewrite read_at_nat, lookup_drop. }
  pose proof (Hr 0%nat) as H0. pose proof (Hr 1%nat) as H1. pose proof (Hr 2%nat) as H2. pose proof (Hr 3%nat) as H3.
  change (Z.of_nat 0) with 0 in H0. rewrite Z.add_0_r in H0.
  change (Z.of_nat 1) with 1 in H1. change (Z.of_nat 2) with 2 in H2. change (Z.of_nat 3) with 3 in H3.
  unfold read_u32. rewrite H0, H1, H2, H3.
  assert (4 <= length (drop (Z.to_nat pos) msg))%nat as Hlen by (rewrite length_drop; unfold zlen in Hl; lia).
  destruct (drop (Z.to_nat pos) msg) as [|b0 [|b1 [|b2 [|b3 t]]]]; cbn [length] in Hlen; try lia.
  repeat (apply Forall_cons_1 in Hd as [? Hd]). cbn [lookup list_lookup obind firstn]. rewrite shiftl_bytes by done.
  f_equal. rewrite u32_id; [done|]. pose proof (le_join_range [b0; b1; b2; b3]) as Hj. change (256 ^ zlen [b0; b1; b2; b3]) with (2 ^ 32) in Hj.
  unfold is_u32. apply Hj. repeat (apply Forall_cons; split; [done|]). constructor.
Qed.

Lemma read_u32_tail msg tail pos : bytes_ok msg → 0 <= pos → pos + 4 <= zlen msg →
  read_u32 (msg ++ tail) pos = Done (le_join (take 4 (drop (Z.to_nat pos) msg))).
Proof.
  intros Hm Hp Hl. rewrite <- (read_u32_spec msg pos) by done. unfold read_u32.
  assert (∀ i, 0 <= i < zlen msg → read_at (msg ++ tail) i = read_at msg i) as Hr.
  { intros i Hi. unfold read_at. case_if; [done|]. rewrite lookup_app_l; [done|]. unfold zlen in Hi. lia. }
  by rewrite !Hr by lia.
Qed.

(** One field, for every content of the scratch array. *)
Lemma wiretype_decode_spec msg tail pos cap temp :
  bytes_ok msg → stack_ok temp → 0 <= pos → 0 <= cap → pos + cap = zlen msg → zlen msg < 2 ^ 31 →
  match ref_field (drop (Z.to_nat pos) msg) pos with
  | FOk len a => wiretype_decode (msg ++ tail) pos cap pos temp = Done (Some (pos + len, a)) ∧ 1 <= len <= cap
  | FBad => wiretype_decode (msg ++ tail) pos cap pos temp = Done None
  | FWrap => True
  end.
Proof.
  intros Hm Ht Hp Hc He Hsz. unfold ref_field, wiretype_decode.
  pose proof (varint_at_spec msg tail pos cap temp Hm Ht Hp Hc He) as Hv.
  destruct (get_varint (drop (Z.to_nat pos) msg)) as [[n r]|].
  2: { destruct Hv as (len & r & t' & -> & H10 & Hcl & _). cbn [obind].
       by rewrite (proj2 (Z.ltb_lt cap 10)), (proj2 (Z.ltb_lt cap len)) by lia. }
  destruct Hv as (t' & -> & Ht' & Hn). cbn [obind]. rewrite (proj2 (Z.ltb_ge cap n)), andb_false_r by lia. cbn [orb].
  destruct (negb (hi r =? 0)); [done|]. rewrite land_7.
  assert (drop (Z.to_nat n) (drop (Z.to_nat pos) msg) = drop (Z.to_nat (pos + n)) msg) as Edrop.
  { rewrite drop_drop. f_equal. lia. }
  rewrite Edrop. assert (zlen (drop (Z.to_nat (pos + n)) msg) = cap - n) as Hlen by (rewrite zlen_drop; lia).
  pose proof (varint_at_spec msg tail (pos + n) (cap - n) t' Hm Ht' ltac:(lia) ltac:(lia) ltac:(lia)) as Hv2.
  rewrite Hlen. destruct (low r mod 8 =? WT_VARINT).
  { destruct (get_varint (drop (Z.to_nat (pos + n)) msg)) as [[m v]|].
    - destruct Hv2 as (t2 & -> & _ & Hm2). cbn [obind]. rewrite (proj2 (Z.ltb_ge (cap - n) m)), andb_false_r by lia.
      split; [|lia]. by rewrite Z.add_assoc.
    - destruct Hv2 as (len & v & t2 & -> & H10 & Hcl & _). cbn [obind].
      by rewrite (proj2 (Z.ltb_lt (cap - n) 10)), (proj2 (Z.ltb_lt (cap - n) len)) by lia. }
  destruct (low r mod 8 =? WT_BIT64).
  { destruct (Z.ltb_spec (cap - n) 8); [done|]. rewrite read_u32_tail by (done || lia). cbn [obind].
    rewrite read_u32_tail by (done || lia). cbn [obind]. split; [|lia]. rewrite drop_drop.
    replace (Z.to_nat (pos + n) + 4)%nat with (Z.to_nat (pos + n + 4)) by lia. by rewrite Z.add_assoc. }
  destruct (low r mod 8 =? WT_LEND).
  { destruct (get_varint (drop (Z.to_nat (pos + n)) msg)) as [[m v]|] eqn:Eg; [|done].
    destruct (ll_words_range _ _ _ Eg) as [Hlo _]. destruct Hv2 as (t2 & -> & _ & Hm2). cbn [obind].
    destruct (negb (hi v =? 0)); [by rewrite orb_true_r|]. rewrite orb_false_r.
    destruct (Z.leb_spec (2 ^ 32) (m + low v)); [done|]. unfold is_u32 in Hlo.
    rewrite !u32_id by (unfold is_u32; lia). destruct (Z.ltb_spec (cap - n) (m + low v)); [done|].
    split; [|lia]. rewrite !u32_id by (unfold is_u32; lia). by rewrite !Z.add_assoc. }
  destruct (low r mod 8 =? WT_BIT32); [|done].
  destruct (Z.ltb_spec (cap - n) 4); [done|]. rewrite read_u32_tail by (done || lia). cbn [obind].
  split; [|lia]. by rewrite Z.add_assoc.
Qed.

(** *** The reference parser *)

Lemma get_varint_len l n r : bytes_ok l → get_varint l = Some (n, r) → 1 <= n <= zlen l.
Proof. intros Hl Hg. destruct (decode_get _ _ _ [] Hl Hg) as (_ & ? & ?). lia. Qed.

Lemma ref_field_len l start len a : bytes_ok l → ref_field l start = FOk len a → 1 <= len <= zlen l.
Proof.
  intros Hl. unfold ref_field. destruct (get_varint l) as [[n r]|] eqn:Eg; [|done].
  pose proof (get_varint_len _ _ _ Hl Eg) as Hn. destruct (negb (hi r =? 0)); [done|].
  pose proof (zlen_drop l n ltac:(lia)) as Hd. set (l' := drop (Z.to_nat n) l) in *.
  assert (bytes_ok l') as Hl' by (by apply bytes_ok_drop).
  destruct (_ =? WT_VARINT).
  { destruct (get_varint l') as [[m v]|] eqn:Eg2; [|done]. pose proof (get_varint_len _ _ _ Hl' Eg2). intros [= <- <-]. lia. }
  destruct (_ =? WT_BIT64); [destruct (Z.ltb_spec (zlen l') 8); [done|]; intros [= <- <-]; lia|].
  destruct (_ =? WT_LEND).
  { destruct (get_varint l') as [[m v]|] eqn:Eg2; [|done]. pose proof (get_varint_len _ _ _ Hl' Eg2).
    destruct (ll_words_range _ _ _ Eg2) as [Hlo _]. unfold is_u32 in Hlo.
    destruct (negb (hi v =? 0)); [done|]. destruct (2 ^ 32 <=? m + low v); [done|].
    destruct (Z.ltb_spec (zlen l') (m + low v)); [done|]. intros [= <- <-]. lia. }
  destruct (_ =? WT_BIT32); [|done]. destruct (Z.ltb_spec (zlen l') 4); [done|]. intros [= <- <-]. lia.
Qed.

(** More fuel than the length changes nothing. *)
Lemma ref_parse_fuel f g l start : bytes_ok l → (length l <= f)%nat → (length l <= g)%nat →
  ref_parse f l start = ref_parse g l start.
Proof.
  revert g l start; induction f as [|f IH]; intros [|g] l start Hl Hf Hg; destruct l as [|b l]; cbn [length] in *; try done; try lia.
  cbn [ref_parse]. destruct (ref_field (b :: l) start) as [len a| |] eqn:E; [|done|done].
  pose proof (ref_field_len _ _ _ _ Hl E) as Hlen. rewrite (IH g); [done | by apply bytes_ok_drop | |];
    rewrite length_drop; cbn [length]; lia.
Qed.

Lemma ref_parse_step l start : bytes_ok l → l ≠ [] →
  ref_parse (length l) l start =
    match ref_field l start with
    | FOk len a => parse_cons a (ref_parse (length (drop (Z.to_nat len) l)) (drop (Z.to_nat len) l) (start + len))
    | FBad => PBad 0
    | FWrap => PWrap
    end.
Proof.
  intros Hl Hne. destruct l as [|b l]; [done|]. cbn [length ref_parse].
  destruct (ref_field (b :: l) start) as [len a| |] eqn:E; [|done|done].
  pose proof (ref_field_len _ _ _ _ Hl E) as Hlen. f_equal.
  apply ref_parse_fuel; [by apply bytes_ok_drop | |]; rewrite length_drop; cbn [length]; lia.
Qed.

(** *** The loops of [_pbcC_open] *)

(** The cursor stands at offset [cu_pos] and the rest of the message parses as [R]. *)
Definition remaining (msg : list Z) (c : cursor) (R : parse_res) : Prop :=
  0 <= cu_pos c ∧ 0 <= cu_size c ∧ cu_start c = cu_pos c ∧ cu_pos c + cu_size c = zlen msg
  ∧ ref_parse (length (drop (Z.to_nat (cu_pos c)) msg)) (drop (Z.to_nat (cu_pos c)) msg) (cu_pos c) = R.

Lemma remaining_end msg c R : remaining msg c R → cu_size c = 0 → R = POk [].
Proof.
  intros (Hp & _ & _ & He & HR) Hz. rewrite drop_ge in HR by (unfold zlen in He; lia). by cbn in HR.
Qed.

Lemma remaining_step msg tail c R temp :
  bytes_ok msg → zlen msg < 2 ^ 31 → stack_ok temp → remaining msg c R → 0 < cu_size c → R ≠ PWrap →
  (R = PBad 0 ∧ wiretype_decode (msg ++ tail) (cu_pos c) (cu_size c) (cu_start c) temp = Done None)
  ∨ ∃ next a R', R = parse_cons a R' ∧ R' ≠ PWrap
      ∧ wiretype_decode (msg ++ tail) (cu_pos c) (cu_size c) (cu_start c) temp = Done (Some (next, a))
      ∧ remaining msg (advance c next (cu_i c + 1)) R' ∧ cu_size (advance c next (cu_i c + 1)) < cu_size c.
Proof.
  intros Hm Hsz Ht (Hp & Hs & Hst & He & HR) Hpos HW. rewrite Hst.
  pose proof (wiretype_decode_spec msg tail (cu_pos c) (cu_size c) temp Hm Ht Hp Hs He Hsz) as Hw.
  rewrite ref_parse_step in HR; [| by apply bytes_ok_drop |].
  2: { intros E. apply (f_equal length) in E. rewrite length_drop in E. cbn [length] in E. unfold zlen in He. lia. }
  destruct (ref_field _ _) as [len a| |]; [|by left|by subst]. right. destruct Hw as [Hw Hlen].
  eexists _, a, _. split; [symmetry; exact HR|]. split; [intros E; rewrite E in HR; by subst|]. split; [exact Hw|].
  unfold advance, remaining. cbn [cu_pos cu_size cu_start cu_i].
  replace (cu_pos c + len - cu_pos c) with len by lia. rewrite Hst, !s32_id by (unfold is_s32; lia).
  split; [|lia]. split_and!; try lia. by rewrite drop_drop, <- Z2Nat.inj_add by lia.
Qed.

(** The cells from index [i] on hold [l]. *)
Definition cells_hold (cells : list (option atom)) (i : nat) (l : list atom) : Prop :=
  ∀ k a, l !! k = Some a → cells !! (i + k)%nat = Some (Some a).

Definition parse_app (front : list atom) (R : parse_res) : parse_res := foldr parse_cons R front.

Lemma parse_app_POk front l : parse_app front (POk l) = POk (front ++ l).
Proof. induction front as [|a front IH]; [done|]. cbn. fold (parse_app front (POk l)). by rewrite IH. Qed.

Lemma write_cell cells i (a : atom) : 0 <= i < zlen cells →
  write_at cells i [Some a] = Done (<[Z.to_nat i := Some a]> cells).
Proof. apply write_at_insert. Qed.

Lemma open_inner_spec n msg tail stk inner c R :
  bytes_ok msg → zlen msg < 2 ^ 31 → (∀ i, stack_ok (stk i)) → remaining msg c R → R ≠ PWrap →
  0 <= cu_i c → cu_i c + Z.of_nat n <= zlen inner →
  ∃ out, open_inner n (msg ++ tail) stk inner c = Done out ∧
    match out with
    | inr e => ∃ k, R = PBad k ∧ e = - (cu_i c + k)
    | inl (inner', c') => ∃ front R', R = parse_app front R' ∧ R' ≠ PWrap ∧ remaining msg c' R'
        ∧ cu_i c' = cu_i c + zlen front ∧ length inner' = length inner ∧ cells_hold inner' (Z.to_nat (cu_i c)) front
        ∧ (∀ k, (k < Z.to_nat (cu_i c))%nat → inner' !! k = inner !! k)
        ∧ (cu_size c' = 0 ∨ zlen front = Z.of_nat n)
    end.
Proof.
  intros Hm Hsz Hstk. revert inner c R; induction n as [|n IH]; intros inner c R Hrem HW Hi Hroom; cbn [open_inner].
  { eexists. split; [done|]. exists [], R. rewrite zlen_nil, Z.add_0_r. split_and!; try done. by right. }
  destruct (Z.eqb_spec (cu_size c) 0) as [Hz|Hz].
  { eexists. split; [done|]. exists [], R. rewrite zlen_nil, Z.add_0_r. split_and!; try done. by left. }
  assert (0 < cu_size c) as Hpos by (destruct Hrem as (_ & ? & _); lia).
  destruct (remaining_step msg tail c R _ Hm Hsz (Hstk (cu_i c)) Hrem Hpos HW) as [[-> ->]|(next & a & R' & -> & HW' & -> & Hrem' & _)]; cbn [obind].
  { eexists. split; [done|]. exists 0. split; [done | lia]. }
  rewrite write_cell by lia. cbn [obind].
  destruct (IH (<[Z.to_nat (cu_i c) := Some a]> inner) _ R' Hrem' HW') as (out & -> & Hout).
  { cbn [advance cu_i]. lia. } { unfold zlen in *. rewrite length_insert. cbn [advance cu_i]. lia. }
  exists out. split; [done|]. cbn [advance cu_i] in Hout. destruct out as [[inner' c']|e].
  - destruct Hout as (front & R2 & -> & HW2 & Hrem2 & Hi2 & Hlen & Hcells & Hkeep & Hend). rewrite length_insert in Hlen.
    exists (a :: front), R2. rewrite zlen_cons. split_and!; try done; try lia.
    + intros k b Hk. destruct k as [|k].
      * injection Hk as <-. rewrite Nat.add_0_r, Hkeep by lia. apply list_lookup_insert_eq. unfold zlen in Hroom. lia.
      * cbn in Hk. apply Hcells in Hk. by replace (Z.to_nat (cu_i c) + S k)%nat with (Z.to_nat (cu_i c + 1) + k)%nat by lia.
    + intros k Hk. rewrite Hkeep by lia. by rewrite list_lookup_insert_ne by lia.
  - destruct Hout as (k & -> & ->). exists (k + 1). split; [done | lia].
Qed.

Lemma open_outer_spec fuel msg tail stk outer c R :
  bytes_ok msg → zlen msg < 2 ^ 31 → (∀ i, stack_ok (stk i)) → remaining msg c R → R ≠ PWrap →
  0 <= cu_i c → cu_i c <= zlen outer →
  2 * cu_size c <= Z.of_nat fuel + (if cu_i c <? zlen outer then 1 else 0) →
  ∃ out, open_outer fuel (msg ++ tail) stk outer c = Done out ∧
    match out with
    | inr e => ∃ k, R = PBad k ∧ e = - (cu_i c + k)
    | inl (outer', c') => ∃ front, R = POk front ∧ cu_i c' = cu_i c + zlen front
        ∧ cells_hold outer' (Z.to_nat (cu_i c)) front ∧ zlen outer <= zlen outer'
        ∧ (∀ k, (k < Z.to_nat (cu_i c))%nat → outer' !! k = outer !! k)
    end.
Proof.
  intros Hm Hsz Hstk. revert outer c R; induction fuel as [|fuel IH]; intros outer c R Hrem HW Hi Hroom Hfuel; cbn [open_outer];
    (destruct (Z.leb_spec (cu_size c) 0) as [Hz|Hz];
     [eexists; split; [done|]; exists []; rewrite zlen_nil, Z.add_0_r; assert (cu_size c = 0) as Hz' by (destruct Hrem as (_ & ? & _); lia);
      split_and!; try done; by eapply remaining_end|]).
  { exfalso. destruct (cu_i c <? zlen outer); lia. }
  destruct (Z.leb_spec (zlen outer) (cu_i c)) as [Hfull|Hfree].
  - rewrite (proj2 (Z.ltb_ge (cu_i c) (zlen outer)) Hfull) in Hfuel.
    assert (zlen (outer ++ replicate 64 None) = zlen outer + 64) as Hg by (rewrite zlen_app; reflexivity).
    destruct (IH (outer ++ replicate 64 None) c R Hrem HW Hi) as (out & -> & Hout); [lia | rewrite (proj2 (Z.ltb_lt _ _)) by lia; lia |].
    exists out. split; [done|]. destruct out as [[outer' c']|e]; [|done].
    destruct Hout as (front & -> & Hi' & Hcells & Hle & Hkeep). exists front. split_and!; try done; [lia|].
    intros k Hk. rewrite Hkeep by done. apply lookup_app_l. unfold zlen in *. lia.
  - rewrite (proj2 (Z.ltb_lt (cu_i c) (zlen outer)) Hfree) in Hfuel.
    destruct (remaining_step msg tail c R _ Hm Hsz (Hstk (cu_i c)) Hrem Hz HW) as [[-> ->]|(next & a & R' & -> & HW' & -> & Hrem' & Hdec)]; cbn [obind].
    { eexists. split; [done|]. exists 0. split; [done | lia]. }
    rewrite write_cell by lia. cbn [obind].
    assert (zlen (<[Z.to_nat (cu_i c) := Some a]> outer) = zlen outer) as Hins by (unfold zlen; by rewrite length_insert).
    destruct (IH (<[Z.to_nat (cu_i c) := Some a]> outer) _ R' Hrem' HW') as (out & -> & Hout).
    { cbn [advance cu_i]. lia. } { rewrite Hins. cbn [advance cu_i]. lia. }
    { destruct (cu_i (advance c next (cu_i c + 1)) <? zlen _); lia. }
    exists out. split; [done|]. cbn [advance cu_i] in Hout. destruct out as [[outer' c']|e].
    + destruct Hout as (front & -> & Hi' & Hcells & Hle & Hkeep). exists (a :: front). rewrite zlen_cons.
      split_and!; try done; try lia.
      * intros k b Hk. destruct k as [|k].
        -- injection Hk as <-. rewrite Nat.add_0_r, Hkeep by lia. apply list_lookup_insert_eq. unfold zlen in Hfree. lia.
        -- cbn in Hk. apply Hcells in Hk. by replace (Z.to_nat (cu_i c) + S k)%nat with (Z.to_nat (cu_i c + 1) + k)%nat by lia.
      * intros k Hk. rewrite Hkeep by lia. by rewrite list_lookup_insert_ne by lia.
    + destruct Hout as (k & -> & ->). exists (k + 1). split; [done | lia].
Qed.

Lemma remaining_start msg : bytes_ok msg → remaining msg (Cursor 0 (zlen msg) 0 0) (parse msg).
Proof.
  intros _. unfold remaining, parse. cbn [cu_pos cu_size cu_start]. change (Z.to_nat 0) with 0%nat. rewrite drop_0.
  pose proof (zlen_nonneg msg). split_and!; done || lia.
Qed.

Lemma ctx_atom_inner size n inner i a : inner !! i = Some (Some a) →
  ctx_atom (Ctx size n inner InnerAtoms) (Z.of_nat i) = Done a.
Proof. intros H. unfold ctx_atom. cbn [c_ptr c_inner]. by rewrite read_at_nat, H. Qed.

Lemma ctx_atom_outer size n inner o i a : o !! i = Some (Some a) →
  ctx_atom (Ctx size n inner (OuterAtoms o)) (Z.of_nat i) = Done a.
Proof. intros H. unfold ctx_atom. cbn [c_ptr]. by rewrite read_at_nat, H. Qed.

(** [_pbcC_open] on a whole message, whatever follows it. *)
Lemma open_spec msg tail stk : bytes_ok msg → msg ≠ [] → zlen msg < 2 ^ 31 → (∀ i, stack_ok (stk i)) →
  match parse msg with
  | POk atoms => ∃ ctx, _pbcC_open (Some (msg ++ tail)) (zlen msg) stk = Done (zlen atoms, ctx) ∧ c_number ctx = zlen atoms
      ∧ ∀ i a, atoms !! i = Some a → ctx_atom ctx (Z.of_nat i) = Done a
  | PBad k => ∃ ctx, _pbcC_open (Some (msg ++ tail)) (zlen msg) stk = Done (- k, ctx)
  | PWrap => True
  end.
Proof.
  intros Hm Hne Hsz Hstk. destruct (decide (parse msg = PWrap)) as [->|HW]; [done|].
  pose proof (zlen_pos msg ltac:(done)) as Hpos.
  unfold _pbcC_open. rewrite (proj2 (Z.eqb_neq (zlen msg) 0)) by lia.
  set (blank := replicate (Z.to_nat INNER_ATOM) None).
  destruct (open_inner_spec (Z.to_nat INNER_ATOM) msg tail stk blank _ _ Hm Hsz Hstk (remaining_start msg Hm) HW) as (out & -> & Hout); [done | done |].
  cbn [obind cu_i] in *. destruct out as [[inner c]|e].
  2: { destruct Hout as (k & -> & ->). eexists. do 2 f_equal. }
  destruct Hout as (front & R & HR & HW' & Hrem & Hi & Hlen & Hcells & _ & Hend). cbn [Z.to_nat] in Hcells. rewrite Z.add_0_l in Hi.
  destruct (Z.ltb_spec 0 (cu_size c)) as [Hmore|Hdone].
  - assert (zlen front = INNER_ATOM) as H19 by (destruct Hend as [|Hend]; [lia | rewrite Hend; done]). unfold INNER_ATOM in *.
    assert (zlen msg < 2 ^ 31 ∧ cu_size c <= zlen msg) as [_ Hcs] by (destruct Hrem as (? & _ & _ & ? & _); lia).
    assert (zlen (replicate 64 (@None atom)) = 64) as H64 by done.
    destruct (open_outer_spec (2 * Z.to_nat (zlen msg)) msg tail stk (replicate 64 None) c R Hm Hsz Hstk Hrem HW') as (out & -> & Hout);
      [lia | rewrite H64; lia | case_if; lia |]. cbn [obind].
    destruct out as [[outer c']|e].
    + destruct Hout as (back & -> & Hi' & Hback & Hle & _). rewrite HR, parse_app_POk.
      assert (length inner = 19%nat) as Hin19 by (rewrite Hlen; done).
      pose proof (write_at_here [] (take 19 outer) (drop 19 outer) inner) as Hw. cbn [app] in Hw. rewrite take_drop in Hw.
      unfold copy_inner. change (zlen []) with 0 in Hw. rewrite Hw by (rewrite length_take; unfold zlen in *; lia). cbn [obind].
      replace (cu_i c') with (zlen (front ++ back)) by (rewrite zlen_app; lia).
      eexists. split; [done|]. split; [done|]. intros i a Hia. apply ctx_atom_outer.
      apply lookup_app_Some in Hia as [Hia|[Hge Hia]].
      * apply lookup_app_l_Some. by apply (Hcells i a Hia).
      * unfold zlen in H19. rewrite lookup_app_r by lia. apply Hback in Hia. rewrite lookup_drop, Hin19.
        replace (19 + (i - 19))%nat with (Z.to_nat (cu_i c) + (i - length front))%nat by (unfold zlen in *; lia). done.
    + destruct Hout as (k & -> & ->). assert (parse_app front (PBad k) = PBad (k + zlen front)) as Hpb.
      { clear. induction front as [|a front IH]; cbn; [rewrite zlen_nil; f_equal; lia|]. fold (parse_app front (PBad k)).
        rewrite IH, zlen_cons. cbn. f_equal. lia. }
      rewrite HR, Hpb. eexists. do 2 f_equal. lia.
  - assert (R = POk []) as -> by (eapply remaining_end; [done|]; destruct Hrem as (_ & ? & _); lia).
    rewrite HR, parse_app_POk, app_nil_r, Hi. eexists. split; [done|]. split; [done|]. intros i a Hia.
    apply ctx_atom_inner. by apply (Hcells i a Hia).
Qed.

(** ** Packed fields *)

(** No check that the varint ends inside the [size] bytes. *)
Definition _decode_varint (msg : list Z) (pos size : Z) (temp : list Z) : outcome (Z * atom) :=
  do! (len, r, _) <- varint_at msg pos size temp;
  Done (len, Atom WT_VARINT (low r) (hi r)).

(** [for (i=0;i<INNER_ATOM;i++)]: [n] iterations are left. *)
Fixpoint packed_inner (n : nat) (msg : list Z) (stk : Z → list Z) (inner : list (option atom)) (pos size i : Z)
    : outcome (list (option atom) * Z * Z * Z) :=
  match n with
  | O => Done (inner, pos, size, i)
  | S n' =>
      if size =? 0 then Done (inner, pos, size, i)
      else
        do! (len, a) <- _decode_varint msg pos size (stk i);
        do! inner <- write_at inner i [Some a];
        packed_inner n' msg stk inner (pos + len) (size - len) (i + 1)
  end.

(** [while (size > 0)]: the atoms are written through [a], the array inside the
    context, whatever the capacity of the one allocated for them. *)
Fixpoint packed_outer (fuel : nat) (msg : list Z) (stk : Z → list Z) (inner : list (option atom)) (cap pos size i : Z)
    : outcome (list (option atom) * Z * Z) :=
  if size <=? 0 then Done (inner, cap, i)
  else match fuel with
       | O => Fault OutOfFuel
       | S fuel' =>
           if cap <=? i then packed_outer fuel' msg stk inner (cap + 64) pos size i
           else
             do! (len, a) <- _decode_varint msg pos size (stk i);
             do! inner <- write_at inner i [Some a];
             packed_outer fuel' msg stk inner cap (pos + len) (size - len) (i + 1)
       end.

Definition _open_packed_varint (msg : list Z) (size : Z) (stk : Z → list Z) : outcome (Z * context) :=
  let blank := replicate (Z.to_nat INNER_ATOM) None in
  do! (inner, pos, rest, i) <- packed_inner (Z.to_nat INNER_ATOM) msg stk blank 0 size 0;
  if rest =? 0 then Done (i, Ctx size i inner InnerAtoms)
  else
    do! (inner, cap, i) <- packed_outer (2 * Z.to_nat size) msg stk inner 64 pos rest i;
    do! outer <- copy_inner (replicate (Z.to_nat cap) None) inner;
    Done (i, Ctx size i inner (OuterAtoms outer)).

(** The loops over fixed-width elements of [w] bytes. *)
Fixpoint fixed_loop (n : nat) (w : Z) (msg : list Z) (cells : list (option atom)) (pos i : Z)
    : outcome (list (option atom)) :=
  match n with
  | O => Done cells
  | S n' =>
      do! l <- read_u32 msg pos;
      do! h <- (if w =? 8 then read_u32 msg (pos + 4) else Done 0);
      do! cells <- write_at cells i [Some (Atom (if w =? 8 then WT_BIT64 else WT_BIT32) l h)];
      fixed_loop n' w msg cells (pos + w) (i + 1)
  end.

Definition open_fixed (msg : list Z) (size w : Z) : outcome (Z * context) :=
  let number := Z.quot size w in
  let blank := replicate (Z.to_nat INNER_ATOM) None in
  if INNER_ATOM <? number then
    do! cells <- fixed_loop (Z.to_nat number) w msg (replicate (Z.to_nat number) None) 0 0;
    Done (number, Ctx size number blank (OuterAtoms cells))
  else
    do! cells <- fixed_loop (Z.to_nat number) w msg blank 0 0;
    Done (number, Ctx size number cells InnerAtoms).

Definition _pbcC_open_packed (ptype : Z) (buffer : option (list Z)) (size : Z) (stk : Z → list Z) : outcome (Z * context) :=
  let empty := Ctx size 0 (replicate (Z.to_nat INNER_ATOM) None) NoAtoms in
  match buffer with
  | None => Done (0, empty)
  | Some msg =>
      if size =? 0 then Done (0, empty)
      else if bool_decide (ptype ∈ [PTYPE_INT64; PTYPE_UINT64; PTYPE_INT32; PTYPE_BOOL; PTYPE_UINT32; PTYPE_ENUM;
                                    PTYPE_SINT32; PTYPE_SINT64])
      then _open_packed_varint msg size stk
      else if bool_decide (ptype ∈ [PTYPE_DOUBLE; PTYPE_FIXED64; PTYPE_SFIXED64]) then open_fixed msg size 8
      else if bool_decide (ptype ∈ [PTYPE_FLOAT; PTYPE_FIXED32; PTYPE_SFIXED32]) then open_fixed msg size 4
      else Done (0, empty)
  end.

(** *** Lemmas on packed fields *)

Lemma vspan_varint n l rest : is_varint l = true → (length l <= n)%nat → vspan n (l ++ rest) = Some (length l).
Proof.
  revert n; induction l as [|b l IH]; intros n Hv Hn; [done|]. destruct n as [|n]; [cbn in Hn; lia|]. cbn [vspan app length].
  destruct l as [|b' l].
  - cbn in Hv. bprop. by rewrite (proj2 (Z.ltb_lt b 128)).
  - rewrite is_varint_cons2 in Hv. bprop. rewrite (proj2 (Z.ltb_ge b 128)) by done. rewrite (IH n); [done | done | cbn in *; lia].
Qed.

Lemma get_varint_varint l rest : is_varint l = true → zlen l <= 10 →
  get_varint (l ++ rest) = Some (zlen l, ll_of (varint_val l)).
Proof.
  intros Hv Hl. unfold get_varint. rewrite vspan_varint by (done || unfold zlen in Hl; lia). by rewrite take_app_length.
Qed.

(** A sequence of varints of at most ten bytes each, canonical or not. *)
Definition varints_ok (ws : list (list Z)) : Prop := Forall (λ w, is_varint w = true ∧ zlen w <= 10) ws.

Definition varint_atom (w : list Z) : atom :=
  Atom WT_VARINT (low (ll_of (varint_val w))) (hi (ll_of (varint_val w))).

Lemma varints_bytes ws : varints_ok ws → bytes_ok (concat ws).
Proof.
  induction 1 as [|w ws [Hw _] _ IH]; [constructor|]. cbn [concat]. apply Forall_app. split; [by apply is_varint_bytes | done].
Qed.

Lemma decode_varint_here pre w rest temp : bytes_ok (pre ++ w ++ rest) → is_varint w = true → zlen w <= 10 → stack_ok temp →
  _decode_varint (pre ++ w ++ rest) (zlen pre) (zlen (w ++ rest)) temp = Done (zlen w, varint_atom w).
Proof.
  intros Hb Hv Hl Ht. pose proof (zlen_nonneg pre). pose proof (zlen_nonneg (w ++ rest)).
  pose proof (varint_at_spec (pre ++ w ++ rest) [] (zlen pre) (zlen (w ++ rest)) temp Hb Ht ltac:(lia) ltac:(lia) ltac:(rewrite !zlen_app; lia)) as Hs. rewrite app_nil_r in Hs.
  unfold zlen in Hs at 1. rewrite Nat2Z.id, drop_app_length, get_varint_varint in Hs by done.
  destruct Hs as (t' & Hv' & _). unfold _decode_varint. rewrite Hv'. done.
Qed.

Lemma varint_nonempty w : is_varint w = true → 1 <= zlen w.
Proof. destruct w; [done|]. rewrite zlen_cons. pose proof (zlen_nonneg w). lia. Qed.

Lemma concat_zlen_pos ws : varints_ok ws → ws ≠ [] → 0 < zlen (concat ws).
Proof.
  intros Hws Hne. destruct Hws as [|w ws [Hw _] _]; [done|]. cbn [concat]. rewrite zlen_app.
  pose proof (varint_nonempty w Hw). pose proof (zlen_nonneg (concat ws)). lia.
Qed.

Lemma packed_inner_spec n ws pre stk inner i :
  varints_ok ws → bytes_ok pre → (∀ i, stack_ok (stk i)) → 0 <= i → i + Z.of_nat n <= zlen inner →
  ∃ inner', packed_inner n (pre ++ concat ws) stk inner (zlen pre) (zlen (concat ws)) i
    = Done (inner', zlen (pre ++ concat (take n ws)), zlen (concat (drop n ws)), i + zlen (take n ws))
    ∧ length inner' = length inner ∧ cells_hold inner' (Z.to_nat i) (map varint_atom (take n ws))
    ∧ (∀ k, (k < Z.to_nat i)%nat → inner' !! k = inner !! k).
Proof.
  intros Hws Hpre Hstk. revert ws pre inner i Hws Hpre; induction n as [|n IH]; intros ws pre inner i Hws Hpre Hi Hroom.
  { cbn [packed_inner]. exists inner. rewrite firstn_O, drop_0, app_nil_r, zlen_nil, Z.add_0_r. done. }
  destruct ws as [|w ws].
  { cbn. exists inner. rewrite app_nil_r, zlen_nil, Z.add_0_r. done. }
  pose proof (concat_zlen_pos _ Hws ltac:(done)) as Hpos. cbn [packed_inner]. rewrite (proj2 (Z.eqb_neq _ 0)) by lia.
  apply Forall_cons_1 in Hws as [[Hw Hwl] Hws]. cbn [concat].
  assert (bytes_ok w) as Hbw by (by apply is_varint_bytes).
  rewrite decode_varint_here; [|apply Forall_app; split; [done|]; apply Forall_app; split; [done | by apply varints_bytes] | done | done | done].
  cbn [obind]. rewrite write_cell by lia. cbn [obind].
  destruct (IH ws (pre ++ w) (<[Z.to_nat i := Some (varint_atom w)]> inner) (i + 1) Hws) as (inner' & Heq & Hlen & Hcells & Hkeep);
    [by apply Forall_app | lia | unfold zlen in *; rewrite length_insert; lia |].
  rewrite <- app_assoc in Heq. replace (zlen pre + zlen w) with (zlen (pre ++ w)) by apply zlen_app.
  replace (zlen (w ++ concat ws) - zlen w) with (zlen (concat ws)) by (rewrite zlen_app; lia).
  rewrite Heq. exists inner'. cbn [firstn concat skipn]. split.
  { f_equal. f_equal; [|rewrite zlen_cons; lia]. by rewrite <- app_assoc. }
  rewrite length_insert in Hlen. split_and!; [done | |].
  - intros k a Hk. destruct k as [|k].
    + injection Hk as <-. rewrite Nat.add_0_r, Hkeep by lia. apply list_lookup_insert_eq. unfold zlen in Hroom. lia.
    + cbn in Hk. apply Hcells in Hk. by replace (Z.to_nat i + S k)%nat with (Z.to_nat (i + 1) + k)%nat by lia.
  - intros k Hk. rewrite Hkeep by lia. by rewrite list_lookup_insert_ne by lia.
Qed.

Lemma fixed_loop_spec n w msg cells i :
  bytes_ok msg → w = 4 ∨ w = 8 → 0 <= i → w * (i + Z.of_nat n) <= zlen msg → i + Z.of_nat n <= zlen cells →
  ∃ cells', fixed_loop n w msg cells (w * i) i = Done cells' ∧ length cells' = length cells
    ∧ (∀ k, (k < n)%nat → cells' !! (Z.to_nat i + k)%nat
         = Some (Some (let p := Z.to_nat (w * (i + Z.of_nat k)) in
                       if w =? 8 then Atom WT_BIT64 (le_join (take 4 (drop p msg))) (le_join (take 4 (drop (p + 4) msg)))
                       else Atom WT_BIT32 (le_join (take 4 (drop p msg))) 0)))
    ∧ (∀ k, (k < Z.to_nat i)%nat → cells' !! k = cells !! k).
Proof.
  intros Hm Hw. revert cells i; induction n as [|n IH]; intros cells i Hi Hlen Hroom; cbn [fixed_loop].
  { exists cells. split_and!; [done | done | lia | done]. }
  rewrite read_u32_spec by (done || nia). cbn [obind].
  set (h := if w =? 8 then le_join (take 4 (drop (Z.to_nat (w * i) + 4) msg)) else 0).
  assert ((if w =? 8 then read_u32 msg (w * i + 4) else Done 0) = Done h) as ->.
  { unfold h. destruct Hw as [-> | ->]; cbn [Z.eqb Pos.eqb]; [done|]. rewrite read_u32_spec by (done || lia).
    by rewrite Z2Nat.inj_add by lia. }
  cbn [obind]. rewrite write_cell by lia. cbn [obind]. replace (w * i + w) with (w * (i + 1)) by lia.
  destruct (IH (<[Z.to_nat i := Some (Atom (if w =? 8 then WT_BIT64 else WT_BIT32) (le_join (take 4 (drop (Z.to_nat (w * i)) msg))) h)]> cells) (i + 1))
    as (cells' & -> & Hl & Hcells & Hkeep); [lia | nia | unfold zlen in *; rewrite length_insert; lia |].
  rewrite length_insert in Hl. exists cells'. split_and!; [done | done | |].
  - intros k Hk. destruct k as [|k].
    + rewrite Nat.add_0_r, Z.add_0_r, Hkeep by lia. rewrite list_lookup_insert_eq by (unfold zlen in Hroom; lia).
      cbv zeta. unfold h. by destruct (w =? 8).
    + replace (Z.to_nat i + S k)%nat with (Z.to_nat (i + 1) + k)%nat by lia. rewrite Hcells by lia.
      by replace (i + 1 + Z.of_nat k) with (i + Z.of_nat (S k)) by lia.
  - intros k Hk. rewrite Hkeep by lia. by rewrite list_lookup_insert_ne by lia.
Qed.

Lemma open_inner_S n msg stk inner c : cu_size c ≠ 0 →
  open_inner (S n) msg stk inner c =
    (do! r <- wiretype_decode msg (cu_pos c) (cu_size c) (cu_start c) (stk (cu_i c));
     match r with
     | None => Done (inr (- cu_i c))
     | Some (next, a) =>
         do! inner <- write_at inner (cu_i c) [Some a];
         open_inner n msg stk inner (advance c next (cu_i c + 1))
     end).
Proof. intros H. cbn [open_inner]. by rewrite (proj2 (Z.eqb_neq _ _) H). Qed.

(** ** Properties *)

(** C9: [_pbcC_open] agrees with the field-by-field reference parser on every
    message of at most 2^31 - 1 bytes in which no length prefix is cut off by the
    end of the message and none makes the sum of the prefix's size and the length
    reach 2^32 ([parse msg ≠ PWrap]; [context_open_length_wraps] shows what the code
    does there), whatever follows the message in memory and whatever the
    uninitialised scratch array holds: on a well-formed message, with any number of
    fields (inside the context or in the allocated array), it returns their number
    and the context holds exactly their atoms; on one that is malformed in any other
    way it returns minus the number of fields before the bad one. *)
Theorem context_open_reference msg tail stk :
  bytes_ok msg → msg ≠ [] → zlen msg < 2 ^ 31 → (∀ i, stack_ok (stk i)) → parse msg ≠ PWrap →
  match parse msg with
  | POk atoms => ∃ ctx, _pbcC_open (Some (msg ++ tail)) (zlen msg) stk = Done (zlen atoms, ctx) ∧ c_number ctx = zlen atoms
      ∧ ∀ i a, atoms !! i = Some a → ctx_atom ctx (Z.of_nat i) = Done a
  | PBad k => ∃ ctx, _pbcC_open (Some (msg ++ tail)) (zlen msg) stk = Done (- k, ctx)
  | PWrap => False
  end.
Proof. intros Hm Hne Hsz Hstk Hw. pose proof (open_spec msg tail stk Hm Hne Hsz Hstk). by destruct (parse msg). Qed.

Lemma context_open_reference_witness :
  ∃ ctx, _pbcC_open (Some [8; 150; 1; 18; 2; 104; 105; 26]) 7 (λ _, replicate 10 255) = Done (2, ctx) ∧ c_number ctx = 2
      ∧ ∀ i a, [Atom 8 150 0; Atom 18 5 7] !! i = Some a → ctx_atom ctx (Z.of_nat i) = Done a.
Proof.
  apply (context_open_reference [8; 150; 1; 18; 2; 104; 105] [26] (λ _, replicate 10 255)).
  - repeat (apply Forall_cons; split; [width|]). by apply Forall_nil.
  - done.
  - vm_compute; reflexivity.
  - intros _. split; [|done]. apply Forall_replicate. width.
  - vm_compute. discriminate.
Defined.

(** C38: a length prefix close to 2^32 passes the test [cap < len + r.low], whose
    sum wraps around: on a message that starts with such a field and continues
    with at least ten bytes, [_pbcC_open] accepts the field and reads the next
    one 4 GB past the message. *)
Theorem context_open_length_wraps rest stk :
  bytes_ok rest → 10 <= zlen rest < 2 ^ 30 →
  let msg := [10; 251; 255; 255; 255; 15] ++ rest in
  wiretype_decode msg 0 (zlen msg) 0 (stk 0) = Done (Some (2 ^ 32 + 1, Atom 10 6 1))
  ∧ _pbcC_open (Some msg) (zlen msg) stk = Fault OutOfBounds.
Proof.
  intros Hb Hl msg. assert (zlen msg = 6 + zlen rest) as Hm by (unfold msg; rewrite zlen_app; done).
  assert (wiretype_decode msg 0 (zlen msg) 0 (stk 0) = Done (Some (2 ^ 32 + 1, Atom 10 6 1))) as Hw.
  { unfold wiretype_decode, varint_at. rewrite (proj2 (Z.leb_le 10 (zlen msg))) by lia. cbn [obind].
    change (_pbcV_decode (drop (Z.to_nat 0) msg)) with (Done (A := Z * longlong) (1, Longlong 10 0)). cbn [obind low hi].
    rewrite (proj2 (Z.ltb_ge (zlen msg) 10)) by lia. cbn [andb orb negb Z.eqb].
    change (Z.land 10 7) with 2. cbn [Z.eqb Pos.eqb WT_VARINT WT_BIT64 WT_LEND].
    rewrite (proj2 (Z.leb_le 10 (zlen msg - 1))) by lia.
    change (_pbcV_decode (drop (Z.to_nat (0 + 1)) msg)) with (Done (A := Z * longlong) (5, Longlong (2 ^ 32 - 5) 0)). cbn [obind low hi].
    change (u32 (5 + (2 ^ 32 - 5))) with 0. rewrite u32_id by (unfold is_u32; lia).
    rewrite (proj2 (Z.ltb_ge (zlen msg - 1) 0)) by lia. reflexivity. }
  split; [done|]. unfold _pbcC_open. rewrite (proj2 (Z.eqb_neq (zlen msg) 0)) by lia.
  change (Z.to_nat INNER_ATOM) with 19%nat. rewrite open_inner_S by (cbn [cu_size]; lia). cbn [cu_size cu_pos cu_start cu_i].
  rewrite Hw. cbn [obind]. rewrite write_cell by (split; [lia | reflexivity]). cbn [obind].
  assert (advance (Cursor 0 (zlen msg) 0 0) (2 ^ 32 + 1) (0 + 1) = Cursor (2 ^ 32 + 1) (zlen msg - 1) 1 1) as ->.
  { unfold advance. cbn [cu_size cu_pos cu_start]. f_equal; width. }
  rewrite open_inner_S by (cbn [cu_size]; lia). cbn [cu_size cu_pos cu_start cu_i].
  unfold wiretype_decode at 1, varint_at at 1. rewrite (proj2 (Z.leb_le 10 (zlen msg - 1))) by lia.
  rewrite drop_ge by (unfold zlen in *; lia). reflexivity.
Qed.

Lemma context_open_length_wraps_witness :
  let msg := [10; 251; 255; 255; 255; 15] ++ replicate 10 0 in
  wiretype_decode msg 0 (zlen msg) 0 (replicate 10 0) = Done (Some (2 ^ 32 + 1, Atom 10 6 1))
  ∧ _pbcC_open (Some msg) (zlen msg) (λ _, replicate 10 0) = Fault OutOfBounds.
Proof.
  apply (context_open_length_wraps (replicate 10 0) (λ _, replicate 10 0)).
  - apply Forall_replicate. width.
  - split; vm_compute; [discriminate | reflexivity].
Defined.

(** opening packed fixed-width data (doubles, fixed64, floats, fixed32, ...)
    gives one atom per element, however many there are, each holding the
    little-endian value of its four or eight bytes. *)
Theorem open_packed_fixed ptype msg stk w :
  bytes_ok msg → msg ≠ [] →
  (w = 8 ∧ ptype ∈ [PTYPE_DOUBLE; PTYPE_FIXED64; PTYPE_SFIXED64]) ∨ (w = 4 ∧ ptype ∈ [PTYPE_FLOAT; PTYPE_FIXED32; PTYPE_SFIXED32]) →
  ∃ ctx, _pbcC_open_packed ptype (Some msg) (zlen msg) stk = Done (zlen msg / w, ctx) ∧ c_number ctx = zlen msg / w
    ∧ ∀ k, Z.of_nat k < zlen msg / w →
        ctx_atom ctx (Z.of_nat k)
        = Done (let p := Z.to_nat (w * Z.of_nat k) in
                if w =? 8 then Atom WT_BIT64 (le_join (take 4 (drop p msg))) (le_join (take 4 (drop (p + 4) msg)))
                else Atom WT_BIT32 (le_join (take 4 (drop p msg))) 0).
Proof.
  intros Hm Hne Hw.
  pose proof (zlen_pos msg ltac:(done)) as Hpos.
  assert (_pbcC_open_packed ptype (Some msg) (zlen msg) stk = open_fixed msg (zlen msg) w ∧ (w = 4 ∨ w = 8)) as [-> Hw48].
  { unfold _pbcC_open_packed. rewrite (proj2 (Z.eqb_neq (zlen msg) 0)) by lia.
    destruct Hw as [[-> Hp]|[-> Hp]]; (split; [|lia]); repeat (apply elem_of_cons in Hp as [->|Hp]; [done|]); by apply elem_of_nil in Hp. }
  unfold open_fixed. assert (0 < w) as Hwp by lia. rewrite Z.quot_div_nonneg by lia. set (number := zlen msg / w).
  assert (0 <= number ∧ w * number <= zlen msg) as [Hn0 Hn] by (unfold number; split; [apply Z.div_pos; lia | apply Z.mul_div_le; lia]).
  assert (∀ cells, number <= zlen cells → ∃ cells', fixed_loop (Z.to_nat number) w msg cells 0 0 = Done cells' ∧
    ∀ k, Z.of_nat k < number → cells' !! k = Some (Some (let p := Z.to_nat (w * Z.of_nat k) in
                if w =? 8 then Atom WT_BIT64 (le_join (take 4 (drop p msg))) (le_join (take 4 (drop (p + 4) msg)))
                else Atom WT_BIT32 (le_join (take 4 (drop p msg))) 0))) as Hloop.
  { intros cells Hcells. destruct (fixed_loop_spec (Z.to_nat number) w msg cells 0 Hm Hw48) as (cells' & Hf & _ & Hk & _); [lia | lia | lia |].
    rewrite Z.mul_0_r in Hf. exists cells'. split; [done|]. intros k Hlt. apply (Hk k). lia. }
  destruct (Z.ltb_spec INNER_ATOM number) as [Hbig|Hsmall].
  - destruct (Hloop (replicate (Z.to_nat number) None)) as (cells & -> & Hk); [unfold zlen; rewrite length_replicate; lia|]. cbn [obind].
    eexists. split; [done|]. split; [done|]. intros k Hlt. by apply ctx_atom_outer, Hk.
  - destruct (Hloop (replicate (Z.to_nat INNER_ATOM) None)) as (cells & -> & Hk); [unfold zlen; rewrite length_replicate; unfold INNER_ATOM in *; lia|].
    cbn [obind]. eexists. split; [done|]. split; [done|]. intros k Hlt. by apply ctx_atom_inner, Hk.
Qed.

Lemma open_packed_fixed_witness :
  ∃ ctx, _pbcC_open_packed PTYPE_FIXED32 (Some [1; 2; 0; 0; 5; 0; 0; 0]) 8 (λ _, replicate 10 0) = Done (2, ctx) ∧ c_number ctx = 2
    ∧ ∀ k, Z.of_nat k < 2 →
        ctx_atom ctx (Z.of_nat k)
        = Done (let p := Z.to_nat (4 * Z.of_nat k) in Atom WT_BIT32 (le_join (take 4 (drop p [1; 2; 0; 0; 5; 0; 0; 0]))) 0).
Proof.
  apply (open_packed_fixed PTYPE_FIXED32 [1; 2; 0; 0; 5; 0; 0; 0] (λ _, replicate 10 0) 4).
  - repeat (apply Forall_cons; split; [width|]). by apply Forall_nil.
  - done.
  - right. split; [done|]. apply (bool_decide_unpack _). vm_compute. exact I.
Defined.

(** C36: opening packed varints works for at most [INNER_ATOM] (19) elements: one
    atom per element with its value.  With more elements the loop that follows
    keeps writing through the array inside the context, past its end, instead
    of the array it allocated. *)
Theorem open_packed_varints ws stk :
  varints_ok ws → ws ≠ [] → (∀ i, stack_ok (stk i)) →
  if zlen ws <=? INNER_ATOM
  then ∃ ctx, _open_packed_varint (concat ws) (zlen (concat ws)) stk = Done (zlen ws, ctx) ∧ c_number ctx = zlen ws
         ∧ ∀ k w, ws !! k = Some w → ctx_atom ctx (Z.of_nat k) = Done (varint_atom w)
  else _open_packed_varint (concat ws) (zlen (concat ws)) stk = Fault OutOfBounds.
Proof.
  intros Hws Hne Hstk. unfold _open_packed_varint. change (Z.to_nat INNER_ATOM) with 19%nat.
  destruct (packed_inner_spec 19 ws [] stk (replicate 19 None) 0 Hws) as (inner & Hp & Hlen & Hcells & _); [constructor | done | lia | done |].
  cbn [app] in Hp. rewrite zlen_nil in Hp. rewrite Hp. cbn [obind]. rewrite Z.add_0_l. destruct (Z.leb_spec (zlen ws) INNER_ATOM) as [Hle|Hgt]; unfold INNER_ATOM in *.
  - assert (length ws <= 19)%nat as Hle' by (unfold zlen in Hle; lia). rewrite drop_ge, take_ge in * by done.
    cbn [concat]. rewrite zlen_nil. cbn [Z.eqb]. eexists. split; [done|]. split; [done|]. intros k w Hk. apply ctx_atom_inner.
    apply (Hcells k). change (map varint_atom ws) with (varint_atom <$> ws). by rewrite list_lookup_fmap, Hk.
  - assert (19 < length ws)%nat as Hgt' by (unfold zlen in Hgt; lia).
    assert (varints_ok (drop 19 ws)) as Hd by (by apply Forall_drop).
    destruct (drop 19 ws) as [|w rest] eqn:Ed; [apply (f_equal length) in Ed; rewrite length_drop in Ed; cbn in Ed; lia|].
    pose proof (concat_zlen_pos _ Hd ltac:(done)) as Hpos. rewrite (proj2 (Z.eqb_neq _ 0)) by lia.
    assert (concat ws = concat (take 19 ws) ++ concat (w :: rest)) as Ecat by (rewrite <- concat_app, <- Ed, take_drop; done).
    assert (zlen (take 19 ws) = 19) as H19 by (unfold zlen; rewrite length_take; lia). rewrite H19.
    destruct (2 * Z.to_nat (zlen (concat ws)))%nat as [|fuel] eqn:Ef; [rewrite Ecat, zlen_app in Ef; pose proof (zlen_nonneg (concat (take 19 ws))); lia|].
    cbn [packed_outer]. rewrite (proj2 (Z.leb_gt _ 0)) by lia. cbn [Z.leb Z.compare Pos.compare Pos.compare_cont].
    apply Forall_cons_1 in Hd as [[Hw Hwl] Hd]. pose proof (varints_bytes _ Hws) as Hbytes. rewrite Ecat in *. cbn [concat] in *.
    change (19 <=? 19) with true. rewrite decode_varint_here; [|done|done|done|done]. cbn [obind].
    unfold write_at. rewrite andb_false_intro2; [done|]. apply Z.leb_gt. unfold zlen. rewrite Hlen. done.
Qed.

Lemma open_packed_varints_witness :
  (∃ ctx, _open_packed_varint (concat [[1]; [172; 2]]) 3 (λ _, replicate 10 0) = Done (2, ctx) ∧ c_number ctx = 2
     ∧ ∀ k w, [[1]; [172; 2]] !! k = Some w → ctx_atom ctx (Z.of_nat k) = Done (varint_atom w))
  ∧ _open_packed_varint (concat (replicate 20 [1])) 20 (λ _, replicate 10 0) = Fault OutOfBounds.
Proof.
  split.
  - apply (open_packed_varints [[1]; [172; 2]] (λ _, replicate 10 0)); [|done|].
    + repeat (apply Forall_cons; split; [split; vm_compute; congruence|]). by apply Forall_nil.
    + intros _. split; [|done]. apply Forall_replicate. width.
  - apply (open_packed_varints (replicate 20 [1]) (λ _, replicate 10 0)); [|done|].
    + apply Forall_replicate. split; vm_compute; congruence.
    + intros _. split; [|done]. apply Forall_replicate. width.
Defined.
