(* ===== verification/Proto.v ===== *)
(** * pbc message descriptors ([3rd/pbc/src/proto.c], [proto.h])

    The environment maps message and enum names to their descriptors; a message
    descriptor maps field names ([m_name]) and field ids ([m_id]) to fields.  A
    pointer to a message or enum descriptor is the name it is registered under.
    An operation that changes a descriptor through such a pointer stores it back
    in the table of the environment. *)

From S2P Require Import Prelude Chain PMap SpMap PArray StringPool Context.

(** ** The data *)

Definition LABEL_OPTIONAL : Z := 0.
Definition LABEL_REQUIRED : Z := 1.
Definition LABEL_REPEATED : Z := 2.
Definition LABEL_PACKED : Z := 3.

Definition PBC_NOEXIST : Z := -1.
Definition PBC_INT : Z := 1.
Definition PBC_REAL : Z := 2.
Definition PBC_BOOL : Z := 3.
Definition PBC_ENUM : Z := 4.
Definition PBC_STRING : Z := 5.
Definition PBC_MESSAGE : Z := 6.
Definition PBC_FIXED64 : Z := 7.
Definition PBC_FIXED32 : Z := 8.
Definition PBC_BYTES : Z := 9.
Definition PBC_INT64 : Z := 10.
Definition PBC_UINT : Z := 11.
Definition PBC_UNKNOWN : Z := 12.
Definition PBC_REPEATED : Z := 128.

(** [union { const char *n; struct _message *m; struct _enum *e; }]: the name a
    field was declared with, until [set_field_one] replaces it by a pointer,
    null when nothing is registered under the name.  [TName None] is a pointer
    no string can be read from. *)
Inductive type_ref :=
  | TName (n : option (list Z))
  | TMessage (m : option (list Z))
  | TEnum (e : option (list Z)).

#[export] Instance type_ref_eq_dec : EqDecision type_ref.
Proof. solve_decision. Defined.

Record _field := Field {
  f_id : Z;
  f_name : list Z;
  f_type : Z;
  f_label : Z;
  f_default_v : pbc_var;
  f_type_name : type_ref }.

Record _message := Message {
  m_key : list Z;
  m_id : option (map_ip _field);
  m_name : map_sp _field }.

Record _enum := Enum {
  e_key : list Z;
  e_id : map_ip (list Z);
  e_name : map_si;
  e_default_v : pbc_var }.

Record pbc_env := Env {
  files : map_sp stringpool;
  enums : map_sp _enum;
  msgs : map_sp _message;
  lasterror : string }.

(** ** The code *)

Definition pbc_error (p : pbc_env) : string * pbc_env :=
  (lasterror p, Env (files p) (enums p) (msgs p) "").

Definition _pbcP_get_message (p : pbc_env) (name : list Z) : outcome (option _message) :=
  _pbcM_sp_query (Some (msgs p)) name.

(** [f->type_name.m] and [f->type_name.e] *)
Definition field_message (p : pbc_env) (f : _field) : outcome (option _message) :=
  match f_type_name f with
  | TMessage (Some name) => _pbcP_get_message p name
  | TMessage None => Done None
  | _ => Fault BadRead
  end.

Definition field_enum (p : pbc_env) (f : _field) : outcome (option _enum) :=
  match f_type_name f with
  | TEnum (Some name) => _pbcM_sp_query (Some (enums p)) name
  | TEnum None => Done None
  | _ => Fault BadRead
  end.

(** [pbc_new] without [_pbcB_init], which registers the descriptor messages. *)
Definition pbc_new_empty : outcome pbc_env :=
  do! f <- _pbcM_sp_new 0 false;
  do! e <- _pbcM_sp_new 0 false;
  do! m <- _pbcM_sp_new 0 false;
  Done (Env f e m "").

(** The pairs of [table] are ids and names; [None] is returned for a name that
    is taken. *)
Definition _pbcP_push_enum (p : pbc_env) (name : list Z) (table : list (Z * list Z)) : outcome (pbc_env * option _enum) :=
  do! check <- _pbcM_sp_query (Some (enums p)) name;
  match check with
  | Some _ => Done (p, None)
  | None =>
      do! id <- _pbcM_ip_new (to_table table);
      do! nm <- _pbcM_si_new table;
      do! t0 <- read_at table 0;
      let v := Enum name id nm (VEnum t0.1 (Some t0.2)) in
      do! es <- _pbcM_sp_insert (enums p) name (Some v);
      Done (Env (files p) es (msgs p) (lasterror p), Some v)
  end.

(** A new descriptor without fields, added to the environment. *)
Definition new_message (p : pbc_env) (name : list Z) : outcome (pbc_env * _message) :=
  do! fields <- _pbcM_sp_new 0 false;
  let m := Message name None fields in
  do! ms <- _pbcM_sp_insert (msgs p) name (Some m);
  Done (Env (files p) (enums p) ms (lasterror p), m).

(** A change of the descriptor the environment holds under [name]. *)
Definition put_message (p : pbc_env) (name : list Z) (m : _message) : outcome pbc_env :=
  do! (ms, i) <- _pbcM_sp_query_insert (msgs p) name;
  Done (Env (files p) (enums p) (sp_store ms i (Some m)) (lasterror p)).

(** The queue collects the fields whose type is still a name; a pointer to a
    field is the name of its message and its own. *)
Notation field_ptr := (list Z * list Z)%type.

Definition _pbcP_push_message (p : pbc_env) (name : list Z) (f : _field) (queue : array field_ptr)
    : outcome (pbc_env * array field_ptr) :=
  do! q <- _pbcM_sp_query (Some (msgs p)) name;
  do! (p, m) <- match q with
                | None => new_message p name
                | Some m => Done (p, m)
                end;
  do! fields <- _pbcM_sp_insert (m_name m) (f_name f) (Some f);
  do! p <- put_message p name (Message (m_key m) (m_id m) fields);
  do! queue <- (if (f_type f =? PTYPE_MESSAGE) || (f_type f =? PTYPE_ENUM) then _pbcA_push queue (name, f_name f) else Done queue);
  Done (p, queue).

(** [_count] and [_set_table] over the fields. *)
Definition field_table (fields : map_sp _field) : list (Z * option _field) :=
  List.map (λ f, (f_id f, Some f)) (_pbcM_sp_foreach fields).

Definition _pbcP_init_message (p : pbc_env) (name : list Z) : outcome (pbc_env * _message) :=
  do! q <- _pbcM_sp_query (Some (msgs p)) name;
  match q with
  | None => new_message p name
  | Some m =>
      do! id <- _pbcM_ip_new (field_table (m_name m));
      let m := Message (m_key m) (Some id) (m_name m) in
      do! p <- put_message p name m;
      Done (p, m)
  end.

(** [None] is the return value -1. *)
Definition _pbcP_message_default (m : _message) (name : list Z) : outcome (option (Z * pbc_var)) :=
  do! f <- _pbcM_sp_query (Some (m_name m)) name;
  match f with
  | None => Done None
  | Some f => Done (Some (f_type f, f_default_v f))
  end.

(** The class of a field type, 0 when it has none. *)
Definition type_class (t : Z) : Z :=
  if (t =? PTYPE_DOUBLE) || (t =? PTYPE_FLOAT) then PBC_REAL
  else if (t =? PTYPE_INT64) || (t =? PTYPE_SINT64) then PBC_INT64
  else if (t =? PTYPE_INT32) || (t =? PTYPE_SINT32) then PBC_INT
  else if (t =? PTYPE_UINT32) || (t =? PTYPE_UINT64) then PBC_UINT
  else if (t =? PTYPE_FIXED32) || (t =? PTYPE_SFIXED32) then PBC_FIXED32
  else if (t =? PTYPE_SFIXED64) || (t =? PTYPE_FIXED64) then PBC_FIXED64
  else if t =? PTYPE_BOOL then PBC_BOOL
  else if t =? PTYPE_STRING then PBC_STRING
  else if t =? PTYPE_BYTES then PBC_BYTES
  else if t =? PTYPE_ENUM then PBC_ENUM
  else if t =? PTYPE_MESSAGE then PBC_MESSAGE
  else 0.

(** The key of the message or enum a field refers to, read when the caller
    passed a place for it ([want]). *)
Definition type_key (f : _field) (want : bool) : outcome (option (list Z)) :=
  if negb want then Done None
  else if (f_type f =? PTYPE_ENUM) || (f_type f =? PTYPE_MESSAGE) then
    match f_type_name f with
    | TMessage (Some name) => if f_type f =? PTYPE_MESSAGE then Done (Some name) else Fault BadRead
    | TEnum (Some name) => if f_type f =? PTYPE_ENUM then Done (Some name) else Fault BadRead
    | TName _ => Fault BadRead
    | _ => Fault NullDeref
    end
  else Done None.

(** The type and, for an enum or a message, its name. *)
Definition _pbcP_type (field : option _field) (want : bool) : outcome (Z * option (list Z)) :=
  match field with
  | None => Done (0, None)
  | Some f =>
      let ret := type_class (f_type f) in
      do! type <- type_key f want;
      if ret =? 0 then Done (0, None)
      else if (f_label f =? LABEL_REPEATED) || (f_label f =? LABEL_PACKED)
      then Done (Z.lor ret PBC_REPEATED, type) else Done (ret, type)
  end.

Definition pbc_type (p : pbc_env) (type_name : list Z) (key : option (list Z)) (want : bool) : outcome (Z * option (list Z)) :=
  do! m <- _pbcP_get_message p type_name;
  match m with
  | None => Done (0, None)
  | Some m =>
      match key with
      | None => Done (PBC_NOEXIST, None)
      | Some k => do! f <- _pbcM_sp_query (Some (m_name m)) k; _pbcP_type f want
      end
  end.

(** ** Registering a message

    The loop over the fields of [_register_message] ([register.c]) and the call
    that indexes them by id. *)

Fixpoint push_fields (p : pbc_env) (name : list Z) (fs : list _field) (queue : array field_ptr)
    : outcome (pbc_env * array field_ptr) :=
  match fs with
  | [] => Done (p, queue)
  | f :: rest => do! (p, queue) <- _pbcP_push_message p name f queue; push_fields p name rest queue
  end.

Definition register_fields (p : pbc_env) (name : list Z) (fs : list _field) (queue : array field_ptr)
    : outcome (pbc_env * _message * array field_ptr) :=
  do! (p, queue) <- push_fields p name fs queue;
  do! (p, m) <- _pbcP_init_message p name;
  Done (p, m, queue).

(** ** Lemmas *)

Lemma class_range t : 0 <= type_class t < 12.
Proof. unfold type_class. repeat case_match; done. Qed.

Lemma foreach_assoc {V} (m : map_sp V) : sp_wf m → _pbcM_sp_foreach m = omap snd (sp_assoc m).
Proof.
  intros Hwf. assert (∀ s, s ∈ sp_slots m → sp_key s = None → sp_pointer s = None) as Hb.
  { intros s Hin Hk. apply list_elem_of_lookup in Hin as (i & Hi). by rewrite (wf_blank _ Hwf _ _ Hi Hk). }
  unfold _pbcM_sp_foreach, sp_assoc, entries. induction (sp_slots m) as [|s l IH]; [done|]. cbn.
  destruct (sp_key s) eqn:Hk; cbn; [|rewrite (Hb s) by set_solver; apply IH; set_solver].
  destruct (sp_pointer s); [f_equal|]; apply IH; set_solver.
Qed.

Lemma put_ok p name m : sp_ok (msgs p) →
  ∃ p', put_message p name m = Done p' ∧ sp_ok (msgs p') ∧ sp_abs (msgs p') = <[name := Some m]> (sp_abs (msgs p)).
Proof.
  intros Hok. destruct (sp_step_ok (msgs p) (OpSet name (Some m)) Hok I) as (ms & Hs & Hok' & Ha).
  unfold put_message. cbn [sp_step] in Hs. destruct (_pbcM_sp_query_insert (msgs p) name) as [[ms' i]|]; [|done].
  cbn [obind] in *. injection Hs as <-. by eexists.
Qed.

Lemma new_message_ok p name : sp_ok (msgs p) → sp_abs (msgs p) !! name = None →
  ∃ p' m, new_message p name = Done (p', m) ∧ m_key m = name ∧ sp_wf (m_name m) ∧ sp_assoc (m_name m) = []
    ∧ sp_ok (msgs p') ∧ sp_abs (msgs p') = <[name := Some m]> (sp_abs (msgs p)).
Proof.
  intros Hok Hno. unfold new_message. destruct (sp_new_ok (V := _field) 0 false) as (fm & -> & Hwf & Ha & _); [done|]. cbn [obind].
  destruct (sp_step_ok (msgs p) (OpInsert name (Some (Message name None fm))) Hok Hno) as (ms & Hs & Hok' & Hab).
  cbn [sp_step] in Hs. rewrite Hs. cbn [obind]. by eexists _, _.
Qed.

Definition named (f : _field) : list Z * option _field := (f_name f, Some f).

(** Invariant of the loop over the fields, once a field has been pushed. *)
Definition fields_in (p : pbc_env) (name : list Z) (fs : list _field) (rest : gmap (list Z) (option _message)) : Prop :=
  sp_ok (msgs p) ∧ ∃ m, m_key m = name ∧ sp_wf (m_name m) ∧ sp_assoc (m_name m) ≡ₚ List.map named fs
    ∧ sp_abs (msgs p) = <[name := Some m]> rest.

Lemma push_ok p name m f fs queue l rest :
  sp_ok (msgs p) → sp_wf (m_name m) → m_key m = name → sp_assoc (m_name m) ≡ₚ List.map named fs →
  sp_abs (msgs p) = <[name := Some m]> rest → holds queue l →
  ∃ p' queue' l', (do! fields <- _pbcM_sp_insert (m_name m) (f_name f) (Some f);
      do! p <- put_message p name (Message (m_key m) (m_id m) fields);
      do! queue <- (if (f_type f =? PTYPE_MESSAGE) || (f_type f =? PTYPE_ENUM) then _pbcA_push queue (name, f_name f) else Done queue);
      Done (p, queue)) = Done (p', queue')
    ∧ holds queue' l' ∧ fields_in p' name (f :: fs) rest.
Proof.
  intros Hok Hwf Hkey Ha Hab Hq. destruct (insert_ok (m_name m) (f_name f) (Some f) Hwf) as (fm & -> & Hwf' & Ha'). cbn [obind].
  destruct (put_ok p name (Message (m_key m) (m_id m) fm) Hok) as (p' & -> & Hok' & Hab'). cbn [obind].
  assert (fields_in p' name (f :: fs) rest) as Hin.
  { split; [done|]. exists (Message (m_key m) (m_id m) fm). split_and!; [done | done | cbn; by rewrite Ha', Ha |].
    by rewrite Hab', Hab, insert_insert_eq. }
  destruct (_ || _).
  - destruct (push_holds queue l (name, f_name f) Hq) as (q' & -> & Hq'). cbn [obind]. by eexists _, _, _.
  - cbn [obind]. by eexists _, _, _.
Qed.

Lemma get_registered p name m rest : sp_ok (msgs p) → sp_abs (msgs p) = <[name := Some m]> rest →
  _pbcM_sp_query (Some (msgs p)) name = Done (Some m).
Proof.
  intros Hok Hab. apply index_query; [done|]. by rewrite Hab, lookup_insert_eq.
Qed.

Lemma push_fields_more fs p name done_ queue l rest :
  fields_in p name done_ rest → holds queue l →
  ∃ p' queue' l', push_fields p name fs queue = Done (p', queue') ∧ holds queue' l' ∧ fields_in p' name (rev fs ++ done_) rest.
Proof.
  revert p done_ queue l; induction fs as [|f fs IH]; intros p done_ queue l Hin Hq; cbn [push_fields].
  { by eexists _, _, _. }
  destruct Hin as (Hok & m & Hkey & Hwf & Ha & Hab). unfold _pbcP_push_message.
  rewrite (get_registered _ _ _ _ Hok Hab). cbn [obind].
  destruct (push_ok p name m f done_ queue l rest Hok Hwf Hkey Ha Hab Hq) as (p1 & q1 & l1 & -> & Hq1 & Hin1). cbn [obind].
  destruct (IH p1 (f :: done_) q1 l1 Hin1 Hq1) as (p2 & q2 & l2 & -> & Hq2 & Hin2).
  eexists _, _, _. split; [done|]. split; [done|]. cbn [rev]. by rewrite <- app_assoc.
Qed.

Lemma push_fields_new f fs p name queue l :
  sp_ok (msgs p) → sp_abs (msgs p) !! name = None → calc_hash name ≠ 0 → holds queue l →
  ∃ p' queue' l', push_fields p name (f :: fs) queue = Done (p', queue') ∧ holds queue' l'
    ∧ fields_in p' name (rev (f :: fs)) (sp_abs (msgs p)).
Proof.
  intros Hok Hno Hh Hq. cbn [push_fields]. unfold _pbcP_push_message.
  rewrite query_ok by auto. rewrite Hno. cbn [mjoin option_join obind].
  destruct (new_message_ok p name Hok Hno) as (p1 & m & -> & Hkey & Hwf & Ha & Hok1 & Hab1). cbn [obind].
  destruct (push_ok p1 name m f [] queue l (sp_abs (msgs p)) Hok1 Hwf Hkey) as (p2 & q2 & l2 & -> & Hq2 & Hin2);
    [by rewrite Ha | done | done |]. cbn [obind].
  destruct (push_fields_more fs p2 name [f] q2 l2 _ Hin2 Hq2) as (p3 & q3 & l3 & -> & Hq3 & Hin3). by eexists _, _, _.
Qed.

Lemma field_table_to_table (fields : map_sp _field) :
  field_table fields = to_table (List.map (λ f, (f_id f, f)) (_pbcM_sp_foreach fields)).
Proof. unfold field_table, to_table. by rewrite List.map_map. Qed.

Lemma foreach_named (m : map_sp _field) fs : sp_wf m → sp_assoc m ≡ₚ List.map named fs → _pbcM_sp_foreach m ≡ₚ fs.
Proof.
  intros Hwf Ha. rewrite (foreach_assoc _ Hwf), Ha. clear. induction fs as [|f fs IH]; [done|]. cbn. by rewrite IH.
Qed.

(** ** Properties *)

(** C22: registering a message with its fields (distinct names, distinct [int]
    ids) in an environment that does not have it makes it known under its name
    and keeps every other message; its two indexes agree: every field is found
    both by name and by id, and an id that is not declared is not found. *)
Theorem register_fields_indexed p name fs queue l :
  sp_ok (msgs p) → sp_abs (msgs p) !! name = None → calc_hash name ≠ 0 → holds queue l →
  fs ≠ [] → NoDup (f_name <$> fs) → NoDup (f_id <$> fs) → Forall is_s32 (f_id <$> fs) →
  ∃ p' m queue', register_fields p name fs queue = Done (p', m, queue')
    ∧ _pbcP_get_message p' name = Done (Some m)
    ∧ (∀ other, other ≠ name → sp_abs (msgs p') !! other = sp_abs (msgs p) !! other)
    ∧ (∀ f, f ∈ fs → _pbcM_sp_query (Some (m_name m)) (f_name f) = Done (Some f)
                     ∧ _pbcM_ip_query (m_id m) (f_id f) = Done (Some f))
    ∧ (∀ id, is_s32 id → id ∉ f_id <$> fs → _pbcM_ip_query (m_id m) id = Done None).
Proof.
  intros Hok Hno Hh Hq Hne Hnames Hids Hrange. destruct fs as [|f0 fs0]; [done|]. set (fs := f0 :: fs0) in *.
  destruct (push_fields_new f0 fs0 p name queue l Hok Hno Hh Hq) as (p1 & q1 & l1 & Hp1 & _ & Hok1 & m & Hkey & Hwf & Ha & Hab).
  fold fs in Hp1, Ha. unfold register_fields. rewrite Hp1. cbn [obind]. unfold _pbcP_init_message.
  rewrite (get_registered _ _ _ _ Hok1 Hab). cbn [obind]. rewrite field_table_to_table.
  set (kv := List.map (λ f, (f_id f, f)) (_pbcM_sp_foreach (m_name m))).
  assert (_pbcM_sp_foreach (m_name m) ≡ₚ fs) as Hperm.
  { rewrite (foreach_named _ _ Hwf Ha). by rewrite <- Permutation_rev. }
  assert (kv ≡ₚ List.map (λ f, (f_id f, f)) fs) as Hkv by (unfold kv; by rewrite Hperm).
  assert (kv.*1 ≡ₚ f_id <$> fs) as Hkeys by (rewrite Hkv, <- list_fmap_compose; done).
  destruct (ip_new_holds kv) as (ipm & Hip & _ & _ & Hipq).
  { split; by rewrite Hkeys. } { intros E. rewrite E in Hkv. by apply Permutation_nil_l in Hkv. }
  rewrite Hip. cbn [obind]. destruct (put_ok p1 name (Message (m_key m) (Some ipm) (m_name m)) Hok1) as (p2 & -> & Hok2 & Hab2). cbn [obind].
  assert (sp_abs (msgs p2) = <[name := Some (Message (m_key m) (Some ipm) (m_name m))]> (sp_abs (msgs p))) as Hab3
    by (by rewrite Hab2, Hab, insert_insert_eq).
  assert (sp_ok (m_name m)) as Hokf.
  { split; [done|]. rewrite Ha. rewrite <- list_fmap_compose. change (fst ∘ named) with f_name. by rewrite <- Permutation_rev. }
  assert (NoDup kv.*1) as Hndk by (by rewrite Hkeys).
  eexists _, _, _. split; [done|]. split_and!.
  - unfold _pbcP_get_message. by eapply get_registered.
  - intros other Hother. by rewrite Hab3, lookup_insert_ne.
  - intros f Hf. cbn [m_name m_id]. split.
    + assert ((f_name f, Some f) ∈ sp_assoc (m_name m)) as Hin.
      { rewrite Ha. apply list_elem_of_fmap. exists f. split; [done|]. by rewrite <- Permutation_rev. }
      rewrite query_ok; [by rewrite (sp_abs_Some _ _ _ Hokf Hin) | done | right; by eapply assoc_entry].
    + rewrite Hipq; [|rewrite Forall_forall in Hrange; by apply Hrange, list_elem_of_fmap_2]. f_equal.
      apply elem_of_list_to_map; [done|]. rewrite Hkv. apply list_elem_of_fmap. by exists f.
  - intros id Hid Hnin. cbn [m_id]. rewrite Hipq by done. f_equal. apply not_elem_of_list_to_map. by rewrite Hkeys.
Qed.

Lemma register_fields_indexed_witness :
  let f := Field 1 [105] PTYPE_INT32 LABEL_OPTIONAL (VInteger 0 0) (TName None) in
  let g := Field 200 [115] PTYPE_STRING LABEL_REPEATED (VStr [] 0) (TName None) in
  ∃ p p' m queue', register_fields p [77] [f; g] _pbcA_open = Done (p', m, queue')
    ∧ _pbcP_get_message p' [77] = Done (Some m)
    ∧ (∀ other, other ≠ [77] → sp_abs (msgs p') !! other = sp_abs (msgs p) !! other)
    ∧ (∀ h, h ∈ [f; g] → _pbcM_sp_query (Some (m_name m)) (f_name h) = Done (Some h)
                     ∧ _pbcM_ip_query (m_id m) (f_id h) = Done (Some h))
    ∧ (∀ id, is_s32 id → id ∉ f_id <$> [f; g] → _pbcM_ip_query (m_id m) id = Done None).
Proof.
  intros f g. destruct pbc_new_empty as [p|] eqn:E; [|discriminate E]. exists p.
  assert (sp_ok (msgs p) ∧ sp_abs (msgs p) = ∅) as [Hok Habs].
  { unfold pbc_new_empty in E. destruct (sp_new_ok (V := stringpool) 0 false) as (mf & Ef & _); [done|].
    destruct (sp_new_ok (V := _enum) 0 false) as (me & Ee & _); [done|].
    destruct (sp_new_ok (V := _message) 0 false) as (mm & Em & Hwf & Ha & _); [done|].
    rewrite Ef, Ee, Em in E. cbn [obind] in E. injection E as <-. cbn [msgs]. unfold sp_ok, sp_abs. rewrite Ha. split; [split; [done | constructor] | done]. }
  apply (register_fields_indexed p [77] [f; g] _pbcA_open []).
  - done.
  - by rewrite Habs.
  - vm_compute; discriminate.
  - apply open_holds.
  - done.
  - apply (bool_decide_unpack _). vm_compute. exact I.
  - apply (bool_decide_unpack _). vm_compute. exact I.
  - cbn. repeat (apply Forall_cons; split; [width|]). by apply Forall_nil.
Defined.
