(* ===== verification/Wmessage.v ===== *)
(** * pbc message writer ([3rd/pbc/src/wmessage.c])

    A [pbc_wmessage] appends encoded fields to a buffer it doubles when it is
    full; sub-messages and packed fields are kept aside and appended by
    [pbc_wmessage_buffer].  The buffer is the list of its [endptr - buffer]
    bytes and [ptr] an offset into it; a write outside the buffer faults.  Fresh
    memory holds arbitrary bytes ([junk]).  A [double] is its 64-bit pattern;
    its conversion to [float] is a parameter. *)

From S2P Require Import Prelude Varint Chain PMap SpMap PArray StringPool Context Proto.

(** ** The code *)

Definition WMESSAGE_SIZE : Z := 64.

Record _packed := Packed { pk_id : Z; pk_ptype : Z; pk_data : array pbc_var }.

(** [w_sub]: the sub-messages, as indices into the store of messages, with
    their fields. *)
Record wmessage := WMsg {
  w_type : _message;
  w_buf : list Z;
  w_ptr : Z;
  w_sub : array (nat * _field);
  w_packed : option (map_sp _packed) }.

Definition set_buf (m : wmessage) (buf : list Z) (ptr : Z) : wmessage :=
  WMsg (w_type m) buf ptr (w_sub m) (w_packed m).

(** The return value, the message and [env->lasterror] when it is set. *)
Definition wres : Type := Z * wmessage * option string.

Section Wmessage.
Context (junk : nat → Z) (d2f : Z → Z).

Definition _wmessage_new (msg : _message) : wmessage :=
  WMsg msg (fresh_page junk WMESSAGE_SIZE) 0 _pbcA_open_heap None.

Definition pbc_wmessage_new (env : pbc_env) (type_name : list Z) : outcome (option wmessage) :=
  do! msg <- _pbcP_get_message env type_name;
  match msg with
  | None => Done None
  | Some msg => Done (Some (_wmessage_new msg))
  end.

(** [do { cap = cap * 2; } while (sz > cap);] *)
Fixpoint grow_buffer (fuel : nat) (cap sz : Z) : outcome Z :=
  match fuel with
  | O => Fault SignedOverflow
  | S fuel' =>
      let cap := cap * 2 in
      if cap <? sz then grow_buffer fuel' cap sz else Done cap
  end.

(** Twenty-four doublings of the initial 64 bytes reach 2^30. *)
Definition _expand_message (m : wmessage) (sz : Z) : outcome wmessage :=
  if zlen (w_buf m) <? w_ptr m + sz then
    do! cap <- grow_buffer 24 (zlen (w_buf m)) (w_ptr m + sz);
    do! old <- bytes_at (w_buf m) 0 (w_ptr m);
    do! buffer <- write_at (fresh_page junk cap) 0 old;
    Done (set_buf m buffer (w_ptr m))
  else Done m.

(** Bytes written at [m->ptr], which moves past them. *)
Definition emit (m : wmessage) (bs : list Z) : outcome wmessage :=
  do! buf <- write_at (w_buf m) (w_ptr m) bs;
  Done (set_buf m buf (w_ptr m + zlen bs)).

Definition int32_encode (low : Z) : list Z :=
  [u8 (Z.land low 0xff); u8 (Z.land (Z.shiftr low 8) 0xff); u8 (Z.land (Z.shiftr low 16) 0xff);
   u8 (Z.land (Z.shiftr low 24) 0xff)].

Definition int64_encode (low hi : Z) : list Z := int32_encode low ++ int32_encode hi.

Definition float_encode (v : Z) : list Z := int32_encode (d2f v).

Definition double_encode (v : Z) : list Z :=
  [u8 (Z.land v 0xff); u8 (Z.land (Z.shiftr v 8) 0xff); u8 (Z.land (Z.shiftr v 16) 0xff); u8 (Z.land (Z.shiftr v 24) 0xff);
   u8 (Z.land (Z.shiftr v 32) 0xff); u8 (Z.land (Z.shiftr v 40) 0xff); u8 (Z.land (Z.shiftr v 48) 0xff); u8 (Z.land (Z.shiftr v 56) 0xff)].

(** [==] on doubles: NaN differs from everything, the two zeros are equal. *)
Definition double_eq (a b : Z) : bool :=
  let nan x := 0x7ff0000000000000 <? Z.land x 0x7fffffffffffffff in
  negb (nan a) && negb (nan b) && ((a =? b) || (Z.land (Z.lor a b) 0x7fffffffffffffff =? 0)).

(** [_get_packed]: the slot of the field's pending elements, created empty. *)
Definition _get_packed (m : wmessage) (f : _field) (key : list Z) : outcome (map_sp _packed * nat * _packed) :=
  do! pk <- match w_packed m with
            | None => _pbcM_sp_new 4 true
            | Some pk => Done pk
            end;
  do! (pk, i) <- _pbcM_sp_query_insert pk key;
  do! s <- read_at (sp_slots pk) (Z.of_nat i);
  match sp_pointer s with
  | None =>
      let p := Packed (f_id f) (f_type f) _pbcA_open_heap in
      Done (sp_store pk i (Some p), i, p)
  | Some p => Done (pk, i, p)
  end.

Definition packed_push (m : wmessage) (f : _field) (key : list Z) (var : pbc_var) : outcome wmessage :=
  do! (pk, i, p) <- _get_packed m f key;
  do! data <- _pbcA_push (pk_data p) var;
  let pk := sp_store pk i (Some (Packed (pk_id p) (pk_ptype p) data)) in
  Done (WMsg (w_type m) (w_buf m) (w_ptr m) (w_sub m) (Some pk)).

Definition _packed_integer (m : wmessage) (f : _field) (key : list Z) (low hi : Z) : outcome wmessage :=
  packed_push m f key (VInteger low hi).

Definition _packed_real (m : wmessage) (f : _field) (key : list Z) (v : Z) : outcome wmessage :=
  packed_push m f key (VReal v).

(** [(uint64_t)low | (uint64_t)hi << 32] *)
Definition join64 (low hi : Z) : Z := Z.lor low (u64 (Z.shiftl hi 32)).

(** The key and the value written for an integer of the field's type; nothing
    for a type that is not an integer. *)
Definition integer_bytes (ftype id low hi : Z) : list Z :=
  if (ftype =? PTYPE_INT64) || (ftype =? PTYPE_UINT64) || (ftype =? PTYPE_INT32) then
    _pbcV_encode32 (u32 (Z.lor id WT_VARINT)) ++ _pbcV_encode (join64 low hi)
  else if (ftype =? PTYPE_UINT32) || (ftype =? PTYPE_ENUM) || (ftype =? PTYPE_BOOL) then
    _pbcV_encode32 (u32 (Z.lor id WT_VARINT)) ++ _pbcV_encode32 low
  else if (ftype =? PTYPE_FIXED64) || (ftype =? PTYPE_SFIXED64) then
    _pbcV_encode32 (u32 (Z.lor id WT_BIT64)) ++ int64_encode low hi
  else if (ftype =? PTYPE_FIXED32) || (ftype =? PTYPE_SFIXED32) then
    _pbcV_encode32 (u32 (Z.lor id WT_BIT32)) ++ int32_encode low
  else if ftype =? PTYPE_SINT32 then
    _pbcV_encode32 (u32 (Z.lor id WT_VARINT)) ++ _pbcV_zigzag32 (s32 low)
  else if ftype =? PTYPE_SINT64 then
    _pbcV_encode32 (u32 (Z.lor id WT_VARINT)) ++ _pbcV_zigzag (s64 (join64 low hi))
  else [].

(** The value is the declared default of an optional field. *)
Definition is_default_integer (f : _field) (low hi : Z) : bool :=
  match f_default_v f with
  | VEnum id _ => (f_type f =? PTYPE_ENUM) && (low =? u32 id)
  | VInteger l h => negb (f_type f =? PTYPE_ENUM) && (low =? l) && (hi =? h)
  | _ => false
  end.

Definition pbc_wmessage_integer (m : wmessage) (key : list Z) (low hi : Z) : outcome wres :=
  do! q <- _pbcM_sp_query (Some (m_name (w_type m))) key;
  match q with
  | None => Done (-1, m, Some "wmessage_interger query key error"%string)
  | Some f =>
      if f_label f =? LABEL_PACKED then do! m <- _packed_integer m f key low hi; Done (0, m, None)
      else if (f_label f =? LABEL_OPTIONAL) && is_default_integer f low hi then Done (0, m, None)
      else
        let id := s32 (Z.shiftl (f_id f) 3) in
        do! m <- _expand_message m 20;
        do! m <- emit m (integer_bytes (f_type f) id low hi);
        Done (0, m, None)
  end.

Definition real_bytes (ftype id v : Z) : list Z :=
  if ftype =? PTYPE_FLOAT then _pbcV_encode32 (u32 (Z.lor id WT_BIT32)) ++ float_encode v
  else if ftype =? PTYPE_DOUBLE then _pbcV_encode32 (u32 (Z.lor id WT_BIT64)) ++ double_encode v
  else [].

Definition pbc_wmessage_real (m : wmessage) (key : list Z) (v : Z) : outcome wres :=
  do! q <- _pbcM_sp_query (Some (m_name (w_type m))) key;
  match q with
  | None => Done (-1, m, Some "wmessage_real query key error"%string)
  | Some f =>
      if f_label f =? LABEL_PACKED then do! m <- _packed_real m f key v; Done (0, m, None)
      else if (f_label f =? LABEL_OPTIONAL)
              && match f_default_v f with VReal d => double_eq v d | _ => false end
      then Done (0, m, None)
      else
        let id := s32 (Z.shiftl (f_id f) 3) in
        do! m <- _expand_message m 18;
        do! m <- emit m (real_bytes (f_type f) id v);
        Done (0, m, None)
  end.

(** The C string at the start of a block of memory. *)
Fixpoint cstr (v : list Z) : outcome (list Z) :=
  match v with
  | [] => Fault OutOfBounds
  | c :: v' => if c =? 0 then Done [] else do! s <- cstr v'; Done (c :: s)
  end.

(** [strncmp(v, s, n) == 0] *)
Fixpoint strncmp_eq (v s : list Z) (n : nat) : outcome bool :=
  match n with
  | O => Done true
  | S n' =>
      match v with
      | [] => Fault OutOfBounds
      | c :: v' =>
          match s with
          | [] => Done (c =? 0)
          | d :: s' => if c =? d then strncmp_eq v' s' n' else Done false
          end
      end
  end.

(** The name passed to [_pbcM_si_query]: [v] itself or its first [len] bytes. *)
Definition enum_text (v : list Z) (varlen : bool) (len : Z) : outcome (list Z) :=
  do! whole <- (if varlen then do! c <- read_at v len; Done (c =? 0) else Done false);
  if (whole : bool) then cstr v
  else do! bs <- bytes_at v 0 len; cstr (bs ++ [0]).

Definition enum_value (env : pbc_env) (f : _field) (text : list Z) : outcome (option Z) :=
  do! e <- field_enum env f;
  match e with
  | None => Fault NullDeref
  | Some e => _pbcM_si_query (e_name e) text
  end.

(** The value is the declared default of an optional field. *)
Definition is_default_string (f : _field) (v : list Z) (len : Z) : outcome bool :=
  if f_type f =? PTYPE_ENUM then
    match f_default_v f with
    | VEnum _ (Some name) =>
        do! b <- strncmp_eq v name (Z.to_nat len);
        if (b : bool) then do! c <- read_at (name ++ [0]) len; Done (c =? 0) else Done false
    | _ => Fault NullDeref
    end
  else if f_type f =? PTYPE_STRING then
    match f_default_v f with
    | VStr str dlen =>
        if len =? dlen then do! s <- cstr v; Done (bool_decide (s = str)) else Done false
    | _ => Fault NullDeref
    end
  else if f_type f =? PTYPE_BYTES then Done (len =? 0)
  else Done false.

(** [v] is the memory the argument points to, from there on. *)
Definition pbc_wmessage_string (env : pbc_env) (m : wmessage) (key : list Z) (v : list Z) (len : Z) : outcome wres :=
  do! q <- _pbcM_sp_query (Some (m_name (w_type m))) key;
  match q with
  | None => Done (-1, m, Some "wmessage_string query key error"%string)
  | Some f =>
      let varlen := len <=? 0 in
      do! len <- (if varlen then do! s <- cstr v; Done (zlen s - len) else Done len);
      if f_label f =? LABEL_PACKED then
        if f_type f =? PTYPE_ENUM then
          do! text <- enum_text v varlen len;
          do! e <- enum_value env f text;
          match e with
          | None => Done (-1, m, Some "wmessage_string packed invalid enum"%string)
          | Some enum_id => do! m <- _packed_integer m f key (u32 enum_id) 0; Done (0, m, None)
          end
        else Done (0, m, None)
      else
        do! skip <- (if f_label f =? LABEL_OPTIONAL then is_default_string f v len else Done false);
        if (skip : bool) then Done (0, m, None)
        else
          let id := s32 (Z.shiftl (f_id f) 3) in
          do! m <- _expand_message m 20;
          if f_type f =? PTYPE_ENUM then
            do! text <- enum_text v varlen len;
            do! e <- enum_value env f text;
            match e with
            | None => Done (-1, m, Some "wmessage_string invalid enum"%string)
            | Some enum_id =>
                do! m <- emit m (_pbcV_encode32 (u32 (Z.lor id WT_VARINT)) ++ _pbcV_encode32 (u32 enum_id));
                Done (0, m, None)
            end
          else if (f_type f =? PTYPE_STRING) || (f_type f =? PTYPE_BYTES) then
            do! m <- emit m (_pbcV_encode32 (u32 (Z.lor id WT_LEND)) ++ _pbcV_encode32 (u32 len));
            do! m <- _expand_message m len;
            do! bs <- bytes_at v 0 len;
            do! m <- emit m bs;
            Done (0, m, None)
          else Done (0, m, None)
  end.

(** The message the new sub-message is appended to, and the sub-message. *)
Definition pbc_wmessage_message (store : list wmessage) (i : nat) (env : pbc_env) (key : list Z)
    : outcome (list wmessage * option nat * option string) :=
  match store !! i with
  | None => Fault NullDeref
  | Some m =>
      do! q <- _pbcM_sp_query (Some (m_name (w_type m))) key;
      match q with
      | None => Done (store, None, Some "wmessage_message query key error"%string)
      | Some f =>
          do! t <- field_message env f;
          match t with
          | None => Fault NullDeref
          | Some t =>
              let j := length store in
              do! sub <- _pbcA_push (w_sub m) (j, f);
              Done (<[i := WMsg (w_type m) (w_buf m) (w_ptr m) sub (w_packed m)]> store ++ [_wmessage_new t],
                    Some j, None)
          end
      end
  end.

(** *** Packed fields *)

(** Element [k] of the pending elements, from [k = i] on, [n] of them, each
    written by [enc] at the distance [k * step] from [m->ptr]. *)
Fixpoint put_elements (n : nat) (data : array pbc_var) (enc : pbc_var → list Z) (step : Z) (m : wmessage) (i : Z)
    : outcome wmessage :=
  match n with
  | O => Done m
  | S n' =>
      do! var <- _pbcA_index data i;
      do! buf <- write_at (w_buf m) (w_ptr m + i * step) (enc var);
      put_elements n' data enc step (set_buf m buf (w_ptr m)) (i + 1)
  end.

(** The members of an element: it was pushed as an integer or as a real, and
    reading the other member gives the same eight bytes. *)
Definition var_low (v : pbc_var) : Z := match v with VInteger l _ => l | VReal r => u32 r | _ => 0 end.
Definition var_hi (v : pbc_var) : Z := match v with VInteger _ h => h | VReal r => u32 (Z.shiftr r 32) | _ => 0 end.
Definition var_real (v : pbc_var) : Z := match v with VReal r => r | VInteger l h => join64 l h | _ => 0 end.

Definition _pack_packed_64 (p : _packed) (m : wmessage) : outcome wmessage :=
  let n := pbc_array_size (pk_data p) in
  let len := n * 8 in
  do! m <- _expand_message m (10 + len);
  do! m <- emit m (_pbcV_encode32 (u32 len));
  do! m <- put_elements (Z.to_nat n) (pk_data p)
             (λ v, if pk_ptype p =? PTYPE_DOUBLE then double_encode (var_real v) else int64_encode (var_low v) (var_hi v)) 8 m 0;
  Done (set_buf m (w_buf m) (w_ptr m + len)).

(** The elements are written eight bytes apart. *)
Definition _pack_packed_32 (p : _packed) (m : wmessage) : outcome wmessage :=
  let n := pbc_array_size (pk_data p) in
  let len := n * 4 in
  do! m <- _expand_message m (10 + len);
  do! m <- emit m (_pbcV_encode32 (u32 len));
  do! m <- put_elements (Z.to_nat n) (pk_data p)
             (λ v, if pk_ptype p =? PTYPE_FLOAT then float_encode (var_real v) else int32_encode (var_low v)) 8 m 0;
  Done (set_buf m (w_buf m) (w_ptr m + len)).

(** The varint of an element, [None] for a type that has none. *)
Definition varint_enc (ptype : Z) (v : pbc_var) : option (list Z) :=
  if (ptype =? PTYPE_INT64) || (ptype =? PTYPE_UINT64) then Some (_pbcV_encode (join64 (var_low v) (var_hi v)))
  else if (ptype =? PTYPE_INT32) || (ptype =? PTYPE_BOOL) || (ptype =? PTYPE_UINT32) || (ptype =? PTYPE_ENUM)
  then Some (_pbcV_encode32 (var_low v))
  else if ptype =? PTYPE_SINT32 then Some (_pbcV_zigzag32 (s32 (var_low v)))
  else if ptype =? PTYPE_SINT64 then Some (_pbcV_zigzag (s64 (join64 (var_low v) (var_hi v))))
  else None.

Fixpoint put_varints (n : nat) (data : array pbc_var) (ptype : Z) (m : wmessage) (i : Z) : outcome wmessage :=
  match n with
  | O => Done m
  | S n' =>
      do! var <- _pbcA_index data i;
      match varint_enc ptype var with
      | None => Done m
      | Some bs =>
          do! m <- _expand_message m 10;
          do! m <- emit m bs;
          put_varints n' data ptype m (i + 1)
      end
  end.

(** The length is first estimated, then corrected, the elements being moved when
    the two lengths have varints of different sizes. *)
Definition _pack_packed_varint (p : _packed) (m : wmessage) : outcome wmessage :=
  let n := pbc_array_size (pk_data p) in
  let offset := w_ptr m in
  let len := if pk_ptype p =? PTYPE_BOOL then n else n * 2 in
  do! m <- _expand_message m (10 + len);
  let len_len := zlen (_pbcV_encode32 (u32 len)) in
  do! m <- emit m (_pbcV_encode32 (u32 len));
  do! m <- match varint_enc (pk_ptype p) (VInteger 0 0) with
           | Some _ => put_varints (Z.to_nat n) (pk_data p) (pk_ptype p) m 0
           | None => emit m (replicate (Z.to_nat n) 0)
           end;
  let end_len := w_ptr m - (offset + len_len) in
  if end_len =? len then Done m
  else
    let temp := _pbcV_encode32 (u32 end_len) in
    let end_len_len := zlen temp in
    do! m <- (if end_len_len =? len_len then Done m
              else
                do! m <- _expand_message m end_len_len;
                do! bs <- bytes_at (w_buf m) (offset + len_len) end_len;
                do! buf <- write_at (w_buf m) (offset + end_len_len) bs;
                Done (set_buf m buf (w_ptr m + (end_len_len - len_len))));
    do! buf <- write_at (w_buf m) offset temp;
    Done (set_buf m buf (w_ptr m)).

Definition _pack_packed (packed : _packed) (m : wmessage) : outcome wmessage :=
  let id := Z.lor (s32 (Z.shiftl (pk_id packed) 3)) WT_LEND in
  do! m <- _expand_message m 10;
  do! m <- emit m (_pbcV_encode32 (u32 id));
  let t := pk_ptype packed in
  if (t =? PTYPE_DOUBLE) || (t =? PTYPE_FIXED64) || (t =? PTYPE_SFIXED64) then _pack_packed_64 packed m
  else if (t =? PTYPE_FLOAT) || (t =? PTYPE_FIXED32) || (t =? PTYPE_SFIXED32) then _pack_packed_32 packed m
  else _pack_packed_varint packed m.

Fixpoint pack_all (l : list _packed) (m : wmessage) : outcome wmessage :=
  match l with
  | [] => Done m
  | p :: rest => do! m <- _pack_packed p m; pack_all rest m
  end.

(** The slice of the finished message; [fuel] bounds the nesting of the
    sub-messages.  [append_subs] is the loop over [m->sub]. *)
Definition slice_of (m : wmessage) : outcome (list Z) := bytes_at (w_buf m) 0 (w_ptr m).

Fixpoint append_subs (buffer_of : list wmessage → nat → outcome (list wmessage * list Z))
    (subs : list (nat * _field)) (store : list wmessage) (i : nat) : outcome (list wmessage) :=
  match subs with
  | [] => Done store
  | (j, f) :: rest =>
      do! (store, s) <- buffer_of store j;
      match store !! i with
      | None => Fault NullDeref
      | Some m =>
          let id := Z.lor (s32 (Z.shiftl (f_id f) 3)) WT_LEND in
          do! m <- _expand_message m (20 + zlen s);
          do! m <- emit m (_pbcV_encode32 (u32 id) ++ _pbcV_encode32 (u32 (zlen s)));
          do! m <- emit m s;
          append_subs buffer_of rest (<[i := m]> store) i
      end
  end.

(** The elements of an array, by [pbc_array_size] and [_pbcA_index]. *)
Fixpoint array_list {A} (n : nat) (a : array A) (i : Z) : outcome (list A) :=
  match n with
  | O => Done []
  | S n' => do! v <- _pbcA_index a i; do! l <- array_list n' a (i + 1); Done (v :: l)
  end.

Fixpoint pbc_wmessage_buffer (fuel : nat) (store : list wmessage) (i : nat) : outcome (list wmessage * list Z) :=
  match fuel, store !! i with
  | O, _ => Fault OutOfFuel
  | _, None => Fault NullDeref
  | S fuel', Some m =>
      do! m <- match w_packed m with
               | Some pk => pack_all (_pbcM_sp_foreach pk) m
               | None => Done m
               end;
      do! subs <- array_list (Z.to_nat (pbc_array_size (w_sub m))) (w_sub m) 0;
      do! store <- append_subs (pbc_wmessage_buffer fuel') subs (<[i := m]> store) i;
      match store !! i with
      | None => Fault NullDeref
      | Some m => do! s <- slice_of m; Done (store, s)
      end
  end.

(** ** Invariant *)

Definition wm_ok (m : wmessage) : Prop :=
  0 <= w_ptr m <= zlen (w_buf m) ∧ WMESSAGE_SIZE <= zlen (w_buf m).

(** What has been written so far. *)
Definition written (m : wmessage) : list Z := take (Z.to_nat (w_ptr m)) (w_buf m).

(** From [m] to [m'] the bytes [bs] were appended and nothing else changed. *)
Definition wrote (m m' : wmessage) (bs : list Z) : Prop :=
  wm_ok m' ∧ written m' = written m ++ bs ∧ w_ptr m' = w_ptr m + zlen bs
  ∧ w_type m' = w_type m ∧ w_sub m' = w_sub m ∧ w_packed m' = w_packed m.

(** ** Lemmas *)

Lemma zlen_fresh n : 0 <= n → zlen (fresh_page junk n) = n.
Proof. intros. unfold fresh_page, zlen. rewrite length_map, length_seq. lia. Qed.

Lemma new_ok msg : wm_ok (_wmessage_new msg) ∧ written (_wmessage_new msg) = [].
Proof.
  unfold wm_ok, written, _wmessage_new. cbn [w_ptr w_buf]. rewrite zlen_fresh by done.
  split; [unfold WMESSAGE_SIZE; lia | done].
Qed.

Lemma zlen_written m : wm_ok m → zlen (written m) = w_ptr m.
Proof. intros [H _]. unfold written, zlen in *. rewrite length_take. lia. Qed.

Lemma bytes_written m : wm_ok m → bytes_at (w_buf m) 0 (w_ptr m) = Done (written m).
Proof.
  intros [Hp _]. unfold bytes_at. rewrite (proj2 (Z.leb_le 0 (w_ptr m))), (proj2 (Z.leb_le (0 + w_ptr m) _)) by lia.
  reflexivity.
Qed.

Lemma wrote_trans m1 m2 m3 b1 b2 : wrote m1 m2 b1 → wrote m2 m3 b2 → wrote m1 m3 (b1 ++ b2).
Proof.
  intros (_ & Hw1 & Hp1 & Ht1 & Hs1 & Hk1) (Hok & Hw2 & Hp2 & Ht2 & Hs2 & Hk2). unfold wrote.
  rewrite zlen_app, Hw2, Hw1, <- app_assoc. split_and!; try apply Hok; try done; try lia; congruence.
Qed.

Lemma wrote_nil m : wm_ok m → wrote m m [].
Proof. intros H. unfold wrote. rewrite app_nil_r, zlen_nil, Z.add_0_r. done. Qed.

Lemma grow_buffer_spec fuel cap sz : 0 < cap → sz <= cap * 2 ^ Z.of_nat fuel → cap < sz →
  ∃ c, grow_buffer fuel cap sz = Done c ∧ sz <= c ∧ cap <= c.
Proof.
  revert cap; induction fuel as [|fuel IH]; intros cap Hc Hsz Hlt.
  { change (2 ^ Z.of_nat 0) with 1 in Hsz. lia. }
  cbn [grow_buffer]. destruct (Z.ltb_spec (cap * 2) sz) as [Hl|Hg].
  - destruct (IH (cap * 2)) as (c & -> & Hs & Hcc); [lia | | done |].
    + rewrite Nat2Z.inj_succ, Z.pow_succ_r in Hsz by lia. lia.
    + exists c. split_and!; [done | done | lia].
  - exists (cap * 2). split_and!; [done | done | lia].
Qed.

(** Making room keeps what was written. *)
Lemma expand_ok m sz : wm_ok m → 0 <= sz → w_ptr m + sz <= 2 ^ 30 →
  ∃ m', _expand_message m sz = Done m' ∧ wrote m m' [] ∧ w_ptr m + sz <= zlen (w_buf m').
Proof.
  intros Hok Hsz Hmax. pose proof Hok as [Hp Hc]. unfold _expand_message. destruct (Z.ltb_spec (zlen (w_buf m)) (w_ptr m + sz)) as [Hlt|Hge].
  2: { exists m. split_and!; [done | by apply wrote_nil | done]. }
  destruct (grow_buffer_spec 24 (zlen (w_buf m)) (w_ptr m + sz)) as (cap & -> & Hcap & Hcap'); unfold WMESSAGE_SIZE in *;
    [lia | change (Z.of_nat 24) with 24; nia | done |]. cbn [obind].
  rewrite bytes_written by done. cbn [obind].
  pose proof (zlen_written m Hok) as Hzw. pose proof (zlen_fresh cap ltac:(lia)) as Hzf.
  pose proof (write_at_here [] (take (length (written m)) (fresh_page junk cap)) (drop (length (written m)) (fresh_page junk cap)) (written m)) as Hw.
  cbn [app] in Hw. rewrite take_drop in Hw. change (zlen []) with 0 in Hw.
  rewrite Hw by (rewrite length_take; unfold zlen in *; lia). cbn [obind]. eexists. split; [done|].
  assert (zlen (written m ++ drop (length (written m)) (fresh_page junk cap)) = cap) as Hz.
  { rewrite zlen_app. unfold zlen in *. rewrite length_drop. lia. }
  unfold wrote, wm_ok, set_buf, WMESSAGE_SIZE. cbn [w_buf w_ptr w_type w_sub w_packed]. change (zlen []) with 0. rewrite Hz, app_nil_r, Z.add_0_r.
  split_and!; try lia; try done. unfold written at 1. cbn [w_buf w_ptr]. rewrite take_app_le by (unfold zlen in *; lia). apply take_ge. unfold zlen in *. lia.
Qed.

Lemma emit_ok m bs : wm_ok m → w_ptr m + zlen bs <= zlen (w_buf m) →
  ∃ m', emit m bs = Done m' ∧ wrote m m' bs ∧ zlen (w_buf m') = zlen (w_buf m).
Proof.
  intros Hok Hroom. pose proof Hok as [Hp Hc]. unfold emit.
  assert (∃ tail, w_buf m = written m ++ take (length bs) (drop (Z.to_nat (w_ptr m)) (w_buf m)) ++ tail
            ∧ length (take (length bs) (drop (Z.to_nat (w_ptr m)) (w_buf m))) = length bs) as (tail & Htail & Hlen).
  { exists (drop (length bs) (drop (Z.to_nat (w_ptr m)) (w_buf m))). unfold written. rewrite take_drop, take_drop. split; [done|].
    rewrite length_take, length_drop. unfold zlen in *. lia. }
  set (old := take (length bs) (drop (Z.to_nat (w_ptr m)) (w_buf m))) in *.
  pose proof (zlen_written m Hok) as Hzw. 
  assert (write_at (w_buf m) (w_ptr m) bs = Done (written m ++ bs ++ tail)) as ->.
  { rewrite <- Hzw. rewrite Htail at 1. by apply write_at_here. }
  cbn [obind].
  assert (zlen (written m ++ bs ++ tail) = zlen (w_buf m)) as Hz.
  { rewrite (f_equal zlen Htail), !zlen_app. unfold zlen. lia. }
  eexists. split; [done|]. unfold wrote, wm_ok, set_buf. cbn [w_buf w_ptr w_type w_sub w_packed]. rewrite Hz.
  pose proof (zlen_nonneg bs). split_and!; try lia; try done.
  unfold written at 1. cbn [w_buf w_ptr]. rewrite app_assoc. rewrite take_app_le; [apply take_ge|]; rewrite length_app; unfold zlen in *; lia.
Qed.

(** Making room and then writing at most that much. *)
Lemma expand_emit m sz bs : wm_ok m → zlen bs <= sz → w_ptr m + sz <= 2 ^ 30 →
  ∃ m', (do! m <- _expand_message m sz; emit m bs) = Done m' ∧ wrote m m' bs.
Proof.
  intros Hok Hle Hmax. pose proof (zlen_nonneg bs). destruct (expand_ok m sz Hok ltac:(lia) Hmax) as (m1 & -> & Hw1 & Hroom). cbn [obind].
  pose proof Hw1 as (Hok1 & _ & Hp1 & _). rewrite zlen_nil in Hp1.
  destruct (emit_ok m1 bs Hok1 ltac:(lia)) as (m2 & -> & Hw2 & _). exists m2. split; [done|]. exact (wrote_trans _ _ _ [] bs Hw1 Hw2).
Qed.

End Wmessage.

Lemma array_list_holds {A} (a : array A) l : holds a l → array_list (Z.to_nat (pbc_array_size a)) a 0 = Done l.
Proof.
  intros Ha. assert (pbc_array_size a = zlen l) as -> by apply Ha. unfold zlen. rewrite Nat2Z.id.
  assert (∀ k l0, holds a (l0 ++ k) → array_list (length k) a (Z.of_nat (length l0)) = Done k) as H; [|exact (H l [] Ha)]. clear Ha.
  induction k as [|v k IH]; intros l0 Ha; [done|]. cbn [length array_list]. rewrite (index_holds a _ _ Ha) by lia.
  rewrite Nat2Z.id, list_lookup_middle by done. cbn [obind]. specialize (IH (l0 ++ [v])). rewrite <- app_assoc, length_app in IH.
  replace (Z.of_nat (length l0) + 1) with (Z.of_nat (length l0 + length [v])) by (cbn [length]; lia). by rewrite IH.
Qed.

Lemma cstr_app n k : 0 ∉ n → cstr (n ++ 0 :: k) = Done n.
Proof.
  induction n as [|c n IH]; [done|]. intros Hn. cbn [app cstr].
  rewrite (proj2 (Z.eqb_neq c 0)) by set_solver. rewrite IH by set_solver. done.
Qed.

Lemma int32_encode_split v : is_u32 v → int32_encode v = le_split 4 v.
Proof.
  intros Hv. unfold int32_encode. rewrite !land_255, !Z.shiftr_div_pow2 by lia. cbn [le_split].
  assert (∀ x, u8 (x mod 256) = x mod 256) as Hu by (intros x; width). rewrite !Hu.
  change (2 ^ 8) with 256. change (2 ^ 16) with (256 * 256). change (2 ^ 24) with (256 * 256 * 256). rewrite <- !Z.div_div by lia. done.
Qed.

Lemma join64_val low hi : is_u32 low → is_u32 hi → join64 low hi = low + 2 ^ 32 * hi.
Proof.
  intros Hl Hh. unfold join64. rewrite u64_id by (rewrite Z.shiftl_mul_pow2 by lia; width).
  rewrite lor_shiftl_add by (lia || done). lia.
Qed.

Lemma ll_of_join low hi : is_u32 low → is_u32 hi → ll_of (low + 2 ^ 32 * hi) = Longlong low hi.
Proof. intros. unfold ll_of. f_equal; width. Qed.


(** ** What the written bytes parse as *)

Lemma get_varint_enc32 n body : is_u32 n → get_varint (_pbcV_encode32 n ++ body) = Some (zlen (_pbcV_encode32 n), Longlong n 0).
Proof.
  intros Hn. destruct (encode32_is_varint n Hn) as (Hv & Hval & Hl).
  rewrite get_varint_varint by (done || unfold zlen; lia). by rewrite Hval, ll_of_small.
Qed.

Lemma get_varint_enc n body : is_u64 n → get_varint (_pbcV_encode n ++ body) = Some (zlen (_pbcV_encode n), ll_of n).
Proof.
  intros Hn. destruct (encode_is_varint n Hn) as (Hv & Hval & Hl).
  rewrite get_varint_varint by (done || unfold zlen; lia). by rewrite Hval.
Qed.

(** The bytes [b] are one field, with the atom [mk start], whatever follows. *)
Definition one_field (b : list Z) (mk : Z → atom) : Prop :=
  bytes_ok b ∧ 1 <= zlen b ∧ ∀ rest start, ref_field (b ++ rest) start = FOk (zlen b) (mk start).

(** Field numbers of the wire format. *)
Definition id_ok (id : Z) : Prop := 1 <= id < 2 ^ 28.

Definition key (id wt : Z) : Z := id * 8 + wt.

Lemma key_spec id wt : id_ok id → 0 <= wt < 8 →
  u32 (Z.lor (s32 (Z.shiftl id 3)) wt) = key id wt ∧ is_u32 (key id wt) ∧ key id wt mod 8 = wt ∧ s32 (key id wt) = key id wt.
Proof.
  unfold id_ok, key. intros Hid Hwt. assert (s32 (Z.shiftl id 3) = Z.shiftl id 3) as ->.
  { apply s32_id. rewrite Z.shiftl_mul_pow2 by lia. unfold is_s32. lia. }
  rewrite Z.lor_comm, lor_shiftl_add by lia. change (2 ^ 3) with 8. split_and!; width.
Qed.

(** The number of the field a key is for. *)
Lemma key_number id wt : 0 <= wt < 8 → Z.shiftr (key id wt) 3 = id.
Proof. intros Hwt. rewrite Z.shiftr_div_pow2 by lia. unfold key. change (2 ^ 3) with 8. rewrite Z.div_add_l, Z.div_small by lia. lia. Qed.

Lemma drop_zlen_app {A} (l k : list A) : drop (Z.to_nat (zlen l)) (l ++ k) = k.
Proof. unfold zlen. by rewrite Nat2Z.id, drop_app_length. Qed.

Lemma enc32_bytes n : is_u32 n → bytes_ok (_pbcV_encode32 n) ∧ 1 <= zlen (_pbcV_encode32 n) <= 5.
Proof. intros Hn. destruct (encode32_is_varint n Hn) as (Hv & _ & Hl). split; [by apply is_varint_bytes | unfold zlen; lia]. Qed.

Lemma enc_bytes n : is_u64 n → bytes_ok (_pbcV_encode n) ∧ 1 <= zlen (_pbcV_encode n) <= 10.
Proof.
  intros Hn. destruct (encode_is_varint n Hn) as (Hv & _ & Hl). split; [by apply is_varint_bytes|].
  pose proof (varint_nonempty _ Hv). unfold zlen in *. lia.
Qed.

Lemma one_field_varint id w r : id_ok id → bytes_ok w → (∀ rest, get_varint (w ++ rest) = Some (zlen w, r)) →
  one_field (_pbcV_encode32 (key id WT_VARINT) ++ w) (λ _, Atom (key id WT_VARINT) (low r) (hi r)).
Proof.
  intros Hid Hw Hg. destruct (key_spec id WT_VARINT Hid ltac:(done)) as (_ & Hk & Hm & Hs). destruct (enc32_bytes _ Hk) as [Hb Hl].
  split; [by apply Forall_app|]. split; [rewrite zlen_app; pose proof (zlen_nonneg w); lia|]. intros rest start.
  unfold ref_field. rewrite <- app_assoc, get_varint_enc32 by done. cbn [hi low negb Z.eqb]. rewrite drop_zlen_app, Hm, Hs, Hg.
  rewrite Z.eqb_refl. by rewrite zlen_app.
Qed.

Lemma one_field_bit32 id v : id_ok id → is_u32 v →
  one_field (_pbcV_encode32 (key id WT_BIT32) ++ int32_encode v) (λ _, Atom (key id WT_BIT32) v 0).
Proof.
  intros Hid Hv. destruct (key_spec id WT_BIT32 Hid ltac:(done)) as (_ & Hk & Hm & Hs). destruct (enc32_bytes _ Hk) as [Hb Hl].
  rewrite int32_encode_split by done. pose proof (length_le_split 4 v) as H4.
  assert (zlen (le_split 4 v) = 4) as Hz by (unfold zlen; by rewrite H4).
  split; [apply Forall_app; split; [done | apply le_split_bytes]|].
  split; [rewrite zlen_app; pose proof (zlen_nonneg (le_split 4 v)); lia|]. intros rest start.
  unfold ref_field. rewrite <- app_assoc, get_varint_enc32 by done. cbn [hi low negb Z.eqb]. rewrite drop_zlen_app, Hm, Hs.
  cbn [WT_VARINT WT_BIT64 WT_LEND WT_BIT32 Z.eqb Pos.eqb]. rewrite !zlen_app, Hz.
  pose proof (zlen_nonneg rest). rewrite (proj2 (Z.ltb_ge (4 + zlen rest) 4)) by lia.
  rewrite take_app_le, take_ge, le_join_split by (rewrite H4; done). change (256 ^ Z.of_nat 4) with (2 ^ 32).
  by rewrite Z.mod_small.
Qed.

Lemma one_field_bit64 id l h : id_ok id → is_u32 l → is_u32 h →
  one_field (_pbcV_encode32 (key id WT_BIT64) ++ int64_encode l h) (λ _, Atom (key id WT_BIT64) l h).
Proof.
  intros Hid Hl Hh. destruct (key_spec id WT_BIT64 Hid ltac:(done)) as (_ & Hk & Hm & Hs). destruct (enc32_bytes _ Hk) as [Hb Hlen].
  unfold int64_encode. rewrite !int32_encode_split by done.
  pose proof (length_le_split 4 l) as H4. pose proof (length_le_split 4 h) as H4'.
  assert (zlen (le_split 4 l) = 4 ∧ zlen (le_split 4 h) = 4) as [Hz Hz'] by (unfold zlen; by rewrite H4, H4').
  split; [apply Forall_app; split; [done | apply Forall_app; split; apply le_split_bytes]|].
  split; [rewrite zlen_app; pose proof (zlen_nonneg (le_split 4 l ++ le_split 4 h)); lia|]. intros rest start.
  unfold ref_field. rewrite <- app_assoc, get_varint_enc32 by done. cbn [hi low negb Z.eqb]. rewrite drop_zlen_app, Hm, Hs.
  cbn [WT_VARINT WT_BIT64 WT_LEND WT_BIT32 Z.eqb Pos.eqb]. rewrite !zlen_app, Hz, Hz'.
  pose proof (zlen_nonneg rest). rewrite (proj2 (Z.ltb_ge (4 + 4 + zlen rest) 8)) by lia.
  rewrite <- app_assoc. rewrite (take_app_le (le_split 4 l)), (take_ge (le_split 4 l)) by (rewrite H4; done).
  rewrite (drop_app_length' (le_split 4 l)) by (by rewrite H4).
  rewrite (take_app_le (le_split 4 h)), (take_ge (le_split 4 h)) by (rewrite H4'; done).
  rewrite !le_join_split. change (256 ^ Z.of_nat 4) with (2 ^ 32). by rewrite !Z.mod_small.
Qed.

Lemma one_field_lend id bs : id_ok id → bytes_ok bs → zlen bs < 2 ^ 31 →
  let head := _pbcV_encode32 (key id WT_LEND) ++ _pbcV_encode32 (zlen bs) in
  one_field (head ++ bs) (λ start, Atom (key id WT_LEND) (start + zlen head) (start + zlen head + zlen bs)).
Proof.
  intros Hid Hbs Hlt head. destruct (key_spec id WT_LEND Hid ltac:(done)) as (_ & Hk & Hm & Hs). destruct (enc32_bytes _ Hk) as [Hb Hlen].
  pose proof (zlen_nonneg bs). assert (is_u32 (zlen bs)) as Hu by (unfold is_u32; lia). destruct (enc32_bytes _ Hu) as [Hb2 Hlen2].
  unfold head. split; [apply Forall_app; split; [by apply Forall_app | done]|].
  split; [rewrite !zlen_app; lia|]. intros rest start.
  unfold ref_field. rewrite <- !app_assoc, get_varint_enc32 by done. cbn [hi low negb Z.eqb]. rewrite drop_zlen_app, Hm, Hs.
  cbn [WT_VARINT WT_BIT64 WT_LEND WT_BIT32 Z.eqb Pos.eqb]. rewrite get_varint_enc32 by done. cbn [hi low negb Z.eqb].
  rewrite (proj2 (Z.leb_gt (2 ^ 32) _)) by lia. pose proof (zlen_nonneg rest).
  rewrite (proj2 (Z.ltb_ge (zlen (_ ++ _ ++ rest)) _)) by (rewrite !zlen_app; lia).
  by rewrite !zlen_app, !Z.add_assoc.
Qed.

(** The atom of an integer field. *)
Definition integer_atom (ftype id low hi : Z) : atom :=
  if (ftype =? PTYPE_INT64) || (ftype =? PTYPE_UINT64) || (ftype =? PTYPE_INT32) then Atom (key id WT_VARINT) low hi
  else if (ftype =? PTYPE_UINT32) || (ftype =? PTYPE_ENUM) || (ftype =? PTYPE_BOOL) then Atom (key id WT_VARINT) low 0
  else if (ftype =? PTYPE_FIXED64) || (ftype =? PTYPE_SFIXED64) then Atom (key id WT_BIT64) low hi
  else if (ftype =? PTYPE_FIXED32) || (ftype =? PTYPE_SFIXED32) then Atom (key id WT_BIT32) low 0
  else if ftype =? PTYPE_SINT32 then Atom (key id WT_VARINT) (zz (s32 low)) 0
  else let r := ll_of (zz (s64 (low + 2 ^ 32 * hi))) in Atom (key id WT_VARINT) (Varint.low r) (Varint.hi r).

Definition int_types : list Z :=
  [PTYPE_INT64; PTYPE_UINT64; PTYPE_INT32; PTYPE_UINT32; PTYPE_ENUM; PTYPE_BOOL; PTYPE_FIXED64; PTYPE_SFIXED64;
   PTYPE_FIXED32; PTYPE_SFIXED32; PTYPE_SINT32; PTYPE_SINT64].

Lemma integer_one_field t id low hi : t ∈ int_types → id_ok id → is_u32 low → is_u32 hi →
  one_field (integer_bytes t (s32 (Z.shiftl id 3)) low hi) (λ _, integer_atom t id low hi)
  ∧ zlen (integer_bytes t (s32 (Z.shiftl id 3)) low hi) <= 15.
Proof.
  intros Ht Hid Hl Hh.
  assert (is_u64 (low + 2 ^ 32 * hi)) as H64 by (unfold is_u64, is_u32 in *; lia).
  destruct (key_spec id WT_VARINT Hid ltac:(done)) as (Ev & Hkv & _). destruct (key_spec id WT_BIT64 Hid ltac:(done)) as (E8 & Hk8 & _).
  destruct (key_spec id WT_BIT32 Hid ltac:(done)) as (E4 & Hk4 & _).
  pose proof (enc32_bytes _ Hkv) as [_ Hlv]. pose proof (enc32_bytes _ Hk8) as [_ Hl8]. pose proof (enc32_bytes _ Hk4) as [_ Hl4].
  pose proof (enc_bytes _ H64) as [Hb64 Hl64]. pose proof (enc32_bytes _ Hl) as [Hb32 Hl32].
  pose proof (zz_u32 _ (s32_range low)) as Hz32. pose proof (zz_u64 _ (s64_range (low + 2 ^ 32 * hi))) as Hz64.
  pose proof (enc32_bytes _ Hz32) as [Hbz32 Hlz32]. pose proof (enc_bytes _ Hz64) as [Hbz64 Hlz64].
  unfold integer_bytes, integer_atom. rewrite Ev, E8, E4, join64_val by done. unfold int_types in Ht.
  repeat (apply elem_of_cons in Ht as [->|Ht];
    [cbn [Z.eqb Pos.eqb orb PTYPE_INT64 PTYPE_UINT64 PTYPE_INT32 PTYPE_UINT32 PTYPE_ENUM PTYPE_BOOL PTYPE_FIXED64 PTYPE_SFIXED64
          PTYPE_FIXED32 PTYPE_SFIXED32 PTYPE_SINT32 PTYPE_SINT64]; cbv zeta; rewrite ?zigzag32_encode, ?zigzag_encode by apply s32_range || apply s64_range|]);
    [..|by apply elem_of_nil in Ht]; rewrite zlen_app; (split; [|try (unfold int64_encode; rewrite ?zlen_app); try (change (zlen (int32_encode _)) with 4); lia]).
  all: first
    [ apply one_field_bit32; done
    | apply one_field_bit64; done
    | pose proof (one_field_varint id _ _ Hid Hb64 (λ rest, get_varint_enc _ rest H64)) as Ho; rewrite ll_of_join in Ho by done; exact Ho
    | exact (one_field_varint id _ _ Hid Hb32 (λ rest, get_varint_enc32 _ rest Hl))
    | exact (one_field_varint id _ _ Hid Hbz32 (λ rest, get_varint_enc32 _ rest Hz32))
    | exact (one_field_varint id _ _ Hid Hbz64 (λ rest, get_varint_enc _ rest Hz64)) ].
Qed.

(** ** Opening a sequence of fields *)

(** The bytes of a field and its atom, by the offset where the field starts. *)
Definition chunk : Type := list Z * (Z → atom).

Definition chunk_ok (c : chunk) : Prop := one_field c.1 c.2.

Definition chunks_bytes (cs : list chunk) : list Z := concat (map fst cs).

Fixpoint chunk_atoms (cs : list chunk) (start : Z) : list atom :=
  match cs with
  | [] => []
  | c :: rest => c.2 start :: chunk_atoms rest (start + zlen c.1)
  end.

Lemma length_chunk_atoms cs start : length (chunk_atoms cs start) = length cs.
Proof. revert start; induction cs as [|c cs IH]; intros start; cbn; [done|]. by rewrite IH. Qed.

Lemma chunks_bytes_ok cs : Forall chunk_ok cs → bytes_ok (chunks_bytes cs).
Proof.
  induction 1 as [|c cs Hc Hcs IH]; [constructor|]. unfold chunks_bytes in *. cbn [map concat].
  apply Forall_app. split; [apply Hc | done].
Qed.

Lemma chunks_nonempty cs : Forall chunk_ok cs → cs ≠ [] → 0 < zlen (chunks_bytes cs).
Proof.
  intros [|c cs' (_ & Hl & _) _] Hne; [done|]. unfold chunks_bytes. cbn [map concat]. rewrite zlen_app.
  pose proof (zlen_nonneg (concat (map fst cs'))). lia.
Qed.

Lemma chunks_count cs : Forall chunk_ok cs → zlen cs <= zlen (chunks_bytes cs).
Proof. unfold chunks_bytes. induction 1 as [|c cs (_ & Hl & _) Hcs IH]; [done|]. cbn [map concat]. rewrite zlen_cons, zlen_app. lia. Qed.

Lemma chunks_bytes_app cs cs' : chunks_bytes (cs ++ cs') = chunks_bytes cs ++ chunks_bytes cs'.
Proof. unfold chunks_bytes. by rewrite map_app, concat_app. Qed.

Lemma chunk_atoms_app cs cs' start : chunk_atoms (cs ++ cs') start = chunk_atoms cs start ++ chunk_atoms cs' (start + zlen (chunks_bytes cs)).
Proof.
  revert start; induction cs as [|c cs IH]; intros start; [by rewrite Z.add_0_r|]. unfold chunks_bytes in *. cbn [app chunk_atoms map concat].
  by rewrite IH, zlen_app, Z.add_assoc.
Qed.

Lemma parse_chunks cs start : Forall chunk_ok cs →
  ref_parse (length (chunks_bytes cs)) (chunks_bytes cs) start = POk (chunk_atoms cs start).
Proof.
  intros Hcs. revert start; induction Hcs as [|c cs Hc Hcs IH]; intros start; [done|].
  assert (bytes_ok (chunks_bytes (c :: cs))) as Hb by (apply chunks_bytes_ok; by constructor).
  assert (0 < zlen (chunks_bytes (c :: cs))) as Hp by (apply chunks_nonempty; [by constructor | done]).
  unfold chunks_bytes in *. cbn [map concat chunk_atoms] in *. pose proof Hb as Hb'. apply Forall_app in Hb' as [_ Hb']. destruct Hc as (_ & _ & Hf).
  rewrite ref_parse_step; [|done|by intros E; rewrite E in Hp]. rewrite Hf, drop_zlen_app, IH. done.
Qed.

(** Opening the fields one after another gives their atoms, whatever follows them
    in memory. *)
Lemma open_chunks_in cs tail stk : Forall chunk_ok cs → cs ≠ [] → zlen (chunks_bytes cs) < 2 ^ 31 → (∀ i, stack_ok (stk i)) →
  ∃ ctx, _pbcC_open (Some (chunks_bytes cs ++ tail)) (zlen (chunks_bytes cs)) stk = Done (zlen cs, ctx) ∧ c_number ctx = zlen cs
    ∧ ∀ k a, chunk_atoms cs 0 !! k = Some a → ctx_atom ctx (Z.of_nat k) = Done a.
Proof.
  intros Hcs Hne Hlen Hstk. pose proof (chunks_nonempty cs Hcs Hne) as Hp.
  assert (chunks_bytes cs ≠ []) as Hmne by (intros E; by rewrite E in Hp).
  pose proof (open_spec _ tail stk (chunks_bytes_ok cs Hcs) Hmne Hlen Hstk) as Ho. unfold parse in Ho. rewrite parse_chunks in Ho by done.
  unfold zlen in Ho at 2 3. rewrite length_chunk_atoms in Ho. exact Ho.
Qed.

Lemma open_chunks cs stk : Forall chunk_ok cs → cs ≠ [] → zlen (chunks_bytes cs) < 2 ^ 31 → (∀ i, stack_ok (stk i)) →
  ∃ ctx, _pbcC_open (Some (chunks_bytes cs)) (zlen (chunks_bytes cs)) stk = Done (zlen cs, ctx) ∧ c_number ctx = zlen cs
    ∧ ∀ k a, chunk_atoms cs 0 !! k = Some a → ctx_atom ctx (Z.of_nat k) = Done a.
Proof. intros Hcs Hne Hlen Hstk. pose proof (open_chunks_in cs [] stk Hcs Hne Hlen Hstk) as Ho. by rewrite app_nil_r in Ho. Qed.
