(* ===== verification/Decode.v ===== *)
(** * pbc callback decoder ([3rd/pbc/src/decode.c])

    [pbc_decode] opens a message and calls the decoder back for each field.  The
    calls are modelled by the list of events they are.  A slice handed to the
    callback is the list of its bytes. *)

From S2P Require Import Prelude Varint Chain PMap SpMap PArray StringPool Context Proto Wmessage.

(** ** The code *)

Definition TYPENAME : list string :=
  ["invalid"; "integer"; "real"; "boolean"; "enum"; "string"; "message"; "fixed64"; "fixed32"; "bytes"; "int64"; "uint"]%string.

(** [union pbc_value], by the member the decoder writes. *)
Inductive pbc_value :=
  | PI (low hi : Z)
  | PF (bits : Z)
  | PS (slice : list Z)
  | PE (id : Z) (name : option (list Z)).

(** A call [pd(ud, type, type_name, &v, id, key)]; the name of a type is one of
    [TYPENAME] or the key of a message or enum. *)
Record event := Event {
  ev_type : Z;
  ev_type_name : string + list Z;
  ev_value : pbc_value;
  ev_id : Z;
  ev_key : option (list Z) }.

Section Decode.
Context (f2d : Z → Z) (env : pbc_env).

Definition typename (type : Z) : outcome string := read_at TYPENAME type.

(** [read_double]: [(uint64_t)low | (uint64_t)hi << 32] *)
Definition read_double (a : atom) : Z := join64 (word0 a) (word1 a).

(** [(double) read_float(a)] *)
Definition read_float (a : atom) : Z := f2d (word0 a).

Definition slice_value (msg : list Z) (a : atom) : outcome pbc_value :=
  do! s <- bytes_at msg (a_start a) (a_end a - a_start a); Done (PS s).

(** [None] is the return value 1. *)
Definition call_unknown (msg : list Z) (id : Z) (a : atom) : outcome (option event) :=
  let wt := Z.land (wire_id a) 7 in
  let call (type : Z) (v : pbc_value) := do! n <- typename type; Done (Some (Event type (inl n) v id None)) in
  if wt =? WT_VARINT then call PBC_INT (PI (word0 a) (word1 a))
  else if wt =? WT_BIT64 then call PBC_FIXED64 (PI (word0 a) (word1 a))
  else if wt =? WT_LEND then do! v <- slice_value msg a; call PBC_BYTES v
  else if wt =? WT_BIT32 then call PBC_FIXED32 (PI (word0 a) 0)
  else Done None.

(** [_pbcM_ip_query(f->type_name.e->id, id)] *)
Definition enum_name (f : _field) (id : Z) : outcome (option (list Z)) :=
  do! e <- field_enum env f;
  match e with
  | None => Fault NullDeref
  | Some e => _pbcM_ip_query (Some (e_id e)) id
  end.

(** The type and type name passed to the callback. *)
Definition callback_type (f : _field) : outcome (Z * (string + list Z)) :=
  do! (type, name) <- _pbcP_type (Some f) true;
  if type =? 0 then Fault AssertFailed
  else match name with
       | Some n => Done (type, inr n)
       | None => do! n <- typename (Z.land type (Z.lnot PBC_REPEATED)); Done (type, inl n)
       end.

(** The value of a field that is not packed; [None] is the return value -1 of a
    failed [CHECK_LEND]. *)
Definition field_value (msg : list Z) (f : _field) (a : atom) : outcome (option pbc_value) :=
  let t := f_type f in
  if t =? PTYPE_DOUBLE then Done (Some (PF (read_double a)))
  else if t =? PTYPE_FLOAT then Done (Some (PF (read_float a)))
  else if t =? PTYPE_ENUM then
    do! n <- enum_name f (s32 (word0 a)); Done (Some (PE (s32 (word0 a)) n))
  else if (t =? PTYPE_INT64) || (t =? PTYPE_UINT64) || (t =? PTYPE_FIXED64) || (t =? PTYPE_SFIXED64) then
    Done (Some (PI (word0 a) (word1 a)))
  else if (t =? PTYPE_INT32) || (t =? PTYPE_UINT32) || (t =? PTYPE_BOOL) || (t =? PTYPE_FIXED32) || (t =? PTYPE_SFIXED32) then
    Done (Some (PI (word0 a) 0))
  else if t =? PTYPE_SINT32 then let r := _pbcV_dezigzag32 (a_i a) in Done (Some (PI (low r) (hi r)))
  else if t =? PTYPE_SINT64 then let r := _pbcV_dezigzag64 (a_i a) in Done (Some (PI (low r) (hi r)))
  else if (t =? PTYPE_STRING) || (t =? PTYPE_BYTES) || (t =? PTYPE_MESSAGE) then
    if negb (Z.land (wire_id a) 7 =? WT_LEND) then Done None
    else do! v <- slice_value msg a; Done (Some v)
  else Fault AssertFailed.

Definition call_type (msg : list Z) (f : _field) (a : atom) : outcome (option event) :=
  do! (type, name) <- callback_type f;
  do! v <- field_value msg f a;
  match v with
  | None => Done None
  | Some v => Done (Some (Event type name v (f_id f) (Some (f_name f))))
  end.

(** The loops over fixed-width elements of [w] bytes at [pos + i]. *)
Fixpoint fixed_events (n : nat) (msg : list Z) (w pos : Z) (mk : Z → Z → pbc_value) : outcome (list pbc_value) :=
  match n with
  | O => Done []
  | S n' =>
      do! l <- read_u32 msg pos;
      do! h <- (if w =? 8 then read_u32 msg (pos + 4) else Done 0);
      do! rest <- fixed_events n' msg w (pos + w) mk;
      Done (mk l h :: rest)
  end.

(** The loops over varints.  The bytes are decoded from [buffer] even when fewer
    than ten are left; [false] is the return value -1. *)
Fixpoint varint_events (fuel : nat) (msg : list Z) (pos size : Z) (mk : longlong → outcome pbc_value)
    : outcome (bool * list pbc_value) :=
  if size <=? 0 then Done (true, [])
  else match fuel with
       | O => Fault OutOfFuel
       | S fuel' =>
           do! (len, r) <- _pbcV_decode (drop (Z.to_nat pos) msg);
           if (size <? 10) && (size <? len) then Done (false, [])
           else
             do! v <- mk r;
             do! (ok, rest) <- varint_events fuel' msg (pos + len) (size - len) mk;
             Done (ok, v :: rest)
       end.

(** The callbacks of a packed field and whether the return value is not -1. *)
Definition call_array (msg : list Z) (f : _field) (pos size : Z) : outcome (bool * list event) :=
  do! (type, name) <- callback_type f;
  let t := f_type f in
  do! (ok, vs) <-
    (if t =? PTYPE_DOUBLE then
       if negb (Z.rem size 8 =? 0) then Done (false, [])
       else do! vs <- fixed_events (Z.to_nat (size / 8)) msg 8 pos (λ l h, PF (join64 l h)); Done (true, vs)
     else if t =? PTYPE_FLOAT then
       if negb (Z.rem size 4 =? 0) then Done (false, [])
       else do! vs <- fixed_events (Z.to_nat (size / 4)) msg 4 pos (λ l _, PF (f2d l)); Done (true, vs)
     else if (t =? PTYPE_FIXED32) || (t =? PTYPE_SFIXED32) then
       if negb (Z.rem size 4 =? 0) then Done (false, [])
       else do! vs <- fixed_events (Z.to_nat (size / 4)) msg 4 pos (λ l _, PI l 0); Done (true, vs)
     else if (t =? PTYPE_FIXED64) || (t =? PTYPE_SFIXED64) then
       if negb (Z.rem size 8 =? 0) then Done (false, [])
       else do! vs <- fixed_events (Z.to_nat (size / 8)) msg 8 pos (λ l h, PI l h); Done (true, vs)
     else if (t =? PTYPE_INT64) || (t =? PTYPE_UINT64) || (t =? PTYPE_INT32) || (t =? PTYPE_UINT32) || (t =? PTYPE_BOOL) then
       varint_events (Z.to_nat size) msg pos size (λ r, Done (PI (low r) (hi r)))
     else if t =? PTYPE_ENUM then
       varint_events (Z.to_nat size) msg pos size (λ r, do! n <- enum_name f (s32 (low r)); Done (PE (s32 (low r)) n))
     else if t =? PTYPE_SINT32 then
       varint_events (Z.to_nat size) msg pos size (λ r, let r := _pbcV_dezigzag32 r in Done (PI (low r) (hi r)))
     else if t =? PTYPE_SINT64 then
       varint_events (Z.to_nat size) msg pos size (λ r, let r := _pbcV_dezigzag64 r in Done (PI (low r) (hi r)))
     else Done (false, []));
  Done (ok, List.map (λ v, Event type name v (f_id f) (Some (f_name f))) vs).

(** The callbacks for one atom; [false] when the loop returns [-i-1]. *)
Definition decode_atom (msg : list Z) (m : _message) (a : atom) : outcome (bool * list event) :=
  let id := Z.shiftr (wire_id a) 3 in
  do! f <- _pbcM_ip_query (m_id m) id;
  match f with
  | None =>
      do! e <- call_unknown msg id a;
      match e with Some e => Done (true, [e]) | None => Done (false, []) end
  | Some f =>
      if f_label f =? LABEL_PACKED then call_array msg f (a_start a) (a_end a - a_start a)
      else
        do! e <- call_type msg f a;
        match e with Some e => Done (true, [e]) | None => Done (false, []) end
  end.

(** [for (i=0;i<ctx->number;i++)]: [n] iterations are left. *)
Fixpoint decode_loop (n : nat) (msg : list Z) (m : _message) (ctx : context) (i : Z) : outcome (Z * list event) :=
  match n with
  | O => Done (c_number ctx, [])
  | S n' =>
      do! a <- ctx_atom ctx i;
      do! (ok, evs) <- decode_atom msg m a;
      if (ok : bool) then
        do! (ret, rest) <- decode_loop n' msg m ctx (i + 1);
        Done (ret, evs ++ rest)
      else Done (- i - 1, evs)
  end.

(** The return value, the callbacks, and [env->lasterror] when it is set. *)
Definition pbc_decode (type_name : list Z) (msg : list Z) (stk : Z → list Z) : outcome (Z * list event * option string) :=
  do! t <- _pbcP_get_message env type_name;
  match t with
  | None => Done (-1, [], Some "Proto not found"%string)
  | Some m =>
      if zlen msg =? 0 then Done (0, [], None)
      else
        do! (count, ctx) <- _pbcC_open (Some msg) (zlen msg) stk;
        if count <=? 0 then Done (count - 1, [], Some "decode context error"%string)
        else do! (ret, evs) <- decode_loop (Z.to_nat (c_number ctx)) msg m ctx 0; Done (ret, evs, None)
  end.

End Decode.

(** ** Writing and decoding *)

(** A field written through the message writer; the memory of a string goes on
    with [tail]. *)
Inductive wop :=
  | WInt (f : _field) (low hi : Z)
  | WStr (f : _field) (bs tail : list Z)
  | WDouble (f : _field) (v : Z).

Definition op_field (op : wop) : _field := match op with WInt f _ _ | WStr f _ _ | WDouble f _ => f end.

Lemma double_encode_split v : is_u64 v → double_encode v = int64_encode (u32 v) (v / 2 ^ 32).
Proof.
  intros Hv. unfold int64_encode. rewrite (int32_encode_split (u32 v)) by apply u32_range.
  rewrite int32_encode_split by (unfold is_u32, is_u64 in *; split; [apply Z.div_pos; lia | apply Z.div_lt_upper_bound; lia]).
  change (u32 v) with (v mod 256 ^ Z.of_nat 4). rewrite le_split_mod. change (2 ^ 32) with (256 ^ Z.of_nat 4).
  rewrite <- le_split_app. unfold double_encode. rewrite !land_255, !Z.shiftr_div_pow2 by lia.
  assert (∀ x, u8 (x mod 256) = x mod 256) as Hu by (intros x; width). rewrite !Hu. cbn [Nat.add le_split].
  rewrite !Z.div_div by lia. done.
Qed.

Lemma dezigzag64_words l h : is_u32 l → is_u32 h → _pbcV_dezigzag64 (ll_of (zz (s64 (l + 2 ^ 32 * h)))) = Longlong l h.
Proof.
  intros Hl Hh. set (n := s64 (l + 2 ^ 32 * h)). pose proof (s64_range (l + 2 ^ 32 * h)) as Hn. fold n in Hn.
  pose proof (dezigzag64_val n Hn) as Hv. assert (u64 n = l + 2 ^ 32 * h) as Eu.
  { unfold n. rewrite u64_s64, u64_id; [done|]. unfold is_u64, is_u32 in *. lia. }
  rewrite Eu in Hv. pose proof (zz_u64 n Hn) as Hz. set (z := zz n) in *.
  assert (is_u32 (low (_pbcV_dezigzag64 (ll_of z))) ∧ is_u32 (hi (_pbcV_dezigzag64 (ll_of z)))) as [Hlo Hhi].
  { unfold _pbcV_dezigzag64, ll_of. cbn [low hi]. pose proof (u32_range (z / 2 ^ 32)) as Hr. pose proof (u32_range z) as Hr0.
    set (zh := u32 (z / 2 ^ 32)) in *. set (zl := u32 z) in *.
    assert (u32 (Z.shiftl (Z.land zh 1) 31) = Z.shiftl (zh mod 2) 31) as ->.
    { rewrite land_1. apply u32_id. rewrite Z.shiftl_mul_pow2 by lia. unfold is_u32. zmod. }
    rewrite !Z.shiftr_div_pow2 by lia. unfold is_u32 in *. rewrite lor_shiftl_add by (lia || zmod).
    rewrite !sign_mask by (unfold is_u32; zmod). destruct (Z.even zl); split; zmod. }
  unfold ll_val in Hv. destruct (_pbcV_dezigzag64 (ll_of z)) as [a b]. cbn [low hi] in *. unfold is_u32 in *. f_equal; lia.
Qed.

Lemma high_word_range v : is_u64 v → is_u32 (v / 2 ^ 32).
Proof. unfold is_u32, is_u64. intros. split; [apply Z.div_pos; lia | apply Z.div_lt_upper_bound; lia]. Qed.

Section RoundTrip.
Context (junk : nat → Z) (d2f f2d : Z → Z) (env : pbc_env).

Definition do_op (w : wmessage) (op : wop) : outcome wres :=
  match op with
  | WInt f l h => pbc_wmessage_integer junk w (f_name f) l h
  | WStr f bs tail => pbc_wmessage_string junk env w (f_name f) (bs ++ tail) (zlen bs)
  | WDouble f v => pbc_wmessage_real junk d2f w (f_name f) v
  end.

(** The writes in order, as long as they return 0. *)
Fixpoint do_ops (w : wmessage) (ops : list wop) : outcome (option wmessage) :=
  match ops with
  | [] => Done (Some w)
  | op :: rest =>
      do! (ret, w, _) <- do_op w op;
      if ret =? 0 then do_ops w rest else Done None
  end.

(** The field is one of the message's (under its name and its id), it is not
    packed, the value has the field's type and is not a default that the writer
    leaves out. *)
Definition op_ok (m : _message) (op : wop) : Prop :=
  let f := op_field op in
  _pbcM_sp_query (Some (m_name m)) (f_name f) = Done (Some f)
  ∧ _pbcM_ip_query (m_id m) (f_id f) = Done (Some f)
  ∧ id_ok (f_id f) ∧ f_label f ≠ LABEL_PACKED
  ∧ match op with
    | WInt _ l h => f_type f ∈ int_types ∧ f_type f ≠ PTYPE_ENUM ∧ is_u32 l ∧ is_u32 h
        ∧ (f_label f = LABEL_OPTIONAL → is_default_integer f l h = false)
    | WStr _ bs tail => f_type f ∈ [PTYPE_STRING; PTYPE_BYTES] ∧ bytes_ok bs ∧ bs ≠ []
        ∧ (f_label f = LABEL_OPTIONAL → is_default_string f (bs ++ tail) (zlen bs) = Done false)
    | WDouble _ v => f_type f = PTYPE_DOUBLE ∧ is_u64 v
        ∧ (f_label f = LABEL_OPTIONAL → match f_default_v f with VReal d => double_eq v d | _ => false end = false)
    end.

Definition op_bytes (op : wop) : list Z :=
  match op with
  | WInt f l h => integer_bytes (f_type f) (s32 (Z.shiftl (f_id f) 3)) l h
  | WStr f bs _ => _pbcV_encode32 (key (f_id f) WT_LEND) ++ _pbcV_encode32 (zlen bs) ++ bs
  | WDouble f v => _pbcV_encode32 (key (f_id f) WT_BIT64) ++ double_encode v
  end.

Definition op_atom (op : wop) (start : Z) : atom :=
  match op with
  | WInt f l h => integer_atom (f_type f) (f_id f) l h
  | WStr f bs _ =>
      let s := start + zlen (_pbcV_encode32 (key (f_id f) WT_LEND) ++ _pbcV_encode32 (zlen bs)) in
      Atom (key (f_id f) WT_LEND) s (s + zlen bs)
  | WDouble f v => Atom (key (f_id f) WT_BIT64) (u32 v) (v / 2 ^ 32)
  end.

(** The value the decoder hands back: both words for the 64-bit types, the low
    word and 0 for the 32-bit ones; the high word [_pbcV_dezigzag32] computes
    for a sint32. *)
Definition op_value (op : wop) : pbc_value :=
  match op with
  | WInt f l h =>
      if bool_decide (f_type f ∈ [PTYPE_INT64; PTYPE_UINT64; PTYPE_FIXED64; PTYPE_SFIXED64; PTYPE_SINT64]) then PI l h
      else if f_type f =? PTYPE_SINT32 then PI l (hi (_pbcV_dezigzag32 (Longlong (zz (s32 l)) 0)))
      else PI l 0
  | WStr _ bs _ => PS bs
  | WDouble _ v => PF v
  end.

Definition op_event (op : wop) : event :=
  let f := op_field op in
  let c := type_class (f_type f) in
  let t := if (f_label f =? LABEL_REPEATED) || (f_label f =? LABEL_PACKED) then Z.lor c PBC_REPEATED else c in
  Event t (inl (nth (Z.to_nat c) TYPENAME ""%string)) (op_value op) (f_id f) (Some (f_name f)).

(** *** Writing *)

Lemma op_one_field m op : op_ok m op → zlen (op_bytes op) < 2 ^ 31 → one_field (op_bytes op) (op_atom op).
Proof.
  intros (_ & _ & Hid & _ & Hop) Hlen. destruct op as [f l h|f bs tail|f v]; cbn [op_field op_bytes op_atom] in *.
  - destruct Hop as (Ht & _ & Hl & Hh & _). by apply integer_one_field.
  - destruct Hop as (_ & Hb & Hne & _). rewrite !zlen_app in Hlen. pose proof (zlen_nonneg (_pbcV_encode32 (key (f_id f) WT_LEND))).
    pose proof (zlen_nonneg (_pbcV_encode32 (zlen bs))). rewrite app_assoc. apply one_field_lend; [done | done | lia].
  - destruct Hop as (_ & Hv & _). rewrite double_encode_split by done. apply one_field_bit64; [done | apply u32_range | by apply high_word_range].
Qed.

Lemma op_written m w op : op_ok m op → w_type w = m → wm_ok w → w_ptr w + zlen (op_bytes op) + 20 <= 2 ^ 30 →
  ∃ w', do_op w op = Done (0, w', None) ∧ wrote w w' (op_bytes op).
Proof.
  intros (Hq & _ & Hid & Hlab & Hop) Hty Hok Hmax. pose proof (zlen_nonneg (op_bytes op)) as Hnn.
  destruct op as [f l h|f bs tail|f v]; cbn [op_field do_op op_bytes] in *.
  - destruct Hop as (Ht & _ & Hl & Hh & Hdef). unfold pbc_wmessage_integer. rewrite Hty, Hq. cbn [obind].
    rewrite (proj2 (Z.eqb_neq _ _) Hlab). destruct (integer_one_field (f_type f) (f_id f) l h Ht Hid Hl Hh) as [_ H15].
    destruct (f_label f =? LABEL_OPTIONAL) eqn:Eopt; bprop; [rewrite (Hdef Eopt)|]; cbn [andb];
      (destruct (expand_emit junk w 20 (integer_bytes (f_type f) (s32 (Z.shiftl (f_id f) 3)) l h) Hok ltac:(lia) ltac:(lia)) as (w' & Hw & Hwr);
       destruct (_expand_message junk w 20) as [w1|]; [|done]; cbn [obind] in *; rewrite Hw; cbn [obind]; eauto).
  - destruct Hop as (Ht & Hb & Hne & Hdef). unfold pbc_wmessage_string. rewrite Hty, Hq. cbn [obind].
    pose proof (zlen_pos bs ltac:(done)) as Hpos. rewrite (proj2 (Z.leb_gt (zlen bs) 0) Hpos). cbn [obind].
    rewrite (proj2 (Z.eqb_neq _ _) Hlab).
    assert ((if f_label f =? LABEL_OPTIONAL then is_default_string f (bs ++ tail) (zlen bs) else Done false) = Done false) as ->.
    { destruct (f_label f =? LABEL_OPTIONAL) eqn:Eopt; bprop; auto. }
    cbn [obind]. destruct (key_spec (f_id f) WT_LEND Hid ltac:(done)) as (Ek & Hku & _). rewrite Ek.
    assert (is_u32 (zlen bs)) as Hbu by (rewrite !zlen_app in Hmax; pose proof (zlen_nonneg (_pbcV_encode32 (key (f_id f) WT_LEND)));
      pose proof (zlen_nonneg (_pbcV_encode32 (zlen bs))); destruct Hok as [? _]; unfold is_u32; lia).
    rewrite (u32_id (zlen bs)) by done. set (hd := _pbcV_encode32 (key (f_id f) WT_LEND) ++ _pbcV_encode32 (zlen bs)).
    assert (zlen hd <= 10) as Hhd by (unfold hd; rewrite zlen_app; destruct (enc32_bytes _ Hku) as [_ ?]; destruct (enc32_bytes _ Hbu) as [_ ?]; lia).
    rewrite app_assoc in *. fold hd in Hmax |- *. rewrite zlen_app in Hmax.
    pose proof (zlen_nonneg hd).
    destruct (expand_emit junk w 20 hd Hok ltac:(lia) ltac:(lia)) as (w1 & Hw1 & Hwr1).
    destruct (_expand_message junk w 20) as [w0|]; [|done]. cbn [obind] in *.
    assert (f_type f =? PTYPE_ENUM = false ∧ (f_type f =? PTYPE_STRING) || (f_type f =? PTYPE_BYTES) = true) as [-> ->].
    { repeat (apply elem_of_cons in Ht as [->|Ht]; [done|]). by apply elem_of_nil in Ht. }
    rewrite Hw1. cbn [obind]. pose proof Hwr1 as (Hok1 & _ & Hp1 & _).
    destruct (expand_emit junk w1 (zlen bs) bs Hok1 ltac:(lia) ltac:(lia)) as (w2 & Hw2 & Hwr2).
    destruct (_expand_message junk w1 (zlen bs)) as [w1'|]; [|done]. cbn [obind] in *.
    rewrite (bytes_at_app [] bs tail : bytes_at (bs ++ tail) 0 (zlen bs) = Done bs). cbn [obind]. rewrite Hw2. cbn [obind].
    eexists. split; [done|]. by eapply wrote_trans.
  - destruct Hop as (Ht & Hv & Hdef). unfold pbc_wmessage_real. rewrite Hty, Hq. cbn [obind]. rewrite (proj2 (Z.eqb_neq _ _) Hlab).
    assert ((f_label f =? LABEL_OPTIONAL) && match f_default_v f with VReal d => double_eq v d | _ => false end = false) as ->.
    { destruct (f_label f =? LABEL_OPTIONAL) eqn:Eopt; bprop; [by rewrite (Hdef Eopt) | done]. }
    destruct (key_spec (f_id f) WT_BIT64 Hid ltac:(done)) as (Ek & Hku & _). destruct (enc32_bytes _ Hku) as [_ Hl5].
    assert (real_bytes d2f (f_type f) (s32 (Z.shiftl (f_id f) 3)) v = _pbcV_encode32 (key (f_id f) WT_BIT64) ++ double_encode v) as ->.
    { unfold real_bytes. rewrite Ht, Ek. done. }
    destruct (expand_emit junk w 18 (_pbcV_encode32 (key (f_id f) WT_BIT64) ++ double_encode v) Hok) as (w' & Hw & Hwr);
      [rewrite zlen_app; change (zlen (double_encode v)) with 8; lia | lia |].
    destruct (_expand_message junk w 18) as [w1|]; [|done]. cbn [obind] in *. rewrite Hw. cbn [obind]. eauto.
Qed.

Lemma ops_written m ops w : Forall (op_ok m) ops → w_type w = m → wm_ok w →
  w_ptr w + zlen (concat (map op_bytes ops)) + 20 <= 2 ^ 30 →
  ∃ w', do_ops w ops = Done (Some w') ∧ wrote w w' (concat (map op_bytes ops)).
Proof.
  intros Hops. revert w; induction Hops as [|op ops Hop Hops IH]; intros w Hty Hok Hmax; cbn [do_ops map concat] in *.
  { exists w. split; [done | by apply wrote_nil]. }
  rewrite zlen_app in Hmax. pose proof (zlen_nonneg (concat (map op_bytes ops))).
  destruct (op_written m w op Hop Hty Hok) as (w1 & -> & Hwr); [lia|]. cbn [obind Z.eqb].
  pose proof Hwr as (Hok1 & _ & Hp1 & Hty1 & _). destruct (IH w1) as (w2 & -> & Hwr2); [congruence | done | lia |].
  exists w2. split; [done|]. by eapply wrote_trans.
Qed.

(** *** The fields that were written *)

Definition op_chunk (op : wop) : chunk := (op_bytes op, op_atom op).

Lemma op_chunks m ops : Forall (op_ok m) ops → zlen (chunks_bytes (map op_chunk ops)) < 2 ^ 31 → Forall chunk_ok (map op_chunk ops).
Proof.
  unfold chunks_bytes. induction 1 as [|op ops Hop Hops IH]; cbn [map concat op_chunk fst]; intros Hlen; [constructor|].
  rewrite zlen_app in Hlen. pose proof (zlen_nonneg (op_bytes op)). pose proof (zlen_nonneg (concat (map fst (map op_chunk ops)))).
  constructor; [apply (op_one_field m op Hop); lia | apply IH; lia].
Qed.

Lemma op_chunks_bytes ops : chunks_bytes (map op_chunk ops) = concat (map op_bytes ops).
Proof. unfold chunks_bytes. by rewrite List.map_map. Qed.

(** *** Decoding an atom *)

Lemma class_callback f : f_type f ∈ int_types ∨ f_type f ∈ [PTYPE_STRING; PTYPE_BYTES; PTYPE_DOUBLE] → f_type f ≠ PTYPE_ENUM →
  let c := type_class (f_type f) in
  callback_type f = Done (if (f_label f =? LABEL_REPEATED) || (f_label f =? LABEL_PACKED) then Z.lor c PBC_REPEATED else c,
                          inl (nth (Z.to_nat c) TYPENAME ""%string)).
Proof.
  intros Ht Hne c. unfold callback_type, _pbcP_type, type_key. cbn [negb]. fold c.
  assert ((f_type f =? PTYPE_ENUM) || (f_type f =? PTYPE_MESSAGE) = false) as ->.
  { rewrite (proj2 (Z.eqb_neq _ _) Hne). cbn [orb]. apply Z.eqb_neq. intros E. rewrite E in Ht.
    destruct Ht as [Ht|Ht]; repeat (apply elem_of_cons in Ht as [Ht|Ht]; [done|]); by apply elem_of_nil in Ht. }
  unfold c. destruct Ht as [Ht|Ht];
    repeat (apply elem_of_cons in Ht as [->|Ht]; [destruct ((_ =? LABEL_REPEATED) || _); reflexivity|]); by apply elem_of_nil in Ht.
Qed.

Lemma integer_value msg f l h : f_type f ∈ int_types → f_type f ≠ PTYPE_ENUM → is_u32 l → is_u32 h →
  field_value f2d env msg f (integer_atom (f_type f) (f_id f) l h) = Done (Some (op_value (WInt f l h))).
Proof.
  intros Ht Hne Hl Hh. assert (u32 (s32 l) = l) as El by (rewrite u32_s32; by apply u32_id).
  pose proof (dezigzag32_low (s32 l) 0 (s32_range l)) as E32. pose proof (dezigzag64_words l h Hl Hh) as E64.
  unfold field_value, integer_atom, op_value. set (t := f_type f) in *. clearbody t. unfold int_types in Ht.
  repeat (apply elem_of_cons in Ht as [->|Ht]; [try done|]); [..|by apply elem_of_nil in Ht].
  - cbn [a_i]. unfold a_i. cbn. cbn in E32. rewrite E32, El. reflexivity.
  - set (r := ll_of (zz (s64 (l + 2 ^ 32 * h)))) in *. assert (Longlong (low r) (hi r) = r) as Er by (by destruct r).
    unfold a_i. cbn [Z.eqb Pos.eqb orb PTYPE_DOUBLE PTYPE_FLOAT PTYPE_ENUM PTYPE_INT64 PTYPE_UINT64 PTYPE_FIXED64 PTYPE_SFIXED64
      PTYPE_INT32 PTYPE_UINT32 PTYPE_BOOL PTYPE_FIXED32 PTYPE_SFIXED32 PTYPE_SINT32 PTYPE_SINT64 word0 word1]. cbv zeta.
    rewrite Er, E64. reflexivity.
Qed.

(** Each written field is decoded into its event. *)
Lemma decode_written m op pre post : op_ok m op → zlen (pre ++ op_bytes op ++ post) < 2 ^ 31 →
  decode_atom f2d env (pre ++ op_bytes op ++ post) m (op_atom op (zlen pre)) = Done (true, [op_event op]).
Proof.
  intros (_ & Hq & Hid & Hlab & Hop) Hlen. unfold decode_atom.
  assert (∃ wt, 0 <= wt < 8 ∧ wire_id (op_atom op (zlen pre)) = key (f_id (op_field op)) wt) as (wt & Hwt & Ewt).
  { destruct op as [f l h|f bs tail|f v]; cbn [op_atom op_field wire_id] in *; [|by exists WT_LEND|by exists WT_BIT64].
    unfold integer_atom. repeat case_match; cbn [wire_id]; eexists; split; try reflexivity; done. }
  rewrite Ewt, key_number, Hq by done. cbn [obind]. rewrite (proj2 (Z.eqb_neq _ _) Hlab). unfold call_type.
  destruct op as [f l h|f bs tail|f v]; cbn [op_field op_atom op_bytes] in *.
  - destruct Hop as (Ht & Hne & Hl & Hh & _). rewrite class_callback by auto. cbn [obind]. rewrite integer_value by done. done.
  - destruct Hop as (Ht & Hb & Hne & _).
    assert (f_type f ≠ PTYPE_ENUM) as Hnenum by (intros E; rewrite E in Ht; repeat (apply elem_of_cons in Ht as [Ht|Ht]; [done|]); by apply elem_of_nil in Ht).
    rewrite class_callback; [|right; set_solver|done]. cbn [obind].
    set (hd := _pbcV_encode32 (key (f_id f) WT_LEND) ++ _pbcV_encode32 (zlen bs)).
    assert (slice_value (pre ++ (_pbcV_encode32 (key (f_id f) WT_LEND) ++ _pbcV_encode32 (zlen bs) ++ bs) ++ post)
              (Atom (key (f_id f) WT_LEND) (zlen pre + zlen hd) (zlen pre + zlen hd + zlen bs)) = Done (PS bs)) as Hs.
    { unfold slice_value, a_start, a_end. cbn [word0 word1]. pose proof (zlen_nonneg pre). pose proof (zlen_nonneg hd). pose proof (zlen_nonneg bs). pose proof (zlen_nonneg post).
      replace (pre ++ (_pbcV_encode32 (key (f_id f) WT_LEND) ++ _pbcV_encode32 (zlen bs) ++ bs) ++ post) with ((pre ++ hd) ++ bs ++ post)
        by (unfold hd; by rewrite <- !app_assoc).
      replace (pre ++ (_pbcV_encode32 (key (f_id f) WT_LEND) ++ _pbcV_encode32 (zlen bs) ++ bs) ++ post) with ((pre ++ hd) ++ bs ++ post) in Hlen
        by (unfold hd; by rewrite <- !app_assoc).
      rewrite !zlen_app in Hlen. rewrite !s32_id by (unfold is_s32; lia). unfold bytes_at.
      rewrite (proj2 (Z.leb_le 0 (zlen pre + _))), (proj2 (Z.leb_le 0 (_ - _))), (proj2 (Z.leb_le (_ + (_ - _)) _)) by (rewrite ?zlen_app; lia).
      cbn [andb obind]. rewrite <- zlen_app, drop_zlen_app. replace (zlen (pre ++ hd) + zlen bs - zlen (pre ++ hd)) with (zlen bs) by lia.
      unfold zlen. by rewrite Nat2Z.id, take_app_length. }
    assert (Z.land (key (f_id f) WT_LEND) 7 = WT_LEND) as Hwl by (rewrite land_7; by apply key_spec).
    unfold field_value. cbn [wire_id]. fold hd in Hs |- *.
    repeat (apply elem_of_cons in Ht as [Ht|Ht];
      [rewrite Ht; cbn [Z.eqb Pos.eqb orb PTYPE_STRING PTYPE_BYTES PTYPE_DOUBLE PTYPE_FLOAT PTYPE_ENUM PTYPE_INT64 PTYPE_UINT64 PTYPE_FIXED64 PTYPE_SFIXED64
         PTYPE_INT32 PTYPE_UINT32 PTYPE_BOOL PTYPE_FIXED32 PTYPE_SFIXED32 PTYPE_SINT32 PTYPE_SINT64];
       rewrite Hwl; cbn [negb Z.eqb Pos.eqb WT_LEND]; rewrite Hs; cbn [obind]; unfold op_event; cbn [op_field op_value]; by rewrite Ht|]);
    by apply elem_of_nil in Ht.
  - destruct Hop as (Ht & Hv & _). rewrite class_callback; [|right; rewrite Ht; set_solver|by rewrite Ht]. cbn [obind].
    unfold field_value. rewrite Ht. cbn [Z.eqb Pos.eqb PTYPE_DOUBLE obind]. unfold read_double. cbn [word0 word1].
    rewrite join64_val by (apply u32_range || by apply high_word_range).
    assert (u32 v + 2 ^ 32 * (v / 2 ^ 32) = v) as -> by (unfold u32; pose proof (Z.div_mod v (2 ^ 32) ltac:(lia)); lia).
    unfold op_event. cbn [op_field op_value]. by rewrite Ht.
Qed.

Lemma decode_loop_written m ctx msg pre ops i :
  Forall (op_ok m) ops → msg = pre ++ concat (map op_bytes ops) → zlen msg < 2 ^ 31 → 0 <= i →
  (∀ k a, chunk_atoms (map op_chunk ops) (zlen pre) !! k = Some a → ctx_atom ctx (i + Z.of_nat k) = Done a) →
  decode_loop f2d env (length ops) msg m ctx i = Done (c_number ctx, map op_event ops).
Proof.
  intros Hops. revert pre i; induction Hops as [|op ops Hop Hops IH]; intros pre i Hmsg Hlen Hi Hctx; cbn [length decode_loop map]; [done|].
  cbn [map concat] in Hmsg. pose proof (Hctx 0%nat (op_atom op (zlen pre)) eq_refl) as H0. rewrite Z.add_0_r in H0. rewrite H0. cbn [obind].
  rewrite Hmsg in Hlen. pose proof (decode_written m op pre (concat (map op_bytes ops)) Hop Hlen) as Hd. rewrite <- Hmsg in Hd, Hlen.
  rewrite Hd. cbn [obind]. rewrite (IH (pre ++ op_bytes op) (i + 1)); [done | by rewrite <- app_assoc | done | lia |].
  intros k a Hk. replace (i + 1 + Z.of_nat k) with (i + Z.of_nat (S k)) by lia. apply Hctx. cbn [map chunk_atoms op_chunk fst snd]. by rewrite zlen_app in Hk.
Qed.

End RoundTrip.

(** A message of written fields is decoded into their events. *)
Lemma decode_ops f2d env type_name m ops stk :
  _pbcP_get_message env type_name = Done (Some m) →
  Forall (op_ok m) ops → ops ≠ [] → zlen (concat (map op_bytes ops)) + 20 <= 2 ^ 30 → (∀ i, stack_ok (stk i)) →
  pbc_decode f2d env type_name (concat (map op_bytes ops)) stk = Done (zlen ops, map op_event ops, None).
Proof.
  intros Hm Hops Hne Hlen Hstk. set (msg := concat (map op_bytes ops)) in *.
  assert (chunks_bytes (map op_chunk ops) = msg) as Emsg by apply op_chunks_bytes.
  assert (map op_chunk ops ≠ []) as Hcne by (by destruct ops).
  pose proof (op_chunks m ops Hops ltac:(rewrite Emsg; lia)) as Hcs.
  pose proof (chunks_nonempty _ Hcs Hcne) as Hp1. pose proof (zlen_pos _ Hne) as Hp2. rewrite Emsg in Hp1.
  destruct (open_chunks _ stk Hcs Hcne) as (ctx & Hopen & Hnum & Hatoms); [rewrite Emsg; lia | done |].
  assert (zlen (map op_chunk ops) = zlen ops) as Hpl by (unfold zlen; by rewrite length_map).
  rewrite Emsg, Hpl in Hopen. rewrite Hpl in Hnum.
  unfold pbc_decode. rewrite Hm. cbn [obind]. rewrite (proj2 (Z.eqb_neq (zlen msg) 0)) by lia.
  rewrite Hopen. cbn [obind]. rewrite (proj2 (Z.leb_gt (zlen ops) 0)) by lia. rewrite Hnum. unfold zlen at 1. rewrite Nat2Z.id.
  rewrite (decode_loop_written id f2d env m ctx msg [] ops 0); [by rewrite Hnum | done | done | lia | lia |].
  intros k a Hk. rewrite Z.add_0_l. by apply Hatoms.
Qed.

(** ** Properties *)

(** C4: what is written is what is decoded.  For any sequence of scalar fields
    (all integer types but enums, strings, bytes, doubles) written into a fresh
    message, the writer grows its buffer as needed without ever writing outside
    of it, and [pbc_decode] on the finished buffer calls back exactly once per
    field, in order, with the field's id, name, type and the value written,
    whatever the fresh memory and the stack contain. *)
Theorem write_decode_roundtrip junk d2f f2d env type_name m ops stk :
  _pbcP_get_message env type_name = Done (Some m) →
  Forall (op_ok m) ops → ops ≠ [] → zlen (concat (map op_bytes ops)) + 20 <= 2 ^ 30 → (∀ i, stack_ok (stk i)) →
  ∃ w, do_ops junk d2f env (_wmessage_new junk m) ops = Done (Some w)
    ∧ pbc_decode f2d env type_name (written w) stk = Done (zlen ops, map op_event ops, None).
Proof.
  intros Hm Hops Hne Hlen Hstk. destruct (new_ok junk m) as [Hok0 Hw0].
  destruct (ops_written junk d2f env m ops (_wmessage_new junk m) Hops eq_refl Hok0) as (w & Hw & _ & Hwr & _); [cbn [w_ptr _wmessage_new]; lia|].
  exists w. split; [done|]. rewrite Hwr, Hw0. by eapply decode_ops.
Qed.

(** An environment with one message of three fields, for the witnesses. *)
Definition demo_fields : list _field :=
  [Field 1 [105; 100] PTYPE_INT64 LABEL_OPTIONAL (VInteger 0 0) (TName None);
   Field 2 [110] PTYPE_STRING LABEL_REQUIRED (VStr [] 0) (TName None);
   Field 300 [122] PTYPE_SINT32 LABEL_REPEATED (VInteger 0 0) (TName None)].

Definition demo_env : pbc_env :=
  Eval vm_compute in
    match (do! p <- pbc_new_empty; do! (p, _, _) <- register_fields p [77] demo_fields _pbcA_open; Done p) with
    | Done p => p
    | Fault _ => Env (MapSp 0 0 false []) (MapSp 0 0 false []) (MapSp 0 0 false []) ""
    end.

Definition demo_msg : _message :=
  Eval vm_compute in
    match _pbcP_get_message demo_env [77] with
    | Done (Some m) => m
    | _ => Message [] None (MapSp 0 0 false [])
    end.

Definition demo_ops : list wop :=
  [WInt (Field 1 [105; 100] PTYPE_INT64 LABEL_OPTIONAL (VInteger 0 0) (TName None)) 4294967291 4294967295;
   WStr (Field 2 [110] PTYPE_STRING LABEL_REQUIRED (VStr [] 0) (TName None)) [104; 105; 33] [];
   WInt (Field 300 [122] PTYPE_SINT32 LABEL_REPEATED (VInteger 0 0) (TName None)) 4294967291 0].

Lemma write_decode_roundtrip_witness :
  ∃ w, do_ops (λ _, 170) id demo_env (_wmessage_new (λ _, 170) demo_msg) demo_ops = Done (Some w)
    ∧ pbc_decode id demo_env [77] (written w) (λ _, replicate 10 255) = Done (3, map op_event demo_ops, None).
Proof.
  apply (write_decode_roundtrip (λ _, 170) id id demo_env [77] demo_msg demo_ops (λ _, replicate 10 255)).
  - vm_compute. reflexivity.
  - repeat (apply Forall_cons; split); [.. | by apply Forall_nil]; unfold op_ok; cbn [op_field];
      (split; [vm_compute; reflexivity|]); (split; [vm_compute; reflexivity|]); (split; [split; vm_compute; congruence|]);
      (split; [vm_compute; discriminate|]).
    + split; [apply (bool_decide_unpack _); vm_compute; exact I|]. split; [vm_compute; discriminate|]. split; [width|]. split; [width|].
      intros _. vm_compute. reflexivity.
    + split; [apply (bool_decide_unpack _); vm_compute; exact I|]. split; [repeat (apply Forall_cons; split; [width|]); by apply Forall_nil|].
      split; [discriminate|]. intros E. discriminate E.
    + split; [apply (bool_decide_unpack _); vm_compute; exact I|]. split; [vm_compute; discriminate|]. split; [width|]. split; [width|].
      intros E. discriminate E.
  - discriminate.
  - vm_compute. discriminate.
  - intros _. split; [|reflexivity]. apply Forall_replicate. width.
Defined.
