(* ===== verification/Packed.v ===== *)
(** * Packed fields and sub-messages of the pbc writer ([3rd/pbc/src/wmessage.c])

    Proofs about the parts of [Wmessage] that finish a message: the packed
    fields, whose length prefix is estimated and corrected, and the recursion
    over the sub-messages. *)

From S2P Require Import Prelude Varint Chain PMap SpMap PArray StringPool Context Proto Wmessage Decode.

(** ** Reference encodings *)

(** The elements as varints, and the packed field they make. *)
Definition varints_of (ptype : Z) (vs : list pbc_var) : list Z :=
  concat (map (λ v, default [] (varint_enc ptype v)) vs).

Definition packed_bytes (payload : list Z) : list Z := _pbcV_encode32 (zlen payload) ++ payload.

Definition var_ok (v : pbc_var) : Prop := is_u32 (var_low v) ∧ is_u32 (var_hi v).

Section Packed.
Context (junk : nat → Z) (d2f : Z → Z).

(** ** Lemmas *)

Lemma varint_enc_len ptype v bs : var_ok v → varint_enc ptype v = Some bs → zlen bs <= 10 ∧ bytes_ok bs.
Proof.
  intros [Hl Hh]. unfold varint_enc. rewrite join64_val by done.
  assert (is_u64 (var_low v + 2 ^ 32 * var_hi v)) as H64 by (unfold is_u64, is_u32 in *; lia).
  destruct (_ || _); [intros [= <-]; destruct (enc_bytes _ H64); split; [lia | done]|].
  destruct (_ || _); [intros [= <-]; destruct (enc32_bytes _ Hl); split; [lia | done]|].
  case_match; [intros [= <-]; rewrite zigzag32_encode by apply s32_range; destruct (enc32_bytes _ (zz_u32 _ (s32_range (var_low v)))); split; [lia | done]|].
  case_match; [|done]. intros [= <-]. rewrite zigzag_encode by apply s64_range.
  destruct (enc_bytes _ (zz_u64 _ (s64_range (var_low v + 2 ^ 32 * var_hi v)))). split; [lia | done].
Qed.

(** Whether a type has varints does not depend on the element. *)
Lemma varint_enc_some ptype v w bs : varint_enc ptype v = Some bs → is_Some (varint_enc ptype w).
Proof.
  unfold varint_enc. repeat (match goal with |- context [if ?b then _ else _] => destruct b; [by eauto|] end). done.
Qed.

Lemma put_varints_ok vs ptype data all i m : holds data all → drop (Z.to_nat i) all = vs → 0 <= i →
  is_Some (varint_enc ptype (VInteger 0 0)) → Forall var_ok vs → wm_ok m →
  w_ptr m + zlen (varints_of ptype vs) + 10 <= 2 ^ 30 →
  ∃ m', put_varints junk (length vs) data ptype m i = Done m' ∧ wrote m m' (varints_of ptype vs).
Proof.
  intros Hdata Hdrop Hi Hty Hvs. revert i m Hdrop Hi; induction Hvs as [|v vs Hv Hvs IH]; intros i m Hdrop Hi Hok Hmax; cbn [length put_varints].
  { exists m. split; [done | by apply wrote_nil]. }
  assert (all !! Z.to_nat i = Some v) as Hat by (rewrite <- (Nat.add_0_r (Z.to_nat i)), <- lookup_drop, Hdrop; done).
  rewrite (index_holds data all i Hdata Hi), Hat. cbn [obind].
  destruct Hty as [bs0 Hbs0]. destruct (varint_enc_some _ _ v _ Hbs0) as [bs Hbs]. rewrite Hbs.
  destruct (varint_enc_len _ _ _ Hv Hbs) as [Hl10 _].
  assert (varints_of ptype (v :: vs) = bs ++ varints_of ptype vs) as Ev by (unfold varints_of; cbn [map concat]; by rewrite Hbs).
  rewrite Ev, zlen_app in Hmax. pose proof (zlen_nonneg (varints_of ptype vs)). pose proof (zlen_nonneg bs).
  destruct (expand_emit junk m 10 bs Hok Hl10 ltac:(lia)) as (m1 & Hm1 & Hw1).
  destruct (_expand_message junk m 10) as [m0|]; [|done]. cbn [obind] in *. rewrite Hm1. cbn [obind].
  pose proof Hw1 as (Hok1 & _ & Hp1 & _).
  destruct (IH (i + 1) m1) as (m2 & -> & Hw2); [|lia|done|lia|].
  { pose proof (drop_S all v (Z.to_nat i) Hat) as Hd. rewrite Hdrop in Hd. injection Hd as ->.
    by replace (Z.to_nat (i + 1)) with (S (Z.to_nat i)) by lia. }
  exists m2. split; [done|]. rewrite Ev. by eapply wrote_trans.
Qed.

(** Replacing a header and the payload after it. *)
Lemma rewrite_header (w hdr payload tail temp : list Z) :
  zlen w + zlen temp + zlen payload <= zlen (w ++ hdr ++ payload ++ tail) →
  ∃ buf1 tail', write_at (w ++ hdr ++ payload ++ tail) (zlen w + zlen temp) payload = Done buf1
    ∧ write_at buf1 (zlen w) temp = Done (w ++ temp ++ payload ++ tail')
    ∧ zlen (w ++ temp ++ payload ++ tail') = zlen (w ++ hdr ++ payload ++ tail).
Proof.
  set (buf := w ++ hdr ++ payload ++ tail). intros Hroom. pose proof (zlen_nonneg w). pose proof (zlen_nonneg temp). pose proof (zlen_nonneg payload).
  unfold write_at at 1. rewrite (proj2 (Z.leb_le 0 _)), (proj2 (Z.leb_le _ (zlen buf))) by lia. cbn [andb].
  set (tail' := drop (Z.to_nat (zlen w + zlen temp) + length payload) buf). eexists _, tail'. split; [done|].
  assert (take (Z.to_nat (zlen w + zlen temp)) buf = w ++ take (length temp) (hdr ++ payload ++ tail)) as ->.
  { unfold buf, zlen. replace (Z.to_nat (Z.of_nat (length w) + Z.of_nat (length temp))) with (length w + length temp)%nat by lia.
    by rewrite take_app_add. }
  rewrite <- app_assoc. unfold buf, zlen in Hroom. rewrite !length_app in Hroom.
  rewrite write_at_here by (rewrite length_take, !length_app; lia). split; [done|].
  unfold tail', buf, zlen. rewrite !length_app, length_drop, !length_app. lia.
Qed.

Lemma buf_split m : wm_ok m → ∃ tail, w_buf m = written m ++ tail.
Proof. intros _. exists (drop (Z.to_nat (w_ptr m)) (w_buf m)). unfold written. by rewrite take_drop. Qed.

(** Both ways of correcting the header leave the new header and the payload. *)
Lemma fix_header m m' hdr payload temp :
  wm_ok m → wrote m m' (hdr ++ payload) → w_ptr m + zlen temp + zlen payload <= zlen (w_buf m') →
  ∃ buf1 tail', write_at (w_buf m') (w_ptr m + zlen temp) payload = Done buf1
    ∧ write_at buf1 (w_ptr m) temp = Done (written m ++ temp ++ payload ++ tail')
    ∧ wrote m (set_buf m' (written m ++ temp ++ payload ++ tail') (w_ptr m + zlen temp + zlen payload)) (temp ++ payload)
    ∧ (zlen temp = zlen hdr → write_at (w_buf m') (w_ptr m) temp = Done (written m ++ temp ++ payload ++ tail')).
Proof.
  intros Hok (Hok' & Hwr & Hp' & Ht & Hs & Hk) Hr. destruct (buf_split m' Hok') as (tail & Hbuf). rewrite Hwr, <- app_assoc in Hbuf.
  rewrite <- !app_assoc in Hbuf. pose proof (zlen_written m Hok) as Hzw. pose proof Hok as [Hp0 _].
  pose proof (zlen_nonneg temp) as Ht0. pose proof (zlen_nonneg payload) as Hpl0.
  destruct (rewrite_header (written m) hdr payload tail temp) as (buf1 & tail' & H1 & H2 & H3); [rewrite Hbuf in Hr; lia|].
  rewrite <- Hbuf in H1, H3. rewrite Hzw in H1, H2. exists buf1, tail'. split; [done|]. split; [done|]. split.
  - unfold wrote, wm_ok, set_buf. cbn [w_buf w_ptr w_type w_sub w_packed]. destruct Hok' as [? ?]. rewrite H3, zlen_app.
    split_and!; try lia; try done. unfold written at 1. cbn [w_buf w_ptr].
    rewrite !app_assoc, <- (app_assoc (written m)). rewrite take_app_le; [apply take_ge|];
      rewrite !length_app; unfold zlen in *; lia.
  - intros Eq. assert (tail' = tail) as ->.
    { pose proof (write_at_here (written m) hdr (payload ++ tail) temp) as Hh. 
      unfold write_at in H1. rewrite Hbuf in H1.
      assert (Z.to_nat (w_ptr m + zlen temp) = length (written m ++ hdr)) as Hn by (rewrite length_app; unfold zlen in *; lia).
      destruct ((0 <=? _) && _); [|done]. rewrite Hn, (app_assoc (written m) hdr) in H1.
      rewrite take_app_length, drop_app_add', drop_app_length' in H1 by done. injection H1 as <-.
      rewrite <- app_assoc in H2. rewrite <- Hzw in H2. rewrite write_at_here in H2 by (unfold zlen in Eq; lia).
      injection H2 as H2. apply app_inv_head in H2. apply app_inv_head in H2. apply app_inv_head in H2. done. }
    rewrite Hbuf, <- Hzw. apply write_at_here. unfold zlen in Eq. lia.
Qed.

(** [_pack_packed_varint]: the estimate does not show in the result. *)
Lemma pack_varint_ok p m vs :
  holds (pk_data p) vs → is_Some (varint_enc (pk_ptype p) (VInteger 0 0)) → Forall var_ok vs → wm_ok m →
  w_ptr m + 2 * zlen vs + zlen (varints_of (pk_ptype p) vs) + 30 <= 2 ^ 30 →
  ∃ m', _pack_packed_varint junk p m = Done m' ∧ wrote m m' (packed_bytes (varints_of (pk_ptype p) vs)).
Proof.
  intros Hdata Hty Hvs Hok Hmax. set (payload := varints_of (pk_ptype p) vs) in *. unfold _pack_packed_varint.
  assert (pbc_array_size (pk_data p) = zlen vs) as -> by apply Hdata. set (len := if pk_ptype p =? PTYPE_BOOL then zlen vs else zlen vs * 2).
  pose proof (zlen_nonneg vs). pose proof (zlen_nonneg payload). pose proof Hok as [Hptr _].
  assert (0 <= len <= 2 * zlen vs) as Hlen by (unfold len; case_match; lia). clearbody len.
  assert (is_u32 len ∧ is_u32 (zlen payload)) as [Hul Hup] by (unfold is_u32; lia). rewrite (u32_id len) by done.
  destruct (enc32_bytes _ Hul) as [_ Hl5]. destruct (enc32_bytes _ Hup) as [_ Hp5].
  destruct (expand_emit junk m (10 + len) (_pbcV_encode32 len) Hok ltac:(lia) ltac:(lia)) as (m1 & Hm1 & Hw1).
  destruct (_expand_message junk m (10 + len)) as [m0|]; [|done]. cbn [obind] in *. rewrite Hm1. cbn [obind].
  pose proof Hw1 as (Hok1 & _ & Hp1 & _). destruct (varint_enc (pk_ptype p) (VInteger 0 0)) eqn:Ety; [|by destruct Hty].
  destruct (put_varints_ok vs (pk_ptype p) (pk_data p) vs 0 m1) as (m2 & Hm2 & Hw2); [done | done | done | by rewrite Ety | done | done | fold payload; lia |].
  fold payload in Hw2. replace (Z.to_nat (zlen vs)) with (length vs) by (unfold zlen; lia). rewrite Hm2. cbn [obind].
  pose proof Hw2 as (Hok2 & _ & Hp2 & _). pose proof (wrote_trans _ _ _ _ _ Hw1 Hw2) as Hw12.
  replace (w_ptr m2 - (w_ptr m + zlen (_pbcV_encode32 len))) with (zlen payload) by lia.
  destruct (Z.eqb_spec (zlen payload) len) as [E|Ne]; [exists m2; split; [done|]; unfold packed_bytes; by rewrite E|].
  rewrite (u32_id (zlen payload)) by done. set (temp := _pbcV_encode32 (zlen payload)) in *. set (hdr := _pbcV_encode32 len) in *.
  destruct (expand_ok junk m2 (zlen temp) Hok2 ltac:(lia) ltac:(lia)) as (m3 & Hm3 & Hw3 & Hroom).
  destruct (Z.eqb_spec (zlen temp) (zlen hdr)) as [El|Nl].
  - cbn [obind]. destruct (fix_header m m2 hdr payload temp Hok Hw12) as (buf1 & tail' & _ & _ & Hwr & Heq); [destruct Hok2 as [? _]; lia|].
    rewrite (Heq El). cbn [obind]. eexists. split; [done|]. unfold packed_bytes. fold temp.
    replace (w_ptr m2) with (w_ptr m + zlen temp + zlen payload) by lia. done.
  - rewrite Hm3. cbn [obind]. pose proof (wrote_trans _ _ _ _ _ Hw12 Hw3) as Hw13. rewrite app_nil_r in Hw13.
    pose proof Hw3 as (Hok3 & Hwr3 & Hp3 & _). change (zlen []) with 0 in Hp3.
    destruct (fix_header m m3 hdr payload temp Hok Hw13) as (buf1 & tail' & H1 & H2 & Hwr & _); [lia|].
    assert (bytes_at (w_buf m3) (w_ptr m + zlen hdr) (zlen payload) = Done payload) as ->.
    { destruct (buf_split m3 Hok3) as (tail & Hbuf). destruct Hw13 as (_ & Hwr13 & _). rewrite Hwr13, <- !app_assoc in Hbuf.
      pose proof (zlen_written m Hok) as Hzw. pose proof (zlen_nonneg tail). pose proof (zlen_nonneg hdr).
      rewrite Hbuf. unfold bytes_at.
      rewrite (proj2 (Z.leb_le 0 (_ + _))), (proj2 (Z.leb_le 0 (zlen payload))), (proj2 (Z.leb_le (_ + zlen payload) _)) by (rewrite ?zlen_app; lia).
      cbn [andb]. f_equal. rewrite <- Hzw, <- zlen_app, app_assoc, drop_zlen_app. unfold zlen. by rewrite Nat2Z.id, take_app_length. }
    cbn [obind]. rewrite H1. cbn [obind set_buf w_buf w_ptr]. rewrite H2. cbn [obind]. eexists. split; [done|].
    unfold packed_bytes. fold temp. unfold set_buf in *. cbn [w_type w_sub w_packed w_ptr] in *.
    replace (w_ptr m3 + (zlen temp - zlen hdr)) with (w_ptr m + zlen temp + zlen payload) by lia. done.
Qed.

End Packed.

(** ** Properties *)

(** [_pack_packed_varint] guesses the length of the packed elements, writes
    them, and then rewrites the length, moving the elements when the guess took
    another number of bytes; the outcome is always the length of the elements
    followed by the elements, appended to what was written before, and no write
    leaves the buffer. *)
Theorem packed_varint_bytes junk id ptype vs data m :
  push_all _pbcA_open_heap vs = Done data → is_Some (varint_enc ptype (VInteger 0 0)) → Forall var_ok vs → wm_ok m →
  w_ptr m + 2 * zlen vs + zlen (varints_of ptype vs) + 30 <= 2 ^ 30 →
  ∃ m', _pack_packed_varint junk (Packed id ptype data) m = Done m'
    ∧ written m' = written m ++ _pbcV_encode32 (zlen (varints_of ptype vs)) ++ varints_of ptype vs.
Proof.
  intros Hp Hty Hvs Hok Hmax. destruct (push_all_holds vs _pbcA_open_heap [] (proj2 open_holds)) as (d & Hd & Hh).
  rewrite Hp in Hd. injection Hd as <-.
  destruct (pack_varint_ok junk (Packed id ptype data) m vs Hh Hty Hvs Hok Hmax) as (m' & Hm' & _ & Hw & _). eauto.
Qed.

Lemma packed_varint_bytes_witness :
  ∃ data m', push_all _pbcA_open_heap (replicate 80 (VInteger 300 0)) = Done data
    ∧ _pack_packed_varint (λ _, 7) (Packed 4 PTYPE_INT64 data) (_wmessage_new (λ _, 7) demo_msg) = Done m'
    ∧ written m' = [] ++ _pbcV_encode32 (zlen (varints_of PTYPE_INT64 (replicate 80 (VInteger 300 0))))
                      ++ varints_of PTYPE_INT64 (replicate 80 (VInteger 300 0)).
Proof.
  destruct (push_all_holds (replicate 80 (VInteger 300 0)) _pbcA_open_heap [] (proj2 open_holds)) as (data & Hd & _).
  exists data. destruct (new_ok (λ _, 7) demo_msg) as [Hok Hw].
  destruct (packed_varint_bytes (λ _, 7) 4 PTYPE_INT64 (replicate 80 (VInteger 300 0)) data (_wmessage_new (λ _, 7) demo_msg)) as (m' & Hm' & Hwr).
  - exact Hd.
  - eexists. vm_compute. reflexivity.
  - apply Forall_replicate. split; (split; vm_compute; [discriminate | reflexivity]).
  - exact Hok.
  - vm_compute. discriminate.
  - exists m'. split; [exact Hd|]. split; [exact Hm'|]. rewrite Hwr, Hw. reflexivity.
Defined.

(** [_pack_packed_32] reserves four bytes per element but writes the elements
    eight bytes apart: a packed fixed32 field with two elements is finished as
    the first element followed by four bytes of uninitialised memory, and the
    second element is lost. *)
Theorem packed_32_loses_elements junk d2f msg id a b data :
  push_all _pbcA_open_heap [VInteger a 0; VInteger b 0] = Done data →
  ∃ m', _pack_packed_32 junk d2f (Packed id PTYPE_FIXED32 data) (_wmessage_new junk msg) = Done m'
    ∧ written m' = 8 :: int32_encode a ++ map junk [5; 6; 7; 8]%nat.
Proof.
  intros Hd. vm_compute in Hd. injection Hd as <-. eexists. split; [lazy; reflexivity | lazy; reflexivity].
Qed.

Lemma packed_32_loses_elements_witness :
  ∃ data m', _pack_packed_32 (λ _, 204) id (Packed 1 PTYPE_FIXED32 data) (_wmessage_new (λ _, 204) demo_msg) = Done m'
    ∧ written m' = 8 :: int32_encode 1 ++ map (λ _, 204) [5; 6; 7; 8]%nat.
Proof. eexists. eapply (packed_32_loses_elements (λ _, 204) id demo_msg 1 1 2). vm_compute. reflexivity. Defined.
