(* ===== verification/CMem.v ===== *)
(** * Memory of a user's struct

    [pattern.c] reads and writes the fields of a struct of the caller through
    the offsets of a pattern.  The struct is a list of bytes: known bytes, parts
    of a pointer or of a [pbc_array] (64 opaque bytes), or bytes nobody wrote.
    Reading a number needs known bytes, reading a pointer or an array needs all
    its parts in order; an access outside the struct faults. *)

From S2P Require Import Prelude PArray.

Inductive object :=
  | OPtr (p : option (list Z))
  | OArr (a : array pbc_var).

Inductive mbyte :=
  | MByte (b : Z)
  | MPart (o : object) (k : nat)
  | MUndef.

Notation mem := (list mbyte).

(** ** The accesses *)

Definition load (m : mem) (off n : Z) : outcome (list mbyte) :=
  if (0 <=? off) && (0 <=? n) && (off + n <=? zlen m)
  then Done (take (Z.to_nat n) (drop (Z.to_nat off) m))
  else Fault OutOfBounds.

Definition store (m : mem) (off : Z) (bs : list mbyte) : outcome mem := write_at m off bs.

Fixpoint known_bytes (l : list mbyte) : option (list Z) :=
  match l with
  | [] => Some []
  | MByte b :: l' => match known_bytes l' with Some bs => Some (b :: bs) | None => None end
  | _ => None
  end.

(** An unsigned integer of [n] bytes. *)
Definition load_int (n : Z) (m : mem) (off : Z) : outcome Z :=
  do! l <- load m off n;
  match known_bytes l with
  | Some bs => Done (le_join bs)
  | None => Fault BadRead
  end.

Definition int_bytes (n : nat) (v : Z) : list mbyte := List.map MByte (le_split n v).

Definition store_int (n : nat) (v : Z) (m : mem) (off : Z) : outcome mem := store m off (int_bytes n v).

Definition object_bytes (n : nat) (o : object) : list mbyte := List.map (MPart o) (seq 0 n).

(** The parts [k], [k+1], ... of one object. *)
Fixpoint parts_from (k : nat) (l : list mbyte) : bool :=
  match l with
  | [] => true
  | MPart _ j :: l' => (j =? k)%nat && parts_from (S k) l'
  | _ => false
  end.

Definition whole_object (l : list mbyte) : option object :=
  match l with
  | MPart o _ :: _ => if parts_from 0 l then Some o else None
  | _ => None
  end.

(** A pointer; eight zero bytes are the null pointer. *)
Definition load_ptr (m : mem) (off : Z) : outcome (option (list Z)) :=
  do! l <- load m off 8;
  match whole_object l with
  | Some (OPtr p) => Done p
  | _ => match known_bytes l with
         | Some bs => if le_join bs =? 0 then Done None else Fault BadRead
         | None => Fault BadRead
         end
  end.

Definition ptr_bytes (p : option (list Z)) : list mbyte := object_bytes 8 (OPtr p).

Definition sizeof_array : nat := 64.

(** The struct after [memset(a, 0, sizeof(pbc_array))]. *)
Definition zero_array : array pbc_var := Arr 0 false (uninit INNER_FIELD) NullCells.

Definition load_array (m : mem) (off : Z) : outcome (array pbc_var) :=
  do! l <- load m off 64;
  match whole_object l with
  | Some (OArr a) => Done a
  | _ => if bool_decide (known_bytes l = Some (replicate sizeof_array 0)) then Done zero_array else Fault BadRead
  end.

Definition store_array (a : array pbc_var) (m : mem) (off : Z) : outcome mem :=
  store m off (object_bytes sizeof_array (OArr a)).

(** The sixteen bytes of a [union _pbc_var] as far as its member defines them. *)
Definition var_bytes (v : pbc_var) : list mbyte :=
  match v with
  | VInteger l h => int_bytes 4 l ++ int_bytes 4 h ++ replicate 8 MUndef
  | VReal r => int_bytes 8 r ++ replicate 8 MUndef
  | VStr s len => ptr_bytes (Some (s ++ [0])) ++ int_bytes 4 len ++ replicate 4 MUndef
  | VEnum id name => int_bytes 4 id ++ replicate 4 MUndef ++ ptr_bytes (match name with Some s => Some (s ++ [0]) | None => None end)
  | VSlice p len => ptr_bytes p ++ int_bytes 4 len ++ replicate 4 MUndef
  end.

(** ** Lemmas *)

Lemma known_bytes_map bs : known_bytes (List.map MByte bs) = Some bs.
Proof. induction bs as [|b bs IH]; [done|]. cbn. by rewrite IH. Qed.

Lemma length_int_bytes n v : length (int_bytes n v) = n.
Proof. unfold int_bytes. by rewrite length_map, length_le_split. Qed.

Lemma length_object_bytes n o : length (object_bytes n o) = n.
Proof. unfold object_bytes. by rewrite length_map, length_seq. Qed.

(** What a write changes: [m] is left outside of [off, off + n). *)
Definition same_outside (off n : Z) (m m' : mem) : Prop :=
  length m' = length m ∧ ∀ i, Z.of_nat i < off ∨ off + n <= Z.of_nat i → m' !! i = m !! i.

Lemma store_done m off bs :
  0 <= off → off + zlen bs <= zlen m → ∃ m', store m off bs = Done m'.
Proof.
  intros H1 H2. unfold store, write_at. rewrite (proj2 (Z.leb_le _ _)), (proj2 (Z.leb_le _ _)) by lia. by eexists.
Qed.

Lemma store_bounds m off bs m' : store m off bs = Done m' → 0 <= off ∧ off + zlen bs <= zlen m.
Proof. unfold store, write_at. case_if; [|done]. intros _. lia. Qed.

Lemma store_outside m off bs m' : store m off bs = Done m' → same_outside off (zlen bs) m m'.
Proof.
  intros H. pose proof (store_bounds _ _ _ _ H) as [Ho Hl]. unfold store, write_at in H.
  rewrite (proj2 (Z.leb_le _ _)), (proj2 (Z.leb_le _ _)) in H by lia. injection H as <-. unfold zlen in *.
  split. { rewrite !length_app, length_take, length_drop. lia. }
  intros i [Hi|Hi].
  - rewrite lookup_app_l by (rewrite length_take; lia). by rewrite lookup_take_lt by lia.
  - rewrite lookup_app_r by (rewrite length_take; lia). rewrite length_take.
    rewrite lookup_app_r by lia. rewrite lookup_drop. f_equal. lia.
Qed.

(** The [n] bytes at [off]; [load] and [store] in those terms. *)
Definition field_at (m : mem) (off n : Z) : list mbyte := take (Z.to_nat n) (drop (Z.to_nat off) m).

Lemma load_eq m off n : 0 <= off → 0 <= n → off + n <= zlen m → load m off n = Done (field_at m off n).
Proof.
  intros. unfold load. rewrite !(proj2 (Z.leb_le _ _)) by lia. done.
Qed.

Lemma store_field m off bs m' : store m off bs = Done m' → field_at m' off (zlen bs) = bs.
Proof.
  intros H. pose proof (store_bounds _ _ _ _ H) as [Ho Hl]. unfold store, write_at in H.
  rewrite (proj2 (Z.leb_le _ _)), (proj2 (Z.leb_le _ _)) in H by lia. injection H as <-. unfold zlen, field_at in *.
  rewrite drop_app_length' by (rewrite length_take; lia). rewrite Nat2Z.id. by rewrite take_app_length.
Qed.

Lemma field_at_outside off n m m' o k :
  same_outside off n m m' → 0 <= o → 0 <= k → 0 <= off → o + k <= off ∨ off + n <= o → field_at m' o k = field_at m o k.
Proof.
  intros [Hlen Ho] Hoo Hk Hoff Hd. unfold field_at. apply list_eq. intros i.
  destruct (decide (i < Z.to_nat k)%nat) as [Hi|Hi].
  - rewrite !lookup_take_lt, !lookup_drop by lia. apply Ho. lia.
  - rewrite !lookup_take_ge by lia. done.
Qed.

Lemma length_field_at m off n : 0 <= off → 0 <= n → off + n <= zlen m → length (field_at m off n) = Z.to_nat n.
Proof. unfold zlen, field_at. intros. rewrite length_take, length_drop. lia. Qed.

Lemma whole_object_bytes n o : (0 < n)%nat → whole_object (object_bytes n o) = Some o.
Proof.
  intros Hn. destruct n as [|n]; [lia|]. unfold object_bytes. cbn [seq map whole_object].
  assert (∀ k j, parts_from k (List.map (MPart o) (seq k j)) = true) as H.
  { intros k j; revert k; induction j as [|j IH]; intros k; cbn; [done|]. by rewrite Nat.eqb_refl, IH. }
  change (MPart o 0 :: List.map (MPart o) (seq 1 n)) with (List.map (MPart o) (seq 0 (S n))). by rewrite H.
Qed.
