(* ===== verification/Pattern.v ===== *)
(** * pbc patterns ([3rd/pbc/src/pattern.c])

    A pattern maps the fields of a message to the offsets of a C struct:
    [pbc_pattern_pack] encodes the struct into a slice, [pbc_pattern_unpack]
    decodes a slice into the struct.  The struct is the memory of [CMem]. *)

From S2P Require Import Prelude Varint Chain PMap SpMap PArray StringPool Context Proto Wmessage Decode CMem.

(** ** The data *)

Definition CTYPE_INT32 : Z := 1.
Definition CTYPE_INT64 : Z := 2.
Definition CTYPE_DOUBLE : Z := 3.
Definition CTYPE_FLOAT : Z := 4.
Definition CTYPE_POINTER : Z := 5.
Definition CTYPE_BOOL : Z := 6.
Definition CTYPE_INT8 : Z := 7.
Definition CTYPE_INT16 : Z := 8.
Definition CTYPE_ARRAY : Z := 9.
Definition CTYPE_VAR : Z := 10.
Definition CTYPE_PACKED : Z := 11.

Record _pattern_field := PField {
  pf_id : Z;
  pf_offset : Z;
  pf_ptype : Z;
  pf_ctype : Z;
  pf_label : Z;
  pf_defv : pbc_var }.

(** [struct pbc_pattern]: its fields, [count] of them. *)
Notation pbc_pattern := (list _pattern_field).

Definition is_array (ctype : Z) : bool := (ctype =? CTYPE_ARRAY) || (ctype =? CTYPE_PACKED).

(** [struct pbc_slice] as an output: the memory, the offset [buffer] points to
    and [len]. *)
Record out_slice := OSlice { o_mem : list Z; o_pos : Z; o_len : Z }.

Section Pattern.
Context (d2f f2d : Z → Z).

(** ** Default values *)

Definition set_default_v (m : mem) (off : Z) (ctype : Z) (defv : pbc_var) : outcome mem :=
  if ctype =? CTYPE_INT32 then do! l <- int_low defv; store_int 4 l m off
  else if ctype =? CTYPE_INT64 then do! l <- int_low defv; do! h <- int_hi defv; store_int 8 (join64 l h) m off
  else if ctype =? CTYPE_DOUBLE then do! r <- real_bits defv; store_int 8 r m off
  else if ctype =? CTYPE_FLOAT then do! r <- real_bits defv; store_int 4 (d2f r) m off
  else if ctype =? CTYPE_BOOL then do! l <- int_low defv; store_int 1 (if l =? 0 then 0 else 1) m off
  else if ctype =? CTYPE_INT8 then do! l <- int_low defv; store_int 1 (u8 l) m off
  else if ctype =? CTYPE_INT16 then do! l <- int_low defv; store_int 2 (u16 l) m off
  else if ctype =? CTYPE_VAR then store m off (var_bytes defv)
  else Done m.

(** After an enum's default the declared default is stored once more. *)
Definition _pattern_set_default (field : _pattern_field) (output : mem) : outcome mem :=
  do! output <-
    (if is_array (pf_ctype field) then store_array _pbcA_open output (pf_offset field)
     else if pf_ptype field =? PTYPE_ENUM then
       match pf_defv field with
       | VEnum id _ => set_default_v output (pf_offset field) (pf_ctype field) (VInteger (u32 id) 0)
       | v => do! l <- int_low v; set_default_v output (pf_offset field) (pf_ctype field) (VInteger l 0)
       end
     else Done output);
  set_default_v output (pf_offset field) (pf_ctype field) (pf_defv field).

Fixpoint pbc_pattern_set_default (pat : pbc_pattern) (output : mem) : outcome mem :=
  match pat with
  | [] => Done output
  | f :: rest => do! output <- _pattern_set_default f output; pbc_pattern_set_default rest output
  end.

(** ** Unpacking *)

(** The index of the field; the interval halves in every round. *)
Fixpoint bsearch_loop (fuel : nat) (pat : pbc_pattern) (id begin end_ : Z) : outcome (option nat) :=
  if begin <? end_ then
    match fuel with
    | O => Fault OutOfFuel
    | S fuel' =>
        let mid := (begin + end_) / 2 in
        do! f <- read_at pat mid;
        if id =? pf_id f then Done (Some (Z.to_nat mid))
        else if id <? pf_id f then bsearch_loop fuel' pat id begin mid
        else bsearch_loop fuel' pat id (mid + 1) end_
    end
  else Done None.

Definition bsearch_pattern (pat : pbc_pattern) (id : Z) : outcome (option nat) :=
  bsearch_loop (length pat) pat id 0 (zlen pat).

(** [None] is the return value -1. *)
Definition write_real (ctype : Z) (v : Z) (m : mem) (off : Z) : outcome (option mem) :=
  if ctype =? CTYPE_DOUBLE then do! m <- store_int 8 v m off; Done (Some m)
  else if ctype =? CTYPE_FLOAT then do! m <- store_int 4 (d2f v) m off; Done (Some m)
  else if ctype =? CTYPE_VAR then do! m <- store_int 8 v m off; Done (Some m)
  else Done None.

(** [CTYPE_INT16] stores through a pointer to [uint8_t]. *)
Definition write_longlong (ctype : Z) (i : longlong) (m : mem) (off : Z) : outcome (option mem) :=
  if ctype =? CTYPE_INT32 then do! m <- store_int 4 (low i) m off; Done (Some m)
  else if ctype =? CTYPE_INT64 then do! m <- store_int 8 (join64 (low i) (hi i)) m off; Done (Some m)
  else if ctype =? CTYPE_BOOL then do! m <- store_int 1 (if low i =? 0 then 0 else 1) m off; Done (Some m)
  else if ctype =? CTYPE_INT8 then do! m <- store_int 1 (u8 (low i)) m off; Done (Some m)
  else if ctype =? CTYPE_INT16 then do! m <- store_int 1 (u8 (u16 (low i))) m off; Done (Some m)
  else if ctype =? CTYPE_VAR then do! m <- store m off (int_bytes 4 (low i) ++ int_bytes 4 (hi i)); Done (Some m)
  else Done None.

Definition write_integer (ctype : Z) (a : atom) (m : mem) (off : Z) : outcome (option mem) :=
  write_longlong ctype (a_i a) m off.

(** The loops over fixed-width elements at [pos + i]; [var] keeps the member the
    previous iteration left. *)
Fixpoint unpack_fixed (n : nat) (msg : list Z) (w pos : Z) (mk : Z → Z → pbc_var) (arr : array pbc_var)
    : outcome (array pbc_var) :=
  match n with
  | O => Done arr
  | S n' =>
      do! l <- read_u32 msg pos;
      do! h <- (if w =? 8 then read_u32 msg (pos + 4) else Done 0);
      do! arr <- _pbcA_push arr (mk l h);
      unpack_fixed n' msg w (pos + w) mk arr
  end.

(** The loops over varints, decoded from [buffer] even when fewer than ten bytes
    are left.  [None] is the return value -1; the elements pushed before it stay
    in the array. *)
Fixpoint unpack_varints (fuel : nat) (msg : list Z) (pos size : Z) (post : longlong → longlong) (arr : array pbc_var) (n : Z)
    : outcome (option Z * array pbc_var) :=
  if 0 <? size then
    match fuel with
    | O => Fault OutOfFuel
    | S fuel' =>
        do! (len, r) <- _pbcV_decode (drop (Z.to_nat pos) msg);
        if (size <? 10) && (size <? len) then Done (None, arr)
        else
          let r := post r in
          do! arr <- _pbcA_push arr (VInteger (low r) (hi r));
          unpack_varints fuel' msg (pos + len) (size - len) post arr (n + 1)
    end
  else Done (Some n, arr).

(** The return value ([None] for -1) and the array. *)
Definition _pbcP_unpack_packed (msg : list Z) (pos size : Z) (ptype : Z) (arr : array pbc_var)
    : outcome (option Z * array pbc_var) :=
  let fixed (w : Z) (mk : Z → Z → pbc_var) :=
    if negb (Z.rem size w =? 0) then Done (None, arr)
    else do! arr <- unpack_fixed (Z.to_nat (Z.quot size w)) msg w pos mk arr; Done (Some (Z.quot size w), arr) in
  let varints (post : longlong → longlong) := unpack_varints (Z.to_nat size) msg pos size post arr 0 in
  if ptype =? PTYPE_DOUBLE then fixed 8 (λ l h, VReal (join64 l h))
  else if ptype =? PTYPE_FLOAT then fixed 4 (λ l _, VReal (f2d l))
  else if (ptype =? PTYPE_FIXED32) || (ptype =? PTYPE_SFIXED32) then fixed 4 (λ l _, VInteger l 0)
  else if (ptype =? PTYPE_FIXED64) || (ptype =? PTYPE_SFIXED64) then fixed 8 VInteger
  else if (ptype =? PTYPE_INT64) || (ptype =? PTYPE_UINT64) || (ptype =? PTYPE_INT32) || (ptype =? PTYPE_UINT32)
          || (ptype =? PTYPE_ENUM) || (ptype =? PTYPE_BOOL) then varints id
  else if ptype =? PTYPE_SINT32 then varints _pbcV_dezigzag32
  else if ptype =? PTYPE_SINT64 then varints _pbcV_dezigzag64
  else Done (None, arr).

(** [buffer + start] and its length, as the slice or string member. *)
Definition write_slice (msg : list Z) (a : atom) (m : mem) (off : Z) : outcome (option mem) :=
  if negb (Z.land (wire_id a) 7 =? WT_LEND) then Done None
  else
    do! m <- store m off (ptr_bytes (Some (drop (Z.to_nat (a_start a)) msg)));
    do! m <- store_int 4 (u32 (a_end a - a_start a)) m (off + 8);
    Done (Some m).

(** [unpack_field] for a field that is neither an array nor packed.  A [sint64]
    is expected to be length-delimited. *)
Definition unpack_scalar (ctype ptype : Z) (msg : list Z) (a : atom) (m : mem) (off : Z) : outcome (option mem) :=
  if ptype =? PTYPE_DOUBLE then write_real ctype (read_double a) m off
  else if ptype =? PTYPE_FLOAT then write_real ctype (read_float f2d a) m off
  else if (ptype =? PTYPE_INT64) || (ptype =? PTYPE_UINT64) || (ptype =? PTYPE_INT32) || (ptype =? PTYPE_UINT32)
          || (ptype =? PTYPE_ENUM) || (ptype =? PTYPE_BOOL) then write_integer ctype a m off
  else if (ptype =? PTYPE_FIXED32) || (ptype =? PTYPE_SFIXED32) then write_integer ctype a m off
  else if (ptype =? PTYPE_FIXED64) || (ptype =? PTYPE_SFIXED64) then write_integer ctype a m off
  else if ptype =? PTYPE_SINT32 then write_longlong ctype (_pbcV_dezigzag32 (a_i a)) m off
  else if ptype =? PTYPE_SINT64 then
    if negb (Z.land (wire_id a) 7 =? WT_LEND) then Done None
    else write_longlong ctype (_pbcV_dezigzag64 (a_i a)) m off
  else if (ptype =? PTYPE_MESSAGE) || (ptype =? PTYPE_STRING) || (ptype =? PTYPE_BYTES) then write_slice msg a m off
  else Done None.

(** The [pbc_var] the sixteen bytes of a local variable hold. *)
Definition var_of_mem (ptype : Z) (m : mem) : outcome pbc_var :=
  if (ptype =? PTYPE_DOUBLE) || (ptype =? PTYPE_FLOAT) then do! r <- load_int 8 m 0; Done (VReal r)
  else if (ptype =? PTYPE_MESSAGE) || (ptype =? PTYPE_STRING) || (ptype =? PTYPE_BYTES) then
    do! p <- load_ptr m 0; do! n <- load_int 4 m 8; Done (VSlice p (s32 n))
  else do! l <- load_int 4 m 0; do! h <- load_int 4 m 4; Done (VInteger l h).

(** [None] is the return value -1. *)
Definition unpack_array (ptype : Z) (msg : list Z) (a : atom) (arr : array pbc_var) : outcome (option (array pbc_var)) :=
  do! r <- unpack_scalar CTYPE_VAR ptype msg a (replicate 16 MUndef) 0;
  match r with
  | None => Done None
  | Some var => do! v <- var_of_mem ptype var; do! arr <- _pbcA_push arr v; Done (Some arr)
  end.

(** The struct after the field and whether the return value is not negative. *)
Definition unpack_field (ctype ptype : Z) (msg : list Z) (a : atom) (m : mem) (off : Z) : outcome (bool * mem) :=
  if ctype =? CTYPE_ARRAY then
    do! arr <- load_array m off;
    do! r <- unpack_array ptype msg a arr;
    match r with
    | None => Done (false, m)
    | Some arr => do! m <- store_array arr m off; Done (true, m)
    end
  else if ctype =? CTYPE_PACKED then
    do! arr <- load_array m off;
    do! (r, arr) <- _pbcP_unpack_packed msg (a_start a) (a_end a - a_start a) ptype arr;
    do! m <- store_array arr m off;
    Done (match r with Some n => 0 <=? n | None => false end, m)
  else
    do! r <- unpack_scalar ctype ptype msg a m off;
    match r with
    | None => Done (false, m)
    | Some m => Done (true, m)
    end.

Fixpoint pbc_pattern_close_arrays (pat : pbc_pattern) (data : mem) : outcome mem :=
  match pat with
  | [] => Done data
  | f :: rest =>
      do! data <- (if is_array (pf_ctype f) then
                     do! a <- load_array data (pf_offset f);
                     store_array (_pbcA_close a).1 data (pf_offset f)
                   else Done data);
      pbc_pattern_close_arrays rest data
  end.

(** The arrays of the fields seen so far are closed after an error. *)
Fixpoint close_seen (pat : pbc_pattern) (field : list bool) (data : mem) : outcome mem :=
  match pat, field with
  | f :: rest, seen :: field' =>
      do! data <- (if seen && is_array (pf_ctype f) then
                     do! a <- load_array data (pf_offset f);
                     store_array (_pbcA_close a).1 data (pf_offset f)
                   else Done data);
      close_seen rest field' data
  | _, _ => Done data
  end.

(** Atom [i], with [n] left: the struct and the fields seen; a failed field gives
    its index. *)
Fixpoint unpack_loop (n : nat) (pat : pbc_pattern) (msg : list Z) (ctx : context) (i : Z) (field : list bool) (output : mem)
    : outcome (option Z * list bool * mem) :=
  match n with
  | O => Done (None, field, output)
  | S n' =>
      do! a <- ctx_atom ctx i;
      do! r <- bsearch_pattern pat (Z.shiftr (wire_id a) 3);
      match r with
      | None => unpack_loop n' pat msg ctx (i + 1) field output
      | Some index =>
          do! f <- read_at pat (Z.of_nat index);
          do! seen <- read_at field (Z.of_nat index);
          do! output <- (if negb seen && is_array (pf_ctype f) then store_array _pbcA_open output (pf_offset f) else Done output);
          let field := <[index := true]> field in
          do! (ok, output) <- unpack_field (pf_ctype f) (pf_ptype f) msg a output (pf_offset f);
          if (ok : bool) then unpack_loop n' pat msg ctx (i + 1) field output
          else Done (Some i, field, output)
      end
  end.

Fixpoint default_missing (pat : pbc_pattern) (field : list bool) (output : mem) : outcome mem :=
  match pat, field with
  | f :: rest, seen :: field' =>
      do! output <- (if (seen : bool) then Done output else _pattern_set_default f output);
      default_missing rest field' output
  | _, _ => Done output
  end.

(** The return value, the struct, and [env->lasterror] when it is set. *)
Definition pbc_pattern_unpack (pat : pbc_pattern) (msg : list Z) (output : mem) (stk : Z → list Z)
    : outcome (Z * mem * option string) :=
  if zlen msg =? 0 then do! output <- pbc_pattern_set_default pat output; Done (0, output, None)
  else
    do! (r, ctx) <- _pbcC_open (Some msg) (zlen msg) stk;
    if r <=? 0 then Done (r - 1, output, Some "Pattern unpack open context error"%string)
    else
      do! (err, field, output) <- unpack_loop (Z.to_nat (c_number ctx)) pat msg ctx 0 (replicate (length pat) false) output;
      match err with
      | Some i => do! output <- close_seen pat field output; Done (- i - 1, output, Some "Pattern unpack field error"%string)
      | None => do! output <- default_missing pat field output; Done (0, output, None)
      end.

(** ** Packing *)

(** Bytes are written and the slice moved past them when they fit, through a
    temporary array when fewer than ten bytes are left; [None] is -1. *)
Definition put_slice (bs : list Z) (s : out_slice) : outcome (option (Z * out_slice)) :=
  if (o_len s <? 10) && (o_len s <? zlen bs) then Done None
  else
    do! m <- write_at (o_mem s) (o_pos s) bs;
    Done (Some (zlen bs, OSlice m (o_pos s + zlen bs) (o_len s - zlen bs))).

Definition _pack_wiretype (wt : Z) (s : out_slice) : outcome (option (Z * out_slice)) := put_slice (_pbcV_encode32 wt) s.

Definition _pack_varint64 (i64 : Z) (s : out_slice) : outcome (option (Z * out_slice)) := put_slice (_pbcV_encode i64) s.

Definition _pack_sint32 (v : Z) (s : out_slice) : outcome (option (Z * out_slice)) := put_slice (_pbcV_zigzag32 (s32 v)) s.

Definition _pack_sint64 (v : Z) (s : out_slice) : outcome (option (Z * out_slice)) := put_slice (_pbcV_zigzag (s64 v)) s.

Definition _fix32_encode (v : Z) : list Z := [u8 v; u8 (Z.shiftr v 8); u8 (Z.shiftr v 16); u8 (Z.shiftr v 24)].

Definition _fix64_encode (low hi : Z) : list Z := _fix32_encode low ++ _fix32_encode hi.

(** [void *input]: a place in the struct, or an element of an array. *)
Inductive input :=
  | InMem (m : mem) (off : Z)
  | InVar (v : pbc_var).

(** The variable [_pack_number] fills from the input; a [ctype] that is not
    listed leaves it unset. *)
Definition number_input (ctype : Z) (i : input) : outcome pbc_var :=
  match i with
  | InVar v => if ctype =? CTYPE_VAR then Done v else Fault BadRead
  | InMem m off =>
      if ctype =? CTYPE_VAR then do! l <- load_int 4 m off; do! h <- load_int 4 m (off + 4); Done (VInteger l h)
      else if ctype =? CTYPE_INT32 then do! l <- load_int 4 m off; Done (VInteger l 0)
      else if ctype =? CTYPE_INT64 then
        do! v <- load_int 8 m off; Done (VInteger (u32 (Z.land v 0xffffffff)) (u32 (Z.shiftr v 32)))
      else if ctype =? CTYPE_INT16 then do! l <- load_int 2 m off; Done (VInteger l 0)
      else if ctype =? CTYPE_INT8 then do! l <- load_int 1 m off; Done (VInteger l 0)
      else if ctype =? CTYPE_BOOL then do! l <- load_int 1 m off; Done (VInteger l 0)
      else if ctype =? CTYPE_DOUBLE then do! r <- load_int 8 m off; Done (VReal r)
      else if ctype =? CTYPE_FLOAT then do! r <- load_int 4 m off; Done (VReal (f2d r))
      else Fault BadRead
  end.

(** A number of a fixed width. *)
Definition put_fixed (bs : list Z) (s : out_slice) : outcome (option (Z * out_slice)) :=
  if o_len s <? zlen bs then Done None
  else
    do! m <- write_at (o_mem s) (o_pos s) bs;
    Done (Some (zlen bs, OSlice m (o_pos s + zlen bs) (o_len s - zlen bs))).

Definition _pack_number (ptype ctype : Z) (s : out_slice) (i : input) : outcome (option (Z * out_slice)) :=
  do! var <- number_input ctype i;
  if (ptype =? PTYPE_FIXED64) || (ptype =? PTYPE_SFIXED64) then
    do! l <- int_low var; do! h <- int_hi var; put_fixed (_fix64_encode l h) s
  else if ptype =? PTYPE_DOUBLE then do! r <- real_bits var; put_fixed (double_encode r) s
  else if ptype =? PTYPE_FLOAT then do! r <- real_bits var; put_fixed (float_encode d2f r) s
  else if (ptype =? PTYPE_FIXED32) || (ptype =? PTYPE_SFIXED32) then do! l <- int_low var; put_fixed (_fix32_encode l) s
  else if (ptype =? PTYPE_UINT64) || (ptype =? PTYPE_INT64) || (ptype =? PTYPE_INT32) then
    do! l <- int_low var; do! h <- int_hi var; _pack_varint64 (join64 l h) s
  else if (ptype =? PTYPE_UINT32) || (ptype =? PTYPE_BOOL) || (ptype =? PTYPE_ENUM) then
    do! l <- int_low var; _pack_wiretype l s
  else if ptype =? PTYPE_SINT32 then do! l <- int_low var; _pack_sint32 l s
  else if ptype =? PTYPE_SINT64 then do! l <- int_low var; do! h <- int_hi var; _pack_sint64 (join64 l h) s
  else Done None.

(** The input as a [struct pbc_slice]. *)
Definition slice_input (i : input) : outcome (option (list Z) * Z) :=
  match i with
  | InMem m off => do! p <- load_ptr m off; do! n <- load_int 4 m (off + 8); Done (p, s32 n)
  | InVar (VSlice p n) => Done (p, n)
  | InVar (VStr str n) => Done (Some (str ++ [0]), n)
  | InVar _ => Fault BadRead
  end.

(** [memcpy] and [strlen] through a pointer. *)
Definition copy_from (p : option (list Z)) (n : Z) : outcome (list Z) :=
  match p with
  | Some b => bytes_at b 0 n
  | None => if n =? 0 then Done [] else Fault NullDeref
  end.

Definition strlen (p : option (list Z)) : outcome Z :=
  match p with
  | Some b => do! s <- cstr b; Done (zlen s)
  | None => Fault NullDeref
  end.

(** The wire type of a number, [None] for the other types. *)
Definition number_wiretype (ptype : Z) : option Z :=
  if (ptype =? PTYPE_FIXED64) || (ptype =? PTYPE_SFIXED64) || (ptype =? PTYPE_DOUBLE) then Some WT_BIT64
  else if (ptype =? PTYPE_FIXED32) || (ptype =? PTYPE_SFIXED32) || (ptype =? PTYPE_FLOAT) then Some WT_BIT32
  else if (ptype =? PTYPE_UINT64) || (ptype =? PTYPE_INT64) || (ptype =? PTYPE_INT32) || (ptype =? PTYPE_BOOL)
          || (ptype =? PTYPE_UINT32) || (ptype =? PTYPE_ENUM) || (ptype =? PTYPE_SINT32) || (ptype =? PTYPE_SINT64)
  then Some WT_VARINT
  else None.

(** The slice of a string, bytes or message field: a negative length of a string
    is counted from the end of the C string. *)
Definition field_slice (ptype : Z) (i : input) : outcome (option (list Z) * Z) :=
  do! (p, n) <- slice_input i;
  if (ptype =? PTYPE_STRING) && (n <? 0) then do! l <- strlen p; Done (p, l - n)
  else Done (p, n).

(** The number of bytes written and the slice after them; [None] is -1. *)
Definition _pack_field (pf : _pattern_field) (ctype : Z) (s : out_slice) (i : input) : outcome (option (Z * out_slice)) :=
  let id := s32 (Z.shiftl (pf_id pf) 3) in
  match number_wiretype (pf_ptype pf) with
  | Some wiretype =>
      do! r <- _pack_wiretype (u32 (Z.lor id wiretype)) s;
      match r with
      | None => Done None
      | Some (len, s) =>
          do! r <- _pack_number (pf_ptype pf) ctype s i;
          match r with
          | None => Done None
          | Some (len', s) => Done (Some (len + len', s))
          end
      end
  | None =>
      if (pf_ptype pf =? PTYPE_STRING) || (pf_ptype pf =? PTYPE_MESSAGE) || (pf_ptype pf =? PTYPE_BYTES) then
        do! (p, n) <- field_slice (pf_ptype pf) i;
        do! r <- _pack_wiretype (u32 (Z.lor id WT_LEND)) s;
        match r with
        | None => Done None
        | Some (len, s) =>
            do! r <- _pack_wiretype (u32 n) s;
            match r with
            | None => Done None
            | Some (len', s) =>
                if o_len s <? n then Done None
                else
                  do! bs <- copy_from p n;
                  do! m <- write_at (o_mem s) (o_pos s) bs;
                  Done (Some (len + len' + n, OSlice m (o_pos s + n) (o_len s - n)))
            end
        end
      else Done (Some (0, s))
  end.

(** Elements [i], [i+1], ..., [n] of them. *)
Fixpoint _pack_repeated (n : nat) (pf : _pattern_field) (s : out_slice) (arr : array pbc_var) (i : Z) (ret : Z)
    : outcome (option (Z * out_slice)) :=
  match n with
  | O => Done (Some (ret, s))
  | S n' =>
      do! v <- _pbcA_index arr i;
      do! r <- _pack_field pf CTYPE_VAR s (InVar v);
      match r with
      | None => Done None
      | Some (len, s) => _pack_repeated n' pf s arr (i + 1) (ret + len)
      end
  end.

(** The numbers of an array; [strict] stops at the first that does not fit. *)
Fixpoint pack_numbers (n : nat) (strict : bool) (ptype : Z) (s : out_slice) (arr : array pbc_var) (i : Z) (total : Z)
    : outcome (option (Z * out_slice)) :=
  match n with
  | O => Done (Some (total, s))
  | S n' =>
      do! v <- _pbcA_index arr i;
      do! r <- _pack_number ptype CTYPE_VAR s (InVar v);
      match r with
      | None => if strict then Done None else pack_numbers n' strict ptype s arr (i + 1) total
      | Some (len, s) => pack_numbers n' strict ptype s arr (i + 1) (total + len)
      end
  end.

(** The room is compared after [s->len] was already reduced by [len]. *)
Definition pattern_pack_fixed (pf : _pattern_field) (width : Z) (s : out_slice) (arr : array pbc_var)
    : outcome (option (Z * out_slice)) :=
  let n := pbc_array_size arr in
  do! r <- _pack_wiretype (u32 (n * width)) s;
  match r with
  | None => Done None
  | Some (len, s) =>
      if o_len s - len <? n * width then Done None
      else
        do! r <- pack_numbers (Z.to_nat n) false (pf_ptype pf) s arr 0 0;
        match r with
        | None => Done None
        | Some (_, s) => Done (Some (len + n * width, s))
        end
  end.

(** The length is estimated, and the elements are moved when its size was wrong. *)
Definition pattern_pack_varint (pf : _pattern_field) (slice : out_slice) (arr : array pbc_var)
    : outcome (option (Z * out_slice)) :=
  let n := pbc_array_size arr in
  let estimate := n in
  do! r <- _pack_wiretype (u32 estimate) slice;
  match r with
  | None => Done None
  | Some (estimate_len, s) =>
      do! r <- pack_numbers (Z.to_nat n) true (pf_ptype pf) s arr 0 0;
      match r with
      | None => Done None
      | Some (packed_len, s) =>
          if packed_len =? estimate then Done (Some (packed_len + estimate_len, s))
          else
            let temp := _pbcV_encode32 (u32 packed_len) in
            let header_len := zlen temp in
            if header_len =? estimate_len then
              do! m <- write_at (o_mem s) (o_pos slice) temp;
              Done (Some (packed_len + estimate_len, OSlice m (o_pos s) (o_len s)))
            else if o_len slice <? header_len + packed_len then Done None
            else
              do! bs <- bytes_at (o_mem s) (o_pos slice + estimate_len) packed_len;
              do! m <- write_at (o_mem s) (o_pos slice + header_len) bs;
              do! m <- write_at m (o_pos slice) temp;
              Done (Some (packed_len + header_len,
                          OSlice m (o_pos slice + packed_len + header_len) (o_len slice - (packed_len + header_len))))
      end
  end.

Definition pattern_pack_packed (pf : _pattern_field) (s : out_slice) (arr : array pbc_var) : outcome (option (Z * out_slice)) :=
  let n := pbc_array_size arr in
  if n =? 0 then Done (Some (0, s))
  else
    do! r <- _pack_wiretype (u32 (Z.lor (s32 (Z.shiftl (pf_id pf) 3)) WT_LEND)) s;
    match r with
    | None => Done None
    | Some (ret, s) =>
        do! r <-
          match number_wiretype (pf_ptype pf) with
          | Some wt =>
              if wt =? WT_BIT64 then pattern_pack_fixed pf 8 s arr
              else if wt =? WT_BIT32 then pattern_pack_fixed pf 4 s arr
              else pattern_pack_varint pf s arr
          | None => Done (Some (ret, s))
          end;
        match r with
        | None => Done None
        | Some (len, s) => Done (Some (ret + len, s))
        end
    end.

(** [==] on floats, as on doubles. *)
Definition float_eq (a b : Z) : bool :=
  let nan x := 0x7f800000 <? Z.land x 0x7fffffff in
  negb (nan a) && negb (nan b) && ((a =? b) || (Z.land (Z.lor a b) 0x7fffffff =? 0)).

(** The string a default is compared with: its bytes and its end. *)
Definition def_string (v : pbc_var) : outcome (list Z * Z) :=
  match v with
  | VStr str n => Done (str ++ [0], n)
  | VSlice (Some b) n => Done (b, n)
  | VSlice None _ => Fault NullDeref
  | _ => Fault BadRead
  end.

Definition _is_default (pf : _pattern_field) (m : mem) : outcome bool :=
  let off := pf_offset pf in
  let d := pf_defv pf in
  let c := pf_ctype pf in
  if c =? CTYPE_INT64 then
    do! l <- int_low d; do! h <- int_hi d; do! v <- load_int 8 m off; Done (join64 l h =? v)
  else if c =? CTYPE_DOUBLE then do! r <- real_bits d; do! v <- load_int 8 m off; Done (double_eq r v)
  else if c =? CTYPE_FLOAT then do! r <- real_bits d; do! v <- load_int 4 m off; Done (float_eq (d2f r) v)
  else if c =? CTYPE_INT32 then do! l <- int_low d; do! v <- load_int 4 m off; Done (l =? v)
  else if c =? CTYPE_INT16 then do! l <- int_low d; do! v <- load_int 2 m off; Done (u16 l =? v)
  else if c =? CTYPE_INT8 then do! l <- int_low d; do! v <- load_int 1 m off; Done (u8 l =? v)
  else if c =? CTYPE_BOOL then
    do! l <- int_low d; do! v <- load_int 1 m off; Done (if l =? 0 then v =? 0 else v =? 1)
  else if pf_ptype pf =? PTYPE_STRING then
    do! p <- load_ptr m off;
    do! (str, dlen) <- def_string d;
    match p with
    | None => do! c <- read_at str 0; Done (c =? 0)
    | Some b =>
        do! n <- load_int 4 m (off + 8);
        let len := s32 n in
        if len <=? 0 then
          do! s <- cstr b; do! e <- cstr str; Done (bool_decide (e = s))
        else if len =? dlen then
          do! x <- bytes_at str 0 len; do! y <- bytes_at b 0 len; Done (bool_decide (x = y))
        else Done false
    end
  else if pf_ptype pf =? PTYPE_BYTES then do! p <- load_ptr m off; Done (bool_decide (p = None))
  else Done false.

(** One field of the struct; a label that is not listed writes nothing. *)
Definition pack_one (pf : _pattern_field) (m : mem) (slice : out_slice) : outcome (option (Z * out_slice)) :=
  let in_ := InMem m (pf_offset pf) in
  if pf_label pf =? LABEL_OPTIONAL then
    do! d <- _is_default pf m;
    if (d : bool) then Done (Some (0, slice)) else _pack_field pf (pf_ctype pf) slice in_
  else if pf_label pf =? LABEL_REQUIRED then _pack_field pf (pf_ctype pf) slice in_
  else if pf_label pf =? LABEL_REPEATED then
    do! arr <- load_array m (pf_offset pf);
    _pack_repeated (Z.to_nat (pbc_array_size arr)) pf slice arr 0 0
  else if pf_label pf =? LABEL_PACKED then
    do! arr <- load_array m (pf_offset pf);
    pattern_pack_packed pf slice arr
  else Done (Some (0, slice)).

Fixpoint pack_loop (pat : pbc_pattern) (m : mem) (slice : out_slice) : outcome (option out_slice) :=
  match pat with
  | [] => Done (Some slice)
  | pf :: rest =>
      do! r <- pack_one pf m slice;
      match r with
      | None => Done None
      | Some (len, slice) => pack_loop rest m slice
      end
  end.

(** The room left in the slice (the return value) and the slice, whose [len] is
    the number of bytes packed; [None] is a negative return value. *)
Definition pbc_pattern_pack (pat : pbc_pattern) (m : mem) (s : out_slice) : outcome (option (Z * out_slice)) :=
  do! r <- pack_loop pat m s;
  match r with
  | None => Done None
  | Some slice =>
      let len := o_pos slice - o_pos s in
      Done (Some (o_len s - len, OSlice (o_mem slice) (o_pos s) len))
  end.

End Pattern.
