(* ===== verification/PatternRT.v ===== *)
(** * Packing and unpacking a struct ([3rd/pbc/src/pattern.c])

    The round trip of [pbc_pattern_pack] and [pbc_pattern_unpack] on the scalar
    fields of a struct, and the search among the fields of a pattern. *)

From S2P Require Import Prelude Varint Chain PMap SpMap PArray StringPool Context Proto Wmessage Decode CMem Pattern.

(** ** The value of a field of a struct *)

Inductive fval :=
  | FNum (v : Z)
  | FBytes (bs : list Z).

(** The bytes a field takes in the struct. *)
Definition csize (c : Z) : Z :=
  if (c =? CTYPE_INT32) || (c =? CTYPE_FLOAT) then 4
  else if (c =? CTYPE_INT64) || (c =? CTYPE_DOUBLE) then 8
  else if (c =? CTYPE_BOOL) || (c =? CTYPE_INT8) then 1
  else if c =? CTYPE_INT16 then 2
  else if c =? CTYPE_VAR then 16
  else 64.

Definition cell (pf : _pattern_field) (m : mem) : list mbyte := field_at m (pf_offset pf) (csize (pf_ctype pf)).

Definition val_of (c : Z) (l : list mbyte) : option fval :=
  if c =? CTYPE_VAR then
    match whole_object (take 8 l), known_bytes (take 4 (drop 8 l)) with
    | Some (OPtr (Some b)), Some n =>
        let len := s32 (le_join n) in
        if (0 <=? len) && (len <=? zlen b) then Some (FBytes (take (Z.to_nat len) b)) else None
    | _, _ => None
    end
  else match known_bytes l with
       | Some bs => Some (FNum (le_join bs))
       | None => None
       end.

Definition field_val (pf : _pattern_field) (m : mem) : option fval := val_of (pf_ctype pf) (cell pf m).

(** ** Lemmas on memory *)

Lemma load_int_val pf m v : 0 <= pf_offset pf → pf_offset pf + csize (pf_ctype pf) <= zlen m → pf_ctype pf ≠ CTYPE_VAR →
  field_val pf m = Some (FNum v) → load_int (csize (pf_ctype pf)) m (pf_offset pf) = Done v.
Proof.
  intros H1 H2 Hc. assert (0 <= csize (pf_ctype pf)) by (unfold csize; repeat case_match; lia).
  unfold field_val, val_of, load_int, cell. rewrite load_eq by done. cbn [obind]. rewrite (proj2 (Z.eqb_neq _ _) Hc).
  destruct (known_bytes _); [|done]. by intros [= ->].
Qed.

(** Storing a number of the field's size. *)
Lemma store_num pf m n v : Z.of_nat n = csize (pf_ctype pf) → pf_ctype pf ≠ CTYPE_VAR →
  0 <= pf_offset pf → pf_offset pf + csize (pf_ctype pf) <= zlen m → 0 <= v < 256 ^ Z.of_nat n →
  ∃ m', store_int n v m (pf_offset pf) = Done m' ∧ same_outside (pf_offset pf) (csize (pf_ctype pf)) m m'
    ∧ field_val pf m' = Some (FNum v).
Proof.
  intros Hn Hc H1 H2 Hv. unfold store_int.
  assert (zlen (int_bytes n v) = csize (pf_ctype pf)) as Hz by (unfold zlen; by rewrite length_int_bytes).
  destruct (store_done m (pf_offset pf) (int_bytes n v)) as (m' & Hm'); [done | lia |]. exists m'. split; [done|].
  pose proof (store_outside _ _ _ _ Hm') as Ho. rewrite Hz in Ho. split; [done|].
  unfold field_val, val_of, cell. rewrite (proj2 (Z.eqb_neq _ _) Hc), <- Hz, (store_field _ _ _ _ Hm'). unfold int_bytes.
  rewrite known_bytes_map, le_join_split, Z.mod_small; done.
Qed.

Lemma same_outside_trans off n m1 m2 m3 : same_outside off n m1 m2 → same_outside off n m2 m3 → same_outside off n m1 m3.
Proof. intros [L1 H1] [L2 H2]. split; [congruence|]. intros i Hi. rewrite H2, H1; done. Qed.

Lemma same_outside_zlen off n m m' : same_outside off n m m' → zlen m' = zlen m.
Proof. intros [H _]. unfold zlen. by rewrite H. Qed.

Lemma ord_pairs_cons {A} (R : A → A → Prop) x l : ForallOrdPairs R (x :: l) → Forall (R x) l ∧ ForallOrdPairs R l.
Proof. by inversion 1. Qed.

(** ** Search *)

Definition sorted_ids (pat : pbc_pattern) : Prop :=
  ∀ i j f g, (i < j)%nat → pat !! i = Some f → pat !! j = Some g → pf_id f < pf_id g.

Lemma ord_sorted pat : ForallOrdPairs (λ f g, pf_id f < pf_id g) pat → sorted_ids pat.
Proof.
  induction 1 as [|f pat Hf Hpat IH]; intros i j a b Hij Hi Hj; [done|]. destruct j as [|j]; [lia|]. destruct i as [|i].
  - injection Hi as <-. rewrite Forall_forall in Hf. apply Hf. by eapply list_elem_of_lookup_2.
  - apply (IH i j a b); [lia | done | done].
Qed.

Lemma bsearch_loop_spec fuel pat id begin end_ :
  sorted_ids pat → 0 <= begin → begin <= end_ <= zlen pat → end_ - begin <= Z.of_nat fuel →
  (∀ i f, pat !! i = Some f → pf_id f = id → begin <= Z.of_nat i < end_) →
  (∃ i f, bsearch_loop fuel pat id begin end_ = Done (Some i) ∧ pat !! i = Some f ∧ pf_id f = id)
  ∨ (bsearch_loop fuel pat id begin end_ = Done None ∧ ∀ i f, pat !! i = Some f → pf_id f ≠ id).
Proof.
  intros Hs. revert begin end_; induction fuel as [|fuel IH]; intros begin end_ Hb He Hf Hin; cbn [bsearch_loop].
  { rewrite (proj2 (Z.ltb_ge _ _)) by lia. right. split; [done|]. intros i f Hi E. specialize (Hin i f Hi E). lia. }
  case_if; [|right; split; [done|]; intros i f Hi E; specialize (Hin i f Hi E); lia].
  set (mid := (begin + end_) / 2). assert (begin <= mid < end_) as Hm by (unfold mid; zmod).
  unfold zlen in He. destruct (lookup_lt_is_Some_2 pat (Z.to_nat mid)) as [f Hmid]; [lia|].
  unfold read_at. rewrite (proj2 (Z.ltb_ge _ _)), Hmid by lia. cbn [obind]. case_if; [left; eexists _, _; split_and!; [done | done | lia]|].
  case_if; apply IH; try (unfold zlen; lia); intros i g Hi E; pose proof (Hin i g Hi E); (destruct (decide (i = Z.to_nat mid)) as [Emid|Hne];
    [exfalso; rewrite Emid, Hmid in Hi; injection Hi as <-; lia|]).
  - destruct (decide (Z.to_nat mid < i)%nat); [|lia]. pose proof (Hs _ _ _ _ ltac:(done) Hmid Hi). lia.
  - destruct (decide (i < Z.to_nat mid)%nat); [|lia]. pose proof (Hs _ _ _ _ ltac:(done) Hi Hmid). lia.
Qed.

Lemma bsearch_found pat i f : sorted_ids pat → pat !! i = Some f → bsearch_pattern pat (pf_id f) = Done (Some i).
Proof.
  intros Hs Hi. unfold bsearch_pattern.
  destruct (bsearch_loop_spec (length pat) pat (pf_id f) 0 (zlen pat) Hs) as [(j & g & -> & Hj & E) | (_ & H)]; try (unfold zlen; lia).
  - intros k g Hk _. apply lookup_lt_Some in Hk. unfold zlen. lia.
  - do 2 f_equal. destruct (decide (i < j)%nat); [pose proof (Hs _ _ _ _ ltac:(done) Hi Hj); lia|].
    destruct (decide (j < i)%nat); [pose proof (Hs _ _ _ _ ltac:(done) Hj Hi); lia | lia].
  - by destruct (H i f Hi).
Qed.

(** ** Fields that make the round trip *)

(** Protobuf types whose low word survives, and those whose both words do. *)
Definition low_types : list Z :=
  [PTYPE_INT64; PTYPE_UINT64; PTYPE_INT32; PTYPE_UINT32; PTYPE_ENUM; PTYPE_BOOL; PTYPE_FIXED64; PTYPE_SFIXED64;
   PTYPE_FIXED32; PTYPE_SFIXED32; PTYPE_SINT32].

Definition wide_types : list Z := [PTYPE_INT64; PTYPE_UINT64; PTYPE_INT32; PTYPE_FIXED64; PTYPE_SFIXED64].

Definition slice_types : list Z := [PTYPE_STRING; PTYPE_MESSAGE; PTYPE_BYTES].

(** The two words of an integer field. *)
Definition words (pf : _pattern_field) (v : Z) : Z * Z :=
  if pf_ctype pf =? CTYPE_INT64 then (u32 v, v / 2 ^ 32) else (v, 0).

(** The default of an integer field as the struct stores it. *)
Definition dnum (pf : _pattern_field) : Z :=
  let l := match int_low (pf_defv pf) with Done l => l | Fault _ => 0 end in
  let h := match int_hi (pf_defv pf) with Done h => h | Fault _ => 0 end in
  if pf_ctype pf =? CTYPE_INT64 then l + 2 ^ 32 * h
  else if pf_ctype pf =? CTYPE_BOOL then if l =? 0 then 0 else 1
  else if pf_ctype pf =? CTYPE_INT8 then u8 l
  else l.

Definition default_ok (pf : _pattern_field) : Prop :=
  match pf_defv pf with
  | VInteger l h => is_u32 l ∧ is_u32 h
  | VEnum _ _ => pf_ctype pf ∈ [CTYPE_INT32; CTYPE_INT8]
  | _ => False
  end.

Section RoundTrip.
Context (d2f f2d : Z → Z).

(** The number [v] fits the C type and survives the protobuf type. *)
Definition num_ok (pf : _pattern_field) (v : Z) : Prop :=
  0 <= v < 256 ^ csize (pf_ctype pf)
  ∧ (pf_ctype pf ∈ [CTYPE_INT32; CTYPE_INT8] ∧ pf_ptype pf ∈ low_types
     ∨ pf_ctype pf = CTYPE_BOOL ∧ v <= 1 ∧ pf_ptype pf ∈ low_types
     ∨ pf_ctype pf = CTYPE_INT64 ∧ pf_ptype pf ∈ wide_types
     ∨ pf_ctype pf = CTYPE_DOUBLE ∧ pf_ptype pf = PTYPE_DOUBLE
     ∨ pf_ctype pf = CTYPE_FLOAT ∧ pf_ptype pf = PTYPE_FLOAT ∧ d2f (f2d v) = v).

Definition int_ctype (c : Z) : bool := bool_decide (c ∈ [CTYPE_INT32; CTYPE_INT8; CTYPE_BOOL; CTYPE_INT64]).

(** A field of the struct [m] that is inside of it, has a field number and a
    value that survives; an optional integer may have its default value, any
    other optional field must not be taken for the default. *)
Definition field_ok (m : mem) (pf : _pattern_field) : Prop :=
  0 <= pf_offset pf ∧ pf_offset pf + csize (pf_ctype pf) <= zlen m ∧ id_ok (pf_id pf)
  ∧ (pf_label pf = LABEL_OPTIONAL ∨ pf_label pf = LABEL_REQUIRED)
  ∧ match field_val pf m with
    | Some (FNum v) => num_ok pf v
        ∧ (pf_label pf = LABEL_OPTIONAL → if int_ctype (pf_ctype pf) then default_ok pf else _is_default d2f pf m = Done false)
    | Some (FBytes bs) => pf_ctype pf = CTYPE_VAR ∧ pf_ptype pf ∈ slice_types ∧ bytes_ok bs ∧ zlen bs < 2 ^ 31
        ∧ (pf_label pf = LABEL_OPTIONAL → _is_default d2f pf m = Done false)
    | None => False
    end.

(** The field is left out of the message. *)
Definition skipped (m : mem) (pf : _pattern_field) : bool :=
  (pf_label pf =? LABEL_OPTIONAL) && match _is_default d2f pf m with Done b => b | Fault _ => false end.

(** What a field is packed as. *)
Definition value_chunk (pf : _pattern_field) (val : fval) : chunk :=
  match val with
  | FNum v =>
      if pf_ptype pf =? PTYPE_DOUBLE then
        (_pbcV_encode32 (key (pf_id pf) WT_BIT64) ++ double_encode v, λ _, Atom (key (pf_id pf) WT_BIT64) (u32 v) (v / 2 ^ 32))
      else if pf_ptype pf =? PTYPE_FLOAT then
        (_pbcV_encode32 (key (pf_id pf) WT_BIT32) ++ int32_encode v, λ _, Atom (key (pf_id pf) WT_BIT32) v 0)
      else
        let '(l, h) := words pf v in
        (integer_bytes (pf_ptype pf) (s32 (Z.shiftl (pf_id pf) 3)) l h, λ _, integer_atom (pf_ptype pf) (pf_id pf) l h)
  | FBytes bs =>
      let head := _pbcV_encode32 (key (pf_id pf) WT_LEND) ++ _pbcV_encode32 (zlen bs) in
      (head ++ bs, λ start, Atom (key (pf_id pf) WT_LEND) (start + zlen head) (start + zlen head + zlen bs))
  end.

Definition field_chunk (m : mem) (pf : _pattern_field) : chunk :=
  match field_val pf m with
  | Some val => value_chunk pf val
  | None => ([], λ _, Atom 0 0 0)
  end.

Definition present (m : mem) (pat : pbc_pattern) : pbc_pattern := List.filter (λ pf, negb (skipped m pf)) pat.

Definition struct_chunks (m : mem) (pat : pbc_pattern) : list chunk := List.map (field_chunk m) (present m pat).

(** *** The chunks are fields *)

Lemma low_types_int t : t ∈ low_types → t ∈ int_types ∧ t ≠ PTYPE_SINT64 ∧ t ≠ PTYPE_DOUBLE ∧ t ≠ PTYPE_FLOAT.
Proof.
  intros Ht. unfold low_types in Ht. repeat (apply elem_of_cons in Ht as [->|Ht]; [split; [unfold int_types; set_solver | done]|]).
  by apply elem_of_nil in Ht.
Qed.

Lemma wide_types_low t : t ∈ wide_types → t ∈ low_types.
Proof. unfold wide_types, low_types. set_solver. Qed.

(** A number field is an integer, a double or a float. *)
Lemma num_cases pf v : num_ok pf v →
  (pf_ptype pf ∈ low_types ∧ int_ctype (pf_ctype pf) = true ∧ is_u32 (words pf v).1 ∧ is_u32 (words pf v).2
   ∧ (pf_ctype pf = CTYPE_INT64 → pf_ptype pf ∈ wide_types) ∧ (pf_ctype pf = CTYPE_BOOL → v <= 1))
  ∨ (pf_ptype pf = PTYPE_DOUBLE ∧ pf_ctype pf = CTYPE_DOUBLE ∧ is_u64 v)
  ∨ (pf_ptype pf = PTYPE_FLOAT ∧ pf_ctype pf = CTYPE_FLOAT ∧ is_u32 v ∧ d2f (f2d v) = v).
Proof.
  intros [Hv H]. unfold words. destruct H as [[Hc Ht]|[(Hc & Hb & Ht)|[[Hc Ht]|[[Hc Ht]|(Hc & Ht & Hf)]]]].
  - left. assert (is_u32 v ∧ pf_ctype pf ≠ CTYPE_INT64 ∧ pf_ctype pf ≠ CTYPE_BOOL) as (Hu & Hn & Hn').
    { repeat (apply elem_of_cons in Hc as [Hc|Hc]; [rewrite Hc in Hv |- *; change (256 ^ csize CTYPE_INT32) with (2 ^ 32) in Hv; change (256 ^ csize CTYPE_INT8) with (2 ^ 8) in Hv;
        split_and!; [width | done | done]|]).
      by apply elem_of_nil in Hc. }
    rewrite (proj2 (Z.eqb_neq _ _) Hn). split_and!; [done | unfold int_ctype; apply bool_decide_eq_true; set_solver | done | cbn [snd]; width | done | done].
  - left. rewrite Hc in *. change (256 ^ csize CTYPE_BOOL) with (2 ^ 8) in Hv. change (CTYPE_BOOL =? CTYPE_INT64) with false.
    split_and!; [done | done | cbn [fst snd]; width | cbn [fst snd]; width | done | done].
  - left. rewrite Hc in *. change (csize CTYPE_INT64) with 8 in Hv. change (256 ^ 8) with (2 ^ 64) in Hv. rewrite Z.eqb_refl.
    split_and!; [by apply wide_types_low | done | apply u32_range | by apply high_word_range | done | done].
  - right. left. rewrite Hc in Hv. done.
  - right. right. rewrite Hc in Hv. done.
Qed.

Lemma field_chunk_ok m pf : field_ok m pf → chunk_ok (field_chunk m pf).
Proof.
  intros (_ & _ & Hid & _ & Hv). unfold field_chunk. destruct (field_val pf m) as [[v|bs]|]; [|..|done].
  - destruct Hv as [Hn _]. unfold chunk_ok, value_chunk.
    destruct (num_cases _ _ Hn) as [(Ht & _ & Hl & Hh & _)|[(-> & _ & Hv)|(-> & _ & Hv & _)]]; cbn [Z.eqb Pos.eqb PTYPE_DOUBLE PTYPE_FLOAT].
    + destruct (low_types_int _ Ht) as (Hi & _ & Hd & Hf). rewrite (proj2 (Z.eqb_neq _ _) Hd), (proj2 (Z.eqb_neq _ _) Hf).
      destruct (words pf v) as [l h]. cbn [fst snd] in *. by apply integer_one_field.
    + cbn [fst snd]. rewrite double_encode_split by done. apply one_field_bit64; [done | apply u32_range | by apply high_word_range].
    + by apply one_field_bit32.
  - destruct Hv as (_ & _ & Hb & Hl & _). apply one_field_lend; [done | done | lia].
Qed.

(** *** Packing one field *)

Definition slice_in (s : out_slice) : Prop := 0 <= o_pos s ∧ 0 <= o_len s ∧ o_pos s + o_len s <= zlen (o_mem s).

(** From [s] to [s'] the bytes [bs] were written at the front of the slice. *)
Definition appended (s s' : out_slice) (bs : list Z) : Prop :=
  write_at (o_mem s) (o_pos s) bs = Done (o_mem s') ∧ o_pos s' = o_pos s + zlen bs ∧ o_len s' = o_len s - zlen bs ∧ slice_in s'.

Lemma write_fits (l : list Z) i bs : 0 <= i → i + zlen bs <= zlen l → ∃ l', write_at l i bs = Done l' ∧ zlen l' = zlen l.
Proof.
  intros Hi Hl. unfold write_at. rewrite !(proj2 (Z.leb_le _ _)) by lia. eexists. split; [done|]. unfold zlen in *.
  rewrite !length_app, length_take, length_drop. lia.
Qed.

Lemma put_ok_ (strict : bool) bs s : slice_in s → zlen bs <= o_len s →
  ∃ s', (if strict then put_fixed bs s else put_slice bs s) = Done (Some (zlen bs, s')) ∧ appended s s' bs.
Proof.
  intros (H1 & H2 & H3) Hl. pose proof (zlen_nonneg bs).
  destruct (write_fits (o_mem s) (o_pos s) bs) as (l & Hw & Hz); [done | lia |].
  assert ((if strict then put_fixed bs s else put_slice bs s) = Done (Some (zlen bs, OSlice l (o_pos s + zlen bs) (o_len s - zlen bs)))) as ->.
  { destruct strict; unfold put_fixed, put_slice; rewrite (proj2 (Z.ltb_ge _ _) Hl); rewrite ?andb_false_r, Hw; done. }
  eexists. split; [done|]. unfold appended, slice_in. cbn [o_mem o_pos o_len]. rewrite Hz. split_and!; [done | done | done | lia..].
Qed.

Lemma write_at_app (l l1 l2 : list Z) i a b :
  write_at l i a = Done l1 → write_at l1 (i + zlen a) b = Done l2 → write_at l i (a ++ b) = Done l2.
Proof.
  unfold write_at. case_if; [|done]. intros [= <-]. case_if; [|done]. intros [= <-].
  rewrite !zlen_app in *. pose proof (zlen_nonneg a). pose proof (zlen_nonneg b).
  assert (length (take (Z.to_nat i) l) = Z.to_nat i) as Ht by (rewrite length_take; unfold zlen in *; lia).
  assert (zlen (take (Z.to_nat i) l) = i ∧ zlen (drop (Z.to_nat i + length a) l) = zlen l - i - zlen a) as [Hz1 Hz2].
  { unfold zlen in *. rewrite length_drop. split; lia. }
  rewrite !(proj2 (Z.leb_le _ _)) by lia. cbn [andb]. f_equal.
  assert (Z.to_nat (i + zlen a) = Z.to_nat i + length a)%nat as -> by (unfold zlen; lia).
  rewrite (take_app_add' _ _ (Z.to_nat i)) by done. rewrite take_app_length, <- app_assoc, <- Nat.add_assoc.
  rewrite (drop_app_add' _ _ (Z.to_nat i)) by done. rewrite drop_app_add, drop_drop, length_app. by rewrite <- !app_assoc, Nat.add_assoc.
Qed.

Lemma appended_trans s1 s2 s3 a b : appended s1 s2 a → appended s2 s3 b → appended s1 s3 (a ++ b).
Proof.
  intros (H1 & P1 & L1 & I1) (H2 & P2 & L2 & I2). rewrite P1 in H2. split; [by eapply write_at_app|]. rewrite zlen_app.
  split_and!; [lia | lia | done].
Qed.

Lemma appended_nil s : slice_in s → appended s s [].
Proof.
  intros (H1 & H2 & H3). destruct (put_ok_ false [] s) as (s' & Hp & Ha); [done | done |].
  assert (s' = s) as ->; [|done]. unfold put_slice in Hp. change (zlen []) with 0 in Hp. rewrite (proj2 (Z.ltb_ge _ 0)) in Hp by done.
  rewrite andb_false_r in Hp. destruct (write_at (o_mem s) (o_pos s) []) as [l|] eqn:E; [|done]. cbn [obind] in Hp. injection Hp as <-.
  unfold write_at in E. destruct (_ && _); [|done]. injection E as <-. cbn [length app]. rewrite Nat.add_0_r, take_drop.
  destruct s. cbn. f_equal; lia.
Qed.

(** [r] is the result of putting the bytes [bs] into the slice [s]: they are
    written at its front when there is room, and else nothing is. *)
Definition fits (r : outcome (option (Z * out_slice))) (s : out_slice) (bs : list Z) : Prop :=
  if zlen bs <=? o_len s then ∃ s', r = Done (Some (zlen bs, s')) ∧ appended s s' bs else r = Done None.

Lemma put_fits (strict : bool) bs s : slice_in s → (strict = true ∨ zlen bs <= 10) →
  fits (if strict then put_fixed bs s else put_slice bs s) s bs.
Proof.
  intros Hs Hb. unfold fits. destruct (Z.leb_spec (zlen bs) (o_len s)) as [Hle|Hgt]; [by apply put_ok_|].
  unfold put_fixed, put_slice. rewrite (proj2 (Z.ltb_lt (o_len s) (zlen bs))) by lia.
  destruct Hb as [->|Hb]; [done|]. rewrite (proj2 (Z.ltb_lt (o_len s) 10)) by lia. by destruct strict.
Qed.

Lemma fits_then r1 s b1 (k : out_slice → outcome (option (Z * out_slice))) b2 : slice_in s → fits r1 s b1 →
  (∀ s1, slice_in s1 → fits (k s1) s1 b2) →
  fits (do! r <- r1;
        match r with
        | None => Done None
        | Some (len, s) =>
            do! r <- k s;
            match r with
            | None => Done None
            | Some (len', s) => Done (Some (len + len', s))
            end
        end) s (b1 ++ b2).
Proof.
  unfold fits. intros Hs H1 H2. pose proof (zlen_nonneg b1). pose proof (zlen_nonneg b2). rewrite zlen_app.
  destruct (Z.leb_spec (zlen b1) (o_len s)) as [Hle|Hgt].
  2: { rewrite H1, (proj2 (Z.leb_gt _ _)) by lia. done. }
  destruct H1 as (s1 & -> & Ha1). cbn [obind]. pose proof Ha1 as (_ & _ & L1 & Hs1). specialize (H2 s1 Hs1).
  destruct (Z.leb_spec (zlen b2) (o_len s1)) as [Hle2|Hgt2].
  - destruct H2 as (s2 & -> & Ha2). cbn [obind]. rewrite (proj2 (Z.leb_le _ _)) by lia. exists s2. split; [done | by eapply appended_trans].
  - rewrite H2. cbn [obind]. by rewrite (proj2 (Z.leb_gt _ _)) by lia.
Qed.

Lemma fix32_int32 v : is_u32 v → _fix32_encode v = int32_encode v.
Proof.
  intros _. unfold _fix32_encode, int32_encode. rewrite !land_255.
  assert (∀ x, u8 (x mod 256) = u8 x) as Hu by (intros x; width). by rewrite !Hu.
Qed.

(** The number the field packs, as its two words. *)
Lemma number_input_int pf m v : 0 <= pf_offset pf → pf_offset pf + csize (pf_ctype pf) <= zlen m → int_ctype (pf_ctype pf) = true →
  0 <= v < 256 ^ csize (pf_ctype pf) → field_val pf m = Some (FNum v) →
  number_input f2d (pf_ctype pf) (InMem m (pf_offset pf)) = Done (VInteger (words pf v).1 (words pf v).2).
Proof.
  intros H1 H2 Hc Hv Hval. unfold int_ctype in Hc. apply bool_decide_eq_true in Hc.
  assert (pf_ctype pf ≠ CTYPE_VAR) as Hnv by (intros E; rewrite E in Hc; repeat (apply elem_of_cons in Hc as [Hc|Hc]; [done|]); by apply elem_of_nil in Hc).
  pose proof (load_int_val pf m v H1 H2 Hnv Hval) as Hld. unfold words, number_input.
  repeat (apply elem_of_cons in Hc as [Hc|Hc]; [rewrite Hc in Hld, Hv |- *|]); [..|by apply elem_of_nil in Hc];
    cbn [Z.eqb Pos.eqb CTYPE_VAR CTYPE_INT32 CTYPE_INT64 CTYPE_INT16 CTYPE_INT8 CTYPE_BOOL fst snd].
  - change (csize CTYPE_INT32) with 4 in Hld. by rewrite Hld.
  - change (csize CTYPE_INT8) with 1 in Hld. by rewrite Hld.
  - change (csize CTYPE_BOOL) with 1 in Hld. by rewrite Hld.
  - change (csize CTYPE_INT64) with 8 in Hld, Hv. rewrite Hld. cbn [obind]. change (256 ^ 8) with (2 ^ 64) in Hv.
    change 0xffffffff with (2 ^ 32 - 1). rewrite (land_low v 32), Z.shiftr_div_pow2 by lia. rewrite (u32_id (v / 2 ^ 32)) by (by apply high_word_range).
    rewrite (u32_id (v mod 2 ^ 32)) by (unfold is_u32; apply Z.mod_pos_bound; lia). done.
Qed.

(** The wire type and the bytes of an integer, as [_pack_field] puts them. *)
Lemma pack_number_int t ctype i l h id : t ∈ int_types → is_u32 l → is_u32 h → number_input f2d ctype i = Done (VInteger l h) →
  ∃ wt body (strict : bool), number_wiretype t = Some wt ∧ integer_bytes t id l h = _pbcV_encode32 (u32 (Z.lor id wt)) ++ body
    ∧ zlen body <= 10 ∧ ∀ s, _pack_number d2f f2d t ctype s i = if strict then put_fixed body s else put_slice body s.
Proof.
  intros Ht Hl Hh Hi. unfold _pack_number. rewrite Hi. cbn [obind int_low int_hi]. unfold int_types in Ht.
  unfold _fix64_encode. rewrite !fix32_int32 by done.
  assert (is_u64 (join64 l h)) as H64 by (rewrite join64_val by done; unfold is_u64, is_u32 in *; lia).
  pose proof (enc_bytes _ H64) as [_ E1]. pose proof (enc32_bytes _ Hl) as [_ E2].
  pose proof (enc32_bytes _ (zz_u32 _ (s32_range l))) as [_ E3]. rewrite <- zigzag32_encode in E3 by apply s32_range.
  pose proof (enc_bytes _ (zz_u64 _ (s64_range (join64 l h)))) as [_ E4]. rewrite <- zigzag_encode in E4 by apply s64_range.
  repeat (apply elem_of_cons in Ht as [->|Ht]; [do 2 eexists; first
    [exists false; (split; [reflexivity|]); (split; [reflexivity|]); (split; [|intros s; reflexivity])
    |exists true; (split; [reflexivity|]); (split; [reflexivity|]); (split; [|intros s; reflexivity])];
    (lia || (vm_compute; discriminate))|]).
  by apply elem_of_nil in Ht.
Qed.

(** The wire type and the bytes of a number, and how they are put. *)
Lemma num_parts m pf v : field_ok m pf → field_val pf m = Some (FNum v) →
  ∃ wt body (strict : bool), number_wiretype (pf_ptype pf) = Some wt
    ∧ (field_chunk m pf).1 = _pbcV_encode32 (u32 (Z.lor (s32 (Z.shiftl (pf_id pf) 3)) wt)) ++ body ∧ zlen body <= 10
    ∧ ∀ s, _pack_number d2f f2d (pf_ptype pf) (pf_ctype pf) s (InMem m (pf_offset pf)) = if strict then put_fixed body s else put_slice body s.
Proof.
  intros (H1 & H2 & Hid & _ & Hv) Hval. rewrite Hval in Hv. destruct Hv as [Hn _]. unfold field_chunk in *. rewrite Hval in *.
  unfold value_chunk. destruct (num_cases _ _ Hn) as [(Ht & Hc & Hl & Hh & _)|[(Ht & Hc & Hu)|(Ht & Hc & Hu & Hf)]].
    - destruct (low_types_int _ Ht) as (Hi & _ & Hd & Hfl). rewrite (proj2 (Z.eqb_neq _ _) Hd), (proj2 (Z.eqb_neq _ _) Hfl).
      pose proof (number_input_int pf m v H1 H2 Hc (proj1 Hn) Hval) as Hin. destruct (words pf v) as [l h]. cbn [fst snd] in *.
      by apply (pack_number_int _ _ _ l h).
    - pose proof (load_int_val pf m v H1 H2 ltac:(by rewrite Hc) Hval) as Hld. rewrite Hc in Hld |- *. change (csize CTYPE_DOUBLE) with 8 in Hld.
      rewrite Ht. destruct (key_spec (pf_id pf) WT_BIT64 Hid ltac:(done)) as (E & _). exists WT_BIT64, (double_encode v), true.
      split; [done|]. cbn [Z.eqb Pos.eqb PTYPE_DOUBLE fst]. rewrite E. split; [done|]. split; [done|]. intros s0. unfold _pack_number, number_input.
      cbn [Z.eqb Pos.eqb CTYPE_VAR CTYPE_INT32 CTYPE_INT64 CTYPE_INT16 CTYPE_INT8 CTYPE_BOOL CTYPE_DOUBLE]. rewrite Hld. reflexivity.
    - pose proof (load_int_val pf m v H1 H2 ltac:(by rewrite Hc) Hval) as Hld. rewrite Hc in Hld |- *. change (csize CTYPE_FLOAT) with 4 in Hld.
      rewrite Ht. destruct (key_spec (pf_id pf) WT_BIT32 Hid ltac:(done)) as (E & _). exists WT_BIT32, (int32_encode v), true.
      split; [done|]. cbn [Z.eqb Pos.eqb PTYPE_DOUBLE PTYPE_FLOAT fst]. rewrite E. split; [done|]. split; [done|]. intros s0. unfold _pack_number, number_input.
      cbn [Z.eqb Pos.eqb CTYPE_VAR CTYPE_INT32 CTYPE_INT64 CTYPE_INT16 CTYPE_INT8 CTYPE_BOOL CTYPE_DOUBLE CTYPE_FLOAT]. rewrite Hld.
      cbn [obind real_bits]. unfold float_encode. rewrite Hf. reflexivity.
Qed.

(** A number is put when it fits; otherwise nothing is written. *)
Lemma pack_field_num m pf s v : field_ok m pf → field_val pf m = Some (FNum v) → slice_in s →
  fits (_pack_field d2f f2d pf (pf_ctype pf) s (InMem m (pf_offset pf))) s (field_chunk m pf).1.
Proof.
  intros Hf Hval Hs. destruct (num_parts m pf v Hf Hval) as (wt & body & strict & Hwt & -> & Hl & Hp).
  unfold _pack_field, _pack_wiretype. rewrite Hwt. apply fits_then; [done | |].
  - apply (put_fits false); [done|]. right. pose proof (enc32_bytes _ (u32_range (Z.lor (s32 (Z.shiftl (pf_id pf) 3)) wt))) as [_ ?]. lia.
  - intros s' Hs'. rewrite Hp. apply put_fits; [done|]. by right.
Qed.

(** A slice in the struct: its pointer and its length. *)
Lemma load_slice_val pf m bs : 0 <= pf_offset pf → pf_offset pf + csize (pf_ctype pf) <= zlen m → pf_ctype pf = CTYPE_VAR →
  field_val pf m = Some (FBytes bs) →
  ∃ b n, load_ptr m (pf_offset pf) = Done (Some b) ∧ load_int 4 m (pf_offset pf + 8) = Done n ∧ s32 n = zlen bs ∧ bytes_at b 0 (zlen bs) = Done bs.
Proof.
  intros H1 H2 Hc Hval. unfold field_val, val_of, cell in Hval. rewrite Hc in *. change (csize CTYPE_VAR) with 16 in *.
  rewrite Z.eqb_refl in Hval. destruct (whole_object _) as [[[b|]|]|] eqn:Ew; [|done..].
  destruct (known_bytes _) as [n|] eqn:Ek; [|done]. destruct (_ && _) eqn:Eb; [|done]. bprop. injection Hval as <-.
  assert (field_at m (pf_offset pf) 8 = take 8 (field_at m (pf_offset pf) 16)) as E8 by (unfold field_at; by rewrite take_take).
  assert (field_at m (pf_offset pf + 8) 4 = take 4 (drop 8 (field_at m (pf_offset pf) 16))) as E4.
  { unfold field_at. rewrite skipn_firstn_comm, take_take, drop_drop. f_equal. f_equal. lia. }
  exists b, (le_join n). unfold load_ptr, load_int. rewrite !load_eq by lia. cbn [obind]. rewrite E8, E4, Ew, Ek. split; [done|]. split; [done|].
  assert (zlen (take (Z.to_nat (s32 (le_join n))) b) = s32 (le_join n)) as Hz by (unfold zlen in *; rewrite length_take; lia).
  rewrite Hz. split; [done|]. unfold bytes_at. rewrite !(proj2 (Z.leb_le _ _)) by lia. done.
Qed.

Lemma slice_not_number t : t ∈ slice_types →
  number_wiretype t = None ∧ (t =? PTYPE_STRING) || (t =? PTYPE_MESSAGE) || (t =? PTYPE_BYTES) = true.
Proof.
  intros Ht. unfold slice_types in Ht. repeat (apply elem_of_cons in Ht as [->|Ht]; [done|]). by apply elem_of_nil in Ht.
Qed.

Lemma pack_field_bytes m pf s bs : field_ok m pf → field_val pf m = Some (FBytes bs) → slice_in s →
  fits (_pack_field d2f f2d pf (pf_ctype pf) s (InMem m (pf_offset pf))) s (field_chunk m pf).1.
Proof.
  intros (H1 & H2 & Hid & _ & Hv) Hval Hs. rewrite Hval in Hv. destruct Hv as (Hc & Ht & Hb & Hl & _).
  unfold field_chunk. rewrite Hval. cbn [value_chunk fst]. pose proof (zlen_nonneg bs).
  destruct (load_slice_val pf m bs H1 H2 Hc Hval) as (b & n & Hp & Hn & En & Hcp). destruct (slice_not_number _ Ht) as [Hw Hor].
  unfold _pack_field. rewrite Hw, Hor. unfold field_slice, slice_input. rewrite Hp. cbn [obind]. rewrite Hn. cbn [obind]. rewrite En.
  rewrite (proj2 (Z.ltb_ge (zlen bs) 0)) by done. rewrite andb_false_r. cbn [obind].
  destruct (key_spec (pf_id pf) WT_LEND Hid ltac:(done)) as (-> & Hk & _). rewrite (u32_id (zlen bs)) by (unfold is_u32; lia).
  rewrite <- app_assoc. unfold _pack_wiretype. destruct (enc32_bytes _ Hk) as [_ Hk5].
  destruct (enc32_bytes (zlen bs) ltac:(unfold is_u32; lia)) as [_ Hl5].
  pose proof (put_fits false (_pbcV_encode32 (key (pf_id pf) WT_LEND)) s Hs ltac:(right; lia)) as F1. unfold fits in *. cbv iota in F1.
  rewrite !zlen_app. destruct (Z.leb_spec (zlen (_pbcV_encode32 (key (pf_id pf) WT_LEND))) (o_len s)).
  2: { rewrite F1. by rewrite (proj2 (Z.leb_gt _ _)) by lia. }
  destruct F1 as (s1 & -> & Ha1). cbn [obind]. pose proof Ha1 as (_ & _ & L1 & Hs1).
  pose proof (put_fits false (_pbcV_encode32 (zlen bs)) s1 Hs1 ltac:(right; lia)) as F2. unfold fits in F2. cbv iota in F2.
  destruct (Z.leb_spec (zlen (_pbcV_encode32 (zlen bs))) (o_len s1)).
  2: { rewrite F2. by rewrite (proj2 (Z.leb_gt _ _)) by lia. }
  destruct F2 as (s2 & -> & Ha2). cbn [obind]. pose proof Ha2 as (_ & _ & L2 & Hs2). destruct (Z.ltb_spec (o_len s2) (zlen bs)).
  { by rewrite (proj2 (Z.leb_gt _ _)) by lia. }
  rewrite (proj2 (Z.leb_le _ _)) by lia. cbn [copy_from]. rewrite Hcp. cbn [obind].
  destruct (put_ok_ true bs s2 Hs2) as (s3 & Hp3 & Ha3); [lia|]. cbv iota in Hp3. unfold put_fixed in Hp3.
  rewrite (proj2 (Z.ltb_ge (o_len s2) _)) in Hp3 by lia.
  destruct (write_at (o_mem s2) (o_pos s2) bs); [|done]. cbn [obind] in *. injection Hp3 as E3.
  eexists. split; [by rewrite Z.add_assoc|]. rewrite E3.
  eapply appended_trans; [done|]. by eapply appended_trans.
Qed.

(** *** Defaults *)

Lemma int_ctype_cases c : int_ctype c = true → c = CTYPE_INT32 ∨ c = CTYPE_INT8 ∨ c = CTYPE_BOOL ∨ c = CTYPE_INT64.
Proof. unfold int_ctype. intros H. apply bool_decide_eq_true in H. set_solver. Qed.

(** Reading the words of an admissible default. *)
Lemma default_words pf : default_ok pf →
  ∃ l, int_low (pf_defv pf) = Done l ∧ is_u32 l
    ∧ (pf_ctype pf = CTYPE_INT64 → ∃ h, int_hi (pf_defv pf) = Done h ∧ is_u32 h).
Proof.
  unfold default_ok. destruct (pf_defv pf) as [l h| | |id name|]; try done.
  - intros [Hl Hh]. exists l. split_and!; [done | done |]. intros _. by exists h.
  - intros Hc. exists (u32 id). split_and!; [done | apply u32_range |]. intros E. rewrite E in Hc.
    repeat (apply elem_of_cons in Hc as [Hc|Hc]; [done|]). by apply elem_of_nil in Hc.
Qed.

Lemma is_default_num pf m v : 0 <= pf_offset pf → pf_offset pf + csize (pf_ctype pf) <= zlen m → int_ctype (pf_ctype pf) = true →
  default_ok pf → field_val pf m = Some (FNum v) → _is_default d2f pf m = Done (dnum pf =? v).
Proof.
  intros H1 H2 Hc Hd Hval. destruct (default_words pf Hd) as (l & El & Hl & Hh).
  assert (pf_ctype pf ≠ CTYPE_VAR) as Hnv by (intros E; rewrite E in Hc; done).
  pose proof (load_int_val pf m v H1 H2 Hnv Hval) as Hld. unfold _is_default, dnum. rewrite El.
  destruct (int_ctype_cases _ Hc) as [E|[E|[E|E]]]; rewrite E in Hld |- *;
    cbn [Z.eqb Pos.eqb CTYPE_VAR CTYPE_INT32 CTYPE_INT64 CTYPE_INT16 CTYPE_INT8 CTYPE_BOOL CTYPE_DOUBLE CTYPE_FLOAT obind].
  - change (csize CTYPE_INT32) with 4 in Hld. by rewrite Hld.
  - change (csize CTYPE_INT8) with 1 in Hld. by rewrite Hld.
  - change (csize CTYPE_BOOL) with 1 in Hld. rewrite Hld. cbn [obind]. case_if; f_equal; apply Z.eqb_sym.
  - change (csize CTYPE_INT64) with 8 in Hld. rewrite Hld. destruct (Hh E) as (h & -> & Hhu). cbn [obind]. by rewrite join64_val.
Qed.

(** Storing a default stores the number [dnum]. *)
Lemma set_default_num pf defv m : 0 <= pf_offset pf → pf_offset pf + csize (pf_ctype pf) <= zlen m → int_ctype (pf_ctype pf) = true →
  (∃ l, int_low defv = Done l ∧ is_u32 l ∧ int_low (pf_defv pf) = Done l) →
  (pf_ctype pf = CTYPE_INT64 → ∃ h, int_hi defv = Done h ∧ is_u32 h ∧ int_hi (pf_defv pf) = Done h) →
  ∃ m', set_default_v d2f m (pf_offset pf) (pf_ctype pf) defv = Done m'
    ∧ same_outside (pf_offset pf) (csize (pf_ctype pf)) m m' ∧ field_val pf m' = Some (FNum (dnum pf)).
Proof.
  intros H1 H2 Hc (l & El & Hl & El') Hh. pose proof (store_num pf m) as St.
  assert (pf_ctype pf ≠ CTYPE_VAR) as Hnv by (intros E; rewrite E in Hc; done).
  unfold set_default_v, dnum. rewrite El, El'.
  destruct (int_ctype_cases _ Hc) as [E|[E|[E|E]]]; rewrite E in St, H2, Hnv, Hh |- *;
    cbn [Z.eqb Pos.eqb CTYPE_VAR CTYPE_INT32 CTYPE_INT64 CTYPE_INT16 CTYPE_INT8 CTYPE_BOOL CTYPE_DOUBLE CTYPE_FLOAT obind].
  - by apply (St 4%nat).
  - apply (St 1%nat); [done..|]. exact (u8_range l).
  - apply (St 1%nat); [done..|]. change (256 ^ Z.of_nat 1) with 256. destruct (l =? 0); lia.
  - destruct (Hh eq_refl) as (h & Eh & Hhu & Eh'). rewrite Eh, Eh'. cbn [obind]. rewrite join64_val by done.
    apply (St 8%nat); [done..|]. change (256 ^ Z.of_nat 8) with (2 ^ 64). unfold is_u32 in *. lia.
Qed.

Lemma pattern_set_default_num pf m : 0 <= pf_offset pf → pf_offset pf + csize (pf_ctype pf) <= zlen m → int_ctype (pf_ctype pf) = true →
  default_ok pf →
  ∃ m', _pattern_set_default d2f pf m = Done m' ∧ same_outside (pf_offset pf) (csize (pf_ctype pf)) m m'
    ∧ field_val pf m' = Some (FNum (dnum pf)).
Proof.
  intros H1 H2 Hc Hd. destruct (default_words pf Hd) as (l & El & Hl & Hh).
  assert (is_array (pf_ctype pf) = false) as Harr by (destruct (int_ctype_cases _ Hc) as [E|[E|[E|E]]]; by rewrite E).
  unfold _pattern_set_default. rewrite Harr.
  assert (∀ m0, zlen m0 = zlen m → ∃ m', set_default_v d2f m0 (pf_offset pf) (pf_ctype pf) (pf_defv pf) = Done m'
    ∧ same_outside (pf_offset pf) (csize (pf_ctype pf)) m0 m' ∧ field_val pf m' = Some (FNum (dnum pf))) as Hset.
  { intros m0 Hz. apply set_default_num; [done | by rewrite Hz | done | by exists l |]. intros E. destruct (Hh E) as (h & Eh & Hu). by exists h. }
  destruct (pf_ptype pf =? PTYPE_ENUM); [|cbn [obind]; by apply Hset].
  assert (∃ m1, (match pf_defv pf with
       | VEnum id _ => set_default_v d2f m (pf_offset pf) (pf_ctype pf) (VInteger (u32 id) 0)
       | v => do! l <- int_low v; set_default_v d2f m (pf_offset pf) (pf_ctype pf) (VInteger l 0)
       end) = Done m1 ∧ same_outside (pf_offset pf) (csize (pf_ctype pf)) m m1) as (m1 & -> & Ho1).
  { destruct (pf_defv pf) as [dl dh| | |id name|] eqn:Edv; unfold default_ok in Hd; rewrite Edv in Hd; try done; cbn [int_low obind] in *.
    - destruct (set_default_num (PField (pf_id pf) (pf_offset pf) (pf_ptype pf) (pf_ctype pf) (pf_label pf) (VInteger dl 0)) (VInteger dl 0) m)
        as (m1 & Hm1 & Ho & _); [done | done | done | exists dl; cbn; split_and!; [done | apply Hd | done] | |by exists m1].
      intros _. exists 0. cbn. split_and!; [done | width | done].
    - destruct (set_default_num (PField (pf_id pf) (pf_offset pf) (pf_ptype pf) (pf_ctype pf) (pf_label pf) (VInteger (u32 id) 0)) (VInteger (u32 id) 0) m)
        as (m1 & Hm1 & Ho & _); [done | done | done | exists (u32 id); cbn; split_and!; [done | apply u32_range | done] | |by exists m1].
      intros _. exists 0. cbn. split_and!; [done | width | done]. }
  cbn [obind]. destruct (Hset m1 (same_outside_zlen _ _ _ _ Ho1)) as (m2 & -> & Ho2 & Hval). exists m2.
  split_and!; [done | by eapply same_outside_trans | done].
Qed.

(** *** Unpacking one field *)

(** An integer atom is written as the two words that were packed. *)
Lemma unpack_int t ctype msg id l h m off : t ∈ low_types → is_u32 l → is_u32 h →
  ∃ r, unpack_scalar d2f f2d ctype t msg (integer_atom t id l h) m off = write_longlong ctype r m off
    ∧ low r = l ∧ (t ∈ wide_types → hi r = h).
Proof.
  intros Ht Hl Hh. pose proof (dezigzag32_low (s32 l) 0 (s32_range l)) as E32. rewrite u32_s32, u32_id in E32 by done.
  unfold low_types in Ht.
  repeat (apply elem_of_cons in Ht as [->|Ht];
    [first [exists (Longlong l h); split_and!; [reflexivity | reflexivity | done]
           | exists (Longlong l 0); split_and!; [reflexivity | reflexivity |]; intros Hw; unfold wide_types in Hw;
             repeat (apply elem_of_cons in Hw as [Hw|Hw]; [done|]); by apply elem_of_nil in Hw
           | eexists; split_and!; [reflexivity | exact E32 |]; intros Hw; unfold wide_types in Hw;
             repeat (apply elem_of_cons in Hw as [Hw|Hw]; [done|]); by apply elem_of_nil in Hw]|]).
  by apply elem_of_nil in Ht.
Qed.

Lemma write_longlong_val pf r v m : 0 <= pf_offset pf → pf_offset pf + csize (pf_ctype pf) <= zlen m → int_ctype (pf_ctype pf) = true →
  0 <= v < 256 ^ csize (pf_ctype pf) → (pf_ctype pf = CTYPE_BOOL → v <= 1) →
  low r = (words pf v).1 → (pf_ctype pf = CTYPE_INT64 → hi r = (words pf v).2) →
  ∃ m', write_longlong (pf_ctype pf) r m (pf_offset pf) = Done (Some m') ∧ same_outside (pf_offset pf) (csize (pf_ctype pf)) m m'
    ∧ field_val pf m' = Some (FNum v).
Proof.
  intros H1 H2 Hc Hv Hb Hlo Hhi. pose proof (store_num pf m) as St.
  assert (pf_ctype pf ≠ CTYPE_VAR) as Hnv by (intros E; rewrite E in Hc; done).
  unfold write_longlong, words in *.
  destruct (int_ctype_cases _ Hc) as [E|[E|[E|E]]]; rewrite E in *;
    cbn [Z.eqb Pos.eqb CTYPE_VAR CTYPE_INT32 CTYPE_INT64 CTYPE_INT16 CTYPE_INT8 CTYPE_BOOL CTYPE_DOUBLE CTYPE_FLOAT fst snd] in *; rewrite Hlo.
  - destruct (St 4%nat v) as (m' & -> & Ho & Hval); [done..|]. by exists m'.
  - change (256 ^ csize CTYPE_INT8) with (2 ^ 8) in Hv. rewrite u8_id by done. destruct (St 1%nat v) as (m' & -> & Ho & Hval); [done..|]. by exists m'.
  - specialize (Hb eq_refl). assert ((if v =? 0 then 0 else 1) = v) as -> by (case_if; lia).
    destruct (St 1%nat v) as (m' & -> & Ho & Hval); [done..|]. by exists m'.
  - rewrite (Hhi eq_refl). change (256 ^ csize CTYPE_INT64) with (2 ^ 64) in Hv.
    rewrite join64_val by (apply u32_range || by apply high_word_range).
    assert (u32 v + 2 ^ 32 * (v / 2 ^ 32) = v) as -> by (unfold u32; pose proof (Z.div_mod v (2 ^ 32) ltac:(lia)); lia).
    destruct (St 8%nat v) as (m' & -> & Ho & Hval); [done..|]. by exists m'.
Qed.

Lemma unpack_num pf v msg m start : num_ok pf v → 0 <= pf_offset pf → pf_offset pf + csize (pf_ctype pf) <= zlen m →
  ∃ m', unpack_field d2f f2d (pf_ctype pf) (pf_ptype pf) msg ((value_chunk pf (FNum v)).2 start) m (pf_offset pf) = Done (true, m')
    ∧ same_outside (pf_offset pf) (csize (pf_ctype pf)) m m' ∧ field_val pf m' = Some (FNum v).
Proof.
  intros Hn H1 H2. unfold unpack_field, value_chunk.
  destruct (num_cases _ _ Hn) as [(Ht & Hc & Hl & Hh & Hw & Hb)|[(Ht & Hc & Hu)|(Ht & Hc & Hu & Hf)]].
  - destruct (low_types_int _ Ht) as (_ & _ & Hd & Hfl). rewrite (proj2 (Z.eqb_neq _ _) Hd), (proj2 (Z.eqb_neq _ _) Hfl).
    assert ((pf_ctype pf =? CTYPE_ARRAY) = false ∧ (pf_ctype pf =? CTYPE_PACKED) = false) as [-> ->]
      by (destruct (int_ctype_cases _ Hc) as [E|[E|[E|E]]]; by rewrite E).
    destruct (words pf v) as [l h] eqn:Ew. cbn [fst snd] in *.
    destruct (unpack_int (pf_ptype pf) (pf_ctype pf) msg (pf_id pf) l h m (pf_offset pf) Ht Hl Hh) as (r & -> & Hlo & Hhi).
    destruct (write_longlong_val pf r v m) as (m' & -> & Ho & Hval); [done | done | done | apply Hn | done | by rewrite Ew | rewrite Ew; auto |].
    by exists m'.
  - pose proof (store_num pf m 8 v) as St. rewrite Ht. rewrite Hc in *. cbn [Z.eqb Pos.eqb CTYPE_ARRAY CTYPE_PACKED CTYPE_DOUBLE PTYPE_DOUBLE snd].
    unfold unpack_scalar, write_real, read_double. cbn [Z.eqb Pos.eqb CTYPE_DOUBLE PTYPE_DOUBLE word0 word1].
    rewrite join64_val by (apply u32_range || by apply high_word_range).
    assert (u32 v + 2 ^ 32 * (v / 2 ^ 32) = v) as -> by (unfold u32; pose proof (Z.div_mod v (2 ^ 32) ltac:(lia)); lia).
    destruct St as (m' & -> & Ho & Hval); [done..|]. by exists m'.
  - pose proof (store_num pf m 4 v) as St. rewrite Ht. rewrite Hc in *.
    cbn [Z.eqb Pos.eqb CTYPE_ARRAY CTYPE_PACKED CTYPE_FLOAT PTYPE_DOUBLE PTYPE_FLOAT snd].
    unfold unpack_scalar, write_real, read_float. cbn [Z.eqb Pos.eqb CTYPE_DOUBLE CTYPE_FLOAT PTYPE_DOUBLE PTYPE_FLOAT word0].
    rewrite Hf. destruct St as (m' & -> & Ho & Hval); [done..|]. by exists m'.
Qed.

(** Writing a slice of the message: its first eight bytes and the next four. *)
Lemma store_slice pf b n m : 0 <= pf_offset pf → pf_offset pf + csize (pf_ctype pf) <= zlen m → pf_ctype pf = CTYPE_VAR →
  0 <= n <= zlen b → n < 2 ^ 31 →
  ∃ m', (do! m <- store m (pf_offset pf) (ptr_bytes (Some b)); store_int 4 (u32 n) m (pf_offset pf + 8)) = Done m'
    ∧ same_outside (pf_offset pf) (csize (pf_ctype pf)) m m' ∧ field_val pf m' = Some (FBytes (take (Z.to_nat n) b)).
Proof.
  intros H1 H2 Hc Hn Hlt. rewrite Hc in *. change (csize CTYPE_VAR) with 16 in *.
  assert (zlen (ptr_bytes (Some b)) = 8) as Z8 by reflexivity. assert (zlen (int_bytes 4 (u32 n)) = 4) as Z4 by (unfold zlen; by rewrite length_int_bytes).
  destruct (store_done m (pf_offset pf) (ptr_bytes (Some b))) as (m1 & Hm1); [done | lia |].
  pose proof (store_outside _ _ _ _ Hm1) as Ho1. pose proof (same_outside_zlen _ _ _ _ Ho1) as Hz1.
  destruct (store_done m1 (pf_offset pf + 8) (int_bytes 4 (u32 n))) as (m2 & Hm2); [lia | lia |].
  pose proof (store_outside _ _ _ _ Hm2) as Ho2. pose proof (same_outside_zlen _ _ _ _ Ho2) as Hz2.
  rewrite Hm1. cbn [obind]. unfold store_int. rewrite Hm2. exists m2. split; [done|].
  assert (same_outside (pf_offset pf) 16 m m2) as Ho.
  { rewrite Z8 in Ho1. rewrite Z4 in Ho2. destruct Ho1 as [L1 O1], Ho2 as [L2 O2]. split; [congruence|]. intros i Hi. rewrite O2, O1; [done | lia | lia]. }
  split; [done|]. pose proof (store_field _ _ _ _ Hm1) as F1. pose proof (store_field _ _ _ _ Hm2) as F2. rewrite Z8 in F1. rewrite Z4 in F2.
  rewrite <- (field_at_outside _ _ _ _ (pf_offset pf) 8 Ho2) in F1 by lia.
  unfold field_val, val_of, cell. rewrite Hc, Z.eqb_refl. change (csize CTYPE_VAR) with 16.
  assert (field_at m2 (pf_offset pf) 8 = take 8 (field_at m2 (pf_offset pf) 16)) as E8 by (unfold field_at; by rewrite take_take).
  assert (field_at m2 (pf_offset pf + 8) 4 = take 4 (drop 8 (field_at m2 (pf_offset pf) 16))) as E4.
  { unfold field_at. rewrite skipn_firstn_comm, take_take, drop_drop. f_equal. f_equal. lia. }
  rewrite <- E8, <- E4, F1, F2. unfold ptr_bytes. rewrite whole_object_bytes by lia. unfold int_bytes. rewrite known_bytes_map, le_join_split.
  change (256 ^ Z.of_nat 4) with (2 ^ 32). rewrite Z.mod_small by apply u32_range. rewrite u32_id by (unfold is_u32; lia).
  rewrite s32_id by (unfold is_s32; lia). rewrite !(proj2 (Z.leb_le _ _)) by lia. done.
Qed.

Lemma unpack_bytes pf bs pre post m : id_ok (pf_id pf) → pf_ctype pf = CTYPE_VAR → pf_ptype pf ∈ slice_types →
  0 <= pf_offset pf → pf_offset pf + csize (pf_ctype pf) <= zlen m →
  let c := value_chunk pf (FBytes bs) in
  zlen (pre ++ c.1 ++ post) < 2 ^ 31 →
  ∃ m', unpack_field d2f f2d (pf_ctype pf) (pf_ptype pf) (pre ++ c.1 ++ post) (c.2 (zlen pre)) m (pf_offset pf) = Done (true, m')
    ∧ same_outside (pf_offset pf) (csize (pf_ctype pf)) m m' ∧ field_val pf m' = Some (FBytes bs).
Proof.
  intros Hid Hc Ht H1 H2 c Hlen. unfold c, value_chunk in *. cbn [fst snd] in *.
  set (head := _pbcV_encode32 (key (pf_id pf) WT_LEND) ++ _pbcV_encode32 (zlen bs)) in *.
  pose proof (store_slice pf (bs ++ post) (zlen bs) m H1 H2 Hc) as St. rewrite zlen_app in St.
  rewrite !zlen_app in Hlen. pose proof (zlen_nonneg pre). pose proof (zlen_nonneg head). pose proof (zlen_nonneg bs). pose proof (zlen_nonneg post).
  destruct St as (m' & Hst & Ho & Hval); [lia | lia |]. unfold zlen in Hval at 1. rewrite Nat2Z.id, take_app_length in Hval.
  assert (unpack_scalar d2f f2d CTYPE_VAR (pf_ptype pf) (pre ++ (head ++ bs) ++ post)
    (Atom (key (pf_id pf) WT_LEND) (zlen pre + zlen head) (zlen pre + zlen head + zlen bs)) m (pf_offset pf) = Done (Some m')) as Hu.
  { assert (∀ a, unpack_scalar d2f f2d CTYPE_VAR (pf_ptype pf) (pre ++ (head ++ bs) ++ post) a m (pf_offset pf)
      = write_slice (pre ++ (head ++ bs) ++ post) a m (pf_offset pf)) as ->.
    { intros a. unfold slice_types in Ht. repeat (apply elem_of_cons in Ht as [->|Ht]; [reflexivity|]). by apply elem_of_nil in Ht. }
    unfold write_slice, a_start, a_end. cbn [wire_id word0 word1]. rewrite land_7.
    destruct (key_spec (pf_id pf) WT_LEND Hid ltac:(done)) as (_ & _ & -> & _). cbn [negb Z.eqb Pos.eqb WT_LEND].
    rewrite !s32_id by (unfold is_s32; lia). replace (zlen pre + zlen head + zlen bs - (zlen pre + zlen head)) with (zlen bs) by lia.
    replace (pre ++ (head ++ bs) ++ post) with ((pre ++ head) ++ bs ++ post) by (by rewrite <- !app_assoc).
    rewrite <- zlen_app, drop_zlen_app. destruct (store m (pf_offset pf) _); [|done]. cbn [obind] in *. rewrite Hst. done. }
  exists m'. unfold unpack_field. rewrite Hc. cbn [Z.eqb Pos.eqb CTYPE_ARRAY CTYPE_PACKED CTYPE_VAR]. rewrite Hu. rewrite Hc in Ho. done.
Qed.

(** *** Packing the struct *)

(** Whether an optional field is left out; if so it is an integer with its
    default. *)
Lemma default_decided m pf : field_ok m pf → pf_label pf = LABEL_OPTIONAL →
  ∃ b, _is_default d2f pf m = Done b
    ∧ (b = true → int_ctype (pf_ctype pf) = true ∧ default_ok pf ∧ field_val pf m = Some (FNum (dnum pf))).
Proof.
  intros (H1 & H2 & _ & _ & Hv) Hlab. destruct (field_val pf m) as [[v|bs]|] eqn:Hval; [..|done].
  - destruct Hv as [_ Hd]. specialize (Hd Hlab). destruct (int_ctype (pf_ctype pf)) eqn:Hc; [|by exists false].
    exists (dnum pf =? v). split; [by apply is_default_num|]. intros E. bprop. by rewrite E.
  - exists false. split; [|done]. by apply Hv.
Qed.

(** One field: the bytes it is packed as, none when it is left out. *)
Definition field_bytes (m : mem) (pf : _pattern_field) : list Z := if skipped m pf then [] else (field_chunk m pf).1.

Lemma pack_one_fits m pf s : field_ok m pf → slice_in s →
  if zlen (field_bytes m pf) <=? o_len s then ∃ len s', pack_one d2f f2d pf m s = Done (Some (len, s')) ∧ appended s s' (field_bytes m pf)
  else pack_one d2f f2d pf m s = Done None.
Proof.
  intros Hf Hs.
  assert (fits (_pack_field d2f f2d pf (pf_ctype pf) s (InMem m (pf_offset pf))) s (field_chunk m pf).1) as Hpf.
  { pose proof Hf as (_ & _ & _ & _ & Hv). destruct (field_val pf m) as [[v|bs]|] eqn:Hval; [by eapply pack_field_num | by eapply pack_field_bytes | done]. }
  unfold fits in Hpf. unfold field_bytes. pose proof Hf as (_ & _ & _ & [Hlab|Hlab] & _); unfold pack_one, skipped in *; rewrite Hlab in *.
  - destruct (default_decided m pf Hf Hlab) as (b & Hb & _). rewrite Hb in *. rewrite Z.eqb_refl in *. cbn [andb obind] in *.
    destruct b.
    + rewrite (proj2 (Z.leb_le _ _)) by (apply Hs). eexists _, s. split; [done | by apply appended_nil].
    + destruct (_ <=? _); [destruct Hpf as (s' & ? & ?); eauto | done].
  - change (LABEL_REQUIRED =? LABEL_OPTIONAL) with false in *. rewrite Z.eqb_refl. cbn [andb] in *.
    destruct (_ <=? _); [destruct Hpf as (s' & ? & ?); eauto | done].
Qed.

Lemma struct_chunks_cons m pf pat :
  struct_chunks m (pf :: pat) = (if skipped m pf then [] else [field_chunk m pf]) ++ struct_chunks m pat.
Proof. unfold struct_chunks, present. cbn [List.filter]. by destruct (skipped m pf). Qed.

(** The whole struct: its bytes are put when they fit, and else it is refused. *)
Lemma pack_loop_fits m pat s : Forall (field_ok m) pat → slice_in s →
  if zlen (chunks_bytes (struct_chunks m pat)) <=? o_len s
  then ∃ s', pack_loop d2f f2d pat m s = Done (Some s') ∧ appended s s' (chunks_bytes (struct_chunks m pat))
  else pack_loop d2f f2d pat m s = Done None.
Proof.
  intros Hpat. revert s; induction Hpat as [|pf pat Hf Hpat IH]; intros s Hs; cbn [pack_loop].
  { rewrite (proj2 (Z.leb_le _ _)) by apply Hs. exists s. split; [done | by apply appended_nil]. }
  assert (chunks_bytes (struct_chunks m (pf :: pat)) = field_bytes m pf ++ chunks_bytes (struct_chunks m pat)) as ->.
  { rewrite struct_chunks_cons, chunks_bytes_app. f_equal. unfold field_bytes. destruct (skipped m pf); [done|]. unfold chunks_bytes. cbn. by rewrite app_nil_r. }
  rewrite zlen_app. pose proof (zlen_nonneg (chunks_bytes (struct_chunks m pat))). pose proof (pack_one_fits m pf s Hf Hs) as H1.
  destruct (Z.leb_spec (zlen (field_bytes m pf)) (o_len s)).
  2: { rewrite H1. by rewrite (proj2 (Z.leb_gt _ _)) by lia. }
  destruct H1 as (len & s1 & -> & Ha1). cbn [obind]. pose proof Ha1 as (_ & _ & L1 & Hs1). specialize (IH s1 Hs1).
  destruct (Z.leb_spec (zlen (chunks_bytes (struct_chunks m pat))) (o_len s1)).
  - destruct IH as (s2 & -> & Ha2). rewrite (proj2 (Z.leb_le _ _)) by lia. exists s2. split; [done|]. by eapply appended_trans.
  - rewrite IH. by rewrite (proj2 (Z.leb_gt _ _)) by lia.
Qed.

(** *** Unpacking the struct *)

Definition apart (f g : _pattern_field) : Prop :=
  pf_offset f + csize (pf_ctype f) <= pf_offset g ∨ pf_offset g + csize (pf_ctype g) <= pf_offset f.

Lemma cell_apart f g m m' : same_outside (pf_offset f) (csize (pf_ctype f)) m m' → apart f g →
  0 <= pf_offset f → 0 <= pf_offset g → cell g m' = cell g m.
Proof.
  intros Ho Ha Hf Hg. unfold cell. apply (field_at_outside (pf_offset f) (csize (pf_ctype f))); [done | done | | done |].
  - unfold csize. repeat case_match; lia.
  - destruct Ha; [right | left]; lia.
Qed.

Lemma value_atom_id m pf start : field_ok m pf → Z.shiftr (wire_id ((field_chunk m pf).2 start)) 3 = pf_id pf.
Proof.
  intros (_ & _ & Hid & _ & Hv).
  unfold field_chunk. destruct (field_val pf m) as [[v|bs]|]; [..|done]; unfold value_chunk; [|by apply key_number].
  case_if; [by apply key_number|]. case_if; [by apply key_number|]. destruct (words pf v). unfold integer_atom. cbn [snd].
  repeat case_match; cbn [wire_id]; by apply key_number.
Qed.

(** The field at the front of the rest of the message lands in the struct. *)
Lemma unpack_field_ok m pf pre post out : field_ok m pf → zlen out = zlen m →
  zlen (pre ++ (field_chunk m pf).1 ++ post) < 2 ^ 31 →
  ∃ out', unpack_field d2f f2d (pf_ctype pf) (pf_ptype pf) (pre ++ (field_chunk m pf).1 ++ post) ((field_chunk m pf).2 (zlen pre)) out (pf_offset pf)
      = Done (true, out')
    ∧ same_outside (pf_offset pf) (csize (pf_ctype pf)) out out' ∧ field_val pf out' = field_val pf m.
Proof.
  intros (H1 & H2 & Hid & _ & Hv) Hz Hlen. unfold field_chunk in *. rewrite <- Hz in H2.
  destruct (field_val pf m) as [[v|bs]|]; [..|done]; [apply unpack_num; [apply Hv | done | done] | apply unpack_bytes; try done; apply Hv].
Qed.

Lemma not_array m pf : field_ok m pf → is_array (pf_ctype pf) = false.
Proof.
  intros (_ & _ & _ & _ & Hv). destruct (field_val pf m) as [[v|bs]|]; [..|done].
  - destruct Hv as [[_ Hn] _]. destruct Hn as [[Hc _]|[(Hc & _)|[[Hc _]|[[Hc _]|(Hc & _)]]]]; try (by rewrite Hc).
    repeat (apply elem_of_cons in Hc as [Hc|Hc]; [by rewrite Hc|]). by apply elem_of_nil in Hc.
  - destruct Hv as [-> _]. done.
Qed.

Lemma unpack_loop_ok m pat msg ctx rest : ∀ before pre fb out i,
  sorted_ids pat → Forall (field_ok m) pat → ForallOrdPairs apart rest → pat = before ++ rest → length fb = length before →
  msg = pre ++ chunks_bytes (struct_chunks m rest) → zlen msg < 2 ^ 31 → zlen out = zlen m → 0 <= i →
  (∀ k a, chunk_atoms (struct_chunks m rest) (zlen pre) !! k = Some a → ctx_atom ctx (i + Z.of_nat k) = Done a) →
  ∃ out', unpack_loop d2f f2d (length (present m rest)) pat msg ctx i (fb ++ replicate (length rest) false) out
      = Done (None, fb ++ List.map (λ pf, negb (skipped m pf)) rest, out')
    ∧ zlen out' = zlen out
    ∧ (∀ f, f ∈ rest → skipped m f = false → field_val f out' = field_val f m)
    ∧ (∀ g, 0 <= pf_offset g → Forall (λ f, skipped m f = true ∨ apart f g) rest → cell g out' = cell g out).
Proof.
  induction rest as [|pf rest IH]; intros before pre fb out i Hs Hok Hap Epat Efb Emsg Hlen Hz Hi Hctx.
  { exists out. cbn [present List.filter length unpack_loop replicate List.map]. split_and!; [done | done | |done].
    intros f Hf. by apply elem_of_nil in Hf. }
  assert (field_ok m pf) as Hf by (rewrite Epat in Hok; apply Forall_app in Hok as [_ Hok]; by inversion Hok).
  apply ord_pairs_cons in Hap as [Hhd Hap']. rewrite struct_chunks_cons in Hctx. rewrite struct_chunks_cons in Emsg.
  assert (pat = (before ++ [pf]) ++ rest) as Epat' by (by rewrite <- app_assoc).
  unfold present in *. cbn [List.filter length replicate List.map]. destruct (skipped m pf) eqn:Hsk; cbn [negb app length] in *.
  - destruct (IH (before ++ [pf]) pre (fb ++ [false]) out i Hs Hok Hap' Epat') as (out' & Hu & Hz' & Hv & Hc);
      [rewrite !length_app; cbn; lia | done | done | done | done | done |].
    exists out'. rewrite <- !app_assoc in Hu. cbn [app] in Hu. split; [exact Hu|]. split; [done|]. split.
    + intros f Hin Hsf. apply elem_of_cons in Hin as [->|Hin]; [congruence | auto].
    + intros g Hg Hall. apply Forall_cons in Hall as [_ Hall]. auto.
  - change (chunks_bytes (field_chunk m pf :: struct_chunks m rest)) with ((field_chunk m pf).1 ++ chunks_bytes (struct_chunks m rest)) in Emsg.
    cbn [unpack_loop]. pose proof (Hctx 0%nat ((field_chunk m pf).2 (zlen pre)) eq_refl) as H0. rewrite Z.add_0_r in H0. rewrite H0. cbn [obind].
    rewrite value_atom_id by done.
    assert (pat !! length before = Some pf) as Hat by (rewrite Epat; apply list_lookup_middle; done).
    rewrite (bsearch_found pat _ pf Hs Hat). cbn [obind]. rewrite read_at_nat, Hat. cbn [obind].
    rewrite <- Efb, read_at_nat. rewrite (list_lookup_middle fb) by done. cbn [obind]. rewrite (not_array m pf Hf), andb_false_r. cbn [obind].
    destruct (unpack_field_ok m pf pre (chunks_bytes (struct_chunks m rest)) out Hf Hz) as (out1 & Hu1 & Ho1 & Hv1); [by rewrite <- Emsg|].
    rewrite <- Emsg in Hu1. rewrite Hu1. cbn [obind]. pose proof (same_outside_zlen _ _ _ _ Ho1) as Hz1.
    rewrite insert_app_r_alt by lia. rewrite Nat.sub_diag. cbn [list_insert insert].
    destruct (IH (before ++ [pf]) (pre ++ (field_chunk m pf).1) (fb ++ [true]) out1 (i + 1) Hs Hok Hap' Epat') as (out' & Hu & Hz' & Hv & Hc);
      [rewrite !length_app; cbn; lia | by rewrite <- app_assoc | done | congruence | lia | |].
    { intros k a Hk. replace (i + 1 + Z.of_nat k) with (i + Z.of_nat (S k)) by lia. apply Hctx. cbn [chunk_atoms]. by rewrite zlen_app in Hk. }
    exists out'. rewrite <- !app_assoc in Hu. cbn [app] in Hu. split; [exact Hu|]. split; [congruence|]. pose proof Hf as (Hoff & _).
    assert (Forall (λ g, 0 <= pf_offset g) rest) as Hoffs.
    { rewrite Epat' in Hok. apply Forall_app in Hok as [_ Hok]. eapply Forall_impl; [exact Hok|]. intros g Hg. apply Hg. }
    split.
    + intros f Hin Hsf. apply elem_of_cons in Hin as [->|Hin]; [|auto]. rewrite <- Hv1. unfold field_val. f_equal. apply Hc; [done|].
      eapply Forall_impl; [exact Hhd|]. intros g Hg. right. destruct Hg; [by right | by left].
    + intros g Hg Hall. apply Forall_cons in Hall as [[?|Hag] Hall]; [congruence|]. rewrite Hc by done. by apply (cell_apart pf).
Qed.

Lemma default_missing_ok m rest : ∀ out,
  Forall (field_ok m) rest → ForallOrdPairs apart rest → zlen out = zlen m →
  ∃ out', default_missing d2f rest (List.map (λ pf, negb (skipped m pf)) rest) out = Done out'
    ∧ (∀ f, f ∈ rest → skipped m f = true → field_val f out' = field_val f m)
    ∧ (∀ g, 0 <= pf_offset g → Forall (λ f, skipped m f = false ∨ apart f g) rest → cell g out' = cell g out)
    ∧ zlen out' = zlen m.
Proof.
  induction rest as [|pf rest IH]; intros out Hok Hap Hz; cbn [List.map default_missing].
  { exists out. split_and!; [done | |done|done]. intros f Hf. by apply elem_of_nil in Hf. }
  apply Forall_cons in Hok as [Hf Hok]. apply ord_pairs_cons in Hap as [Hhd Hap']. pose proof Hf as (Hoff & Hin2 & _ & Hlab & _).
  destruct (skipped m pf) eqn:Hsk; cbn [negb].
  - assert (int_ctype (pf_ctype pf) = true ∧ default_ok pf ∧ field_val pf m = Some (FNum (dnum pf))) as (Hc & Hd & Hval).
    { unfold skipped in Hsk. apply andb_true_iff in Hsk as [Hl Hsk]. bprop. destruct (default_decided m pf Hf Hl) as (b & Hb & Himp).
      rewrite Hb in Hsk. auto. }
    destruct (pattern_set_default_num pf out Hoff ltac:(lia) Hc Hd) as (out1 & -> & Ho1 & Hv1). cbn [obind].
    destruct (IH out1 Hok Hap') as (out' & -> & Hv & Hcell & Hzl); [rewrite (same_outside_zlen _ _ _ _ Ho1); done|]. exists out'. split; [done|]. split; [|split; [|done]].
    + intros f Hin Hsf. apply elem_of_cons in Hin as [->|Hin]; [|auto]. rewrite Hval, <- Hv1. unfold field_val. f_equal. apply Hcell; [done|].
      eapply Forall_impl; [exact Hhd|]. intros g Hg. right. destruct Hg; [by right | by left].
    + intros g Hg Hall. apply Forall_cons in Hall as [[?|Hag] Hall]; [congruence|]. rewrite Hcell by done. by apply (cell_apart pf).
  - cbn [obind]. destruct (IH out Hok Hap' Hz) as (out' & -> & Hv & Hcell & Hzl). exists out'. split; [done|]. split; [|split; [|done]].
    + intros f Hin Hsf. apply elem_of_cons in Hin as [->|Hin]; [congruence | auto].
    + intros g Hg Hall. apply Forall_cons in Hall as [_ Hall]. auto.
Qed.
End RoundTrip.

(** ** Properties *)

(** The bytes a slice covers. *)
Definition slice_bytes (s : out_slice) : list Z := take (Z.to_nat (o_len s)) (drop (Z.to_nat (o_pos s)) (o_mem s)).

Lemma appended_bytes s s' bs : slice_in s → appended s s' bs →
  slice_bytes (OSlice (o_mem s') (o_pos s) (zlen bs)) = bs.
Proof.
  intros (H1 & _ & _) (Hw & _). unfold slice_bytes, write_at in *. cbn [o_mem o_pos o_len]. destruct (_ && _) eqn:E; [|done]. bprop.
  injection Hw as <-. unfold zlen in *. rewrite Nat2Z.id. rewrite drop_app_length' by (rewrite length_take; lia). by rewrite take_app_length.
Qed.

(** With nothing seen, setting the defaults of the missing fields is setting all
    the defaults. *)
Lemma set_default_missing d2f pat out :
  pbc_pattern_set_default d2f pat out = default_missing d2f pat (replicate (length pat) false) out.
Proof.
  revert out; induction pat as [|f pat IH]; intros out; [done|]. cbn [pbc_pattern_set_default length replicate default_missing].
  destruct (_pattern_set_default d2f f out); cbn [obind]; auto.
Qed.

(** Packing puts exactly the bytes of the fields when they fit, and fails when
    they do not. *)
Lemma pattern_packs d2f f2d pat m s : Forall (field_ok d2f f2d m) pat → slice_in s →
  let msg := chunks_bytes (struct_chunks d2f m pat) in
  if zlen msg <=? o_len s
  then ∃ l, pbc_pattern_pack d2f f2d pat m s = Done (Some (o_len s - zlen msg, OSlice l (o_pos s) (zlen msg)))
    ∧ slice_bytes (OSlice l (o_pos s) (zlen msg)) = msg ∧ zlen l = zlen (o_mem s)
  else pbc_pattern_pack d2f f2d pat m s = Done None.
Proof.
  intros Hok Hin msg. pose proof (pack_loop_fits d2f f2d m pat s Hok Hin) as Hfit. fold msg in Hfit. unfold pbc_pattern_pack.
  destruct (zlen msg <=? o_len s); [|by rewrite Hfit]. destruct Hfit as (s1 & -> & Ha). cbn [obind].
  pose proof (appended_bytes _ _ _ Hin Ha) as Hbytes. pose proof Ha as (Hw & Hpos & _). replace (o_pos s1 - o_pos s) with (zlen msg) by lia.
  exists (o_mem s1). split; [done|]. split; [done|]. revert Hw. unfold write_at. case_if; [|done]. intros [= <-]. unfold zlen in *.
  rewrite !length_app, length_take, length_drop. lia.
Qed.

(** The packed bytes are unpacked into the fields they came from. *)
Lemma pattern_unpacks d2f f2d pat m out stk :
  sorted_ids pat → Forall (field_ok d2f f2d m) pat → ForallOrdPairs apart pat → zlen out = zlen m →
  zlen (chunks_bytes (struct_chunks d2f m pat)) < 2 ^ 31 → (∀ i, stack_ok (stk i)) →
  ∃ out', pbc_pattern_unpack d2f f2d pat (chunks_bytes (struct_chunks d2f m pat)) out stk = Done (0, out', None)
    ∧ zlen out' = zlen m ∧ ∀ f, f ∈ pat → field_val f out' = field_val f m.
Proof.
  intros Hs Hok Hap Hz Hlt Hstk. set (msg := chunks_bytes (struct_chunks d2f m pat)) in *.
  assert (Forall chunk_ok (struct_chunks d2f m pat)) as Hcs.
  { unfold struct_chunks. apply List.Forall_map, Forall_forall. intros f Hf. eapply field_chunk_ok.
    apply list_elem_of_In, List.filter_In in Hf as [Hf _]. apply list_elem_of_In in Hf. rewrite Forall_forall in Hok. eauto. }
  assert (Forall (λ g, 0 <= pf_offset g) pat) as Hoffs by (eapply Forall_impl; [exact Hok|]; intros g Hg; apply Hg).
  assert (∀ out1, zlen out1 = zlen m → (∀ f, f ∈ pat → skipped d2f m f = false → field_val f out1 = field_val f m) →
    ∃ out', default_missing d2f pat (List.map (λ pf, negb (skipped d2f m pf)) pat) out1 = Done out'
      ∧ zlen out' = zlen m ∧ ∀ f, f ∈ pat → field_val f out' = field_val f m) as Hfinish.
  { intros out1 Hz1 Hv1. destruct (default_missing_ok d2f f2d m pat out1 Hok Hap Hz1) as (out' & Hd & Hv & Hc & Hzl). exists out'. split; [done|]. split; [done|].
    intros f Hf. destruct (skipped d2f m f) eqn:Hsk; [auto|]. rewrite <- (Hv1 f Hf Hsk). unfold field_val. f_equal.
    apply Hc; [rewrite Forall_forall in Hoffs; auto|]. apply Forall_forall. intros g Hg.
    destruct (skipped d2f m g) eqn:Hsg; [|by left]. right.
    apply list_elem_of_In in Hf, Hg. destruct (ForallOrdPairs_In Hap g f Hg Hf) as [-> |[H|H]]; [congruence | done | destruct H; [by right | by left]]. }
  unfold pbc_pattern_unpack. destruct (decide (struct_chunks d2f m pat = [])) as [E|Hne].
  - assert (msg = []) as -> by (unfold msg; by rewrite E). change (zlen [] =? 0) with true. cbv iota. rewrite set_default_missing.
    assert (List.map (λ pf, negb (skipped d2f m pf)) pat = replicate (length pat) false) as Hrep.
    { unfold struct_chunks, present in E. apply map_eq_nil in E. clear -E. induction pat as [|f pat IH]; [done|]. cbn [List.filter List.map length replicate] in *.
      destruct (negb (skipped d2f m f)); [done|]. by rewrite IH. }
    destruct (Hfinish out Hz) as (out' & Hd & Hv).
    { intros f Hf Hsk. unfold struct_chunks, present in E. apply map_eq_nil in E. exfalso.
      assert (f ∈ ([] : list _pattern_field)) as Hbad; [|by apply elem_of_nil in Hbad]. rewrite <- E. apply list_elem_of_In, List.filter_In.
      rewrite Hsk. split; [by apply list_elem_of_In | done]. }
    rewrite Hrep in Hd. rewrite Hd. cbn [obind]. by exists out'.
  - pose proof (chunks_nonempty _ Hcs Hne) as Hpos. fold msg in Hpos.
    destruct (open_chunks _ stk Hcs Hne) as (ctx & Hopen & Hnum & Hatoms); [fold msg; lia | done |]. fold msg in Hopen.
    rewrite (proj2 (Z.eqb_neq (zlen msg) 0)) by lia. rewrite Hopen. cbn [obind].
    pose proof (zlen_pos _ Hne). rewrite (proj2 (Z.leb_gt _ 0)) by lia. rewrite Hnum.
    assert (Z.to_nat (zlen (struct_chunks d2f m pat)) = length (present d2f m pat)) as -> by (unfold zlen, struct_chunks; rewrite length_map; lia).
    destruct (unpack_loop_ok d2f f2d m pat msg ctx pat [] [] [] out 0) as (out1 & Hu & Hz1 & Hv1 & _); try done.
    cbn [app] in Hu. rewrite Hu. cbn [obind]. destruct (Hfinish out1) as (out' & -> & Hv); [congruence | done |]. cbn [obind]. by exists out'.
Qed.

(** C5: packing a struct with a pattern and unpacking the result with the same
    pattern into any other struct of the same size restores every field of the
    pattern, for patterns of the following fields, required or optional, in any
    layout without overlap and with increasing field numbers ([field_ok]):
    - 8-bit and 32-bit integers and booleans (0 or 1) under every protobuf integer
      type but sint64; 64-bit integers under int64, uint64, int32, fixed64 and
      sfixed64, the types whose two words are both packed;
    - doubles; floats whose bits survive the conversion to a double and back;
    - strings, bytes and sub-messages, as slices of less than 2^31 bytes.
    An optional integer that has its default value is left out and comes back from
    the default; an optional real or slice must not be taken for its default.
    16-bit integers ([pattern_int16_one_byte]), sint64 ([pattern_sint64_not_unpacked])
    and arrays are not among the fields.  The buffer needs no more room than the
    packed bytes. *)
Theorem pattern_roundtrip d2f f2d pat m s out stk :
  sorted_ids pat → Forall (field_ok d2f f2d m) pat → ForallOrdPairs apart pat → zlen out = zlen m → slice_in s →
  zlen (chunks_bytes (struct_chunks d2f m pat)) <= o_len s → o_len s < 2 ^ 31 → (∀ i, stack_ok (stk i)) →
  ∃ s' out', pbc_pattern_pack d2f f2d pat m s = Done (Some (o_len s - o_len s', s'))
    ∧ pbc_pattern_unpack d2f f2d pat (slice_bytes s') out stk = Done (0, out', None)
    ∧ ∀ f, f ∈ pat → field_val f out' = field_val f m.
Proof.
  intros Hs Hok Hap Hz Hin Hroom Hlt Hstk. pose proof (pattern_packs d2f f2d pat m s Hok Hin) as Hp. cbv zeta in Hp.
  rewrite (proj2 (Z.leb_le _ _) Hroom) in Hp. destruct Hp as (l & -> & Hb & _).
  destruct (pattern_unpacks d2f f2d pat m out stk) as (out' & Hu & _ & Hv); [done | done | done | done | lia | done |].
  exists (OSlice l (o_pos s) (zlen (chunks_bytes (struct_chunks d2f m pat)))), out'. split; [done|]. by rewrite Hb.
Qed.

Definition demo_pattern : pbc_pattern :=
  [PField 1 0 PTYPE_INT32 CTYPE_INT32 LABEL_OPTIONAL (VInteger 5 0);
   PField 2 8 PTYPE_STRING CTYPE_VAR LABEL_REQUIRED (VStr [] 0);
   PField 7 24 PTYPE_DOUBLE CTYPE_DOUBLE LABEL_REQUIRED (VReal 0);
   PField 300 4 PTYPE_SINT32 CTYPE_INT8 LABEL_OPTIONAL (VInteger 0 0)].

Definition demo_struct : mem :=
  int_bytes 4 5 ++ int_bytes 1 200 ++ replicate 3 MUndef ++ ptr_bytes (Some [104; 105; 33]) ++ int_bytes 4 2 ++ replicate 4 MUndef
  ++ int_bytes 8 4611686018427387904.

Lemma pattern_roundtrip_witness :
  ∃ s' out', pbc_pattern_pack id id demo_pattern demo_struct (OSlice (replicate 40 0) 3 30) = Done (Some (30 - o_len s', s'))
    ∧ pbc_pattern_unpack id id demo_pattern (slice_bytes s') (replicate 32 MUndef) (λ _, replicate 10 255) = Done (0, out', None)
    ∧ ∀ f, f ∈ demo_pattern → field_val f out' = field_val f demo_struct.
Proof.
  apply (pattern_roundtrip id id demo_pattern demo_struct (OSlice (replicate 40 0) 3 30) (replicate 32 MUndef) (λ _, replicate 10 255)).
  - apply ord_sorted. repeat constructor.
  - repeat (apply Forall_cons; split); [.. | by apply Forall_nil]; (split; [vm_compute; discriminate|]); (split; [vm_compute; discriminate|]);
      (split; [split; vm_compute; congruence|]); (split; [by (left + right)|]); vm_compute field_val.
    + split; [split; [vm_compute; intuition discriminate|]; left; split; [set_solver | unfold low_types; set_solver]|]. intros _. split; width.
    + split; [done|]. split; [unfold slice_types; set_solver|]. split; [repeat (apply Forall_cons; split; [width|]); by apply Forall_nil|].
      split; [done|]. discriminate.
    + split; [split; [vm_compute; intuition discriminate|]; right; right; right; left; done|]. discriminate.
    + split; [split; [vm_compute; intuition discriminate|]; left; split; [set_solver | unfold low_types; set_solver]|]. intros _. split; width.
  - repeat first [apply FOP_nil | apply FOP_cons | apply Forall_nil_2 | apply Forall_cons_2]; unfold apart; vm_compute; by ((left; discriminate) + (right; discriminate)).
  - reflexivity.
  - split; vm_compute; [discriminate | split; discriminate].
  - vm_compute. discriminate.
  - reflexivity.
  - intros _. split; [|reflexivity]. apply Forall_replicate. width.
Defined.

(** *** One integer field *)

Definition int_chunk (pf : _pattern_field) (l h : Z) : chunk :=
  (integer_bytes (pf_ptype pf) (s32 (Z.shiftl (pf_id pf) 3)) l h, λ _, integer_atom (pf_ptype pf) (pf_id pf) l h).

Lemma pack_single d2f f2d pf m s l h : pf_ptype pf ∈ int_types → pf_label pf = LABEL_REQUIRED → is_u32 l → is_u32 h → slice_in s →
  number_input f2d (pf_ctype pf) (InMem m (pf_offset pf)) = Done (VInteger l h) → zlen (int_chunk pf l h).1 <= o_len s →
  ∃ s', pbc_pattern_pack d2f f2d [pf] m s = Done (Some (o_len s - o_len s', s')) ∧ slice_bytes s' = (int_chunk pf l h).1.
Proof.
  intros Ht Hlab Hl Hh Hs Hi Hlen. destruct (pack_number_int d2f f2d _ _ _ l h (s32 (Z.shiftl (pf_id pf) 3)) Ht Hl Hh Hi) as (wt & body & strict & Hwt & Hb & _ & Hp).
  unfold int_chunk in *. cbn [fst] in *. rewrite Hb in *. rewrite zlen_app in Hlen. pose proof (zlen_nonneg body).
  unfold pbc_pattern_pack, pack_loop, pack_one. rewrite Hlab. cbn [Z.eqb Pos.eqb LABEL_REQUIRED LABEL_OPTIONAL].
  unfold _pack_field. rewrite Hwt. unfold _pack_wiretype.
  destruct (put_ok_ false (_pbcV_encode32 (u32 (Z.lor (s32 (Z.shiftl (pf_id pf) 3)) wt))) s Hs) as (s1 & -> & Ha1); [lia|]. cbn [obind].
  rewrite Hp. pose proof Ha1 as (_ & _ & HL1 & Hs1). destruct (put_ok_ strict body s1 Hs1) as (s2 & -> & Ha2); [lia|]. cbn [obind].
  pose proof (appended_trans _ _ _ _ _ Ha1 Ha2) as Ha. pose proof (appended_bytes _ _ _ Hs Ha) as Hbytes. pose proof Ha as (_ & Hpos & _).
  exists (OSlice (o_mem s2) (o_pos s) (o_pos s2 - o_pos s)). split; [done|]. rewrite <- Hbytes. f_equal. f_equal. lia.
Qed.

Lemma unpack_single d2f f2d pf l h out stk : pf_ptype pf ∈ int_types → id_ok (pf_id pf) → is_u32 l → is_u32 h →
  is_array (pf_ctype pf) = false → (∀ i, stack_ok (stk i)) →
  let msg := (int_chunk pf l h).1 in
  pbc_pattern_unpack d2f f2d [pf] msg out stk
  = do! (ok, out) <- unpack_field d2f f2d (pf_ctype pf) (pf_ptype pf) msg (integer_atom (pf_ptype pf) (pf_id pf) l h) out (pf_offset pf);
    Done (if (ok : bool) then 0 else -1, out, if ok then None else Some "Pattern unpack field error"%string).
Proof.
  intros Ht Hid Hl Hh Harr Hstk msg. destruct (integer_one_field (pf_ptype pf) (pf_id pf) l h Ht Hid Hl Hh) as [Hone H15].
  assert (chunks_bytes [int_chunk pf l h] = msg) as Emsg by (unfold chunks_bytes; cbn; by rewrite app_nil_r).
  destruct (open_chunks [int_chunk pf l h] stk) as (ctx & Hopen & Hnum & Hat); [by constructor | done | rewrite Emsg; unfold msg, int_chunk; cbn [fst]; lia | done |].
  pose proof Hone as (_ & Hpos & _). rewrite Emsg in Hopen. unfold pbc_pattern_unpack.
  rewrite (proj2 (Z.eqb_neq (zlen msg) 0)) by (unfold msg, int_chunk; cbn [fst]; lia). rewrite Hopen. cbn [obind].
  change (zlen [int_chunk pf l h]) with 1 in *. change (1 <=? 0) with false. cbv iota. rewrite Hnum. change (Z.to_nat 1) with 1%nat. cbn [unpack_loop].
  specialize (Hat 0%nat (integer_atom (pf_ptype pf) (pf_id pf) l h) eq_refl). change (Z.of_nat 0) with 0 in Hat. rewrite Hat. cbn [obind].
  assert (Z.shiftr (wire_id (integer_atom (pf_ptype pf) (pf_id pf) l h)) 3 = pf_id pf) as ->.
  { unfold integer_atom. repeat case_match; cbn [wire_id]; by apply key_number. }
  assert (bsearch_pattern [pf] (pf_id pf) = Done (Some 0%nat)) as ->.
  { apply bsearch_found; [|done]. intros i j f g Hij Hi Hj. destruct i as [|i]; [|done]. destruct j as [|j]; [lia | done]. }
  cbn [obind length replicate]. change (read_at [pf] (Z.of_nat 0)) with (Done pf). change (read_at [false] (Z.of_nat 0)) with (Done false). cbn [obind].
  rewrite Harr. cbn [negb andb obind]. destruct (unpack_field _ _ _ _ _ _ _ _) as [[[] out1]|]; cbn [obind]; [done | | done].
  cbn [close_seen list_insert insert]. rewrite Harr. done.
Qed.

(** C40: a sint64 field can be packed but never unpacked: [unpack_field] expects
    it to be length-delimited, and [pbc_pattern_unpack] answers -1 to what
    [pbc_pattern_pack] wrote for the same struct. *)
Theorem pattern_sint64_not_unpacked d2f f2d pf m s v out stk :
  pf_ptype pf = PTYPE_SINT64 → pf_ctype pf = CTYPE_INT64 → pf_label pf = LABEL_REQUIRED → id_ok (pf_id pf) →
  load_int 8 m (pf_offset pf) = Done v → is_u64 v → slice_in s → 15 <= o_len s → (∀ i, stack_ok (stk i)) →
  ∃ s', pbc_pattern_pack d2f f2d [pf] m s = Done (Some (o_len s - o_len s', s'))
    ∧ pbc_pattern_unpack d2f f2d [pf] (slice_bytes s') out stk = Done (-1, out, Some "Pattern unpack field error"%string).
Proof.
  intros Ht Hc Hlab Hid Hld Hv Hs Hroom Hstk.
  assert (pf_ptype pf ∈ int_types) as Hi by (rewrite Ht; unfold int_types; set_solver).
  pose proof (u32_range v) as Hl. pose proof (high_word_range v Hv) as Hh.
  destruct (integer_one_field (pf_ptype pf) (pf_id pf) (u32 v) (v / 2 ^ 32) Hi Hid Hl Hh) as [_ H15].
  destruct (pack_single d2f f2d pf m s (u32 v) (v / 2 ^ 32)) as (s' & Hp & Hb); [done.. | |unfold int_chunk; cbn [fst]; lia|].
  { rewrite Hc. unfold number_input. cbn [Z.eqb Pos.eqb CTYPE_VAR CTYPE_INT32 CTYPE_INT64]. rewrite Hld. cbn [obind]. change 0xffffffff with (2 ^ 32 - 1).
    rewrite (land_low v 32), Z.shiftr_div_pow2 by lia. rewrite (u32_id (v / 2 ^ 32)) by done.
    by rewrite (u32_id (v mod 2 ^ 32)) by (unfold is_u32; apply Z.mod_pos_bound; lia). }
  exists s'. split; [done|]. rewrite Hb, unpack_single by (done || by rewrite Hc). rewrite Hc, Ht. unfold integer_atom, unpack_field, unpack_scalar.
  cbn [Z.eqb Pos.eqb orb CTYPE_ARRAY CTYPE_PACKED CTYPE_INT64 PTYPE_DOUBLE PTYPE_FLOAT PTYPE_ENUM PTYPE_INT64 PTYPE_UINT64 PTYPE_FIXED64 PTYPE_SFIXED64
      PTYPE_INT32 PTYPE_UINT32 PTYPE_BOOL PTYPE_FIXED32 PTYPE_SFIXED32 PTYPE_SINT32 PTYPE_SINT64]. cbv zeta. cbn [wire_id].
  rewrite land_7. destruct (key_spec (pf_id pf) WT_VARINT Hid ltac:(done)) as (_ & _ & -> & _). reflexivity.
Qed.

Lemma pattern_sint64_not_unpacked_witness :
  ∃ s', pbc_pattern_pack id id [PField 3 0 PTYPE_SINT64 CTYPE_INT64 LABEL_REQUIRED (VInteger 0 0)] (int_bytes 8 77) (OSlice (replicate 20 0) 0 20)
      = Done (Some (20 - o_len s', s'))
    ∧ pbc_pattern_unpack id id [PField 3 0 PTYPE_SINT64 CTYPE_INT64 LABEL_REQUIRED (VInteger 0 0)] (slice_bytes s') (replicate 8 MUndef) (λ _, replicate 10 0)
      = Done (-1, replicate 8 MUndef, Some "Pattern unpack field error"%string).
Proof.
  apply (pattern_sint64_not_unpacked id id (PField 3 0 PTYPE_SINT64 CTYPE_INT64 LABEL_REQUIRED (VInteger 0 0)) (int_bytes 8 77) (OSlice (replicate 20 0) 0 20) 77).
  - reflexivity.
  - reflexivity.
  - reflexivity.
  - split; vm_compute; congruence.
  - reflexivity.
  - width.
  - split; vm_compute; [discriminate | split; discriminate].
  - vm_compute. discriminate.
  - intros _. split; [|reflexivity]. apply Forall_replicate. width.
Defined.

(** unpacking into a 16-bit field stores one byte: the struct keeps the high
    byte it had before, so a 16-bit value does not survive packing and
    unpacking. *)
Theorem pattern_int16_one_byte d2f f2d pf m s v old out stk :
  pf_ptype pf = PTYPE_INT32 → pf_ctype pf = CTYPE_INT16 → pf_label pf = LABEL_REQUIRED → id_ok (pf_id pf) →
  load_int 2 m (pf_offset pf) = Done v → 0 <= v < 2 ^ 16 → field_at out (pf_offset pf) 2 = [MByte 0; MByte old] → 0 <= pf_offset pf →
  slice_in s → 15 <= o_len s → (∀ i, stack_ok (stk i)) →
  ∃ s' out', pbc_pattern_pack d2f f2d [pf] m s = Done (Some (o_len s - o_len s', s'))
    ∧ pbc_pattern_unpack d2f f2d [pf] (slice_bytes s') out stk = Done (0, out', None)
    ∧ load_int 2 out' (pf_offset pf) = Done (v mod 256 + 256 * old).
Proof.
  intros Ht Hc Hlab Hid Hld Hv Hout Hoff Hs Hroom Hstk.
  assert (pf_ptype pf ∈ int_types) as Hi by (rewrite Ht; unfold int_types; set_solver).
  assert (is_u32 v) as Hl by (unfold is_u32; lia). assert (is_u32 0) as Hh by width.
  destruct (integer_one_field (pf_ptype pf) (pf_id pf) v 0 Hi Hid Hl Hh) as [_ H15].
  destruct (pack_single d2f f2d pf m s v 0) as (s' & Hp & Hb); [done.. | |unfold int_chunk; cbn [fst]; lia|].
  { rewrite Hc. unfold number_input. cbn [Z.eqb Pos.eqb CTYPE_VAR CTYPE_INT32 CTYPE_INT64 CTYPE_INT16]. by rewrite Hld. }
  assert (pf_offset pf + 2 <= zlen out) as Hin.
  { apply (f_equal length) in Hout. unfold field_at in Hout. rewrite length_take, length_drop in Hout. cbn in Hout. unfold zlen. lia. }
  destruct (store_done out (pf_offset pf) (int_bytes 1 (u8 (u16 v)))) as (out' & Hst); [done | change (zlen (int_bytes 1 (u8 (u16 v)))) with 1; lia |].
  exists s', out'. split; [done|]. rewrite Hb, unpack_single by (done || by rewrite Hc). split.
  { rewrite Hc, Ht. unfold integer_atom, unpack_field, unpack_scalar, write_integer, write_longlong.
    cbn [Z.eqb Pos.eqb orb CTYPE_ARRAY CTYPE_PACKED CTYPE_INT64 CTYPE_INT32 CTYPE_INT16 CTYPE_BOOL CTYPE_INT8 PTYPE_DOUBLE PTYPE_FLOAT PTYPE_ENUM
      PTYPE_INT64 PTYPE_UINT64 PTYPE_INT32 a_i word0 word1 low]. unfold store_int. rewrite Hst. done. }
  pose proof (store_outside _ _ _ _ Hst) as Ho. pose proof (store_field _ _ _ _ Hst) as Hf. change (zlen (int_bytes 1 (u8 (u16 v)))) with 1 in *.
  pose proof (same_outside_zlen _ _ _ _ Ho) as Hz. unfold load_int. rewrite load_eq by lia. cbn [obind].
  assert (field_at out' (pf_offset pf) 2 = int_bytes 1 (u8 (u16 v)) ++ [MByte old]) as ->.
  { assert (∀ x : list mbyte, field_at x (pf_offset pf) 2 = field_at x (pf_offset pf) 1 ++ field_at x (pf_offset pf + 1) 1) as Hsplit.
    { intros x. unfold field_at. replace (Z.to_nat (pf_offset pf + 1)) with (Z.to_nat (pf_offset pf) + 1)%nat by lia. rewrite <- drop_drop.
      generalize (drop (Z.to_nat (pf_offset pf)) x). intros [|a [|b k]]; reflexivity. }
    rewrite Hsplit, Hf. f_equal. rewrite (field_at_outside _ _ _ _ _ _ Ho) by lia. rewrite Hsplit in Hout.
    assert (length (field_at out (pf_offset pf) 1) = 1%nat) as H1 by (rewrite length_field_at; lia).
    destruct (field_at out (pf_offset pf) 1) as [|x [|]]; try done. by injection Hout as _ ->. }
  cbn [int_bytes le_split List.map app known_bytes le_join]. f_equal. width.
Qed.

Lemma pattern_int16_one_byte_witness :
  let pf := PField 3 0 PTYPE_INT32 CTYPE_INT16 LABEL_REQUIRED (VInteger 0 0) in
  ∃ s' out', pbc_pattern_pack id id [pf] (int_bytes 2 1000) (OSlice (replicate 20 0) 0 20) = Done (Some (20 - o_len s', s'))
    ∧ pbc_pattern_unpack id id [pf] (slice_bytes s') (int_bytes 2 0) (λ _, replicate 10 0) = Done (0, out', None)
    ∧ load_int 2 out' 0 = Done (1000 mod 256 + 256 * 0).
Proof.
  intros pf. apply (pattern_int16_one_byte id id pf (int_bytes 2 1000) (OSlice (replicate 20 0) 0 20) 1000 0 (int_bytes 2 0)).
  - reflexivity.
  - reflexivity.
  - reflexivity.
  - split; vm_compute; congruence.
  - reflexivity.
  - lia.
  - reflexivity.
  - vm_compute. discriminate.
  - split; vm_compute; [discriminate | split; discriminate].
  - vm_compute. discriminate.
  - intros _. split; [|reflexivity]. apply Forall_replicate. width.
Defined.
