(* ===== verification/PatternNew.v ===== *)
(** * Making a pattern from a format string ([3rd/pbc/src/pattern.c])

    [pbc_pattern_new] splits a format like ["name %s id %d"] into words, looks
    the names up in the message and checks the C types.  Strings are lists of
    characters without their end; [temp] is the array [alloca] returned, with
    arbitrary contents. *)

From stdpp Require Import sorting.
From S2P Require Import Prelude Varint Chain PMap SpMap PArray StringPool Context Proto Wmessage Decode CMem Pattern PatternRT.

(** ** The code *)

(** The characters of a format. *)
Definition is_space (c : Z) : bool := (c =? 32) || (c =? 9) || (c =? 10) || (c =? 13).

(** [ctype] is the word after its end was cut; ["%"] is 37. *)
Definition _ctype (ctype : list Z) : Z :=
  match ctype with
  | p :: rest =>
      if negb (p =? 37) then -1
      else match rest with
           | [] => -1
           | c :: _ =>
               if c =? 102 then CTYPE_FLOAT
               else if c =? 70 then CTYPE_DOUBLE
               else if c =? 100 then CTYPE_INT32
               else if c =? 68 then CTYPE_INT64
               else if c =? 98 then CTYPE_BOOL
               else if c =? 104 then CTYPE_INT16
               else if c =? 99 then CTYPE_INT8
               else if c =? 115 then CTYPE_VAR
               else if c =? 97 then CTYPE_ARRAY
               else -1
           end
  | [] => -1
  end.

(** [sizeof] on a 64-bit host. *)
Definition _ctype_size (ctype : list Z) : Z :=
  match ctype with
  | _ :: c :: _ =>
      if c =? 102 then 4
      else if c =? 70 then 8
      else if c =? 100 then 4
      else if c =? 68 then 8
      else if c =? 98 then 1
      else if c =? 104 then 2
      else if c =? 99 then 1
      else if c =? 115 then 16
      else if c =? 97 then 64
      else 0
  | _ => 0
  end.

Fixpoint skip_space (format : list Z) : list Z :=
  match format with
  | c :: rest => if is_space c then skip_space rest else format
  | [] => []
  end.

Fixpoint copy_word (format temp : list Z) (pos : Z) : outcome (list Z * list Z * Z) :=
  match format with
  | c :: rest =>
      if is_space c then Done (format, temp, pos)
      else do! temp <- write_at temp pos [c]; copy_word rest temp (pos + 1)
  | [] => Done ([], temp, pos)
  end.

(** The rest of the format, and [temp] with its position after the word. *)
Definition _copy_string (format temp : list Z) (pos : Z) : outcome (list Z * list Z * Z) :=
  do! (format, temp, pos) <- copy_word (skip_space format) temp pos;
  do! temp <- write_at temp pos [0];
  Done (format, temp, pos + 1).

(** The number of fields and the words in [temp]; every round but the last
    consumes a character. *)
Fixpoint _scan_pattern (fuel : nat) (format temp : list Z) (pos n : Z) : outcome (Z * list Z) :=
  match fuel with
  | O => Fault OutOfFuel
  | S fuel' =>
      do! (format, temp, pos) <- _copy_string format temp pos;
      match format with
      | [] => Done (0, temp)
      | _ =>
          do! (format, temp, pos) <- _copy_string format temp pos;
          match format with
          | [] => Done (n + 1, temp)
          | _ => _scan_pattern fuel' format temp pos (n + 1)
          end
      end
  end.

Definition _comp_field (a b : _pattern_field) : Z := pf_id a - pf_id b.

(** [qsort] with [_comp_field]. *)
Definition field_le (a b : _pattern_field) : Prop := _comp_field a b <= 0.

#[export] Instance field_le_dec a b : Decision (field_le a b).
Proof. unfold field_le. apply _. Defined.

Definition sort_fields (l : pbc_pattern) : pbc_pattern := merge_sort field_le l.

(** [true] when the C type does not fit the field. *)
Definition _check_ctype (field : _field) (ctype : Z) : bool :=
  if f_label field =? LABEL_REPEATED then negb (ctype =? CTYPE_ARRAY)
  else if f_label field =? LABEL_PACKED then negb (ctype =? CTYPE_PACKED)
  else if (f_type field =? PTYPE_STRING) || (f_type field =? PTYPE_MESSAGE) || (f_type field =? PTYPE_BYTES)
  then negb (ctype =? CTYPE_VAR)
  else if (f_type field =? PTYPE_FLOAT) || (f_type field =? PTYPE_DOUBLE)
  then negb ((ctype =? CTYPE_DOUBLE) || (ctype =? CTYPE_FLOAT))
  else if f_type field =? PTYPE_ENUM
  then negb ((ctype =? CTYPE_INT8) || (ctype =? CTYPE_INT16) || (ctype =? CTYPE_INT32) || (ctype =? CTYPE_INT64))
  else (ctype =? CTYPE_VAR) || (ctype =? CTYPE_ARRAY) || (ctype =? CTYPE_PACKED) || (ctype =? CTYPE_DOUBLE) || (ctype =? CTYPE_FLOAT).

(** The string at [temp + pos] and the position after its end. *)
Definition word_at (temp : list Z) (pos : Z) : outcome (list Z * Z) :=
  do! w <- cstr (drop (Z.to_nat pos) temp);
  Done (w, pos + zlen w + 1).

(** The fields of a pattern, [n] of them left; [offset] gives the offset of the
    next field and what the one after it starts from, given the C type.  An
    error is the message of [lasterror]. *)
Fixpoint pattern_fields {O} (n : nat) (m : _message) (temp : list Z) (pos : Z) (errors : string * string * string)
    (offset : O → list Z → outcome (Z * O)) (o : O) : outcome (pbc_pattern + string) :=
  match n with
  | O => Done (inl [])
  | S n' =>
      do! (name, pos) <- word_at temp pos;
      do! field <- _pbcM_sp_query (Some (m_name m)) name;
      match field with
      | None => Done (inr errors.1.1)
      | Some field =>
          do! (word, pos) <- word_at temp pos;
          do! (off, o) <- offset o word;
          let ctype := _ctype word in
          if ctype <? 0 then Done (inr errors.1.2)
          else
            let ctype := if (ctype =? CTYPE_ARRAY) && (f_label field =? LABEL_PACKED) then CTYPE_PACKED else ctype in
            if _check_ctype field ctype then Done (inr errors.2)
            else
              do! rest <- pattern_fields n' m temp pos errors offset o;
              match rest with
              | inr e => Done (inr e)
              | inl l => Done (inl (PField (f_id field) off (f_type field) ctype (f_label field) (f_default_v field) :: l))
              end
      end
  end.

Section New.
Context (junk : nat → Z).

Definition finish_pattern (r : pbc_pattern + string) : option pbc_pattern * option string :=
  match r with
  | inl l => (Some (sort_fields l), None)
  | inr e => (None, Some e)
  end.

(** The fields of an ["@"] format follow one another in the struct. *)
Definition _pattern_new (m : _message) (format : list Z) : outcome (option pbc_pattern * option string) :=
  do! (n, temp) <- _scan_pattern (S (length format)) format (fresh_page junk (zlen format + 1)) 0 0;
  do! r <- pattern_fields (Z.to_nat n) m temp 0
             ("Pattern @new query none exist field", "Pattern @new use an invalid ctype", "Pattern @new ctype check error")%string
             (λ offset ctype, Done (offset, offset + _ctype_size ctype)) 0;
  Done (finish_pattern r).

(** [args] are the variable arguments; ["@"] is 64. *)
Definition pbc_pattern_new (env : pbc_env) (message format : list Z) (args : list Z) : outcome (option pbc_pattern * option string) :=
  do! m <- _pbcP_get_message env message;
  match m with
  | None => Done (None, Some "Pattern new can't find proto"%string)
  | Some m =>
      if bool_decide (head format = Some 64) then _pattern_new m (tail format)
      else
        do! (n, temp) <- _scan_pattern (S (length format)) format (fresh_page junk (zlen format + 1)) 0 0;
        do! r <- pattern_fields (Z.to_nat n) m temp 0
                   ("Pattern new query none exist field", "Pattern new use an invalid ctype", "Pattern new ctype check error")%string
                   (λ args _, match args with a :: rest => Done (a, rest) | [] => Fault BadRead end) args;
        Done (finish_pattern r)
  end.
End New.

(** ** The words of a format *)

(** The words, separated by white space; a last empty word when the format ends
    in white space. *)
Fixpoint tokens (cur format : list Z) : list (list Z) :=
  match format with
  | [] => [cur]
  | c :: rest =>
      if is_space c then match cur with [] => tokens [] rest | _ => cur :: tokens [] rest end
      else tokens (cur ++ [c]) rest
  end.

Definition flat (ws : list (list Z)) : list Z := concat (map (λ w, w ++ [0]) ws).

(** ** Lemmas *)

Fixpoint span_word (f : list Z) : list Z * list Z :=
  match f with
  | c :: rest => if is_space c then ([], f) else let '(w, r) := span_word rest in (c :: w, r)
  | [] => ([], [])
  end.

Lemma span_word_app f : (span_word f).1 ++ (span_word f).2 = f.
Proof. induction f as [|c f IH]; [done|]. cbn. destruct (is_space c); [done|]. destruct (span_word f). cbn in *. by rewrite IH. Qed.

(** The rest after a word is empty or starts with a space. *)
Lemma span_word_rest f : (span_word f).2 = [] ∨ ∃ c r, (span_word f).2 = c :: r ∧ is_space c = true.
Proof.
  induction f as [|c f IH]; [by left|]. cbn. destruct (is_space c) eqn:E; [right; by exists c, f|]. by destruct (span_word f).
Qed.

Lemma copy_word_spec f pre tail : zlen (span_word f).1 <= zlen tail →
  copy_word f (pre ++ tail) (zlen pre)
  = Done ((span_word f).2, pre ++ (span_word f).1 ++ drop (length (span_word f).1) tail, zlen pre + zlen (span_word f).1).
Proof.
  revert pre tail; induction f as [|c f IH]; intros pre tail Hl; cbn [copy_word span_word].
  { cbn [fst snd length app]. change (drop 0 tail) with tail. change (zlen []) with 0. by rewrite Z.add_0_r. }
  cbn [span_word] in Hl. destruct (is_space c). { cbn [fst snd length app]. change (drop 0 tail) with tail. change (zlen []) with 0. by rewrite Z.add_0_r. }
  destruct (span_word f) as [w r] eqn:Es. cbn [fst snd] in *. rewrite zlen_cons in Hl. pose proof (zlen_nonneg w).
  destruct tail as [|t tail]; [change (zlen (@nil Z)) with 0 in Hl; lia|]. rewrite zlen_cons in Hl.
  change (t :: tail) with ([t] ++ tail). rewrite write_at_here by done. cbn [obind]. rewrite app_assoc.
  replace (zlen pre + 1) with (zlen (pre ++ [c])) by (by rewrite zlen_app).
  rewrite IH by lia. rewrite !zlen_app, <- !app_assoc. change (zlen [c]) with 1. cbn [app length]. rewrite zlen_cons.
  rewrite Z.add_assoc. done.
Qed.

Lemma copy_string_spec f pre tail : zlen (span_word (skip_space f)).1 + 1 <= zlen tail →
  ∃ tail', _copy_string f (pre ++ tail) (zlen pre)
    = Done ((span_word (skip_space f)).2, pre ++ ((span_word (skip_space f)).1 ++ [0]) ++ tail',
            zlen (pre ++ (span_word (skip_space f)).1 ++ [0]))
    ∧ zlen tail' = zlen tail - (zlen (span_word (skip_space f)).1 + 1).
Proof.
  intros Hl. unfold _copy_string. rewrite copy_word_spec by lia. cbn [obind]. set (w := (span_word (skip_space f)).1) in *.
  assert (zlen (drop (length w) tail) = zlen tail - zlen w) as Hd by (unfold zlen in *; rewrite length_drop; lia).
  destruct (drop (length w) tail) as [|t tail'] eqn:Ed; [change (zlen (@nil Z)) with 0 in Hd; lia|]. rewrite zlen_cons in Hd.
  rewrite app_assoc, <- zlen_app. change (t :: tail') with ([t] ++ tail'). rewrite write_at_here by done. cbn [obind]. exists tail'.
  rewrite <- !app_assoc. rewrite !zlen_app. change (zlen [0]) with 1. split; [|lia]. by rewrite Z.add_assoc.
Qed.

Lemma tokens_cur cur f : cur ≠ [] → tokens cur f = (cur ++ (span_word f).1) :: match (span_word f).2 with [] => [] | r => tokens [] r end.
Proof.
  revert cur; induction f as [|c f IH]; intros cur Hc; cbn [tokens span_word]; [by rewrite app_nil_r|].
  destruct (is_space c) eqn:E.
  - cbn [fst snd tokens]. rewrite app_nil_r, E. by destruct cur.
  - rewrite IH by (by destruct cur). destruct (span_word f) as [w r]. cbn [fst snd]. by rewrite <- app_assoc.
Qed.

Lemma tokens_step f : tokens [] f = (span_word (skip_space f)).1 :: match (span_word (skip_space f)).2 with [] => [] | r => tokens [] r end.
Proof.
  induction f as [|c f IH]; [done|]. cbn [tokens skip_space]. destruct (is_space c) eqn:E; [done|].
  cbn [app span_word]. rewrite E, tokens_cur by done. destruct (span_word f) as [w r]. done.
Qed.

Lemma skip_space_le f : zlen (skip_space f) <= zlen f ∧ (∀ c r, f = c :: r → is_space c = true → zlen (skip_space f) <= zlen f - 1).
Proof.
  induction f as [|c f [IH _]]; [done|]. cbn [skip_space]. split.
  - destruct (is_space c); rewrite ?zlen_cons in *; lia.
  - intros c' r [= <- <-] ->. rewrite zlen_cons. lia.
Qed.

(** The words with their ends fit in one byte more than the format. *)
Lemma flat_tokens_le n f : (length f <= n)%nat →
  zlen (flat (tokens [] f)) <= zlen f + 1 ∧ (∀ c r, f = c :: r → is_space c = true → zlen (flat (tokens [] f)) <= zlen f).
Proof.
  revert f; induction n as [|n IH]; intros f Hn.
  { destruct f; [|cbn in Hn; lia]. split; [vm_compute; discriminate | done]. }
  rewrite tokens_step. unfold flat. cbn [map concat]. rewrite !zlen_app. change (zlen [0]) with 1.
  destruct (skip_space_le f) as [Hs1 Hs2]. pose proof (span_word_app (skip_space f)) as Ha. apply (f_equal zlen) in Ha. rewrite zlen_app in Ha.
  destruct (span_word_rest (skip_space f)) as [Er|(c & r & Er & Hc)]; rewrite Er in *.
  - cbn [map concat] in *. change (zlen (@nil Z)) with 0 in *. split; [lia|]. intros c r Ef Hc. specialize (Hs2 c r Ef Hc). lia.
  - assert (length (c :: r) <= length f)%nat as Hle.
    { pose proof (zlen_nonneg (span_word (skip_space f)).1). unfold zlen in *. lia. }
    destruct f as [|d f0]; [cbn in Hle; lia|].
    destruct (decide (length (c :: r) <= n)%nat) as [Hn'|Hn'].
    + destruct (IH (c :: r) Hn') as [_ Hsp]. specialize (Hsp c r eq_refl Hc). unfold flat in Hsp. split; [lia|].
      intros c' r' Ef Hc'. specialize (Hs2 c' r' Ef Hc'). lia.
    + exfalso. assert (length (skip_space (d :: f0)) = length (d :: f0)) as El by (unfold zlen in *; lia).
      assert (is_space d = false) as Hd.
      { destruct (is_space d) eqn:Ed; [|done]. specialize (Hs2 d f0 eq_refl Ed). unfold zlen in *. lia. }
      cbn [skip_space] in Ha, Er. rewrite Hd in Ha, Er. cbn [span_word] in Er, Ha. rewrite Hd in Er, Ha. destruct (span_word f0) as [w r0]. cbn [fst snd] in *.
      rewrite zlen_cons in Ha. pose proof (zlen_nonneg w). unfold zlen in *. cbn [length] in *. lia.
Qed.

(** The number of fields the words make. *)
Definition field_count (k : nat) : Z := if Nat.even k then Z.of_nat (k / 2) else 0.

Lemma even_SS k : Nat.even (S (S k)) = Nat.even k.
Proof. done. Qed.

Lemma scan_spec fuel f pre tail n : (length f < fuel)%nat → zlen (flat (tokens [] f)) <= zlen tail →
  ∃ tail', _scan_pattern fuel f (pre ++ tail) (zlen pre) n
    = Done ((if Nat.even (length (tokens [] f)) then n + Z.of_nat (length (tokens [] f) / 2) else 0), pre ++ flat (tokens [] f) ++ tail').
Proof.
  revert f pre tail n; induction fuel as [|fuel IH]; intros f pre tail n Hf Hl; [lia|]. cbn [_scan_pattern].
  rewrite (tokens_step f) in *. unfold flat in Hl. cbn [map concat] in Hl. rewrite !zlen_app in Hl. change (zlen [0]) with 1 in Hl.
  fold (flat (match (span_word (skip_space f)).2 with [] => [] | r => tokens [] r end)) in Hl.
  destruct (skip_space_le f) as [Hs1 _]. pose proof (span_word_app (skip_space f)) as Ha. apply (f_equal zlen) in Ha. rewrite zlen_app in Ha.
  set (w := (span_word (skip_space f)).1) in *. pose proof (zlen_nonneg w) as Hw0.
  destruct (copy_string_spec f pre tail) as (t1 & -> & Ht1).
  { fold w. match type of Hl with _ + _ + zlen ?x <= _ => pose proof (zlen_nonneg x) end. lia. }
  fold w in Ht1 |- *. cbn [obind]. destruct (span_word_rest (skip_space f)) as [Er|(c & r & Er & Hc)]; rewrite Er in *.
  { exists t1. cbn [length]. unfold flat. cbn. by rewrite app_nil_r. }
  set (f1 := c :: r) in *. rewrite (tokens_step f1) in *. unfold flat in Hl. cbn [map concat] in Hl. rewrite !zlen_app in Hl. change (zlen [0]) with 1 in Hl.
  fold (flat (match (span_word (skip_space f1)).2 with [] => [] | r => tokens [] r end)) in Hl.
  destruct (skip_space_le f1) as [Hs2 Hs2']. specialize (Hs2' c r eq_refl Hc).
  pose proof (span_word_app (skip_space f1)) as Ha2. apply (f_equal zlen) in Ha2. rewrite zlen_app in Ha2.
  set (w2 := (span_word (skip_space f1)).1) in *. pose proof (zlen_nonneg w2) as Hw20. rewrite app_assoc.
  destruct (copy_string_spec f1 (pre ++ w ++ [0]) t1) as (t2 & -> & Ht2).
  { fold w2. match type of Hl with _ + _ + (_ + _ + zlen ?x) <= _ => pose proof (zlen_nonneg x) end. lia. }
  fold w2 in Ht2 |- *. cbn [obind]. destruct (span_word_rest (skip_space f1)) as [Er2|(c2 & r2 & Er2 & Hc2)]; rewrite Er2 in *.
  { exists t2. cbn [length]. unfold flat. cbn. rewrite <- !app_assoc. cbn [app]. done. }
  destruct (IH (c2 :: r2) ((pre ++ w ++ [0]) ++ w2 ++ [0]) t2 (n + 1)) as (t3 & Hs3); [unfold zlen in *; lia | lia |].
  rewrite <- app_assoc in Hs3. rewrite Hs3. exists t3. cbn [length]. rewrite even_SS.
  unfold flat. cbn [map concat]. rewrite <- !app_assoc. repeat f_equal. destruct (Nat.even _); [|done].
  change (S (S (length (tokens [] (c2 :: r2))))) with (2 + length (tokens [] (c2 :: r2)))%nat.
  replace (2 + length (tokens [] (c2 :: r2)))%nat with (1 * 2 + length (tokens [] (c2 :: r2)))%nat by lia. rewrite Nat.div_add_l by done. lia.
Qed.

(** ** Properties *)

(** scanning a format copies its words, one after another and each with its
    end, into [temp], which at one byte more than the format is always large
    enough; the number of fields is half the number of words, and 0 when the
    words cannot be paired.  White space at the end counts as one more, empty
    word. *)
Theorem scan_pattern_words format temp :
  zlen temp = zlen format + 1 →
  ∃ rest, _scan_pattern (S (length format)) format temp 0 0
    = Done (field_count (length (tokens [] format)), flat (tokens [] format) ++ rest).
Proof.
  intros Ht. destruct (flat_tokens_le (length format) format ltac:(lia)) as [Hl _].
  destruct (scan_spec (S (length format)) format [] temp 0) as (rest & H); [lia | lia |]. by exists rest.
Qed.

Lemma scan_pattern_words_witness :
  ∃ rest, _scan_pattern 8 [105; 100; 32; 32; 37; 100; 32] (replicate 8 7) 0 0
    = Done (field_count (length (tokens [] [105; 100; 32; 32; 37; 100; 32])), flat (tokens [] [105; 100; 32; 32; 37; 100; 32]) ++ rest).
Proof. apply (scan_pattern_words [105; 100; 32; 32; 37; 100; 32] (replicate 8 7)). reflexivity. Defined.

(** ** The layout of an ["@"] pattern *)

Lemma csize_ctype word : 0 <= _ctype word →
  csize (_ctype word) = _ctype_size word ∧ 0 <= _ctype_size word ∧ (_ctype word = CTYPE_ARRAY → _ctype_size word = csize CTYPE_PACKED).
Proof.
  unfold _ctype, _ctype_size. destruct word as [|p rest]; [lia|]. destruct (negb (p =? 37)); [lia|]. destruct rest as [|c rest]; [lia|].
  repeat case_if; intros H; try lia; split_and!; try reflexivity; try done; intros E; discriminate E.
Qed.

Lemma pattern_fields_layout n m temp pos errors o l : 0 <= o →
  pattern_fields n m temp pos errors (λ offset ctype, Done (offset, offset + _ctype_size ctype)) o = Done (inl l) →
  Forall (λ f, o <= pf_offset f) l ∧ ForallOrdPairs (λ f g, pf_offset f + csize (pf_ctype f) <= pf_offset g) l.
Proof.
  revert pos o l; induction n as [|n IH]; intros pos o l Ho; cbn [pattern_fields].
  { intros [= <-]. split; constructor. }
  destruct (word_at temp pos) as [[name pos1]|]; [|done]. cbn [obind]. destruct (_pbcM_sp_query _ name) as [[field|]|]; [|done..]. cbn [obind].
  destruct (word_at temp pos1) as [[word pos2]|]; [|done]. cbn [obind]. case_if; [done|]. destruct (csize_ctype word ltac:(lia)) as (Hc & Hpos & Harr).
  set (c := if _ && _ then CTYPE_PACKED else _ctype word).
  assert (csize c = _ctype_size word) as Ec.
  { unfold c. destruct (_ && _) eqn:E; [|done]. bprop. by rewrite Harr. }
  destruct (_check_ctype field c); [done|].
  destruct (pattern_fields n m temp pos2 errors _ _) as [[l'|]|] eqn:El; [|done..]. cbn [obind]. intros [= <-].
  destruct (IH pos2 (o + _ctype_size word) l') as [H1 H2]; [lia | done |].
  split; constructor; cbn [pf_offset pf_ctype]; [lia | | | done].
  - eapply Forall_impl; [exact H1|]. cbn. lia.
  - rewrite Ec. exact H1.
Qed.

Lemma apart_sym f g : apart f g → apart g f.
Proof. intros [H|H]; [by right | by left]. Qed.

Lemma ord_pairs_perm {A} (R : A → A → Prop) l l' : (∀ x y, R x y → R y x) → l ≡ₚ l' → ForallOrdPairs R l → ForallOrdPairs R l'.
Proof.
  intros Hsym Hp. induction Hp as [|x l l' Hp IH|x y l|l1 l2 l3 H12 IH12 H23 IH23]; intros H; [done|..|auto].
  - apply ord_pairs_cons in H as [Hx H]. constructor; [by rewrite <- Hp | auto].
  - apply ord_pairs_cons in H as [Hy H]. apply ord_pairs_cons in H as [Hx H]. apply Forall_cons in Hy as [Hyx Hy].
    constructor; [constructor; [by apply Hsym | done] | by constructor].
Qed.

#[export] Instance field_le_total : Total field_le.
Proof. intros a b. unfold field_le, _comp_field. lia. Qed.

#[export] Instance field_le_trans : Transitive field_le.
Proof. intros a b c. unfold field_le, _comp_field. lia. Qed.

(** C29: a pattern made from an ["@"] format has its fields in the order of their
    numbers, as [bsearch_pattern] needs them, and no two of them share a byte of
    the struct: each field starts where the one before it in the format ends. *)
Theorem pattern_new_layout junk m format pat e :
  _pattern_new junk m format = Done (Some pat, e) →
  Sorted field_le pat ∧ ForallOrdPairs apart pat ∧ Forall (λ f, 0 <= pf_offset f) pat.
Proof.
  unfold _pattern_new. intros H. destruct (_scan_pattern _ format _ 0 0) as [[n temp]|]; [|done]. cbn [obind] in H.
  destruct (pattern_fields _ m temp 0 _ _ 0) as [[l|]|] eqn:El; [|done..]. cbn [obind finish_pattern] in H. injection H as <- _.
  destruct (pattern_fields_layout _ _ _ _ _ 0 l (Z.le_refl 0) El) as [Hoff Hord]. unfold sort_fields.
  pose proof (merge_sort_Permutation field_le l) as Hp. split; [apply Sorted_merge_sort; apply _|]. split.
  - eapply ord_pairs_perm; [exact apart_sym | symmetry; exact Hp |]. clear -Hord. induction Hord as [|f l Hf Hl IH]; constructor; [|done].
    eapply Forall_impl; [exact Hf|]. intros g Hg. by left.
  - by rewrite Hp.
Qed.

Lemma pattern_new_layout_witness :
  ∃ pat, Sorted field_le pat ∧ ForallOrdPairs apart pat ∧ Forall (λ f, 0 <= pf_offset f) pat.
Proof.
  eexists. eapply (pattern_new_layout (λ _, 170) demo_msg [110; 32; 37; 115; 32; 105; 100; 32; 37; 68]). vm_compute. reflexivity.
Defined.
