(* ===== verification/Rmessage.v ===== *)
(** * pbc message reader ([3rd/pbc/src/rmessage.c])

    [pbc_rmessage_new] decodes a message into an index from field names to
    values; the accessors look names up in it.  Values live as long as the
    message's heap, so they are modelled by their contents.  A string is the
    memory from its address on. *)

From S2P Require Import Prelude Varint Chain PMap SpMap PArray StringPool Context Proto Wmessage Decode CMem Pattern.

(** ** The data *)

(** [struct value], by its field and the member of [union _var] it uses; an
    element of an array of messages is the pair of pointers of a
    [struct pbc_rmessage]. *)
Inductive rvalue :=
  | RVar (type : _field) (v : pbc_var)
  | RArr (type : _field) (a : array pbc_var)
  | RSub (type : _field) (m : rmessage)
  | RSubs (type : _field) (a : array rmessage)
with rmessage :=
  | RMessage (msg : option _message) (index : option (map_sp rvalue)).

Definition r_msg (m : rmessage) : option _message := let '(RMessage msg _) := m in msg.
Definition r_index (m : rmessage) : option (map_sp rvalue) := let '(RMessage _ index) := m in index.

Definition v_type (v : rvalue) : _field := match v with RVar f _ | RArr f _ | RSub f _ | RSubs f _ => f end.

(** [env->lasterror], when it was set. *)
Definition error : Type := option string.

Section Rmessage.
Context (f2d : Z → Z) (env : pbc_env) (stk : Z → list Z).

(** ** Decoding *)

(** The type of the field and the new key; the iteration ends with type 0. *)
Definition pbc_rmessage_next (m : rmessage) (key : option (list Z)) : outcome (Z * option (list Z)) :=
  do! (v, key) <- _pbcM_sp_next (r_index m) key;
  match key with
  | None => Done (0, None)
  | Some k =>
      match v with
      | None => Fault NullDeref
      | Some v => do! (type, _) <- _pbcP_type (Some (v_type v)) false; Done (type, Some k)
      end
  end.

(** A string that does not end in a zero is copied and given one. *)
Definition read_string (msg : list Z) (a : atom) : outcome pbc_var :=
  let len := a_end a - a_start a in
  do! ends <- (if 0 <? len then do! c <- read_at msg (a_start a + (len - 1)); Done (c =? 0) else Done false);
  if (ends : bool) then Done (VSlice (Some (drop (Z.to_nat (a_start a)) msg)) len)
  else do! bs <- bytes_at msg (a_start a) len; Done (VSlice (Some (bs ++ [0])) len).

(** The length of a copy is negated. *)
Definition read_string_var (msg : list Z) (a : atom) : outcome pbc_var :=
  let len := a_end a - a_start a in
  if len =? 0 then Done (VSlice (Some [0]) 0)
  else
    do! c <- read_at msg (a_start a + (len - 1));
    if c =? 0 then Done (VSlice (Some (drop (Z.to_nat (a_start a)) msg)) len)
    else do! bs <- bytes_at msg (a_start a) len; Done (VSlice (Some (bs ++ [0])) (- len)).

(** [f->type_name.m] *)
Definition message_of (f : _field) : outcome (option _message) := field_message env f.

Definition is_lend (a : atom) : bool := Z.land (wire_id a) 7 =? WT_LEND.

(** [read_sub type buffer size err] is [_pbc_rmessage_new]. *)
Definition reader : Type := option _message → list Z → Z → error → outcome (rmessage * error).

(** The member a scalar of the field's type is stored in; [None] for a type that
    has none. *)
Definition scalar_var (f : _field) (a : atom) : outcome (option pbc_var) :=
  let t := f_type f in
  if t =? PTYPE_DOUBLE then Done (Some (VReal (read_double a)))
  else if t =? PTYPE_FLOAT then Done (Some (VReal (read_float f2d a)))
  else if t =? PTYPE_ENUM then
    do! n <- enum_name env f (s32 (word0 a)); Done (Some (VEnum (s32 (word0 a)) n))
  else if (t =? PTYPE_INT64) || (t =? PTYPE_UINT64) || (t =? PTYPE_INT32) || (t =? PTYPE_UINT32) || (t =? PTYPE_BOOL)
          || (t =? PTYPE_FIXED32) || (t =? PTYPE_SFIXED32) || (t =? PTYPE_FIXED64) || (t =? PTYPE_SFIXED64) then
    Done (Some (VInteger (word0 a) (word1 a)))
  else if t =? PTYPE_SINT32 then let r := _pbcV_dezigzag32 (a_i a) in Done (Some (VInteger (low r) (hi r)))
  else if t =? PTYPE_SINT64 then let r := _pbcV_dezigzag64 (a_i a) in Done (Some (VInteger (low r) (hi r)))
  else Done None.

Definition bytes_var (msg : list Z) (a : atom) : pbc_var :=
  VSlice (Some (drop (Z.to_nat (a_start a)) msg)) (a_end a - a_start a).

(** [None] is NULL. *)
Definition read_value (read_sub : reader) (msg : list Z) (f : _field) (a : atom) (err : error) : outcome (option rvalue * error) :=
  let t := f_type f in
  do! s <- scalar_var f a;
  match s with
  | Some v => Done (Some (RVar f v), err)
  | None =>
      if t =? PTYPE_STRING then
        if negb (is_lend a) then Done (None, err)
        else do! v <- read_string msg a; Done (Some (RVar f v), err)
      else if t =? PTYPE_BYTES then
        if negb (is_lend a) then Done (None, err) else Done (Some (RVar f (bytes_var msg a)), err)
      else if t =? PTYPE_MESSAGE then
        if negb (is_lend a) then Done (None, err)
        else
          do! m <- message_of f;
          do! (sub, err) <- read_sub m (drop (Z.to_nat (a_start a)) msg) (a_end a - a_start a) err;
          Done (Some (RSub f sub), err)
      else Done (None, err)
  end.

(** The names of the elements of a packed enum. *)
Fixpoint name_enums (n : nat) (f : _field) (arr : array pbc_var) (i : Z) : outcome (array pbc_var) :=
  match n with
  | O => Done arr
  | S n' =>
      do! v <- _pbcA_index arr i;
      do! l <- int_low v;
      do! name <- enum_name env f (s32 l);
      do! c <- write_at (cells arr) i [Some (VEnum (s32 l) name)];
      name_enums n' f (set_cells arr c) (i + 1)
  end.

Definition push_value_packed (msg : list Z) (f : _field) (a : atom) (arr : array pbc_var) (err : error)
    : outcome (array pbc_var * error) :=
  do! (n, arr) <- _pbcP_unpack_packed f2d msg (a_start a) (a_end a - a_start a) (f_type f) arr;
  let n := default (-1) n in
  if n <=? 0 then Done (arr, Some "Unpack packed field error"%string)
  else if f_type f =? PTYPE_ENUM then do! arr <- name_enums (Z.to_nat n) f arr 0; Done (arr, err)
  else Done (arr, err).

(** An element of an array of scalars, strings or bytes; nothing is pushed when
    the wire type is wrong. *)
Definition push_value_scalar (msg : list Z) (f : _field) (a : atom) (arr : array pbc_var) : outcome (array pbc_var) :=
  do! s <- scalar_var f a;
  match s with
  | Some v => _pbcA_push arr v
  | None =>
      if f_type f =? PTYPE_STRING then
        if negb (is_lend a) then Done arr else do! v <- read_string_var msg a; _pbcA_push arr v
      else if f_type f =? PTYPE_BYTES then
        if negb (is_lend a) then Done arr else _pbcA_push arr (bytes_var msg a)
      else Done arr
  end.

(** An element of an array of messages. *)
Definition push_value_message (read_sub : reader) (msg : list Z) (f : _field) (a : atom) (arr : array rmessage) (err : error)
    : outcome (array rmessage * error) :=
  if negb (is_lend a) then Done (arr, err)
  else
    do! m <- message_of f;
    do! (sub, err) <- read_sub m (drop (Z.to_nat (a_start a)) msg) (a_end a - a_start a) err;
    match r_msg sub with
    | None => Done (arr, err)
    | Some _ => do! arr <- _pbcA_push arr sub; Done (arr, err)
    end.

(** A new array for a repeated or packed field. *)
Definition new_array (f : _field) : rvalue :=
  if (f_label f =? LABEL_REPEATED) && (f_type f =? PTYPE_MESSAGE) then RSubs f _pbcA_open_heap else RArr f _pbcA_open_heap.

(** The value with the element of the atom pushed, the size of its array and the
    error.  (A packed field of messages is refused by [_pbcP_unpack_packed].) *)
Definition push_value_array (read_sub : reader) (msg : list Z) (f : _field) (a : atom) (v : rvalue) (err : error)
    : outcome (rvalue * Z * error) :=
  match v with
  | RArr vf arr =>
      do! (arr, err) <- (if f_label f =? LABEL_PACKED then push_value_packed msg f a arr err
                         else do! arr <- push_value_scalar msg f a arr; Done (arr, err));
      Done (RArr vf arr, pbc_array_size arr, err)
  | RSubs vf arr =>
      do! (arr, err) <- push_value_message read_sub msg f a arr err;
      Done (RSubs vf arr, pbc_array_size arr, err)
  | _ => Fault BadRead
  end.

Definition array_error (f : _field) : string :=
  if f_label f =? LABEL_PACKED then "rmessage decode packed data error" else "rmessage decode repeated data error".

(** One atom of the message; a field the message does not have is skipped. *)
Definition read_atom (read_sub : reader) (type : _message) (msg : list Z) (a : atom) (index : map_sp rvalue) (err : error)
    : outcome (map_sp rvalue * error) :=
  do! f <- _pbcM_ip_query (m_id type) (Z.shiftr (wire_id a) 3);
  match f with
  | None => Done (index, err)
  | Some f =>
      if (f_label f =? LABEL_REPEATED) || (f_label f =? LABEL_PACKED) then
        do! (index, i) <- _pbcM_sp_query_insert index (f_name f);
        do! s <- read_at (sp_slots index) (Z.of_nat i);
        let v := match sp_pointer s with Some v => v | None => new_array f end in
        do! (v, size, err) <- push_value_array read_sub msg f a v err;
        if size =? 0 then Done (sp_store index i None, Some (array_error f))
        else Done (sp_store index i (Some v), err)
      else
        do! (v, err) <- read_value read_sub msg f a err;
        match v with
        | Some v => do! index <- _pbcM_sp_insert index (f_name f) (Some v); Done (index, err)
        | None => Done (index, Some "rmessage decode data error"%string)
        end
  end.

Fixpoint read_loop (n : nat) (read_sub : reader) (type : _message) (msg : list Z) (ctx : context) (i : Z) (index : map_sp rvalue) (err : error)
    : outcome (map_sp rvalue * error) :=
  match n with
  | O => Done (index, err)
  | S n' =>
      do! a <- ctx_atom ctx i;
      do! (index, err) <- read_atom read_sub type msg a index err;
      read_loop n' read_sub type msg ctx (i + 1) index err
  end.

(** A sub-message is shorter than the message it is in: [fuel] bounds the
    nesting. *)
Fixpoint _pbc_rmessage_new (fuel : nat) (type : option _message) (buffer : list Z) (size : Z) (err : error)
    : outcome (rmessage * error) :=
  match fuel with
  | O => Fault OutOfFuel
  | S fuel' =>
      if size =? 0 then
        do! index <- _pbcM_sp_new 0 true;
        Done (RMessage type (Some index), err)
      else
        do! (count, ctx) <- _pbcC_open (Some buffer) size stk;
        match type with
        | None => Fault NullDeref
        | Some t =>
            if count <=? 0 then Done (RMessage None None, Some "rmessage decode context error"%string)
            else
              do! index <- _pbcM_sp_new count true;
              do! (index, err) <- read_loop (Z.to_nat (c_number ctx)) (_pbc_rmessage_new fuel') t buffer ctx 0 index err;
              Done (RMessage type (Some index), err)
        end
  end.

(** [None] is NULL. *)
Definition pbc_rmessage_new (type_name : list Z) (slice : list Z) : outcome (option rmessage * error) :=
  do! msg <- _pbcP_get_message env type_name;
  match msg with
  | None => Done (None, Some "Proto not found"%string)
  | Some msg =>
      do! (temp, err) <- _pbc_rmessage_new (S (length slice)) (Some msg) slice (zlen slice) None;
      match r_msg temp with
      | None => Done (None, err)
      | Some _ => Done (Some temp, err)
      end
  end.

(** ** Accessors *)

Definition is_repeated (f : _field) : bool := (f_label f =? LABEL_REPEATED) || (f_label f =? LABEL_PACKED).

(** The variable an accessor reads and its type: the element, the value, or the
    default of the field; a name that is not a field leaves it unset. *)
Definition rmessage_var (m : rmessage) (key : list Z) (index : Z) : outcome (Z * pbc_var) :=
  do! v <- _pbcM_sp_query (r_index m) key;
  match v with
  | None =>
      match r_msg m with
      | None => Fault NullDeref
      | Some msg =>
          do! d <- _pbcP_message_default msg key;
          match d with
          | Some (type, var) => Done (type, var)
          | None => Fault BadRead
          end
      end
  | Some (RVar f v) => Done (f_type f, v)
  | Some (RArr f a) => do! v <- _pbcA_index a index; Done (f_type f, v)
  | Some _ => Fault BadRead
  end.

(** The string and the length [*sz] is set to. *)
Definition pbc_rmessage_string (m : rmessage) (key : list Z) (index : Z) : outcome (option (list Z) * Z) :=
  do! (type, var) <- rmessage_var m key index;
  if type =? PTYPE_ENUM then
    match var with
    | VEnum _ (Some name) => Done (Some (name ++ [0]), zlen name)
    | VEnum _ None => Fault NullDeref
    | _ => Fault BadRead
    end
  else
    match var with
    | VSlice p len => Done (p, if len <? 0 then - len else len)
    | VStr s len => Done (Some (s ++ [0]), if len <? 0 then - len else len)
    | _ => Fault BadRead
    end.

(** The low and the high word. *)
Definition pbc_rmessage_integer (m : rmessage) (key : list Z) (index : Z) (hi : bool) : outcome (Z * option Z) :=
  do! (type, var) <- rmessage_var m key index;
  if type =? PTYPE_ENUM then do! l <- int_low var; Done (l, if hi then Some 0 else None)
  else
    do! h <- (if hi then do! h <- int_hi var; Done (Some h) else Done None);
    do! l <- int_low var;
    Done (l, h).

Definition pbc_rmessage_real (m : rmessage) (key : list Z) (index : Z) : outcome Z :=
  do! (type, var) <- rmessage_var m key index;
  real_bits var.

(** The sub-message; one that is absent is the empty message of its type, kept
    in the descriptor. *)
Definition pbc_rmessage_message (rm : rmessage) (key : list Z) (index : Z) : outcome (option rmessage * error) :=
  do! v <- _pbcM_sp_query (r_index rm) key;
  match v with
  | None =>
      match r_msg rm with
      | None => Fault NullDeref
      | Some msg =>
          do! f <- _pbcM_sp_query (Some (m_name msg)) key;
          match f with
          | None => Done (None, Some "Invalid key for sub-message"%string)
          | Some f =>
              do! m <- message_of f;
              match m with
              | None => Fault NullDeref
              | Some m => Done (Some (RMessage (Some m) None), None)
              end
          end
      end
  | Some (RSub f m) => Done (Some m, None)
  | Some (RSubs f a) => do! m <- _pbcA_index a index; Done (Some m, None)
  | Some _ => Fault BadRead
  end.

Definition pbc_rmessage_size (m : rmessage) (key : list Z) : outcome Z :=
  do! v <- _pbcM_sp_query (r_index m) key;
  match v with
  | None => Done 0
  | Some (RArr _ a) => Done (pbc_array_size a)
  | Some (RSubs _ a) => Done (pbc_array_size a)
  | Some _ => Done 1
  end.

End Rmessage.
