(* ===== verification/RmessageRT.v ===== *)
(** * Reading back what was written ([3rd/pbc/src/rmessage.c])

    The index [pbc_rmessage_new] builds for a message written with
    [pbc_wmessage_*], and what the accessors find in it. *)

From S2P Require Import Prelude Varint Chain PMap SpMap PArray StringPool Context Proto Wmessage Decode CMem Pattern Rmessage.

#[export] Instance field_eq_dec : EqDecision _field.
Proof. solve_decision. Defined.

(** ** The index of a sequence of fields *)

(** A field and what is decoded for it: a value, or a message. *)
Notation item := (_field * (pbc_var + rmessage))%type.

Definition named_items (name : list Z) (items : list item) : list item := List.filter (λ p, bool_decide (f_name p.1 = name)) items.

(** A name belongs to one field, and a field that is not repeated occurs once. *)
Definition items_ok (items : list item) : Prop :=
  (∀ p q, p ∈ items → q ∈ items → f_name p.1 = f_name q.1 → p.1 = q.1)
  ∧ ∀ name p, p ∈ named_items name items → is_repeated p.1 = false → length (named_items name items) = 1%nat.

(** The value the index holds for a field that was decoded into [vs]. *)
Definition entry (f : _field) (vs : list (pbc_var + rmessage)) (rv : rvalue) : Prop :=
  if is_repeated f then
    if f_type f =? PTYPE_MESSAGE then ∃ a l, rv = RSubs f a ∧ vs = map inr l ∧ holds a l
    else ∃ a l, rv = RArr f a ∧ vs = map inl l ∧ holds a l
  else if f_type f =? PTYPE_MESSAGE then ∃ m, rv = RSub f m ∧ vs = [inr m]
  else ∃ v, rv = RVar f v ∧ vs = [inl v].

(** What the index holds for a name, whose items are [items]. *)
Definition in_index (g : gmap (list Z) (option rvalue)) (name : list Z) (items : list item) : Prop :=
  match items with
  | [] => g !! name = None
  | (f, v) :: rest => ∃ rv, g !! name = Some (Some rv) ∧ entry f (v :: map snd rest) rv
  end.

Definition indexed (g : gmap (list Z) (option rvalue)) (items : list item) : Prop := ∀ name, in_index g name (named_items name items).

Lemma entry_type f vs rv : entry f vs rv → v_type rv = f.
Proof. unfold entry. repeat case_match; naive_solver. Qed.

Lemma named_items_app name l k : named_items name (l ++ k) = named_items name l ++ named_items name k.
Proof. apply List.filter_app. Qed.

Lemma named_items_one name f v : named_items name [(f, v)] = if bool_decide (f_name f = name) then [(f, v)] else [].
Proof. done. Qed.

Lemma named_items_elem name l p : p ∈ named_items name l ↔ p ∈ l ∧ f_name p.1 = name.
Proof. unfold named_items. rewrite !list_elem_of_In, List.filter_In, bool_decide_eq_true. done. Qed.

(** Storing the entry of a name that has one value more. *)
Lemma indexed_store g items f v : indexed g items → items_ok (items ++ [(f, v)]) →
  let vs := map snd (named_items (f_name f) items) in
  (vs = [] ∧ g !! f_name f = None ∨ vs ≠ [] ∧ is_repeated f = true ∧ ∃ rv, g !! f_name f = Some (Some rv) ∧ entry f vs rv)
  ∧ ∀ rv, entry f (vs ++ [v]) rv → indexed (<[f_name f := Some rv]> g) (items ++ [(f, v)]).
Proof.
  intros Hg [Hone Hsing] vs. pose proof (Hg (f_name f)) as Hname. split.
  - unfold vs. destruct (named_items (f_name f) items) as [|[f0 v0] rest] eqn:En; [by left|]. right. split; [done|].
    assert (f0 = f) as ->.
    { assert ((f0, v0) ∈ named_items (f_name f) items) as Hin by (rewrite En; set_solver). apply named_items_elem in Hin as [Hin Ename].
      apply (Hone (f0, v0) (f, v)); [set_solver | set_solver | done]. }
    split; [|done]. destruct (is_repeated f) eqn:Hr; [done|]. exfalso. specialize (Hsing (f_name f) (f, v)).
    rewrite named_items_app, En, named_items_one, bool_decide_eq_true_2 in Hsing by done. rewrite length_app in Hsing. cbn in Hsing.
    assert (S (length rest + 1) = 1)%nat; [|lia]. apply Hsing; [|done]. set_solver.
  - intros rv He name. unfold in_index. rewrite named_items_app, named_items_one. destruct (decide (f_name f = name)) as [<-|Hne].
    + rewrite bool_decide_eq_true_2, lookup_insert_eq by done. unfold vs in He. destruct (named_items (f_name f) items) as [|[f0 v0] rest] eqn:En.
      * cbn [app]. by exists rv.
      * assert ((f0, v0) ∈ named_items (f_name f) items) as Hin by (rewrite En; set_solver). apply named_items_elem in Hin as [Hin Ename].
        assert (f0 = f) as -> by (apply (Hone (f0, v0) (f, v)); [set_solver | set_solver | done]).
        cbn [app]. exists rv. split; [done|]. rewrite List.map_app. exact He.
    + rewrite bool_decide_eq_false_2, app_nil_r, lookup_insert_ne by done. apply Hg.
Qed.

Section Read.
Context (f2d : Z → Z) (env : pbc_env) (sub : reader).

(** The atom is decoded into the value of the item. *)
Definition decodes (msg : list Z) (a : atom) (p : item) : Prop :=
  f_label p.1 ≠ LABEL_PACKED
  ∧ match p.2 with
    | inl v => f_type p.1 ≠ PTYPE_MESSAGE
        ∧ if is_repeated p.1 then ∀ arr, push_value_scalar f2d env msg p.1 a arr = _pbcA_push arr v
          else ∀ err, read_value f2d env sub msg p.1 a err = Done (Some (RVar p.1 v), err)
    | inr rm => f_type p.1 = PTYPE_MESSAGE ∧ is_lend a = true ∧ r_msg rm ≠ None
        ∧ ∃ m, message_of env p.1 = Done m
            ∧ sub m (drop (Z.to_nat (a_start a)) msg) (a_end a - a_start a) None = Done (rm, None)
    end.

(** A value is pushed behind those of its field. *)
Lemma push_value_entry msg a f v vs rv : decodes msg a (f, v) → is_repeated f = true → (vs = [] ∧ rv = new_array f ∨ entry f vs rv) →
  ∃ rv' n, push_value_array f2d env sub msg f a rv None = Done (rv', n, None) ∧ n ≠ 0 ∧ entry f (vs ++ [v]) rv'.
Proof.
  intros (Hlab & Hd) Hr Hrv. cbn [fst snd] in *. unfold entry in *. rewrite Hr in *.
  assert (f_label f =? LABEL_REPEATED = true) as Hrep by (unfold is_repeated in Hr; rewrite (proj2 (Z.eqb_neq _ LABEL_PACKED) Hlab), orb_false_r in Hr; done).
  assert (∀ {A} (l : list A) x a', holds a' (l ++ [x]) → pbc_array_size a' ≠ 0) as Hsz.
  { intros A l x a' (_ & _ & Hn). unfold pbc_array_size. rewrite Hn, zlen_app. change (zlen [x]) with 1. pose proof (zlen_nonneg l). lia. }
  destruct v as [v|rm].
  - destruct Hd as [Ht Hd]. rewrite (proj2 (Z.eqb_neq _ _) Ht) in *.
    assert (∃ arr l, rv = RArr f arr ∧ vs = map inl l ∧ holds arr l) as (arr & l & -> & -> & Hh).
    { destruct Hrv as [[-> ->]|H]; [|done]. exists _pbcA_open_heap, []. split; [|split; [done | apply open_holds]].
      unfold new_array. by rewrite (proj2 (Z.eqb_neq _ _) Ht), andb_false_r. }
    destruct (push_holds arr l v Hh) as (arr' & Hp & Hh'). unfold push_value_array. rewrite (proj2 (Z.eqb_neq _ _) Hlab), Hd, Hp. cbn [obind].
    eexists _, _. split; [done|]. split; [by eapply Hsz|]. exists arr', (l ++ [v]). by rewrite List.map_app.
  - destruct Hd as (Ht & Hlend & Hne & m & Hm & Hsub). rewrite (proj2 (Z.eqb_eq _ _) Ht) in *.
    assert (∃ arr l, rv = RSubs f arr ∧ vs = map inr l ∧ holds arr l) as (arr & l & -> & -> & Hh).
    { destruct Hrv as [[-> ->]|H]; [|done]. exists _pbcA_open_heap, []. split; [|split; [done | apply open_holds]].
      unfold new_array. by rewrite (proj2 (Z.eqb_eq _ _) Ht), Hrep. }
    destruct (push_holds arr l rm Hh) as (arr' & Hp & Hh'). unfold push_value_array, push_value_message. rewrite Hlend, Hm. cbn [negb obind].
    rewrite Hsub. cbn [obind]. destruct (r_msg rm); [|done]. rewrite Hp. cbn [obind].
    eexists _, _. split; [done|]. split; [by eapply Hsz|]. exists arr', (l ++ [rm]). by rewrite List.map_app.
Qed.

(** A value that is not repeated. *)
Lemma read_value_entry msg a f v : decodes msg a (f, v) → is_repeated f = false →
  ∃ rv, read_value f2d env sub msg f a None = Done (Some rv, None) ∧ entry f [v] rv.
Proof.
  intros (Hlab & Hd) Hr. cbn [fst snd] in *. unfold entry. rewrite Hr in *. destruct v as [v|rm].
  - destruct Hd as [Ht Hd]. rewrite (proj2 (Z.eqb_neq _ _) Ht), Hd. eauto 6.
  - destruct Hd as (Ht & Hlend & _ & m & Hm & Hsub). rewrite (proj2 (Z.eqb_eq _ _) Ht). exists (RSub f rm). split; [|by exists rm].
    assert (scalar_var f2d env f a = Done None) as Hs by (unfold scalar_var; rewrite Ht; done).
    unfold read_value. rewrite Hs. cbn [obind]. rewrite Ht, Hlend. cbn [Z.eqb Pos.eqb PTYPE_STRING PTYPE_BYTES PTYPE_MESSAGE negb].
    rewrite Hm. cbn [obind]. by rewrite Hsub.
Qed.

Lemma read_atom_item type msg a p index items :
  _pbcM_ip_query (m_id type) (Z.shiftr (wire_id a) 3) = Done (Some p.1) → decodes msg a p →
  sp_ok index → indexed (sp_abs index) items → items_ok (items ++ [p]) →
  ∃ index', read_atom f2d env sub type msg a index None = Done (index', None)
    ∧ sp_ok index' ∧ indexed (sp_abs index') (items ++ [p]).
Proof.
  intros Hq Hd Hok Hidx Hitems. destruct p as [f v]. cbn [fst] in *. unfold read_atom. rewrite Hq. cbn [obind].
  destruct (indexed_store _ _ _ _ Hidx Hitems) as [Hold Hnext]. fold (is_repeated f). destruct (is_repeated f) eqn:Hr.
  - destruct (query_insert_slot index (f_name f) Hok) as (m1 & i & s & -> & Hs & Hp & Hstore). cbn [obind].
    rewrite read_at_nat, Hs. cbn [obind].
    destruct (push_value_entry msg a f v (map snd (named_items (f_name f) items)) (match sp_pointer s with Some v => v | None => new_array f end) Hd Hr)
      as (rv & n & -> & Hn & He).
    { rewrite Hp. destruct Hold as [[-> ->]|(_ & _ & rv & -> & He)]; [by left | by right]. }
    cbn [obind]. rewrite (proj2 (Z.eqb_neq _ _) Hn). destruct (Hstore (Some rv)) as [Hok' Hab']. eexists. split; [done|]. split; [done|].
    rewrite Hab'. by apply Hnext.
  - destruct Hold as [[Hnil Hnone]|(_ & Hr' & _)]; [|congruence]. destruct (read_value_entry msg a f v Hd Hr) as (rv & -> & He). cbn [obind].
    destruct (sp_step_ok index (OpInsert (f_name f) (Some rv)) Hok Hnone) as (index' & Hins & Hok' & Hab'). cbn [sp_step] in Hins.
    rewrite Hins. cbn [obind]. exists index'. split; [done|]. split; [done|]. rewrite Hab'. apply Hnext. by rewrite Hnil.
Qed.

Lemma read_loop_items type msg ctx its : ∀ atoms items index i,
  Forall2 (λ a p, _pbcM_ip_query (m_id type) (Z.shiftr (wire_id a) 3) = Done (Some p.1) ∧ decodes msg a p) atoms its →
  (∀ k a, atoms !! k = Some a → ctx_atom ctx (i + Z.of_nat k) = Done a) →
  sp_ok index → indexed (sp_abs index) items → items_ok (items ++ its) →
  ∃ index', read_loop f2d env (length atoms) sub type msg ctx i index None = Done (index', None)
    ∧ sp_ok index' ∧ indexed (sp_abs index') (items ++ its).
Proof.
  induction its as [|p its IH]; intros atoms items index i Hall Hctx Hok Hidx Hitems.
  { apply Forall2_nil_inv_r in Hall as ->. exists index. by rewrite app_nil_r. }
  apply Forall2_cons_inv_r in Hall as (a & atoms' & [Hq Hd] & Hall & ->). cbn [length read_loop].
  pose proof (Hctx 0%nat a eq_refl) as H0. rewrite Z.add_0_r in H0. rewrite H0. cbn [obind].
  assert (items_ok (items ++ [p])) as Hitems1.
  { destruct Hitems as [H1 H2]. split; [intros x y Hx Hy; apply H1; set_solver|]. intros name x Hx Hr.
    specialize (H2 name x). rewrite (cons_middle p items its), app_assoc, named_items_app in H2.
    assert (x ∈ named_items name (items ++ [p]) ++ named_items name its) as Hx' by (apply elem_of_app; by left).
    specialize (H2 Hx' Hr). clear Hr. rename H2 into Hr. rewrite length_app in Hr. destruct (named_items name (items ++ [p])) as [|y [|]]; [by apply elem_of_nil in Hx | done | cbn in Hr; lia]. }
  destruct (read_atom_item type msg a p index items Hq Hd Hok Hidx Hitems1) as (index1 & -> & Hok1 & Hidx1). cbn [obind].
  destruct (IH atoms' (items ++ [p]) index1 (i + 1)) as (index2 & -> & Hok2 & Hidx2); [done | | done | done | by rewrite <- app_assoc |].
  { intros k b Hk. replace (i + 1 + Z.of_nat k) with (i + Z.of_nat (S k)) by lia. by apply Hctx. }
  exists index2. rewrite <- app_assoc in Hidx2. done.
Qed.
End Read.

(** ** Written fields *)

(** The high word the reader stores for an integer field. *)
Definition op_hi (f : _field) (l h : Z) : Z :=
  if bool_decide (f_type f ∈ [PTYPE_INT64; PTYPE_UINT64; PTYPE_INT32; PTYPE_FIXED64; PTYPE_SFIXED64; PTYPE_SINT64]) then h
  else if f_type f =? PTYPE_SINT32 then hi (_pbcV_dezigzag32 (Longlong (zz (s32 l)) 0))
  else 0.

(** The value of a written field; [post] is what follows it in the message. *)
Definition op_var (post : list Z) (op : wop) : pbc_var :=
  match op with
  | WInt f l h => VInteger l (op_hi f l h)
  | WDouble _ v => VReal v
  | WStr f bs _ =>
      if (f_type f =? PTYPE_STRING) && negb (bool_decide (last bs = Some 0))
      then VSlice (Some (bs ++ [0])) (if is_repeated f then - zlen bs else zlen bs)
      else VSlice (Some (bs ++ post)) (zlen bs)
  end.

(** [tail] follows the fields in memory. *)
Fixpoint op_items (tail : list Z) (ops : list wop) : list item :=
  match ops with
  | [] => []
  | op :: rest => (op_field op, inl (op_var (concat (map op_bytes rest) ++ tail) op)) :: op_items tail rest
  end.

Section Written.
Context (f2d : Z → Z) (env : pbc_env) (sub : reader).

Lemma integer_var f l h : f_type f ∈ int_types → f_type f ≠ PTYPE_ENUM → is_u32 l → is_u32 h →
  scalar_var f2d env f (integer_atom (f_type f) (f_id f) l h) = Done (Some (VInteger l (op_hi f l h))).
Proof.
  intros Ht Hne Hl Hh. assert (u32 (s32 l) = l) as El by (rewrite u32_s32; by apply u32_id).
  pose proof (dezigzag32_low (s32 l) 0 (s32_range l)) as E32. pose proof (dezigzag64_words l h Hl Hh) as E64. rewrite El in E32.
  unfold scalar_var, integer_atom, op_hi. set (t := f_type f) in *. clearbody t. unfold int_types in Ht.
  repeat (apply elem_of_cons in Ht as [->|Ht]; [try done|]); [..|by apply elem_of_nil in Ht].
  - unfold a_i. cbn [Z.eqb Pos.eqb orb PTYPE_DOUBLE PTYPE_FLOAT PTYPE_ENUM PTYPE_INT64 PTYPE_UINT64 PTYPE_FIXED64 PTYPE_SFIXED64
      PTYPE_INT32 PTYPE_UINT32 PTYPE_BOOL PTYPE_FIXED32 PTYPE_SFIXED32 PTYPE_SINT32 PTYPE_SINT64 word0 word1]. cbv zeta.
    rewrite bool_decide_eq_false_2 by (vm_compute; set_solver). by rewrite E32.
  - set (r := ll_of (zz (s64 (l + 2 ^ 32 * h)))) in *. assert (Longlong (low r) (hi r) = r) as Er by (by destruct r).
    unfold a_i. cbn [Z.eqb Pos.eqb orb PTYPE_DOUBLE PTYPE_FLOAT PTYPE_ENUM PTYPE_INT64 PTYPE_UINT64 PTYPE_FIXED64 PTYPE_SFIXED64
      PTYPE_INT32 PTYPE_UINT32 PTYPE_BOOL PTYPE_FIXED32 PTYPE_SFIXED32 PTYPE_SINT32 PTYPE_SINT64 word0 word1]. cbv zeta.
    rewrite Er, E64. reflexivity.
Qed.

(** A scalar is decoded the same way alone and as an element. *)
Lemma scalar_decodes msg a f v : f_type f ≠ PTYPE_MESSAGE → f_label f ≠ LABEL_PACKED →
  scalar_var f2d env f a = Done (Some v) → decodes f2d env sub msg a (f, inl v).
Proof.
  intros Ht Hl Hs. split; [done|]. cbn [fst snd]. split; [done|]. destruct (is_repeated f).
  - intros arr. unfold push_value_scalar. by rewrite Hs.
  - intros err. unfold read_value. by rewrite Hs.
Qed.

Lemma slice_read pre hd bs post : let msg := pre ++ (hd ++ bs) ++ post in
  drop (Z.to_nat (zlen (pre ++ hd))) msg = bs ++ post ∧ bytes_at msg (zlen (pre ++ hd)) (zlen bs) = Done bs
  ∧ (bs ≠ [] → ∃ c, last bs = Some c ∧ read_at msg (zlen (pre ++ hd) + (zlen bs - 1)) = Done c).
Proof.
  intros msg. assert (msg = (pre ++ hd) ++ bs ++ post) as Em by (unfold msg; by rewrite <- !app_assoc). rewrite Em.
  pose proof (zlen_nonneg (pre ++ hd)). pose proof (zlen_nonneg bs). pose proof (zlen_nonneg post).
  split; [apply drop_zlen_app|]. split.
  - unfold bytes_at. rewrite !(proj2 (Z.leb_le _ _)) by (rewrite ?(zlen_app (pre ++ hd)), ?(zlen_app bs); lia). cbn [andb]. rewrite drop_zlen_app.
    unfold zlen at 1. by rewrite Nat2Z.id, take_app_length.
  - intros Hne. destruct (last bs) as [c|] eqn:El; [|by apply last_None in El]. exists c. split; [done|]. apply last_Some in El as (b0 & ->).
    rewrite (zlen_app b0). change (zlen [c]) with 1. replace (zlen (pre ++ hd) + (zlen b0 + 1 - 1)) with (Z.of_nat (length ((pre ++ hd) ++ b0))) by (rewrite length_app; unfold zlen; lia).
    rewrite read_at_nat. rewrite <- (app_assoc b0 [c] post), (app_assoc (pre ++ hd) b0). cbn [app]. rewrite list_lookup_middle by done. done.
Qed.

(** The atom of bytes after the head [hd], which starts after [pre]. *)
Lemma lend_atom id (pre hd bs : list Z) : id_ok id → zlen pre + zlen hd + zlen bs < 2 ^ 31 →
  let a := Atom (key id WT_LEND) (zlen pre + zlen hd) (zlen pre + zlen hd + zlen bs) in
  is_lend a = true ∧ a_start a = zlen (pre ++ hd) ∧ a_end a - a_start a = zlen bs.
Proof.
  intros Hid Hlen a. pose proof (zlen_nonneg pre). pose proof (zlen_nonneg hd). pose proof (zlen_nonneg bs). split_and!.
  - unfold is_lend, a; cbn [wire_id]. rewrite land_7. apply Z.eqb_eq. by apply key_spec.
  - unfold a_start, a; cbn [word0]. rewrite s32_id by (unfold is_s32; lia). by rewrite zlen_app.
  - unfold a_end, a_start, a; cbn [word0 word1]. rewrite !s32_id by (unfold is_s32; lia). lia.
Qed.

Lemma op_decodes m op pre post : op_ok m op → zlen (pre ++ op_bytes op ++ post) < 2 ^ 31 →
  _pbcM_ip_query (m_id m) (Z.shiftr (wire_id (op_atom op (zlen pre))) 3) = Done (Some (op_field op))
  ∧ decodes f2d env sub (pre ++ op_bytes op ++ post) (op_atom op (zlen pre)) (op_field op, inl (op_var post op)).
Proof.
  intros (_ & Hq & Hid & Hlab & Hop) Hlen.
  split.
  { assert (∃ wt, 0 <= wt < 8 ∧ wire_id (op_atom op (zlen pre)) = key (f_id (op_field op)) wt) as (wt & Hwt & ->); [|by rewrite key_number].
    destruct op as [f l h|f bs tail|f v]; cbn [op_atom op_field wire_id] in *; [|by exists WT_LEND|by exists WT_BIT64].
    unfold integer_atom. repeat case_match; cbn [wire_id]; eexists; split; try reflexivity; done. }
  destruct op as [f l h|f bs tail|f v]; cbn [op_field op_atom op_bytes op_var] in *.
  - destruct Hop as (Ht & Hne & Hl & Hh & _). apply scalar_decodes; [|done|by apply integer_var].
    intros E. rewrite E in Ht. unfold int_types in Ht. repeat (apply elem_of_cons in Ht as [Ht|Ht]; [done|]). by apply elem_of_nil in Ht.
  - destruct Hop as (Ht & Hb & Hne & _). set (hd := _pbcV_encode32 (key (f_id f) WT_LEND) ++ _pbcV_encode32 (zlen bs)) in *.
    rewrite (app_assoc (_pbcV_encode32 (key (f_id f) WT_LEND))) in Hlen |- *. fold hd in Hlen |- *.
    destruct (slice_read pre hd bs post) as (Hdrop & Hbytes & Hlast). specialize (Hlast Hne). destruct Hlast as (c & Hc & Hread).
    pose proof (zlen_nonneg pre). pose proof (zlen_nonneg hd). pose proof (zlen_pos bs Hne) as Hpos. pose proof (zlen_nonneg post).
    rewrite !zlen_app in Hlen. set (msg := pre ++ (hd ++ bs) ++ post) in *.
    set (a := Atom (key (f_id f) WT_LEND) (zlen pre + zlen hd) (zlen pre + zlen hd + zlen bs)).
    destruct (lend_atom (f_id f) pre hd bs Hid ltac:(lia)) as (Hlend & Es & Ee). fold a in Hlend, Es, Ee.
    assert (scalar_var f2d env f a = Done None ∧ f_type f ≠ PTYPE_MESSAGE) as [Hs Hnm].
    { repeat (apply elem_of_cons in Ht as [Ht|Ht]; [unfold scalar_var; rewrite Ht; done|]). by apply elem_of_nil in Ht. }
    split; [done|]. cbn [fst snd]. split; [done|]. rewrite Hc.
    repeat (apply elem_of_cons in Ht as [Ht|Ht]); [..|by apply elem_of_nil in Ht]; rewrite Ht; cbn [Z.eqb Pos.eqb PTYPE_STRING PTYPE_BYTES andb].
    + destruct (is_repeated f); [intros arr; unfold push_value_scalar | intros err; unfold read_value]; rewrite Hs; cbn [obind];
        rewrite Ht, Hlend; cbn [Z.eqb Pos.eqb PTYPE_STRING negb]; unfold read_string_var, read_string; cbv zeta; rewrite Ee, Es.
      * rewrite (proj2 (Z.eqb_neq (zlen bs) 0)) by lia. rewrite Hread. cbn [obind].
        destruct (Z.eqb_spec c 0) as [->|Hc0]; [rewrite bool_decide_eq_true_2 by done | rewrite bool_decide_eq_false_2 by congruence]; cbn [negb obind]; [by rewrite Hdrop | by rewrite Hbytes].
      * rewrite (proj2 (Z.ltb_lt 0 (zlen bs))) by lia. rewrite Hread. cbn [obind].
        destruct (Z.eqb_spec c 0) as [->|Hc0]; [rewrite bool_decide_eq_true_2 by done | rewrite bool_decide_eq_false_2 by congruence]; cbn [negb obind]; [by rewrite Hdrop | by rewrite Hbytes].
    + destruct (is_repeated f); [intros arr; unfold push_value_scalar | intros err; unfold read_value]; rewrite Hs; cbn [obind];
        rewrite Ht, Hlend; cbn [Z.eqb Pos.eqb PTYPE_STRING PTYPE_BYTES negb]; unfold bytes_var; rewrite Ee, Es, Hdrop; done.
  - destruct Hop as (Ht & Hv & _). apply scalar_decodes; [by rewrite Ht | done |]. unfold scalar_var. rewrite Ht. cbn [Z.eqb Pos.eqb PTYPE_DOUBLE].
    unfold read_double. cbn [word0 word1]. rewrite join64_val by (apply u32_range || by apply high_word_range).
    do 3 f_equal. unfold u32. pose proof (Z.div_mod v (2 ^ 32) ltac:(lia)). lia.
Qed.

Lemma ops_decode m msg tail ops : ∀ pre, Forall (op_ok m) ops → msg = pre ++ concat (map op_bytes ops) ++ tail → zlen msg < 2 ^ 31 →
  Forall2 (λ a p, _pbcM_ip_query (m_id m) (Z.shiftr (wire_id a) 3) = Done (Some p.1) ∧ decodes f2d env sub msg a p)
    (chunk_atoms (map op_chunk ops) (zlen pre)) (op_items tail ops).
Proof.
  induction ops as [|op ops IH]; intros pre Hok Hmsg Hlen; cbn [map chunk_atoms op_items]; [constructor|].
  apply Forall_cons in Hok as [Hop Hok]. cbn [map concat] in Hmsg. rewrite <- app_assoc in Hmsg. constructor.
  - rewrite Hmsg in Hlen |- *. by apply op_decodes.
  - rewrite <- zlen_app. apply IH; [done | by rewrite <- app_assoc | done].
Qed.
End Written.

(** ** Reading back *)

(** The fields that are not repeated are written once. *)
Definition singular_once (ops : list wop) : Prop :=
  NoDup (f_name <$> List.filter (λ f, negb (is_repeated f)) (map op_field ops)).

(** The writes of one field, in order. *)
Definition writes_of (f : _field) (ops : list wop) : list wop := List.filter (λ op, bool_decide (op_field op = f)) ops.

(** What the accessors answer for the [i]-th value of the field [op] wrote: the
    number, or the bytes written; a string ends in a zero. *)
Definition reads_op (rm : rmessage) (op : wop) (i : Z) : Prop :=
  match op with
  | WInt f l h => pbc_rmessage_integer rm (f_name f) i true = Done (l, Some (op_hi f l h))
  | WDouble f v => pbc_rmessage_real rm (f_name f) i = Done v
  | WStr f bs _ => ∃ p, pbc_rmessage_string rm (f_name f) i = Done (Some p, zlen bs) ∧ take (length bs) p = bs
      ∧ (f_type f = PTYPE_STRING → last bs = Some 0 ∨ p !! length bs = Some 0)
  end.

Lemma op_items_fields tail ops : (op_items tail ops).*1 = map op_field ops.
Proof. induction ops as [|op ops IH]; [done|]. cbn. by rewrite IH. Qed.

(** Fields that the message has under their names, the singular ones once. *)
Lemma items_ok_intro m items :
  (∀ f, f ∈ items.*1 → _pbcM_sp_query (Some (m_name m)) (f_name f) = Done (Some f)) →
  NoDup (f_name <$> List.filter (λ f, negb (is_repeated f)) items.*1) → items_ok items.
Proof.
  intros Hquery Hsing. assert (∀ p q, p ∈ items → q ∈ items → f_name p.1 = f_name q.1 → p.1 = q.1) as Hone.
  { intros p q Hp Hq E. assert (∀ p, p ∈ items → _pbcM_sp_query (Some (m_name m)) (f_name p.1) = Done (Some p.1)) as Hin.
    { intros p' Hp'. apply Hquery, list_elem_of_fmap. eauto. }
    pose proof (Hin p Hp) as Ep. pose proof (Hin q Hq) as Eq. rewrite E in Ep. congruence. }
  split; [done|]. clear Hquery.
  induction items as [|[f v] items IH]; intros name p Hp Hr; [by apply elem_of_nil in Hp|].
  assert (∀ q, q ∈ named_items name ((f, v) :: items) → q.1 = p.1) as Hsame.
  { intros q Hq. apply named_items_elem in Hp as [Hp Hn], Hq as [Hq Hn']. apply Hone; [done | done | congruence]. }
  unfold named_items in *. cbn [List.filter fst fmap list_fmap] in *. destruct (decide (f_name f = name)) as [En|En].
  - rewrite (bool_decide_eq_true_2 (f_name f = name)) in * by done. cbn [length]. f_equal. apply length_zero_iff_nil.
    assert (f = p.1) as Ef by (apply (Hsame (f, v)), elem_of_cons; by left). rewrite Ef, Hr in Hsing. cbn [negb fmap list_fmap] in Hsing. apply NoDup_cons in Hsing as [Hno _].
    destruct (List.filter _ items) as [|q rest] eqn:Eq; [done|]. exfalso. apply Hno. rewrite <- Ef.
    assert (q.1 = p.1) as Eqp by (apply (Hsame q), elem_of_cons; right; apply elem_of_cons; by left).
    assert (q ∈ items) as Hqi. { apply list_elem_of_In. eapply List.filter_In. rewrite Eq. by left. }
    apply list_elem_of_fmap. exists q.1. split; [by rewrite Ef, Eqp|]. apply list_elem_of_In, List.filter_In. split; [|by rewrite Eqp, Hr].
    apply list_elem_of_In, list_elem_of_fmap. by exists q.
  - rewrite (bool_decide_eq_false_2 (f_name f = name)) in * by done. apply (IH) with (p := p); [| |done|done];
      first [by intros x y Hx Hy; apply Hone; apply elem_of_cons; right | destruct (negb (is_repeated f)); [|done]; cbn [fmap list_fmap] in Hsing; by apply NoDup_cons in Hsing as [_ Hsing]].
Qed.

Lemma op_items_ok m tail ops : Forall (op_ok m) ops → singular_once ops → items_ok (op_items tail ops).
Proof.
  intros Hok Hsing. apply (items_ok_intro m); rewrite op_items_fields; [|done]. intros f Hf. apply list_elem_of_fmap in Hf as (op & -> & Hop).
  rewrite Forall_forall in Hok. apply Hok, Hop.
Qed.

(** The items of a field are its writes. *)
Lemma named_writes m tail f ops : Forall (op_ok m) ops → _pbcM_sp_query (Some (m_name m)) (f_name f) = Done (Some f) →
  Forall2 (λ op p, p.1 = f ∧ op_field op = f ∧ ∃ post, p.2 = inl (op_var post op)) (writes_of f ops) (named_items (f_name f) (op_items tail ops)).
Proof.
  intros Hok Hf. induction Hok as [|op ops Hop Hok IH]; [constructor|]. unfold writes_of, named_items in *. cbn [List.filter op_items fst].
  destruct (decide (op_field op = f)) as [E|E].
  - rewrite !bool_decide_eq_true_2 by congruence. constructor; [|done]. cbn. eauto.
  - rewrite (bool_decide_eq_false_2 (op_field op = f)) by done. rewrite bool_decide_eq_false_2; [done|]. intros En. apply E.
    destruct Hop as (Hq & _). rewrite En, Hf in Hq. congruence.
Qed.

Lemma var_reads m rm op post i : op_ok m op →
  rmessage_var rm (f_name (op_field op)) i = Done (f_type (op_field op), op_var post op) → reads_op rm op i.
Proof.
  intros (_ & _ & _ & _ & Hop) Hv. destruct op as [f l h|f bs tail|f v]; cbn [op_field op_var reads_op] in *.
  - destruct Hop as (_ & Hne & _). unfold pbc_rmessage_integer. rewrite Hv. cbn [obind]. by rewrite (proj2 (Z.eqb_neq _ _) Hne).
  - destruct Hop as (Ht & _ & Hne & _). pose proof (zlen_pos bs Hne). unfold pbc_rmessage_string. rewrite Hv. cbn [obind].
    assert (f_type f =? PTYPE_ENUM = false) as -> by (apply Z.eqb_neq; intros E; rewrite E in Ht; repeat (apply elem_of_cons in Ht as [Ht|Ht]; [done|]); by apply elem_of_nil in Ht).
    destruct (_ && _) eqn:Eb; bprop.
    + exists (bs ++ [0]). split.
      * destruct (is_repeated f); [rewrite (proj2 (Z.ltb_lt _ 0)) by lia; by rewrite Z.opp_involutive | by rewrite (proj2 (Z.ltb_ge _ 0)) by lia].
      * split; [apply take_app_length|]. intros _. right. by apply list_lookup_middle.
    + exists (bs ++ post). rewrite (proj2 (Z.ltb_ge (zlen bs) 0)) by lia. split; [done|]. split; [apply take_app_length|]. intros Et. left.
      destruct Eb as [Eb|Eb]; [by rewrite Et in Eb|]. bprop. by apply bool_decide_eq_true in Eb.
  - unfold pbc_rmessage_real. rewrite Hv. done.
Qed.

(** ** Properties *)

(** Fields that are decoded one by one are read into an index of their values,
    whatever follows the message in memory. *)
Lemma read_chunks f2d env stk fuel m cs tail items :
  let buffer := chunks_bytes cs ++ tail in
  Forall chunk_ok cs → zlen (chunks_bytes cs) <= 2 ^ 30 → (∀ i, stack_ok (stk i)) → items_ok items →
  Forall2 (λ a p, _pbcM_ip_query (m_id m) (Z.shiftr (wire_id a) 3) = Done (Some p.1)
                  ∧ decodes f2d env (_pbc_rmessage_new f2d env stk fuel) buffer a p) (chunk_atoms cs 0) items →
  ∃ index, _pbc_rmessage_new f2d env stk (S fuel) (Some m) buffer (zlen (chunks_bytes cs)) None = Done (RMessage (Some m) (Some index), None)
    ∧ sp_ok index ∧ indexed (sp_abs index) items.
Proof.
  intros buffer Hcs Hlen Hstk Hitems Hall. cbn [_pbc_rmessage_new].
  assert (∀ n, n <= 2 ^ 30 → ∃ index0 : map_sp rvalue, _pbcM_sp_new n true = Done index0 ∧ sp_ok index0 ∧ sp_abs index0 = ∅) as Hnew.
  { intros n Hn. destruct (sp_new_ok (V := rvalue) n true Hn) as (index0 & Hnew & Hwf0 & Ha0 & _). exists index0. split; [done|].
    unfold sp_ok, sp_abs. rewrite Ha0. split; [split; [done | constructor] | done]. }
  destruct (decide (cs = [])) as [->|Hne].
  { change (zlen (chunks_bytes [])) with 0. cbn [Z.eqb]. destruct (Hnew 0 ltac:(lia)) as (index0 & -> & Hok0 & Habs0). cbn [obind].
    exists index0. split; [done|]. split; [done|]. apply Forall2_nil_inv_l in Hall as ->. rewrite Habs0. intros name. apply lookup_empty. }
  pose proof (chunks_nonempty cs Hcs Hne) as Hp1. rewrite (proj2 (Z.eqb_neq (zlen (chunks_bytes cs)) 0)) by lia.
  destruct (open_chunks_in cs tail stk Hcs Hne) as (ctx & Hopen & Hnum & Hatoms); [lia | done |]. unfold buffer. rewrite Hopen. cbn [obind].
  rewrite (proj2 (Z.leb_gt (zlen cs) 0)) by (by apply zlen_pos). pose proof (chunks_count cs Hcs).
  destruct (Hnew (zlen cs) ltac:(lia)) as (index0 & -> & Hok0 & Habs0). cbn [obind]. rewrite Hnum.
  destruct (read_loop_items f2d env (_pbc_rmessage_new f2d env stk fuel) m buffer ctx items (chunk_atoms cs 0) [] index0 0 Hall) as (index & Hloop & Hiok & Hidx).
  { intros k a Hk. rewrite Z.add_0_l. by apply Hatoms. } { done. } { rewrite Habs0. intros name. apply lookup_empty. } { done. }
  rewrite length_chunk_atoms in Hloop. unfold zlen at 1. rewrite Nat2Z.id. fold buffer. rewrite Hloop. by exists index.
Qed.

(** The written message is read into an index of what was written. *)
Lemma written_index junk d2f f2d env type_name m ops stk :
  _pbcP_get_message env type_name = Done (Some m) →
  Forall (op_ok m) ops → ops ≠ [] → singular_once ops → zlen (concat (map op_bytes ops)) + 20 <= 2 ^ 30 → (∀ i, stack_ok (stk i)) →
  ∃ w index, do_ops junk d2f env (_wmessage_new junk m) ops = Done (Some w)
    ∧ pbc_rmessage_new f2d env stk type_name (written w) = Done (Some (RMessage (Some m) (Some index)), None)
    ∧ sp_ok index ∧ indexed (sp_abs index) (op_items [] ops).
Proof.
  intros Hm Hops Hne Hsing Hlen Hstk. destruct (new_ok junk m) as [Hok0 Hw0].
  destruct (ops_written junk d2f env m ops (_wmessage_new junk m) Hops eq_refl Hok0) as (w & Hw & _ & Hwr & _); [cbn [w_ptr _wmessage_new]; lia|].
  exists w. rewrite Hw0 in Hwr. cbn [app] in Hwr. set (msg := concat (map op_bytes ops)) in *.
  assert (chunks_bytes (map op_chunk ops) = msg) as Emsg by apply op_chunks_bytes.
  destruct (read_chunks f2d env stk (length msg) m (map op_chunk ops) [] (op_items [] ops)) as (index & Hr & Hok & Hidx).
  { apply (op_chunks m ops Hops). rewrite Emsg. lia. } { rewrite Emsg. lia. } { done. } { by eapply op_items_ok. }
  { rewrite Emsg. apply (ops_decode f2d env _ m _ [] ops []); [done | done | rewrite app_nil_r; lia]. }
  exists index. split; [done|]. split; [|done]. rewrite Emsg, app_nil_r in Hr.
  unfold pbc_rmessage_new. rewrite Hm. cbn [obind]. rewrite Hwr, Hr. done.
Qed.

Lemma op_not_message m op : op_ok m op → f_type (op_field op) ≠ PTYPE_MESSAGE.
Proof.
  intros (_ & _ & _ & _ & Hop) E. destruct op as [f l h|f bs tail|f v]; cbn [op_field] in *; destruct Hop as (Ht & _); rewrite E in Ht; [..|done].
  all: revert Ht; apply (bool_decide_unpack _); vm_compute; exact I.
Qed.

(** The variable of the [i]-th value of a field. *)
Lemma entry_var rm index f vs rv i v : r_index rm = Some index → _pbcM_sp_query (Some index) (f_name f) = Done (Some rv) → entry f vs rv →
  f_type f ≠ PTYPE_MESSAGE → vs !! i = Some (inl v) → rmessage_var rm (f_name f) (Z.of_nat i) = Done (f_type f, v).
Proof.
  intros Hrm Hq He Ht Hi. unfold rmessage_var, entry in *. rewrite Hrm, Hq. cbn [obind]. rewrite (proj2 (Z.eqb_neq _ _) Ht) in He. destruct (is_repeated f).
  - destruct He as (a & l & -> & -> & Hh). rewrite (index_holds a _ _ Hh) by lia. rewrite Nat2Z.id. rewrite list_lookup_fmap in Hi.
    destruct (l !! i); [|done]. by injection Hi as ->.
  - destruct He as (v' & -> & ->). destruct i as [|i]; [|done]. by injection Hi as ->.
Qed.

Lemma entry_size rm index f vs rv : r_index rm = Some index → _pbcM_sp_query (Some index) (f_name f) = Done (Some rv) → entry f vs rv →
  pbc_rmessage_size rm (f_name f) = Done (zlen vs).
Proof.
  intros Hrm Hq He. unfold pbc_rmessage_size. rewrite Hrm, Hq. cbn [obind]. unfold entry in He.
  destruct (is_repeated f), (f_type f =? PTYPE_MESSAGE).
  1,2: destruct He as (a & l & -> & -> & _ & _ & Hn); unfold pbc_array_size; rewrite Hn; unfold zlen; by rewrite length_map.
  all: by destruct He as (v & -> & ->).
Qed.

(** The [i]-th sub-message of a field. *)
Lemma entry_sub env rm index f vs rv i sub : r_index rm = Some index → _pbcM_sp_query (Some index) (f_name f) = Done (Some rv) → entry f vs rv →
  f_type f = PTYPE_MESSAGE → vs !! i = Some (inr sub) → pbc_rmessage_message env rm (f_name f) (Z.of_nat i) = Done (Some sub, None).
Proof.
  intros Hrm Hq He Ht Hi. unfold pbc_rmessage_message, entry in *. rewrite Hrm, Hq. cbn [obind]. rewrite (proj2 (Z.eqb_eq _ _) Ht) in He. destruct (is_repeated f).
  - destruct He as (a & l & -> & -> & Hh). rewrite (index_holds a _ _ Hh) by lia. rewrite Nat2Z.id. rewrite list_lookup_fmap in Hi.
    destruct (l !! i); [|done]. by injection Hi as ->.
  - destruct He as (v' & -> & ->). destruct i as [|i]; [|done]. by injection Hi as ->.
Qed.

(** The accessors find in the index what was written to a field, or its
    default. *)
Lemma index_reads m tail ops index f :
  Forall (op_ok m) ops → sp_ok index → in_index (sp_abs index) (f_name f) (named_items (f_name f) (op_items tail ops)) →
  _pbcM_sp_query (Some (m_name m)) (f_name f) = Done (Some f) → calc_hash (f_name f) ≠ 0 ∨ writes_of f ops ≠ [] →
  let rm := RMessage (Some m) (Some index) in
  pbc_rmessage_size rm (f_name f) = Done (zlen (writes_of f ops))
  ∧ (∀ i op, writes_of f ops !! i = Some op → reads_op rm op (Z.of_nat i))
  ∧ (writes_of f ops = [] → ∀ i, rmessage_var rm (f_name f) i = Done (f_type f, f_default_v f)).
Proof.
  intros Hops Hiok Hname Hf Hh rm. pose proof (named_writes m tail f ops Hops Hf) as Hnw.
  assert (∀ i op, writes_of f ops !! i = Some op → op_ok m op) as Hwok.
  { intros i op Hi. apply list_elem_of_lookup_2, list_elem_of_In, List.filter_In in Hi as [Hi _]. apply list_elem_of_In in Hi. rewrite Forall_forall in Hops. auto. }
  destruct (named_items (f_name f) (op_items tail ops)) as [|[f0 v0] rest] eqn:En.
  - apply Forall2_nil_inv_r in Hnw as Hnil. destruct Hh as [Hh|Hh]; [|done]. rewrite Hnil.
    assert (_pbcM_sp_query (Some index) (f_name f) = Done None) as Hq by (rewrite query_ok by auto; by rewrite Hname).
    unfold rm, pbc_rmessage_size, rmessage_var. cbn [r_index r_msg]. rewrite Hq. cbn [obind]. split; [done|]. split; [intros i op Hi; done|]. intros _ i.
    unfold _pbcP_message_default. rewrite Hf. done.
  - apply Forall2_length in Hnw as Hlens.
    assert (writes_of f ops ≠ []) as Hwne by (intros E; by rewrite E in Hlens).
    assert (f0 = f) as ->. { destruct (writes_of f ops) as [|op0 l0]; [done|]. apply Forall2_cons in Hnw as [(E & _) _]. done. }
    destruct Hname as (rv & Hrv & He). pose proof (index_query index _ _ Hiok Hrv) as Hq. change (v0 :: map snd rest) with (map snd ((f, v0) :: rest)) in He.
    set (vs := map snd ((f, v0) :: rest)) in *.
    assert (∀ i op, writes_of f ops !! i = Some op → ∃ post, vs !! i = Some (inl (op_var post op)) ∧ op_ok m op ∧ op_field op = f) as Hvs.
    { intros i op Hi. destruct (Forall2_lookup_l _ _ _ _ _ Hnw Hi) as ([f1 v1] & Hi' & E1 & Eop & post & Ev). exists post. unfold vs.
      rewrite list_lookup_fmap, Hi'. cbn in *. rewrite Ev. eauto. }
    assert (zlen vs = zlen (writes_of f ops)) as Hlen by (unfold vs, zlen; rewrite length_map; lia).
    assert (f_type f ≠ PTYPE_MESSAGE) as Hnm.
    { destruct (writes_of f ops) as [|op0 l0]; [done|]. destruct (Hvs 0%nat op0 eq_refl) as (_ & _ & Hop & <-). by eapply op_not_message. }
    split; [|split; [|done]].
    + rewrite <- Hlen. by eapply (entry_size rm index f vs rv).
    + intros i op Hi. destruct (Hvs i op Hi) as (post & Hi' & Hop & Hfo). apply (var_reads m _ op post); [done|]. rewrite Hfo.
      by apply (entry_var rm index f vs rv).
Qed.

Definition demo_writes : list wop :=
  demo_ops ++ [WInt (Field 300 [122] PTYPE_SINT32 LABEL_REPEATED (VInteger 0 0) (TName None)) 7 0].

Lemma demo_writes_op_ok : Forall (op_ok demo_msg) demo_writes.
Proof.
  repeat (apply Forall_cons; split); [.. | by apply Forall_nil]; unfold op_ok; cbn [op_field];
    (split; [vm_compute; reflexivity|]); (split; [vm_compute; reflexivity|]); (split; [split; vm_compute; congruence|]);
    (split; [vm_compute; discriminate|]).
  - split; [apply (bool_decide_unpack _); vm_compute; exact I|]. split; [vm_compute; discriminate|]. split; [width|]. split; [width|].
    intros _. vm_compute. reflexivity.
  - split; [apply (bool_decide_unpack _); vm_compute; exact I|]. split; [repeat (apply Forall_cons; split; [width|]); by apply Forall_nil|].
    split; [discriminate|]. intros E. discriminate E.
  - split; [apply (bool_decide_unpack _); vm_compute; exact I|]. split; [vm_compute; discriminate|]. split; [width|]. split; [width|].
    intros E. discriminate E.
  - split; [apply (bool_decide_unpack _); vm_compute; exact I|]. split; [vm_compute; discriminate|]. split; [width|]. split; [width|].
    intros E. discriminate E.
Qed.
