(* ===== verification/PackedRT.v ===== *)
(** * Packed fields, written and read back ([3rd/pbc/src/wmessage.c], [rmessage.c], [pattern.c])

    The elements given to [pbc_wmessage_integer] and [pbc_wmessage_real] for packed
    fields wait in a table by name until [pbc_wmessage_buffer] writes each field as
    one block, of varints or of eight bytes for each element;
    [pbc_rmessage_new] unpacks the blocks again ([_pbcP_unpack_packed]).  The calls
    for packed fields and those for other fields may be mixed in any order, and
    the number of elements is not limited. *)

From S2P Require Import Prelude Varint Chain PMap SpMap PArray StringPool Context Proto Wmessage Decode CMem Pattern Packed Rmessage RmessageRT.

(** ** Elements *)

(** The types whose elements are varints, and those whose elements take eight
    bytes. *)
Definition varint_types : list Z :=
  [PTYPE_INT64; PTYPE_UINT64; PTYPE_INT32; PTYPE_BOOL; PTYPE_UINT32; PTYPE_ENUM; PTYPE_SINT32; PTYPE_SINT64].

Definition fixed_types : list Z := [PTYPE_FIXED64; PTYPE_SFIXED64; PTYPE_DOUBLE].

Definition packed_types : list Z := varint_types ++ fixed_types.

(** The high word the reader finds: that of the 64-bit types only, a packed int32
    being written in 32 bits. *)
Definition packed_hi (t l h : Z) : Z :=
  if (t =? PTYPE_INT64) || (t =? PTYPE_UINT64) || (t =? PTYPE_SINT64) || (t =? PTYPE_FIXED64) || (t =? PTYPE_SFIXED64) then h
  else if t =? PTYPE_SINT32 then hi (_pbcV_dezigzag32 (Longlong (zz (s32 l)) 0))
  else 0.

Definition packed_post (t : Z) : longlong → longlong :=
  if t =? PTYPE_SINT32 then _pbcV_dezigzag32 else if t =? PTYPE_SINT64 then _pbcV_dezigzag64 else id.

Notation words := (Z * Z)%type.
Definition words_ok (w : words) : Prop := is_u32 w.1 ∧ is_u32 w.2.

(** The bits of a double. *)
Definition bits (w : words) : Z := w.1 + 2 ^ 32 * w.2.

(** What is pushed and what is unpacked for an element. *)
Definition pushed_var (t : Z) (w : words) : pbc_var := if t =? PTYPE_DOUBLE then VReal (bits w) else VInteger w.1 w.2.
Definition read_var (t : Z) (w : words) : pbc_var := if t =? PTYPE_DOUBLE then VReal (bits w) else VInteger w.1 (packed_hi t w.1 w.2).

(** What is kept: the elements of an enum get their names. *)
Definition read_elem (env : pbc_env) (f : _field) (w : words) : pbc_var :=
  if f_type f =? PTYPE_ENUM then VEnum (s32 w.1) (match enum_name env f (s32 w.1) with Done name => name | Fault _ => None end)
  else read_var (f_type f) w.

Definition varint_block (t : Z) (ws : list words) : list Z := varints_of t (map (pushed_var t) ws).
Definition fixed_block (ws : list words) : list Z := concat (map (λ w, int64_encode w.1 w.2) ws).

Definition block (t : Z) (ws : list words) : list Z := if bool_decide (t ∈ fixed_types) then fixed_block ws else varint_block t ws.

Lemma block_varint t ws : t ∈ varint_types → block t ws = varint_block t ws.
Proof.
  intros Ht. unfold block. rewrite bool_decide_eq_false_2; [done|]. intros Hf. revert Hf.
  repeat (apply elem_of_cons in Ht as [->|Ht]; [apply (bool_decide_unpack _); by vm_compute|]). by apply elem_of_nil in Ht.
Qed.

Lemma block_fixed t ws : t ∈ fixed_types → block t ws = fixed_block ws.
Proof. intros Ht. unfold block. by rewrite bool_decide_eq_true_2. Qed.

Lemma bits_words w : words_ok w → is_u64 (bits w) ∧ u32 (bits w) = w.1 ∧ bits w / 2 ^ 32 = w.2.
Proof. intros [Hl Hh]. unfold bits, is_u64, is_u32, u32 in *. destruct w as [l h]; cbn [fst snd] in *. split; [lia|]. split; zmod. Qed.

(** How the code tells the types apart. *)
Lemma varint_type t : t ∈ varint_types → is_Some (varint_enc t (VInteger 0 0)) ∧ (t =? PTYPE_DOUBLE) || (t =? PTYPE_FIXED64) || (t =? PTYPE_SFIXED64) = false
  ∧ (t =? PTYPE_FLOAT) || (t =? PTYPE_FIXED32) || (t =? PTYPE_SFIXED32) = false ∧ t =? PTYPE_DOUBLE = false.
Proof. intros Ht. repeat (apply elem_of_cons in Ht as [->|Ht]; [split; [by eexists|done]|]). by apply elem_of_nil in Ht. Qed.

Lemma fixed_type t : t ∈ fixed_types → (t =? PTYPE_DOUBLE) || (t =? PTYPE_FIXED64) || (t =? PTYPE_SFIXED64) = true.
Proof. intros Ht. repeat (apply elem_of_cons in Ht as [->|Ht]; [done|]). by apply elem_of_nil in Ht. Qed.

Lemma varint_vars t w : t ∈ varint_types → pushed_var t w = VInteger w.1 w.2 ∧ read_var t w = VInteger w.1 (packed_hi t w.1 w.2).
Proof.
  intros (_ & _ & _ & E)%varint_type. unfold pushed_var, read_var. by rewrite E.
Qed.

Lemma element_decodes t w : t ∈ varint_types → words_ok w →
  ∃ bs r, varint_enc t (pushed_var t w) = Some bs ∧ 1 <= zlen bs <= 10 ∧ bytes_ok bs ∧
    (∀ rest, _pbcV_decode (bs ++ rest) = Done (zlen bs, r)) ∧ packed_post t r = Longlong w.1 (packed_hi t w.1 w.2).
Proof.
  intros Ht [Hl Hh]. rewrite (proj1 (varint_vars t w Ht)). destruct w as [l h]. unfold varint_enc, packed_hi, packed_post, var_low, var_hi. cbn [fst snd] in *.
  assert (is_u64 (l + 2 ^ 32 * h)) as H64 by (unfold is_u64, is_u32 in *; lia). rewrite join64_val by done.
  pose proof (enc_bytes _ H64) as [Hb Hn]. pose proof (enc32_bytes _ Hl) as [Hb32 Hn32].
  assert (ll_of (l + 2 ^ 32 * h) = Longlong l h) as El by by apply ll_of_join.
  repeat (apply elem_of_cons in Ht as [->|Ht]; [|]); [..|by apply elem_of_nil in Ht];
    cbn [Z.eqb Pos.eqb orb PTYPE_INT64 PTYPE_UINT64 PTYPE_INT32 PTYPE_BOOL PTYPE_UINT32 PTYPE_ENUM PTYPE_SINT32 PTYPE_SINT64 PTYPE_FIXED64 PTYPE_SFIXED64].
  1,2: eexists _, (Longlong l h); split_and!; [done|lia|lia|done| |done]; intros rest; rewrite <- El; by apply decode_encode.
  1-4: eexists _, (Longlong l 0); split_and!; [done|lia|lia|done| |done]; intros rest; by apply decode_encode32.
  - rewrite zigzag32_encode by apply s32_range. pose proof (zz_u32 _ (s32_range l)) as Hz. destruct (enc32_bytes _ Hz) as [? ?].
    eexists _, (Longlong (zz (s32 l)) 0). split_and!; [done|lia|lia|done|intros rest; by apply decode_encode32|].
    pose proof (dezigzag32_low (s32 l) 0 (s32_range l)) as E. rewrite u32_s32, u32_id in E by done. rewrite <- E at 2. by destruct (_pbcV_dezigzag32 _).
  - rewrite zigzag_encode by apply s64_range. pose proof (zz_u64 _ (s64_range (l + 2 ^ 32 * h))) as Hz. destruct (enc_bytes _ Hz) as [? ?].
    eexists _, (ll_of (zz (s64 (l + 2 ^ 32 * h)))). split_and!; [done|lia|lia|done|intros rest; by apply decode_encode|by apply dezigzag64_words].
Qed.

Lemma block_cons t w ws bs : varint_enc t (pushed_var t w) = Some bs → varint_block t (w :: ws) = bs ++ varint_block t ws.
Proof. unfold varint_block, varints_of. cbn. by intros ->. Qed.

Lemma varint_size t ws : t ∈ varint_types → Forall words_ok ws → zlen ws <= zlen (varint_block t ws) <= 10 * zlen ws ∧ bytes_ok (varint_block t ws).
Proof.
  intros Ht. induction 1 as [|w ws Hw _ [IH IHb]]; [split; [done|constructor]|]. destruct (element_decodes t w Ht Hw) as (bs & r & He & Hn & Hb & _).
  rewrite (block_cons _ _ _ _ He), zlen_app, zlen_cons. split; [lia|]. by apply Forall_app.
Qed.

Lemma zlen_int64 w : zlen (int64_encode w.1 w.2) = 8.
Proof. done. Qed.

Lemma int64_bytes w : words_ok w → bytes_ok (int64_encode w.1 w.2).
Proof. intros [Hl Hh]. unfold int64_encode. rewrite !int32_encode_split by done. apply Forall_app. split; apply le_split_bytes. Qed.

Lemma fixed_size ws : Forall words_ok ws → zlen (fixed_block ws) = 8 * zlen ws ∧ bytes_ok (fixed_block ws).
Proof.
  unfold fixed_block. induction 1 as [|w ws Hw _ [IH IHb]]; [split; [done|constructor]|]. cbn [map concat]. rewrite zlen_app, zlen_cons, zlen_int64. split; [lia|].
  apply Forall_app. split; [by apply int64_bytes|done].
Qed.

Lemma packed_cases t : t ∈ packed_types → t ∈ varint_types ∨ t ∈ fixed_types.
Proof. apply elem_of_app. Qed.

Lemma block_size t ws : t ∈ packed_types → Forall words_ok ws → zlen ws <= zlen (block t ws) <= 10 * zlen ws ∧ bytes_ok (block t ws).
Proof.
  intros [Ht|Ht]%packed_cases Hws; [rewrite block_varint by done; by apply varint_size|]. rewrite block_fixed by done. destruct (fixed_size ws Hws) as [-> Hb].
  pose proof (zlen_nonneg ws). split; [lia|done].
Qed.

(** The loop of [_pbcP_unpack_packed] over varints. *)
Lemma unpack_varint_block t msg rest ws : ∀ fuel pos arr old n, t ∈ varint_types → Forall words_ok ws → holds arr old →
  drop (Z.to_nat pos) msg = varint_block t ws ++ rest → 0 <= pos → zlen (varint_block t ws) <= Z.of_nat fuel →
  ∃ arr', unpack_varints fuel msg pos (zlen (varint_block t ws)) (packed_post t) arr n = Done (Some (n + zlen ws), arr')
    ∧ holds arr' (old ++ map (read_var t) ws).
Proof.
  induction ws as [|w ws IH]; intros fuel pos arr old n Ht Hws Hh Hd Hp Hf.
  { exists arr. rewrite app_nil_r, Z.add_0_r. split; [|done]. by destruct fuel. }
  apply Forall_cons in Hws as [Hw Hws]. destruct (element_decodes t w Ht Hw) as (bs & r & He & Hn & _ & Hdec & Hpost).
  rewrite (block_cons _ _ _ _ He) in *. rewrite zlen_app in *. destruct (varint_size t ws Ht Hws) as [[Hge _] _]. pose proof (zlen_nonneg ws).
  destruct fuel as [|fuel]; [lia|]. cbn [unpack_varints]. rewrite (proj2 (Z.ltb_lt 0 _)) by lia. rewrite Hd, <- app_assoc, Hdec. cbn [obind].
  rewrite (proj2 (Z.ltb_ge (zlen bs + _) (zlen bs))) by lia. rewrite andb_false_r, Hpost. cbv zeta. cbn [low hi]. rewrite <- (proj2 (varint_vars t w Ht)).
  destruct (push_holds arr old (read_var t w) Hh) as (arr1 & Hpush & Hh1). rewrite Hpush. cbn [obind].
  replace (zlen bs + zlen (varint_block t ws) - zlen bs) with (zlen (varint_block t ws)) by lia.
  destruct (IH fuel (pos + zlen bs) arr1 (old ++ [read_var t w]) (n + 1)) as (arr2 & Hu & Hh2); [done..| |lia|lia|].
  { rewrite Z2Nat.inj_add, <- (drop_drop msg) by lia. rewrite Hd, <- app_assoc. apply drop_zlen_app. }
  exists arr2. rewrite Hu, zlen_cons. rewrite <- app_assoc in Hh2. split; [do 3 f_equal; lia|done].
Qed.

Lemma read_u32_drop msg pos : 0 <= pos → read_u32 msg pos = read_u32 (drop (Z.to_nat pos) msg) 0.
Proof.
  intros Hp. unfold read_u32. assert (∀ k : nat, read_at msg (pos + Z.of_nat k) = read_at (drop (Z.to_nat pos) msg) (Z.of_nat k)) as Hr.
  { intros k. replace (pos + Z.of_nat k) with (Z.of_nat (Z.to_nat pos + k)) by lia. by rewrite !read_at_nat, lookup_drop. }
  rewrite !Z.add_0_l. pose proof (Hr 0%nat) as H0. rewrite Z.add_0_r in H0. rewrite H0.
  change 1 with (Z.of_nat 1). change 2 with (Z.of_nat 2). change 3 with (Z.of_nat 3). by rewrite !Hr.
Qed.

Lemma read_u32_word v rest : is_u32 v → read_u32 (int32_encode v ++ rest) 0 = Done v.
Proof.
  intros Hv. rewrite int32_encode_split by done. pose proof (length_le_split 4 v) as H4. rewrite read_u32_tail; [|apply le_split_bytes|done|unfold zlen; by rewrite H4].
  rewrite drop_0, take_ge by (by rewrite H4). rewrite le_join_split. change (256 ^ Z.of_nat 4) with (2 ^ 32). by rewrite Z.mod_small.
Qed.

(** The loop over elements of eight bytes. *)
Lemma unpack_fixed_block t mk msg rest ws : (∀ w, words_ok w → mk w.1 w.2 = read_var t w) → ∀ pos arr old, Forall words_ok ws → holds arr old →
  drop (Z.to_nat pos) msg = fixed_block ws ++ rest → 0 <= pos →
  ∃ arr', unpack_fixed (length ws) msg 8 pos mk arr = Done arr' ∧ holds arr' (old ++ map (read_var t) ws).
Proof.
  intros Hmk. induction ws as [|w ws IH]; intros pos arr old Hws Hh Hd Hp; [exists arr; by rewrite app_nil_r|]. apply Forall_cons in Hws as [Hw Hws].
  unfold fixed_block in Hd. cbn [map concat] in Hd. rewrite <- app_assoc in Hd. fold (fixed_block ws) in Hd. pose proof Hw as [Hl Hhi]. cbn [length unpack_fixed Z.eqb Pos.eqb].
  unfold int64_encode in Hd. rewrite <- app_assoc in Hd. rewrite (read_u32_drop msg pos), Hd, read_u32_word by done. cbn [obind].
  assert (drop (Z.to_nat (pos + 4)) msg = int32_encode w.2 ++ fixed_block ws ++ rest) as Hd4.
  { rewrite Z2Nat.inj_add, <- drop_drop, Hd by lia. by rewrite drop_app_length' by done. }
  rewrite (read_u32_drop msg (pos + 4)), Hd4, read_u32_word by (done || lia). cbn [obind]. rewrite Hmk by done.
  destruct (push_holds arr old (read_var t w) Hh) as (arr1 & -> & Hh1). cbn [obind].
  destruct (IH (pos + 8) arr1 (old ++ [read_var t w]) Hws Hh1) as (arr2 & -> & Hh2); [|lia|].
  { replace (pos + 8) with (pos + 4 + 4) by lia. rewrite Z2Nat.inj_add, <- drop_drop, Hd4 by lia. by rewrite drop_app_length' by done. }
  exists arr2. rewrite <- app_assoc in Hh2. done.
Qed.

(** ** Blocks *)

(** A packed field with its elements. *)
Notation group := (_field * list words)%type.

Definition packed_ok (env : pbc_env) (m : _message) (f : _field) : Prop :=
  _pbcM_sp_query (Some (m_name m)) (f_name f) = Done (Some f) ∧ _pbcM_ip_query (m_id m) (f_id f) = Done (Some f)
  ∧ id_ok (f_id f) ∧ f_label f = LABEL_PACKED ∧ f_type f ∈ packed_types
  ∧ (f_type f = PTYPE_ENUM → ∀ id, is_s32 id → ∃ name, enum_name env f id = Done name).

Definition group_ok (env : pbc_env) (m : _message) (g : group) : Prop := packed_ok env m g.1 ∧ Forall words_ok g.2 ∧ g.2 ≠ [].

Definition group_block (g : group) : list Z := block (f_type g.1) g.2.

Definition group_head (g : group) : list Z := _pbcV_encode32 (key (f_id g.1) WT_LEND) ++ _pbcV_encode32 (zlen (group_block g)).

Definition group_bytes (g : group) : list Z := group_head g ++ group_block g.

Definition group_chunk (g : group) : chunk :=
  (group_bytes g, λ start, Atom (key (f_id g.1) WT_LEND) (start + zlen (group_head g)) (start + zlen (group_head g) + zlen (group_block g))).

(** How many elements there are. *)
Definition total (gs : list group) : Z := foldr (λ g n, zlen g.2 + n) 0 gs.

Lemma total_nonneg gs : 0 <= total gs.
Proof. induction gs as [|g gs IH]; [done|]. cbn. pose proof (zlen_nonneg g.2). unfold total in IH. lia. Qed.

Lemma group_size env m g : group_ok env m g → zlen g.2 <= 2 ^ 25 → 1 <= zlen g.2 ∧ zlen (group_block g) <= 10 * zlen g.2 ∧ zlen (group_bytes g) <= 20 * zlen g.2 ∧ bytes_ok (group_block g).
Proof.
  intros ((_ & _ & Hid & _ & Ht & _) & Hws & Hne) Hlen. pose proof (zlen_pos g.2 Hne). destruct (block_size (f_type g.1) g.2 Ht Hws) as [[Hge Hle] Hb]. fold (group_block g) in *.
  destruct (key_spec (f_id g.1) WT_LEND Hid ltac:(done)) as (_ & Hk & _). destruct (enc32_bytes _ Hk) as [_ Hk5].
  assert (is_u32 (zlen (group_block g))) as Hu by (unfold is_u32; lia). destruct (enc32_bytes _ Hu) as [_ Hu5].
  unfold group_bytes, group_head. rewrite !zlen_app. split_and!; [lia|lia|lia|done].
Qed.

Lemma group_one env m g : group_ok env m g → zlen g.2 <= 2 ^ 25 → chunk_ok (group_chunk g).
Proof.
  intros Hg Hlen. destruct (group_size env m g Hg Hlen) as (_ & Hle & _ & Hb). destruct Hg as ((_ & _ & Hid & _) & _).
  unfold chunk_ok, group_chunk, group_bytes. cbn [fst snd]. apply one_field_lend; [done|done|lia].
Qed.

(** The elements waiting under a name. *)
Definition waiting (p : _packed) (g : group) : Prop :=
  pk_id p = f_id g.1 ∧ pk_ptype p = f_type g.1 ∧ holds (pk_data p) (map (pushed_var (f_type g.1)) g.2).

Section Write.
Context (junk : nat → Z) (d2f : Z → Z).

(** Elements written eight bytes apart are one run of bytes. *)
Lemma put_fixed_block data all t ws : holds data all → ∀ pre old tail m i,
  drop (Z.to_nat i) all = map (pushed_var t) ws → 0 <= i → w_buf m = pre ++ old ++ tail → zlen pre = w_ptr m + i * 8 → zlen old = 8 * zlen ws → Forall words_ok ws →
  ∀ enc, (∀ w, words_ok w → enc (pushed_var t w) = int64_encode w.1 w.2) →
  put_elements (length ws) data enc 8 m i = Done (set_buf m (pre ++ fixed_block ws ++ tail) (w_ptr m)).
Proof.
  intros Hh. induction ws as [|w ws IH]; intros pre old tail m i Hd Hi Hbuf Hpre Hold Hws enc Henc; cbn [length put_elements].
  { assert (old = []) as -> by (destruct old; [done|by unfold zlen in Hold]). cbn. rewrite app_nil_l in Hbuf. rewrite <- Hbuf. by destruct m. }
  apply Forall_cons in Hws as [Hw Hws]. cbn [map] in Hd.
  assert (all !! Z.to_nat i = Some (pushed_var t w)) as Hat by (rewrite <- (Nat.add_0_r (Z.to_nat i)), <- lookup_drop, Hd; done).
  rewrite (index_holds data all i Hh Hi), Hat. cbn [obind]. rewrite Henc by done. rewrite zlen_cons in Hold. pose proof (zlen_nonneg ws).
  rewrite <- (take_drop 8 old), <- app_assoc in Hbuf. rewrite Hbuf, <- Hpre. rewrite write_at_here by (change (length (int64_encode w.1 w.2)) with 8%nat; rewrite length_take; unfold zlen in *; lia). cbn [obind].
  rewrite (IH (pre ++ int64_encode w.1 w.2) (drop 8 old) tail (set_buf m (pre ++ int64_encode w.1 w.2 ++ drop 8 old ++ tail) (w_ptr m)) (i + 1)).
  - unfold set_buf. cbn [w_buf w_ptr w_type w_sub w_packed]. unfold fixed_block. cbn [map concat]. by rewrite <- !app_assoc.
  - pose proof (drop_S all _ (Z.to_nat i) Hat) as Hd'. rewrite Hd in Hd'. injection Hd' as ->. by replace (Z.to_nat (i + 1)) with (S (Z.to_nat i)) by lia.
  - lia.
  - cbn [set_buf w_buf]. by rewrite <- app_assoc.
  - cbn [set_buf w_ptr]. rewrite zlen_app, zlen_int64. lia.
  - unfold zlen in *. rewrite length_drop. lia.
  - done.
  - done.
Qed.

Lemma pack_fixed p m t ws : pk_ptype p = t → t ∈ fixed_types → holds (pk_data p) (map (pushed_var t) ws) → Forall words_ok ws → wm_ok m →
  w_ptr m + 8 * zlen ws + 10 <= 2 ^ 30 →
  ∃ m', _pack_packed_64 junk p m = Done m' ∧ wrote m m' (_pbcV_encode32 (zlen (fixed_block ws)) ++ fixed_block ws).
Proof.
  intros Hpt Ht Hh Hws Hok Hmax. destruct (fixed_size ws Hws) as [Hsz _]. pose proof (zlen_nonneg ws). pose proof Hok as [Hptr _]. unfold _pack_packed_64.
  assert (pbc_array_size (pk_data p) = zlen ws) as -> by (destruct Hh as (_ & _ & Hn); unfold pbc_array_size; rewrite Hn; unfold zlen; by rewrite length_map).
  replace (zlen ws * 8) with (zlen (fixed_block ws)) by lia. assert (is_u32 (zlen (fixed_block ws))) as Hu by (unfold is_u32; lia). rewrite (u32_id _ Hu).
  destruct (enc32_bytes _ Hu) as [_ H5]. set (hdr := _pbcV_encode32 _) in *. set (n := zlen (fixed_block ws)) in *.
  destruct (expand_ok junk m (10 + n) Hok ltac:(lia) ltac:(lia)) as (m1 & -> & Hw1 & Hroom). cbn [obind]. pose proof Hw1 as (Hok1 & _ & Hp1 & _). rewrite zlen_nil in Hp1.
  destruct (emit_ok m1 hdr Hok1 ltac:(lia)) as (m2 & -> & Hw2 & Hz2). cbn [obind]. pose proof Hw2 as (Hok2 & _ & Hp2 & _).
  destruct (emit_ok m2 (fixed_block ws) Hok2 ltac:(fold n; lia)) as (m3 & Hm3 & Hw3 & _).
  pose proof (zlen_written m2 Hok2) as Hzw. destruct (buf_split m2 Hok2) as (rest & Hbuf). pose proof (f_equal zlen Hbuf) as Hbl. rewrite zlen_app in Hbl.
  replace (Z.to_nat (zlen ws)) with (length ws) by (unfold zlen; lia).
  assert (zlen (take (Z.to_nat n) rest) = n) as Htk by (unfold zlen in *; rewrite length_take; lia).
  rewrite (put_fixed_block (pk_data p) _ t ws Hh (written m2) (take (Z.to_nat n) rest) (drop (Z.to_nat n) rest) m2 0); [|done|done|by rewrite take_drop|lia|lia|done|].
  - cbn [obind set_buf w_buf w_ptr]. exists m3. split.
    + rewrite <- Hm3. unfold emit. assert (write_at (w_buf m2) (w_ptr m2) (fixed_block ws) = Done (written m2 ++ fixed_block ws ++ drop (Z.to_nat n) rest)) as ->; [|done].
      rewrite Hbuf, <- Hzw, <- (take_drop (Z.to_nat n) rest) at 1. apply write_at_here. unfold n, zlen in *. lia.
    + rewrite <- (app_nil_l (hdr ++ _)). eapply wrote_trans; [exact Hw1|]. by eapply wrote_trans.
  - intros w Hw. rewrite Hpt. destruct (bits_words w Hw) as (H64 & El & Eh). unfold pushed_var.
    destruct (Z.eqb_spec t PTYPE_DOUBLE); [|done]. cbn [var_real]. by rewrite double_encode_split, El, Eh.
Qed.

Lemma pack_group env m p g w : group_ok env m g → waiting p g → wm_ok w → w_ptr w + 52 * zlen g.2 <= 2 ^ 30 →
  ∃ w', _pack_packed junk d2f p w = Done w' ∧ wrote w w' (group_bytes g).
Proof.
  intros Hg (Hpid & Hpt & Hh) Hok Hmax. pose proof Hok as [Hptr _]. destruct (group_size env m g Hg) as (Hn & Hle & _ & _); [lia|].
  destruct Hg as ((_ & _ & Hid & _ & Ht & _) & Hws & _). destruct (key_spec (f_id g.1) WT_LEND Hid ltac:(done)) as (Ek & Hk & _). destruct (enc32_bytes _ Hk) as [_ Hk5].
  unfold _pack_packed. rewrite Hpid, Ek.
  destruct (expand_emit junk w 10 (_pbcV_encode32 (key (f_id g.1) WT_LEND)) Hok ltac:(lia) ltac:(lia)) as (w1 & Hw1 & Hwr1).
  destruct (_expand_message junk w 10) as [w0|]; [|done]. cbn [obind] in *. rewrite Hw1. cbn [obind]. pose proof Hwr1 as (Hok1 & _ & Hp1 & _).
  assert (∃ w2, (if (pk_ptype p =? PTYPE_DOUBLE) || (pk_ptype p =? PTYPE_FIXED64) || (pk_ptype p =? PTYPE_SFIXED64) then _pack_packed_64 junk p w1
      else if (pk_ptype p =? PTYPE_FLOAT) || (pk_ptype p =? PTYPE_FIXED32) || (pk_ptype p =? PTYPE_SFIXED32) then _pack_packed_32 junk d2f p w1
      else _pack_packed_varint junk p w1) = Done w2 ∧ wrote w1 w2 (_pbcV_encode32 (zlen (group_block g)) ++ group_block g)) as (w2 & Hw2 & Hwr2).
  2: { exists w2. split; [done|]. unfold group_bytes, group_head. rewrite <- app_assoc. by eapply wrote_trans. }
  unfold group_block in *. apply packed_cases in Ht as [Ht|Ht].
  - rewrite block_varint in * by done. destruct (varint_type _ Ht) as (Hs & Hf8 & Hf4 & _). rewrite Hpt, Hf8, Hf4. 
    destruct (pack_varint_ok junk p w1 (map (pushed_var (f_type g.1)) g.2)) as (w2 & Hw2 & Hwr2); [done|by rewrite Hpt| |done| |].
    + rewrite Forall_fmap. eapply Forall_impl; [exact Hws|]. intros x Hx. cbn. by rewrite (proj1 (varint_vars _ x Ht)).
    + rewrite Hpt. fold (varint_block (f_type g.1) g.2). unfold zlen at 1. rewrite length_map. fold (zlen g.2). lia.
    + exists w2. rewrite Hpt in Hwr2. done.
  - rewrite block_fixed in * by done. rewrite Hpt, (fixed_type _ Ht). by apply (pack_fixed p w1 (f_type g.1) g.2 Hpt Ht Hh Hws Hok1); lia.
Qed.

Lemma pack_groups env m ps gs w : Forall2 waiting ps gs → Forall (group_ok env m) gs → wm_ok w → w_ptr w + 52 * total gs <= 2 ^ 30 →
  ∃ w', pack_all junk d2f ps w = Done w' ∧ wrote w w' (chunks_bytes (map group_chunk gs)).
Proof.
  intros Hw. revert w. induction Hw as [|p g ps gs Hp Hw IH]; intros w Hgs Hok Hmax.
  { exists w. split; [done|]. by apply wrote_nil. }
  apply Forall_cons in Hgs as [Hg Hgs]. unfold total in Hmax. cbn [foldr] in Hmax. fold (total gs) in Hmax. pose proof (total_nonneg gs). pose proof Hok as [? _].
  destruct (pack_group env m p g w Hg Hp Hok ltac:(lia)) as (w1 & Hw1 & Hwr1). cbn [pack_all]. rewrite Hw1. cbn [obind].
  pose proof Hwr1 as (Hok1 & _ & Hp1 & _). destruct (group_size env m g Hg ltac:(lia)) as (_ & _ & Hsz & _).
  pose proof (zlen_nonneg g.2).   destruct (IH w1 Hgs Hok1 ltac:(lia)) as (w2 & -> & Hwr2). exists w2. split; [done|]. unfold chunks_bytes. cbn [map concat fst group_chunk]. by eapply wrote_trans.
Qed.
End Write.

(** ** The waiting elements *)

(** The elements given so far, with their fields, and those of one name. *)
Notation pushes := (list (_field * words)).

Definition named (name : list Z) (ws : pushes) : pushes := List.filter (λ w, bool_decide (f_name w.1 = name)) ws.

Definition elements (f : _field) (ws : pushes) : list words := (named (f_name f) ws).*2.

(** What waits under a name. *)
Definition waits_for (o : option (option _packed)) (ws : pushes) : Prop :=
  match ws with
  | [] => o = None
  | (f, _) :: _ => ∃ p, o = Some (Some p) ∧ waiting p (f, ws.*2)
  end.

Definition table_ok (o : option (map_sp _packed)) (ws : pushes) : Prop :=
  match o with
  | None => ws = []
  | Some pk => sp_ok pk ∧ ∀ name, waits_for (sp_abs pk !! name) (named name ws)
  end.

Lemma named_app name ws ws' : named name (ws ++ ws') = named name ws ++ named name ws'.
Proof. apply List.filter_app. Qed.

Lemma named_elem name w ws : w ∈ named name ws ↔ w ∈ ws ∧ f_name w.1 = name.
Proof. unfold named. by rewrite !list_elem_of_In, List.filter_In, bool_decide_eq_true. Qed.

Lemma new_table {V} n : n <= 2 ^ 30 → ∃ pk : map_sp V, _pbcM_sp_new n true = Done pk ∧ sp_ok pk ∧ sp_abs pk = ∅.
Proof.
  intros Hn. destruct (sp_new_ok (V := V) n true Hn) as (pk & Hnew & Hwf & Ha & _). exists pk. split; [done|].
  unfold sp_ok, sp_abs. rewrite Ha. split; [split; [done|constructor]|done].
Qed.

Lemma sp_store_twice {V} (m : map_sp V) i u v : sp_store (sp_store m i u) i v = sp_store m i v.
Proof.
  unfold sp_store. cbn [sp_slots sp_cap sp_size sp_heap]. f_equal. destruct (sp_slots m !! i) as [s|] eqn:Hs; [|by rewrite Hs].
  rewrite list_lookup_insert_eq by (by eapply lookup_lt_Some). cbn. apply list_insert_insert_eq.
Qed.

(** A name stands for one field. *)
Lemma named_field env m f w ws : packed_ok env m f → Forall (λ p, packed_ok env m p.1) ws → w ∈ named (f_name f) ws → w.1 = f.
Proof.
  intros (Hq & _) Hws Hin. apply named_elem in Hin as [Hin Hn]. rewrite Forall_forall in Hws. destruct (Hws w Hin) as (Hq' & _). rewrite Hn, Hq in Hq'. congruence.
Qed.

(** The slot [_get_packed] finds or makes. *)
Lemma get_waiting env m f (o : option (option _packed)) ws : packed_ok env m f → Forall (λ p, packed_ok env m p.1) ws → waits_for o (named (f_name f) ws) →
  match mjoin o with Some p => waiting p (f, elements f ws) | None => elements f ws = [] end.
Proof.
  intros Hf Hws. unfold elements. pose proof (named_field env m f) as Hsame. destruct (named (f_name f) ws) as [|[f0 x0] rest] eqn:En; cbn; [by intros ->|].
  intros (p & -> & Hp). cbn. assert (f0 = f) as -> by (apply (Hsame (f0, x0) ws Hf Hws); rewrite En; set_solver). done.
Qed.

Lemma push_waits env m f x w ws : packed_ok env m f → Forall (λ p, packed_ok env m p.1) ws → table_ok (w_packed w) ws →
  ∃ pk, packed_push w f (f_name f) (pushed_var (f_type f) x) = Done (WMsg (w_type w) (w_buf w) (w_ptr w) (w_sub w) (Some pk)) ∧ table_ok (Some pk) (ws ++ [(f, x)]).
Proof.
  intros Hf Hws Hok. assert (∃ pk0, match w_packed w with None => _pbcM_sp_new 4 true | Some pk => Done pk end = Done pk0
    ∧ sp_ok pk0 ∧ ∀ name, waits_for (sp_abs pk0 !! name) (named name ws)) as (pk0 & Hpk0 & Hok0 & Hw0).
  { destruct (w_packed w) as [pk|]; [by exists pk|]. destruct (new_table (V := _packed) 4 ltac:(lia)) as (pk & Hnew & Hok' & Ha). exists pk. rewrite Hnew.
    cbn in Hok. subst ws. split; [done|]. split; [done|]. intros name. cbn. by rewrite Ha, lookup_empty. }
  unfold packed_push, _get_packed. rewrite Hpk0. cbn [obind].
  destruct (query_insert_slot pk0 (f_name f) Hok0) as (pk1 & i & s & -> & Hs & Hp & Hstore). cbn [obind]. rewrite read_at_nat, Hs. cbn [obind].
  pose proof (get_waiting env m f _ ws Hf Hws (Hw0 (f_name f))) as Hget. rewrite <- Hp in Hget.
  assert (∃ p pk', match sp_pointer s with
      | None => Done (sp_store pk1 i (Some (Packed (f_id f) (f_type f) _pbcA_open_heap)), i, Packed (f_id f) (f_type f) _pbcA_open_heap)
      | Some p => Done (pk1, i, p) end = Done (pk', i, p) ∧ waiting p (f, elements f ws)
      ∧ ∀ v, sp_store pk' i v = sp_store pk1 i v) as (p & pk' & -> & Hwait & Hstore').
  { destruct (sp_pointer s) as [p|]; eexists _, _; (split; [done|]); [split; [done|by intros]|]. rewrite Hget.
    split; [repeat split; apply open_holds|]. intros v. apply sp_store_twice. }
  cbn [obind]. destruct Hwait as (Hi & Ht & Hh). destruct (push_holds (pk_data p) _ (pushed_var (f_type f) x) Hh) as (data & -> & Hd). cbn [obind]. rewrite Hstore'.
  destruct (Hstore (Some (Packed (pk_id p) (pk_ptype p) data))) as [Hok' Hab]. eexists. split; [done|]. split; [done|]. intros name. rewrite Hab, named_app.
  unfold named at 2. cbn [List.filter fst]. destruct (decide (f_name f = name)) as [<-|Hne].
  - rewrite lookup_insert_eq, bool_decide_eq_true_2 by done.
    assert (waiting (Packed (pk_id p) (pk_ptype p) data) (f, (named (f_name f) ws ++ [(f, x)]).*2)) as Hwt.
    { split; [done|]. split; [done|]. cbn [snd]. rewrite fmap_app, List.map_app. exact Hd. }
    pose proof (named_field env m f) as Hsame. destruct (named (f_name f) ws) as [|[f0 x0] rest] eqn:En; [by eexists|].
    assert (f0 = f) as -> by (apply (Hsame (f0, x0) ws Hf Hws); rewrite En; set_solver). by eexists.
  - rewrite lookup_insert_ne, bool_decide_eq_false_2, app_nil_r by done. apply Hw0.
Qed.

(** The elements of fields with different names are different elements. *)
Lemma total_elements gs ws : NoDup ((λ g : group, f_name g.1) <$> gs) → (∀ g, g ∈ gs → g.2 = elements g.1 ws) → total gs <= zlen ws.
Proof.
  revert ws. induction gs as [|g gs IH]; intros ws Hnd Hgs; [apply zlen_nonneg|]. cbn in Hnd. apply NoDup_cons in Hnd as [Hno Hnd].
  set (ws' := List.filter (λ w : _field * words, negb (bool_decide (f_name w.1 = f_name g.1))) ws).
  assert (zlen (named (f_name g.1) ws) + zlen ws' = zlen ws) as Hsum.
  { unfold ws', named, zlen. clear. induction ws as [|w ws IH]; [done|]. cbn. destruct (bool_decide _); cbn; lia. }
  assert (∀ g', g' ∈ gs → elements g'.1 ws' = elements g'.1 ws) as Hsame.
  { intros g' Hg'. assert (f_name g'.1 ≠ f_name g.1) as Hne by (intros E; apply Hno; rewrite <- E; by apply (list_elem_of_fmap_2 (λ g : group, f_name g.1))).
    unfold elements. f_equal. unfold ws', named. clear -Hne. induction ws as [|w ws IH]; [done|]. cbn.
    destruct (decide (f_name w.1 = f_name g.1)) as [E|E].
    - rewrite (bool_decide_eq_true_2 _ E), (bool_decide_eq_false_2 (f_name w.1 = f_name g'.1)) by congruence. done.
    - rewrite (bool_decide_eq_false_2 _ E). cbn. destruct (bool_decide _); [by f_equal|done]. }
  specialize (IH ws' Hnd). cbn. fold (total gs). rewrite (Hgs g) by set_solver. unfold elements at 1. unfold zlen at 1. rewrite length_fmap. fold (zlen (named (f_name g.1) ws)).
  assert (total gs <= zlen ws'); [|lia]. apply IH. intros g' Hg'. rewrite Hsame by done. apply Hgs. set_solver.
Qed.

(** The blocks that [pbc_wmessage_buffer] writes. *)
Definition groups_of (env : pbc_env) (m : _message) (ws : pushes) (gs : list group) : Prop :=
  Forall (group_ok env m) gs ∧ NoDup ((λ g : group, f_name g.1) <$> gs) ∧ (∀ g, g ∈ gs → g.2 = elements g.1 ws)
  ∧ (∀ f, packed_ok env m f → elements f ws ≠ [] → (f, elements f ws) ∈ gs) ∧ total gs <= zlen ws.

Lemma elements_ok f ws : Forall (λ p : _field * words, words_ok p.2) ws → Forall words_ok (elements f ws).
Proof.
  intros Hws. unfold elements. rewrite Forall_fmap, Forall_forall. intros w Hw. apply named_elem in Hw as [Hw _]. rewrite Forall_forall in Hws. by apply Hws.
Qed.

Lemma table_groups env m pk ws : Forall (λ p, packed_ok env m p.1) ws → Forall (λ p : _field * words, words_ok p.2) ws → table_ok (Some pk) ws →
  ∃ gs, Forall2 waiting (_pbcM_sp_foreach pk) gs ∧ groups_of env m ws gs.
Proof.
  intros Hws Hwd (Hok & Hwait). rewrite (foreach_live pk (proj1 Hok)). pose proof (live_nodup pk Hok) as Hnd.
  set (fits := λ (kp : list Z * _packed) (g : group), waiting kp.2 g ∧ f_name g.1 = kp.1 ∧ g.2 = elements g.1 ws ∧ group_ok env m g).
  assert (∃ gs, Forall2 fits (sp_live (sp_slots pk)) gs) as [gs Hgs].
  { assert (Forall (λ kp, ∃ g, fits kp g) (sp_live (sp_slots pk))) as Hall.
    { apply Forall_forall. intros [k p] Hkp. apply (live_abs pk k p Hok) in Hkp. specialize (Hwait k). rewrite Hkp in Hwait.
      destruct (named k ws) as [|[f x] rest] eqn:En; [done|]. destruct Hwait as (p' & [= <-] & Hp).
      assert ((f, x) ∈ named k ws) as Hin by (rewrite En; set_solver). apply named_elem in Hin as [Hin Hn]. cbn in Hn.
      assert (packed_ok env m f) as Hf by (rewrite Forall_forall in Hws; by apply (Hws (f, x))).
      exists (f, (named k ws).*2). rewrite En. split; [done|]. split; [done|]. assert (elements f ws = ((f, x) :: rest).*2) as Ee by (unfold elements; by rewrite Hn, En).
      unfold group_ok. cbn [fst snd]. rewrite <- Ee. split; [done|]. split; [done|]. split; [by apply elements_ok|by rewrite Ee]. }
    clear -Hall. induction Hall as [|kp l [g Hg] _ [gs IH]]; [by exists []|]. exists (g :: gs). by constructor. }
  exists gs. split; [rewrite Forall2_fmap_l; eapply Forall2_impl; [exact Hgs|]; by intros kp g (? & _)|].
  assert ((λ g : group, f_name g.1) <$> gs = (sp_live (sp_slots pk)).*1) as Enames.
  { clear -Hgs. induction Hgs as [|kp g l gs (_ & Hn & _) _ IH]; [done|]. cbn. by rewrite Hn, IH. }
  assert (∀ g, g ∈ gs → g.2 = elements g.1 ws ∧ group_ok env m g) as Hin.
  { intros g Hg. apply list_elem_of_lookup in Hg as [i Hi]. destruct (Forall2_lookup_r _ _ _ _ _ Hgs Hi) as (kp & _ & _ & _ & ? & ?). done. }
  rewrite <- Enames in Hnd. split; [apply Forall_forall; intros g Hg; by apply Hin|]. split; [done|]. split; [intros g Hg; by apply Hin|].
  split; [|apply total_elements; [done|intros g Hg; by apply Hin]].
  intros f Hf Hne. pose proof (get_waiting env m f _ ws Hf Hws (Hwait (f_name f))) as Hget. destruct (mjoin (sp_abs pk !! f_name f)) as [p|] eqn:Ep; [|done].
  assert (sp_abs pk !! f_name f = Some (Some p)) as Habs by (destruct (sp_abs pk !! f_name f) as [[q|]|]; cbn in Ep; congruence).
  apply (live_abs pk _ p Hok), list_elem_of_lookup in Habs as [i Hi]. destruct (Forall2_lookup_l _ _ _ _ _ Hgs Hi) as (g & Hgi & _ & Hn & Hg2 & (Hgf & _)).
  apply list_elem_of_lookup_2 in Hgi. cbn in Hn. destruct Hf as (Hq & _). destruct Hgf as (Hq' & _). rewrite Hn, Hq in Hq'. injection Hq' as E.
  rewrite E, <- E in *. destruct g as [gf gv]. cbn in *. by subst.
Qed.

(** ** Reading blocks *)

Section Read.
Context (f2d : Z → Z) (env : pbc_env) (sub : reader).

(** The loops of [_pbcP_unpack_packed], on a block of either kind. *)
Lemma unpack_block msg rest t ws pos : t ∈ packed_types → Forall words_ok ws → drop (Z.to_nat pos) msg = block t ws ++ rest → 0 <= pos →
  ∃ arr, _pbcP_unpack_packed f2d msg pos (zlen (block t ws)) t _pbcA_open_heap = Done (Some (zlen ws), arr) ∧ holds arr (map (read_var t) ws).
Proof.
  intros [Ht|Ht]%packed_cases Hws Hd Hp.
  - rewrite block_varint in * by done. destruct (unpack_varint_block t msg rest ws (Z.to_nat (zlen (varint_block t ws))) pos _pbcA_open_heap [] 0 Ht Hws (proj2 open_holds) Hd Hp) as (arr & Hu & Hh); [lia|].
    exists arr. rewrite <- (Z.add_0_l (zlen ws)), <- Hu. split; [|done]. clear -Ht. repeat (apply elem_of_cons in Ht as [->|Ht]; [done|]). by apply elem_of_nil in Ht.
  - rewrite block_fixed in * by done. destruct (fixed_size ws Hws) as [-> _]. pose proof (zlen_nonneg ws).
    set (mk := if t =? PTYPE_DOUBLE then (λ l h, VReal (join64 l h)) else VInteger).
    destruct (unpack_fixed_block t mk msg rest ws) with (pos := pos) (arr := @_pbcA_open_heap pbc_var) (old := @nil pbc_var) as (arr & Hu & Hh); [|done|apply open_holds|done|done|].
    { intros w Hw. pose proof Hw as [Hl Hhi]. unfold mk, read_var. destruct (Z.eqb_spec t PTYPE_DOUBLE) as [->|Hne]; [by rewrite join64_val|]. f_equal. symmetry.
      clear -Ht Hne. repeat (apply elem_of_cons in Ht as [->|Ht]; [done|]). by apply elem_of_nil in Ht. }
    exists arr. split; [|done]. assert (Z.rem (8 * zlen ws) 8 = 0) as Hr by (rewrite Z.mul_comm; by apply Z.rem_mul). assert (Z.quot (8 * zlen ws) 8 = zlen ws) as Hq by (rewrite Z.mul_comm; by apply Z.quot_mul).
    assert (Z.to_nat (zlen ws) = length ws) as Hn by (unfold zlen; lia). subst mk. unfold _pbcP_unpack_packed.
    clear -Ht Hu Hr Hq Hn. repeat (apply elem_of_cons in Ht as [->|Ht]; [cbn [Z.eqb Pos.eqb orb PTYPE_DOUBLE PTYPE_FLOAT PTYPE_FIXED32 PTYPE_SFIXED32 PTYPE_FIXED64 PTYPE_SFIXED64] in *; by rewrite Hr, Hq, Hn, Hu|]).
    by apply elem_of_nil in Ht.
Qed.

(** [push_value_packed] names the elements of an enum in place. *)
Lemma name_enums_ok f : f_type f = PTYPE_ENUM → (∀ id, is_s32 id → ∃ name, enum_name env f id = Done name) → ∀ rest front arr, Forall words_ok rest →
  holds arr (map (read_elem env f) front ++ map (read_var (f_type f)) rest) →
  ∃ arr', name_enums env (length rest) f arr (zlen front) = Done arr' ∧ holds arr' (map (read_elem env f) (front ++ rest)).
Proof.
  intros Ht Hen. induction rest as [|w rest IH]; intros front arr Hws Hh; [exists arr; rewrite app_nil_r in *; done|]. apply Forall_cons in Hws as [[Hl _] Hws].
  cbn [length name_enums map] in *. pose proof (zlen_nonneg front). rewrite (index_holds arr _ _ Hh) by lia.
  assert (Z.to_nat (zlen front) = length (map (read_elem env f) front)) as Ei by (unfold zlen; by rewrite Nat2Z.id, length_map).
  rewrite Ei, list_lookup_middle by done. unfold read_var at 1. rewrite Ht. cbn [Z.eqb Pos.eqb PTYPE_ENUM PTYPE_DOUBLE obind int_low].
  destruct (Hen (s32 w.1) (s32_range _)) as [name Hname]. rewrite Hname. cbn [obind].
  destruct (set_holds arr _ (length front) (VEnum (s32 w.1) name) Hh) as (c & Hw & Hh'); [rewrite length_app, length_map; cbn; lia|].
  fold (zlen front) in Hw. rewrite Hw. cbn [obind].
  destruct (IH (front ++ [w]) (set_cells arr c) Hws) as (arr' & Hn & Ha).
  - rewrite map_app, <- app_assoc. cbn [map app]. rewrite (insert_app_r_alt _ _ (length front)) in Hh' by (by rewrite length_map). rewrite length_map, Nat.sub_diag in Hh'.
    unfold read_elem at 2. rewrite Ht, Hname. cbn [map Z.eqb Pos.eqb PTYPE_ENUM]. by rewrite Ht in Hh'.
  - exists arr'. rewrite <- app_assoc in Ha. rewrite zlen_app in Hn. done.
Qed.

Lemma read_group m g pre post index : let msg := pre ++ group_bytes g ++ post in
  group_ok env m g → zlen g.2 <= 2 ^ 25 → zlen msg < 2 ^ 31 → sp_ok index → sp_abs index !! f_name g.1 = None →
  ∃ index' arr, read_atom f2d env sub m msg ((group_chunk g).2 (zlen pre)) index None = Done (index', None) ∧ sp_ok index'
    ∧ sp_abs index' = <[f_name g.1 := Some (RArr g.1 arr)]> (sp_abs index) ∧ holds arr (map (read_elem env g.1) g.2).
Proof.
  intros msg Hg Hn Hlen Hok Habs. destruct (group_size env m g Hg Hn) as (Hpos & Hle & _ & _). destruct Hg as ((_ & Hq & Hid & Hlab & Ht & Hen) & Hws & _).
  unfold read_atom. cbn [group_chunk snd wire_id]. rewrite key_number, Hq by done. cbn [obind].
  rewrite (proj2 (Z.eqb_eq (f_label g.1) LABEL_PACKED) Hlab), orb_true_r.
  destruct (query_insert_slot index (f_name g.1) Hok) as (m1 & i & s & -> & Hs & Hp & Hstore). cbn [obind]. rewrite read_at_nat, Hs. cbn [obind]. rewrite Hp, Habs. cbn [mjoin option_join].
  assert (new_array g.1 = RArr g.1 _pbcA_open_heap) as -> by (unfold new_array; by rewrite Hlab).
  pose proof (zlen_nonneg pre). pose proof (zlen_nonneg (group_head g)). pose proof (zlen_nonneg post).
  destruct (lend_atom (f_id g.1) pre (group_head g) (group_block g) Hid) as (_ & Es & Ee).
  { unfold msg, group_bytes in Hlen. rewrite !zlen_app in Hlen. lia. }
  destruct (slice_read pre (group_head g) (group_block g) post) as (Hdrop & _). fold (group_bytes g) in Hdrop. fold msg in Hdrop.
  unfold push_value_array, push_value_packed. rewrite (proj2 (Z.eqb_eq (f_label g.1) LABEL_PACKED) Hlab). rewrite Ee, Es.
  destruct (unpack_block msg post (f_type g.1) g.2 (zlen (pre ++ group_head g)) Ht Hws Hdrop) as (arr & Hu & Hh); [apply zlen_nonneg|].
  fold (group_block g) in Hu. rewrite Hu. cbn [obind]. change (default (-1) (Some (zlen g.2))) with (zlen g.2). rewrite (proj2 (Z.leb_gt (zlen g.2) 0)) by lia.
  assert (∀ arr', holds arr' (map (read_elem env g.1) g.2) → pbc_array_size arr' = zlen g.2 ∧ zlen g.2 =? 0 = false) as Hsz.
  { intros arr' (_ & _ & Hnum). split; [unfold pbc_array_size; rewrite Hnum; unfold zlen; by rewrite length_map|apply Z.eqb_neq; lia]. }
  destruct (Z.eqb_spec (f_type g.1) PTYPE_ENUM) as [E|E].
  - destruct (name_enums_ok g.1 E (Hen E) g.2 [] arr Hws Hh) as (arr' & Hn' & Hh'). replace (Z.to_nat (zlen g.2)) with (length g.2) by (unfold zlen; lia).
    change (zlen []) with 0 in Hn'. rewrite Hn'. cbn [obind]. destruct (Hsz arr' Hh') as [-> ->].
    destruct (Hstore (Some (RArr g.1 arr'))) as [Hok' Hab']. eexists _, arr'. split; [done|]. by rewrite Hab'.
  - cbn [obind]. assert (holds arr (map (read_elem env g.1) g.2)) as Hh' by (unfold read_elem; by rewrite (proj2 (Z.eqb_neq _ _) E)).
    destruct (Hsz arr Hh') as [-> ->]. destruct (Hstore (Some (RArr g.1 arr))) as [Hok' Hab']. eexists _, arr. split; [done|]. by rewrite Hab'.
Qed.

Lemma read_loop_app n n' type msg ctx : ∀ i index err, read_loop f2d env (n + n') sub type msg ctx i index err =
  (do! (index, err) <- read_loop f2d env n sub type msg ctx i index err; read_loop f2d env n' sub type msg ctx (i + Z.of_nat n) index err).
Proof.
  induction n as [|n IH]; intros i index err; cbn [Nat.add read_loop obind]; [by rewrite Z.add_0_r|].
  destruct (ctx_atom ctx i) as [a|]; [|done]. cbn [obind]. destruct (read_atom _ _ _ _ _ _ _ _) as [[index1 err1]|]; [|done]. cbn [obind].
  rewrite IH. replace (i + 1 + Z.of_nat n) with (i + Z.of_nat (S n)) by lia. done.
Qed.

Lemma read_groups m msg tail ctx gs : ∀ pre i index, Forall (group_ok env m) gs → NoDup ((λ g : group, f_name g.1) <$> gs) → total gs <= 2 ^ 25 →
  msg = pre ++ chunks_bytes (map group_chunk gs) ++ tail → zlen msg < 2 ^ 31 → sp_ok index → (∀ g, g ∈ gs → sp_abs index !! f_name g.1 = None) →
  (∀ k a, chunk_atoms (map group_chunk gs) (zlen pre) !! k = Some a → ctx_atom ctx (i + Z.of_nat k) = Done a) →
  ∃ index', read_loop f2d env (length gs) sub m msg ctx i index None = Done (index', None) ∧ sp_ok index'
    ∧ (∀ g, g ∈ gs → ∃ arr, sp_abs index' !! f_name g.1 = Some (Some (RArr g.1 arr)) ∧ holds arr (map (read_elem env g.1) g.2))
    ∧ ∀ name, (∀ g, g ∈ gs → f_name g.1 ≠ name) → sp_abs index' !! name = sp_abs index !! name.
Proof.
  induction gs as [|g gs IH]; intros pre i index Hgs Hnd Htot Hmsg Hlen Hok Hfresh Hctx.
  { exists index. split; [done|]. split; [done|]. split; [|done]. intros g Hg. by apply elem_of_nil in Hg. }
  apply Forall_cons in Hgs as [Hg Hgs]. cbn in Hnd. apply NoDup_cons in Hnd as [Hno Hnd]. cbn in Htot. fold (total gs) in Htot. pose proof (total_nonneg gs). pose proof (zlen_nonneg g.2).
  cbn [length read_loop]. pose proof (Hctx 0%nat _ eq_refl) as Hctx0. rewrite Z.add_0_r in Hctx0. rewrite Hctx0. cbn [obind].
  unfold chunks_bytes in Hmsg. cbn [map concat fst group_chunk] in Hmsg. rewrite <- app_assoc in Hmsg. fold (chunks_bytes (map group_chunk gs)) in Hmsg.
  destruct (read_group m g pre (chunks_bytes (map group_chunk gs) ++ tail) index Hg ltac:(lia)) as (index1 & arr & Hr & Hok1 & Hab1 & Hh); [by rewrite <- Hmsg|done|apply Hfresh; set_solver|].
  rewrite <- Hmsg in Hr. rewrite Hr. cbn [obind].
  destruct (IH (pre ++ group_bytes g) (i + 1) index1 Hgs Hnd ltac:(lia)) as (index2 & -> & Hok2 & Hin & Hout); [by rewrite <- app_assoc|done|done| | |].
  { intros g' Hg'. rewrite Hab1, lookup_insert_ne; [apply Hfresh; set_solver|]. intros E. apply Hno. rewrite E. by apply (list_elem_of_fmap_2 (λ g : group, f_name g.1)). }
  { intros k a Hk. replace (i + 1 + Z.of_nat k) with (i + Z.of_nat (S k)) by lia. apply Hctx. cbn [map chunk_atoms]. by rewrite zlen_app in Hk. }
  exists index2. split; [done|]. split; [done|]. split.
  - intros g' Hg'. apply elem_of_cons in Hg' as [->|Hg']; [|by apply Hin]. exists arr. split; [|done]. rewrite Hout, Hab1; [apply lookup_insert_eq|].
    intros g' Hg' E. apply Hno. rewrite <- E. by apply (list_elem_of_fmap_2 (λ g : group, f_name g.1)).
  - intros name Hname. rewrite Hout by (intros g' Hg'; apply Hname; set_solver). rewrite Hab1, lookup_insert_ne; [done|]. apply Hname. set_solver.
Qed.
End Read.

(** ** Calls in any order *)

(** A call for a field that is not packed, or one element of a packed field. *)
Inductive fill := Scalar (op : wop) | Element (f : _field) (x : words).

Definition scalars (cs : list fill) : list wop := omap (λ c, match c with Scalar op => Some op | Element _ _ => None end) cs.
Definition elems (cs : list fill) : pushes := omap (λ c, match c with Scalar _ => None | Element f x => Some (f, x) end) cs.

Definition fill_ok (env : pbc_env) (m : _message) (c : fill) : Prop :=
  match c with Scalar op => op_ok m op | Element f x => packed_ok env m f ∧ words_ok x end.

Section Fill.
Context (junk : nat → Z) (d2f f2d : Z → Z) (env : pbc_env).

Definition do_fill (w : wmessage) (c : fill) : outcome wres :=
  match c with
  | Scalar op => do_op junk d2f env w op
  | Element f x => if f_type f =? PTYPE_DOUBLE then pbc_wmessage_real junk d2f w (f_name f) (bits x) else pbc_wmessage_integer junk w (f_name f) x.1 x.2
  end.

(** The calls in order, as long as they return 0. *)
Fixpoint do_fills (w : wmessage) (cs : list fill) : outcome (option wmessage) :=
  match cs with
  | [] => Done (Some w)
  | c :: rest =>
      do! (ret, w, _) <- do_fill w c;
      if ret =? 0 then do_fills w rest else Done None
  end.

Lemma fills_parts m cs : Forall (fill_ok env m) cs →
  Forall (op_ok m) (scalars cs) ∧ Forall (λ p, packed_ok env m p.1) (elems cs) ∧ Forall (λ p : _field * words, words_ok p.2) (elems cs).
Proof.
  induction 1 as [|c cs Hc _ (IH1 & IH2 & IH3)]; [by repeat constructor|]. unfold scalars, elems in *. destruct c as [op|f x]; cbn.
  - split; [by constructor|done].
  - destruct Hc. split; [done|]. split; by constructor.
Qed.

Lemma fills_written m cs : ∀ w ws, Forall (fill_ok env m) cs → w_type w = m → wm_ok w → Forall (λ p, packed_ok env m p.1) ws → table_ok (w_packed w) ws →
  w_ptr w + zlen (concat (map op_bytes (scalars cs))) + 20 <= 2 ^ 30 →
  ∃ w', do_fills w cs = Done (Some w') ∧ wm_ok w' ∧ written w' = written w ++ concat (map op_bytes (scalars cs))
    ∧ w_type w' = m ∧ w_sub w' = w_sub w ∧ table_ok (w_packed w') (ws ++ elems cs).
Proof.
  induction cs as [|c cs IH]; intros w ws Hcs Hty Hok Hws Htab Hmax.
  { exists w. cbn. by rewrite !app_nil_r. }
  apply Forall_cons in Hcs as [Hc Hcs]. destruct c as [op|f x]; cbn [do_fills do_fill].
  - unfold scalars, elems in *. cbn in *. rewrite zlen_app in Hmax. pose proof (zlen_nonneg (concat (map op_bytes (scalars cs)))). unfold scalars in H.
    destruct (op_written junk d2f env m w op Hc Hty Hok ltac:(lia)) as (w1 & -> & Hok1 & Hwr1 & Hp1 & Hty1 & Hs1 & Hk1). cbn [obind Z.eqb].
    destruct (IH w1 ws Hcs ltac:(congruence) Hok1 Hws ltac:(by rewrite Hk1) ltac:(lia)) as (w2 & -> & Hok2 & Hwr2 & Hty2 & Hs2 & Ht2).
    exists w2. split; [done|]. split; [done|]. split; [by rewrite Hwr2, Hwr1, <- app_assoc|]. split_and!; [done|congruence|done].
  - destruct Hc as [Hf Hx]. destruct (push_waits env m f x w ws Hf Hws Htab) as (pk & Hpush & Htab1).
    pose proof Hf as (Hq & _ & _ & Hlab & _).
    assert (do_fill w (Element f x) = Done (0, WMsg (w_type w) (w_buf w) (w_ptr w) (w_sub w) (Some pk), None)) as Hfill.
    { unfold pushed_var in Hpush. revert Hpush. cbn [do_fill]. destruct (f_type f =? PTYPE_DOUBLE); intros Hpush; unfold pbc_wmessage_real, pbc_wmessage_integer, _packed_real, _packed_integer;
        rewrite Hty, Hq; cbn [obind]; by rewrite (proj2 (Z.eqb_eq _ _) Hlab), Hpush, Hty. }
    cbn [do_fill] in Hfill. rewrite Hfill. cbn [obind Z.eqb].
    destruct (IH (WMsg (w_type w) (w_buf w) (w_ptr w) (w_sub w) (Some pk)) (ws ++ [(f, x)])) as (w2 & -> & Hok2 & Hwr2 & Hty2 & Hs2 & Ht2);
      [done|done|done| |done|done|].
    { apply Forall_app. split; [done|]. by apply Forall_singleton. }
    exists w2. split_and!; [done..|]. unfold elems in *. cbn. by rewrite <- app_assoc in Ht2.
Qed.

(** Finishing a message without sub-messages: the packed fields follow the
    others. *)
Lemma buffer_groups m w ws fuel : wm_ok w → w_sub w = _pbcA_open_heap → Forall (λ p, packed_ok env m p.1) ws → Forall (λ p : _field * words, words_ok p.2) ws →
  table_ok (w_packed w) ws → w_ptr w + 52 * zlen ws <= 2 ^ 30 →
  ∃ w' gs, pbc_wmessage_buffer junk d2f (S fuel) [w] 0 = Done ([w'], written w ++ chunks_bytes (map group_chunk gs)) ∧ groups_of env m ws gs.
Proof.
  intros Hok Hsub Hws Hwd Htab Hmax. cbn [pbc_wmessage_buffer lookup list_lookup].
  assert (∃ w' gs, match w_packed w with Some pk => pack_all junk d2f (_pbcM_sp_foreach pk) w | None => Done w end = Done w'
    ∧ wrote w w' (chunks_bytes (map group_chunk gs)) ∧ groups_of env m ws gs) as (w' & gs & -> & (Hok' & Hwr & _ & _ & Hs & _) & Hgs).
  { destruct (w_packed w) as [pk|].
    - destruct (table_groups env m pk ws Hws Hwd Htab) as (gs & Hwait & Hgs). pose proof Hgs as (Hgok & _ & _ & _ & Htot).
      destruct (pack_groups junk d2f env m _ gs w Hwait Hgok Hok ltac:(lia)) as (w' & Hw' & Hwr). eauto.
    - cbn in Htab. subst ws. exists w, []. split; [done|]. split; [by apply wrote_nil|]. repeat (constructor || done). intros g Hg. by apply elem_of_nil in Hg. }
  cbn [obind]. rewrite Hs, Hsub. rewrite (array_list_holds _ [] (proj2 open_holds)). cbn [obind append_subs].
  exists w', gs. split; [|done]. rewrite <- Hwr. cbn [insert list_insert lookup list_lookup]. unfold slice_of. by rewrite bytes_written.
Qed.
End Fill.

(** A field that is not packed has another name than the packed ones. *)
Lemma scalar_name env m op f : op_ok m op → packed_ok env m f → f_name (op_field op) ≠ f_name f.
Proof. intros (Hq & _ & _ & Hlab & _) (Hq' & _ & _ & Hlab' & _) E. rewrite E, Hq' in Hq. congruence. Qed.

Lemma chunks_groups env m gs : Forall (group_ok env m) gs → total gs <= 2 ^ 25 →
  Forall chunk_ok (map group_chunk gs) ∧ zlen (chunks_bytes (map group_chunk gs)) <= 20 * total gs.
Proof.
  induction 1 as [|g gs Hg _ IH]; [by repeat constructor|]. cbn. fold (total gs). intros Htot. pose proof (total_nonneg gs). pose proof (zlen_nonneg g.2).
  destruct IH as [IH1 IH2]; [lia|]. destruct (group_size env m g Hg ltac:(lia)) as (_ & _ & Hsz & _).
  split; [constructor; [by eapply group_one; [|lia]|done]|]. unfold chunks_bytes in *. cbn. rewrite zlen_app. unfold total in *. lia.
Qed.

(** ** Reading the whole message *)

Lemma elems_some cs : cs ≠ [] → scalars cs ≠ [] ∨ elems cs ≠ [].
Proof. destruct cs as [|[op|f x] cs]; [done|left|right]; done. Qed.

Lemma in_index_lookup g g' name items : g !! name = g' !! name → in_index g name items → in_index g' name items.
Proof. intros E. unfold in_index. destruct items as [|[f v] rest]; by rewrite E. Qed.

(** The index of a message that is the scalar fields followed by the blocks. *)
Lemma read_filled f2d env stk fuel m ops gs : let msg := concat (map op_bytes ops) ++ chunks_bytes (map group_chunk gs) in
  Forall (op_ok m) ops → singular_once ops → Forall (group_ok env m) gs → NoDup ((λ g : group, f_name g.1) <$> gs) → ops ≠ [] ∨ gs ≠ [] →
  zlen (concat (map op_bytes ops)) + 52 * total gs <= 2 ^ 30 → (∀ i, stack_ok (stk i)) →
  ∃ index, _pbc_rmessage_new f2d env stk (S fuel) (Some m) msg (zlen msg) None = Done (RMessage (Some m) (Some index), None) ∧ sp_ok index
    ∧ (∀ g, g ∈ gs → ∃ arr, sp_abs index !! f_name g.1 = Some (Some (RArr g.1 arr)) ∧ holds arr (map (read_elem env g.1) g.2))
    ∧ ∀ op, op ∈ ops → in_index (sp_abs index) (f_name (op_field op)) (named_items (f_name (op_field op)) (op_items (chunks_bytes (map group_chunk gs)) ops)).
Proof.
  intros msg Hops Hsing Hgs Hnd Hne Hmax Hstk. pose proof (total_nonneg gs). pose proof (zlen_nonneg (concat (map op_bytes ops))).
  destruct (chunks_groups env m gs Hgs ltac:(lia)) as [Hgc Hgl]. set (gbytes := chunks_bytes (map group_chunk gs)) in *.
  set (cs := map op_chunk ops ++ map group_chunk gs). pose proof (op_chunks_bytes ops) as Eops.
  assert (chunks_bytes cs = msg) as Emsg by (unfold cs, msg; by rewrite chunks_bytes_app, Eops).
  assert (zlen msg <= 2 ^ 30) as Hlen by (unfold msg; rewrite zlen_app; lia).
  assert (Forall chunk_ok cs) as Hcs by (apply Forall_app; split; [apply (op_chunks m ops Hops); rewrite Eops; lia|done]).
  assert (cs ≠ []) as Hcsne. { unfold cs. destruct Hne as [Hne|Hne]; [by destruct ops|]. destruct gs; [done|]. by destruct (map op_chunk ops). }
  pose proof (chunks_nonempty cs Hcs Hcsne) as Hpos. pose proof (chunks_count cs Hcs) as Hcount. rewrite Emsg in Hpos, Hcount.
  cbn [_pbc_rmessage_new]. rewrite (proj2 (Z.eqb_neq (zlen msg) 0)) by lia.
  destruct (open_chunks cs stk Hcs Hcsne ltac:(rewrite Emsg; lia) Hstk) as (ctx & Hopen & Hnum & Hatoms). rewrite Emsg in Hopen. rewrite Hopen. cbn [obind].
  rewrite (proj2 (Z.leb_gt (zlen cs) 0)) by (by apply zlen_pos). destruct (new_table (V := rvalue) (zlen cs) ltac:(lia)) as (index0 & -> & Hok0 & Hab0). cbn [obind].
  rewrite Hnum. replace (Z.to_nat (zlen cs)) with (length (chunk_atoms (map op_chunk ops) 0) + length gs)%nat
    by (rewrite length_chunk_atoms; unfold cs, zlen; rewrite length_app, !length_map; lia).
  rewrite read_loop_app. pose proof (chunk_atoms_app (map op_chunk ops) (map group_chunk gs) 0) as Hsplit. fold cs in Hsplit.
  destruct (read_loop_items f2d env (_pbc_rmessage_new f2d env stk fuel) m msg ctx (op_items gbytes ops) (chunk_atoms (map op_chunk ops) 0) [] index0 0)
    as (index1 & -> & Hok1 & Hidx1).
  { apply (ops_decode f2d env _ m msg gbytes ops []); [done|done|lia]. }
  { intros k a Hk. rewrite Z.add_0_l. apply Hatoms. rewrite Hsplit. by apply lookup_app_l_Some. }
  { done. } { rewrite Hab0. intros name. apply lookup_empty. } { by eapply op_items_ok. }
  cbn [obind]. cbn [app] in Hidx1.
  destruct (read_groups f2d env (_pbc_rmessage_new f2d env stk fuel) m msg [] ctx gs (concat (map op_bytes ops)) (0 + Z.of_nat (length (chunk_atoms (map op_chunk ops) 0))) index1)
    as (index & -> & Hok & Hin & Hout); [done|done|lia|by rewrite app_nil_r|lia|done| | |].
  { intros g Hg. pose proof (Hidx1 (f_name g.1)) as Hn. destruct (named_items _ _) as [|p rest] eqn:En; [done|]. exfalso.
    assert (p ∈ named_items (f_name g.1) (op_items gbytes ops)) as Hp by (rewrite En; by left). apply named_items_elem in Hp as [Hp Hname].
    assert (p.1 ∈ map op_field ops) as Hf by (rewrite <- (op_items_fields gbytes ops); by apply list_elem_of_fmap_2).
    apply list_elem_of_fmap in Hf as (op & E & Hop). pose proof (proj1 (Forall_forall _ _) Hops op) as Hopok. destruct (proj1 (Forall_forall _ _) Hgs g Hg) as [Hpk _].
    apply (scalar_name env m op g.1); [by apply Hopok|done|congruence]. }
  { intros k a Hk. replace (0 + _ + Z.of_nat k) with (Z.of_nat (length (chunk_atoms (map op_chunk ops) 0) + k)) by lia. apply Hatoms. rewrite Hsplit.
    rewrite lookup_app_r by lia. replace (_ + k - _)%nat with k by lia. by rewrite Z.add_0_l, Eops. }
  cbn [obind]. exists index. split; [done|]. split; [done|]. split; [done|]. intros op Hop. apply (in_index_lookup (sp_abs index1)); [|apply Hidx1].
  symmetry. apply Hout. intros g Hg E. pose proof (proj1 (Forall_forall _ _) Hops op Hop) as Hopok. destruct (proj1 (Forall_forall _ _) Hgs g Hg) as [Hpk _]. by apply (scalar_name env m op g.1 Hopok Hpk).
Qed.

(** What the accessors find for an element, and for a packed field. *)
Definition reads_element (rm : rmessage) (f : _field) (i : Z) (x : words) : Prop :=
  if f_type f =? PTYPE_DOUBLE then pbc_rmessage_real rm (f_name f) i = Done (bits x)
  else pbc_rmessage_integer rm (f_name f) i true = Done (x.1, Some (packed_hi (f_type f) x.1 x.2)).

Lemma packed_reads env rm index f (ws : list words) arr : r_index rm = Some index → Forall words_ok ws → sp_ok index → sp_abs index !! f_name f = Some (Some (RArr f arr)) →
  holds arr (map (read_elem env f) ws) →
  pbc_rmessage_size rm (f_name f) = Done (zlen ws)
  ∧ ∀ i x, ws !! i = Some x → reads_element rm f (Z.of_nat i) x.
Proof.
  intros Hrm Hws Hok Hab Hh. pose proof (index_query index _ _ Hok Hab) as Hq. split.
  - unfold pbc_rmessage_size. rewrite Hrm, Hq. cbn [obind]. destruct Hh as (_ & _ & Hn). unfold pbc_array_size. rewrite Hn. unfold zlen. by rewrite length_map.
  - intros i x Hi. assert (rmessage_var rm (f_name f) (Z.of_nat i) = Done (f_type f, read_elem env f x)) as Hv.
    { unfold rmessage_var. rewrite Hrm, Hq. cbn [obind]. rewrite (index_holds arr _ _ Hh), Nat2Z.id by lia. by rewrite list_lookup_fmap, Hi. }
    assert (words_ok x) as [Hx _] by (eapply Forall_lookup_1 in Hws; eauto). unfold reads_element. unfold read_elem, read_var in Hv.
    destruct (Z.eqb_spec (f_type f) PTYPE_ENUM) as [E|E].
    + unfold pbc_rmessage_integer. rewrite Hv. cbn [obind]. rewrite E. cbn [Z.eqb Pos.eqb PTYPE_ENUM PTYPE_DOUBLE int_low obind].
      by rewrite u32_s32, u32_id.
    + destruct (f_type f =? PTYPE_DOUBLE); [unfold pbc_rmessage_real; by rewrite Hv|].
      unfold pbc_rmessage_integer. rewrite Hv. cbn [obind]. by rewrite (proj2 (Z.eqb_neq _ _) E).
Qed.


(** More elements than the callback decoder takes, between calls for other fields. *)
Definition packed_p : _field := Field 4 [112] PTYPE_SINT32 LABEL_PACKED (VInteger 0 0) (TName None).
Definition packed_q : _field := Field 5 [113] PTYPE_INT64 LABEL_PACKED (VInteger 0 0) (TName None).
Definition packed_d : _field := Field 6 [100] PTYPE_DOUBLE LABEL_PACKED (VReal 0) (TName None).
Definition packed_e : _field := Field 7 [101] PTYPE_ENUM LABEL_PACKED (VInteger 0 0) (TEnum (Some [69])).
Definition single_id : _field := Field 1 [105; 100] PTYPE_INT64 LABEL_OPTIONAL (VInteger 0 0) (TName None).

Definition demo_enum : list (Z * list Z) := [(0, [79]); (5, [80])].

Definition packed_env : pbc_env :=
  Eval vm_compute in
    match (do! p <- pbc_new_empty; do! (p, _) <- _pbcP_push_enum p [69] demo_enum; do! (p, _, _) <- register_fields p [77] [single_id; packed_p; packed_q; packed_d; packed_e] _pbcA_open; Done p) with
    | Done p => p
    | Fault _ => Env (MapSp 0 0 false []) (MapSp 0 0 false []) (MapSp 0 0 false []) ""
    end.

Definition packed_msg : _message :=
  Eval vm_compute in
    match _pbcP_get_message packed_env [77] with
    | Done (Some m) => m
    | _ => Message [] None (MapSp 0 0 false [])
    end.

Definition mixed : list fill :=
  [Element packed_q (5, 0); Element packed_p (4294967291, 0); Element packed_d (0, 1072693248); Element packed_e (5, 0); Scalar (WInt single_id 7 0)] ++ replicate 24 (Element packed_q (300, 1)).

Lemma demo_enum_names id : is_s32 id → ∃ name, enum_name packed_env packed_e id = Done name.
Proof.
  intros Hid. destruct (ip_query_reference demo_enum id) as (m & Hm & Hq); [done| |done|].
  { split; [apply (bool_decide_unpack _); vm_compute; exact I|]. cbn. repeat (apply Forall_cons; split; [width|]). by apply Forall_nil. }
  exists ((list_to_map demo_enum : gmap Z (list Z)) !! id). rewrite <- Hq. vm_compute in Hm. injection Hm as <-. reflexivity.
Qed.

Lemma demo_packed_ok : Forall (packed_ok packed_env packed_msg) [packed_p; packed_q; packed_d; packed_e].
Proof.
  repeat (apply Forall_cons; split; [|]); [..|by apply Forall_nil]; (split; [vm_compute; reflexivity|]); (split; [vm_compute; reflexivity|]);
    (split; [split; vm_compute; congruence|]); (split; [reflexivity|]); (split; [apply (bool_decide_unpack _); vm_compute; exact I|]); try discriminate.
  intros _. apply demo_enum_names.
Qed.

Lemma mixed_ok : Forall (fill_ok packed_env packed_msg) mixed.
Proof.
  pose proof demo_packed_ok as Hall. rewrite !Forall_cons in Hall. destruct Hall as (Hp & Hq & Hd & He & _). apply Forall_app. split; [apply Forall_cons; split; [|apply Forall_cons; split; [|apply Forall_cons; split; [|apply Forall_cons; split; [|apply Forall_singleton]]]]|apply Forall_replicate].
  - split; [done|]. split; cbn; width.
  - split; [done|]. split; cbn; width.
  - split; [done|]. split; cbn; width.
  - split; [done|]. split; cbn; width.
  - split; [vm_compute; reflexivity|]. split; [vm_compute; reflexivity|]. split; [split; vm_compute; congruence|]. split; [vm_compute; discriminate|].
    split; [apply (bool_decide_unpack _); vm_compute; exact I|]. split; [vm_compute; discriminate|]. split; [width|]. split; [width|]. intros _. vm_compute. reflexivity.
  - split; [done|]. split; cbn; width.
Qed.

