(* ===== verification/MessageTree.v ===== *)
(** * Nested messages ([3rd/pbc/src/wmessage.c], [3rd/pbc/src/rmessage.c])

    A client that fills a message and its sub-messages, in any order, and what
    [pbc_rmessage_new] makes of the bytes [pbc_wmessage_buffer] returns.  The
    sub-messages are made with [pbc_wmessage_message]; every message may be
    written to until the buffer is asked for. *)

From stdpp Require Import relations.
From S2P Require Import Prelude Varint Chain PMap SpMap PArray StringPool Context Proto Wmessage Decode CMem Pattern Rmessage RmessageRT.

(** ** The client *)

(** A call on the [i]-th message that was made: a field, or a sub-message under
    the field [f]. *)
Inductive command :=
  | Put (i : nat) (op : wop)
  | Enter (i : nat) (f : _field).

(** A message as the client knows it: its type, the fields it wrote and the
    sub-messages it made, in order. *)
Record draft := Draft { d_type : _message; d_ops : list wop; d_subs : list (nat * _field) }.

Definition add_op (d : draft) (op : wop) : draft := Draft (d_type d) (d_ops d ++ [op]) (d_subs d).
Definition add_sub (d : draft) (j : nat) (f : _field) : draft := Draft (d_type d) (d_ops d) (d_subs d ++ [(j, f)]).

(** The bytes of a sub-message with the bytes [b]. *)
Definition sub_bytes (f : _field) (b : list Z) : list Z := _pbcV_encode32 (key (f_id f) WT_LEND) ++ _pbcV_encode32 (zlen b) ++ b.

(** The sub-messages come after the fields, whenever they were made. *)
Fixpoint draft_bytes (fuel : nat) (ds : list draft) (i : nat) : list Z :=
  match fuel, ds !! i with
  | S fuel', Some d => concat (map op_bytes (d_ops d)) ++ concat (map (λ s, sub_bytes s.2 (draft_bytes fuel' ds s.1)) (d_subs d))
  | _, _ => []
  end.

(** A sub-message is made after the message it is in. *)
Definition message_bytes (ds : list draft) (i : nat) : list Z := draft_bytes (length ds) ds i.

(** The sub-messages of one field, in order. *)
Definition subs_of (f : _field) (subs : list (nat * _field)) : list nat := map fst (List.filter (λ s, bool_decide (s.2 = f)) subs).

(** The fields that are not repeated occur once. *)
Definition singular (d : draft) : Prop :=
  NoDup (f_name <$> List.filter (λ f, negb (is_repeated f)) (map op_field (d_ops d) ++ map snd (d_subs d))).

Section Client.
Context (junk : nat → Z) (d2f : Z → Z) (env : pbc_env).

(** The calls in order, as long as they succeed. *)
Fixpoint run (store : list wmessage) (cmds : list command) : outcome (option (list wmessage)) :=
  match cmds with
  | [] => Done (Some store)
  | Put i op :: rest =>
      match store !! i with
      | None => Done None
      | Some w =>
          do! (ret, w, _) <- do_op junk d2f env w op;
          if ret =? 0 then run (<[i := w]> store) rest else Done None
      end
  | Enter i f :: rest =>
      do! (store, sub, _) <- pbc_wmessage_message junk store i env (f_name f);
      match sub with
      | Some _ => run store rest
      | None => Done None
      end
  end.

(** The field is one of the message's, and the type of its sub-messages is [t]. *)
Definition sub_ok (m : _message) (f : _field) (t : _message) : Prop :=
  _pbcM_sp_query (Some (m_name m)) (f_name f) = Done (Some f)
  ∧ _pbcM_ip_query (m_id m) (f_id f) = Done (Some f)
  ∧ id_ok (f_id f) ∧ f_label f ≠ LABEL_PACKED ∧ f_type f = PTYPE_MESSAGE ∧ field_message env f = Done (Some t).

(** Calls that are in order: the fields exist and have the types of the values. *)
Inductive script : list draft → list command → list draft → Prop :=
  | script_nil ds : script ds [] ds
  | script_put ds i d op cmds ds' : ds !! i = Some d → op_ok (d_type d) op →
      script (<[i := add_op d op]> ds) cmds ds' → script ds (Put i op :: cmds) ds'
  | script_enter ds i d f t cmds ds' : ds !! i = Some d → sub_ok (d_type d) f t →
      script (<[i := add_sub d (length ds) f]> ds ++ [Draft t [] []]) cmds ds' → script ds (Enter i f :: cmds) ds'.

(** What the accessors find in a message that was read, and in its
    sub-messages: the fields and sub-messages of the draft, in order. *)
Inductive shows (ds : list draft) : rmessage → nat → Prop :=
  | Shows rm i d : ds !! i = Some d →
      (∀ f, _pbcM_sp_query (Some (m_name (d_type d))) (f_name f) = Done (Some f) → calc_hash (f_name f) ≠ 0 → f_type f ≠ PTYPE_MESSAGE →
        pbc_rmessage_size rm (f_name f) = Done (zlen (writes_of f (d_ops d)))
        ∧ (∀ k op, writes_of f (d_ops d) !! k = Some op → reads_op rm op (Z.of_nat k))
        ∧ (writes_of f (d_ops d) = [] → ∀ k, rmessage_var rm (f_name f) k = Done (f_type f, f_default_v f))) →
      (∀ f t, _pbcM_sp_query (Some (m_name (d_type d))) (f_name f) = Done (Some f) → calc_hash (f_name f) ≠ 0 →
        field_message env f = Done (Some t) → f_type f = PTYPE_MESSAGE →
        pbc_rmessage_size rm (f_name f) = Done (zlen (subs_of f (d_subs d)))
        ∧ (∀ k j, subs_of f (d_subs d) !! k = Some j →
             ∃ sub, pbc_rmessage_message env rm (f_name f) (Z.of_nat k) = Done (Some sub, None) ∧ shows ds sub j)
        ∧ (subs_of f (d_subs d) = [] → ∀ k, pbc_rmessage_message env rm (f_name f) k = Done (Some (RMessage (Some t) None), None))) →
      shows ds rm i.

(** ** The messages form a tree *)

Definition child (ds : list draft) (i j : nat) : Prop := ∃ d f, ds !! i = Some d ∧ (j, f) ∈ d_subs d.

Record forest (ds : list draft) : Prop := {
  forest_ops i d : ds !! i = Some d → Forall (op_ok (d_type d)) (d_ops d);
  forest_sub i d j f : ds !! i = Some d → (j, f) ∈ d_subs d →
    (i < j)%nat ∧ ∃ d', ds !! j = Some d' ∧ sub_ok (d_type d) f (d_type d');
  forest_once i d i' d' k k' j f f' : ds !! i = Some d → ds !! i' = Some d' →
    d_subs d !! k = Some (j, f) → d_subs d' !! k' = Some (j, f') → i = i' ∧ k = k';
  forest_parent j : (0 < j < length ds)%nat → ∃ i, child ds i j }.

(** Later in the script there is more of every message. *)
Definition grows (ds ds' : list draft) : Prop :=
  ∀ i d, ds !! i = Some d → ∃ d' ops subs,
    ds' !! i = Some d' ∧ d_type d' = d_type d ∧ d_ops d' = d_ops d ++ ops ∧ d_subs d' = d_subs d ++ subs.

#[export] Instance grows_preorder : PreOrder grows.
Proof.
  split.
  - intros ds i d Hi. exists d, [], []. by rewrite !app_nil_r.
  - intros ds1 ds2 ds3 H12 H23 i d Hi. destruct (H12 i d Hi) as (d2 & o & s & H2 & Ht & Ho & Hs).
    destruct (H23 i d2 H2) as (d3 & o' & s' & H3 & Ht' & Ho' & Hs'). exists d3, (o ++ o'), (s ++ s').
    split_and!; [done | congruence | by rewrite Ho', Ho, app_assoc | by rewrite Hs', Hs, app_assoc].
Qed.

Lemma put_lookup (ds : list draft) (i k : nat) d op e : ds !! i = Some d → <[i := add_op d op]> ds !! k = Some e →
  ∃ e0, ds !! k = Some e0 ∧ d_type e = d_type e0 ∧ d_subs e = d_subs e0 ∧ (e = e0 ∨ e0 = d ∧ d_ops e = d_ops d ++ [op]).
Proof.
  intros Hi Hk. apply list_lookup_insert_Some in Hk as [(<- & <- & _)|[Hne Hk]]; [exists d | exists e]; split_and!; auto.
Qed.

Lemma put_grows (ds : list draft) (i : nat) d op : ds !! i = Some d → grows ds (<[i := add_op d op]> ds).
Proof.
  intros Hi k e Hk. destruct (decide (i = k)) as [<-|Hne].
  - assert (e = d) as -> by congruence. exists (add_op d op), [op], []. rewrite list_lookup_insert_eq by (by eapply lookup_lt_Some). by rewrite app_nil_r.
  - exists e, [], []. by rewrite list_lookup_insert_ne, !app_nil_r by done.
Qed.

Lemma enter_lookup (ds : list draft) (i k : nat) d f t e : ds !! i = Some d → (<[i := add_sub d (length ds) f]> ds ++ [Draft t [] []]) !! k = Some e →
  k = length ds ∧ e = Draft t [] []
  ∨ ∃ e0, ds !! k = Some e0 ∧ d_type e = d_type e0 ∧ d_ops e = d_ops e0
      ∧ (k = i ∧ d_subs e = d_subs e0 ++ [(length ds, f)] ∨ d_subs e = d_subs e0).
Proof.
  intros Hi Hk. apply lookup_snoc_Some in Hk as [[_ Hk]|[-> <-]]; [|by rewrite length_insert; left]. right.
  apply list_lookup_insert_Some in Hk as [(<- & <- & _)|[Hne Hk]]; [exists d | exists e]; split_and!; auto.
Qed.

Lemma enter_grows (ds : list draft) (i : nat) d f t : ds !! i = Some d → grows ds (<[i := add_sub d (length ds) f]> ds ++ [Draft t [] []]).
Proof.
  intros Hi k e Hk. pose proof (lookup_lt_Some _ _ _ Hk). destruct (decide (i = k)) as [<-|Hne].
  - assert (e = d) as -> by congruence. exists (add_sub d (length ds) f), [], [(length ds, f)].
    rewrite lookup_app_l, list_lookup_insert_eq by (rewrite ?length_insert; done). by rewrite app_nil_r.
  - exists e, [], []. by rewrite lookup_app_l, list_lookup_insert_ne, !app_nil_r by (rewrite ?length_insert; done).
Qed.

Lemma grows_child ds ds' i j : grows ds ds' → child ds i j → child ds' i j.
Proof.
  intros Hg (d & f & Hi & Hj). destruct (Hg i d Hi) as (d' & ops & subs & Hi' & _ & _ & Hs). exists d', f.
  split; [done|]. rewrite Hs. apply elem_of_app. by left.
Qed.

Lemma put_forest (ds : list draft) (i : nat) d op : forest ds → ds !! i = Some d → op_ok (d_type d) op → forest (<[i := add_op d op]> ds).
Proof.
  intros Hf Hi Hop. split.
  - intros k e Hk. destruct (put_lookup _ _ _ _ _ _ Hi Hk) as (e0 & H0 & -> & _ & [->|[-> ->]]); [by apply (forest_ops ds Hf k)|].
    apply Forall_app. split; [by apply (forest_ops ds Hf k) | by constructor].
  - intros k e j f Hk Hj. destruct (put_lookup _ _ _ _ _ _ Hi Hk) as (e0 & H0 & Et & Es & _). rewrite Es in Hj.
    destruct (forest_sub ds Hf k e0 j f H0 Hj) as (Hlt & e' & He' & Hok). split; [done|].
    destruct (put_grows ds i d op Hi j e' He') as (e1 & _ & _ & H1 & Et1 & _). exists e1. by rewrite Et, Et1.
  - intros k e k' e' a a' j f f' Hk Hk' Ha Ha'.
    destruct (put_lookup _ _ _ _ _ _ Hi Hk) as (e0 & H0 & _ & Es & _), (put_lookup _ _ _ _ _ _ Hi Hk') as (e0' & H0' & _ & Es' & _).
    rewrite Es in Ha. rewrite Es' in Ha'. by eapply (forest_once ds Hf).
  - intros j Hj. rewrite length_insert in Hj. destruct (forest_parent ds Hf j Hj) as [k Hk]. exists k. eapply grows_child; [by apply put_grows | done].
Qed.

(** A reference of the grown list is an old one or the new one. *)
Lemma enter_ref (ds : list draft) (i k a j : nat) d f t e g : ds !! i = Some d → (<[i := add_sub d (length ds) f]> ds ++ [Draft t [] []]) !! k = Some e →
  d_subs e !! a = Some (j, g) →
  (∃ e0, ds !! k = Some e0 ∧ d_type e = d_type e0 ∧ d_subs e0 !! a = Some (j, g))
  ∨ k = i ∧ j = length ds ∧ g = f ∧ a = length (d_subs d) ∧ d_type e = d_type d.
Proof.
  intros Hi Hk Ha. destruct (enter_lookup _ _ _ _ _ _ _ Hi Hk) as [[_ ->]|(e0 & H0 & Et & _ & [[-> Es]|Es])]; [done|..]; rewrite Es in Ha.
  - assert (e0 = d) as -> by congruence. apply lookup_snoc_Some in Ha as [[_ Ha]|[-> [= <- <-]]]; [left; eauto | by right].
  - left. eauto.
Qed.

Lemma enter_forest (ds : list draft) (i : nat) d f t : forest ds → ds !! i = Some d → sub_ok (d_type d) f t →
  forest (<[i := add_sub d (length ds) f]> ds ++ [Draft t [] []]).
Proof.
  intros Hf Hi Hok. pose proof (lookup_lt_Some _ _ _ Hi) as Hlt. pose proof (enter_grows ds i d f t Hi) as Hg.
  assert (∀ k e a j g, ds !! k = Some e → d_subs e !! a = Some (j, g) → (j < length ds)%nat) as Hold.
  { intros k e a j g Hk Ha. destruct (forest_sub ds Hf k e j g Hk) as (_ & e' & He' & _); [by eapply list_elem_of_lookup_2 | by eapply lookup_lt_Some]. }
  split.
  - intros k e Hk. destruct (enter_lookup _ _ _ _ _ _ _ Hi Hk) as [[_ ->]|(e0 & H0 & -> & -> & _)]; [constructor | by apply (forest_ops ds Hf k)].
  - intros k e j g Hk Hj. apply list_elem_of_lookup in Hj as [a Ha]. destruct (enter_ref _ _ _ _ _ _ _ _ _ _ Hi Hk Ha) as [(e0 & H0 & -> & H0a)|(-> & -> & -> & _ & ->)].
    + destruct (forest_sub ds Hf k e0 j g H0) as (Hkj & e' & He' & Hok'); [by eapply list_elem_of_lookup_2|]. split; [done|].
      destruct (Hg j e' He') as (e1 & _ & _ & H1 & Et1 & _). exists e1. by rewrite Et1.
    + split; [done|]. exists (Draft t [] []). split; [|done]. apply lookup_snoc_Some. right. by rewrite length_insert.
  - intros k e k' e' a a' j g g' Hk Hk' Ha Ha'.
    destruct (enter_ref _ _ _ _ _ _ _ _ _ _ Hi Hk Ha) as [(e0 & H0 & _ & H0a)|(-> & Ej & _ & -> & _)],
      (enter_ref _ _ _ _ _ _ _ _ _ _ Hi Hk' Ha') as [(e0' & H0' & _ & H0a')|(-> & Ej' & _ & -> & _)].
    + by eapply (forest_once ds Hf).
    + pose proof (Hold _ _ _ _ _ H0 H0a). lia.
    + pose proof (Hold _ _ _ _ _ H0' H0a'). lia.
    + done.
  - intros j Hj. rewrite length_app, length_insert in Hj. cbn [length] in Hj. destruct (decide (j = length ds)) as [->|Hne].
    + exists i. exists (add_sub d (length ds) f), f. rewrite lookup_app_l, list_lookup_insert_eq by (rewrite ?length_insert; done).
      split; [done|]. cbn [d_subs add_sub]. apply elem_of_app; right; by apply list_elem_of_singleton.
    + destruct (forest_parent ds Hf j ltac:(lia)) as [k Hk]. exists k. by eapply grows_child.
Qed.

Lemma start_forest m : forest [Draft m [] []].
Proof.
  split.
  - intros [|i] d Hi; [injection Hi as <-; constructor | done].
  - intros [|i] d j f Hi Hj; [injection Hi as <-; by apply elem_of_nil in Hj | done].
  - intros [|i] d i' d' k k' j f f' Hi _ Hk; [by injection Hi as <- | done].
  - intros j Hj. cbn in Hj. lia.
Qed.

Lemma script_forest ds cmds ds' : script ds cmds ds' → forest ds → forest ds' ∧ grows ds ds'.
Proof.
  induction 1 as [ds|ds i d op cmds ds' Hi Hop _ IH|ds i d f t cmds ds' Hi Hok _ IH]; intros Hf; [by split| |].
  - destruct IH as [Hf' Hg]; [by apply put_forest|]. split; [done|]. etrans; [by apply put_grows | done].
  - destruct IH as [Hf' Hg]; [by apply enter_forest|]. split; [done|]. etrans; [by apply enter_grows | done].
Qed.

(** ** Writing *)

(** The writer's message holds the draft. *)
Definition drawn (w : wmessage) (d : draft) : Prop :=
  w_type w = d_type d ∧ wm_ok w ∧ written w = concat (map op_bytes (d_ops d)) ∧ holds (w_sub w) (d_subs d) ∧ w_packed w = None.

Lemma new_drawn m : drawn (_wmessage_new junk m) (Draft m [] []).
Proof. destruct (new_ok junk m) as [Hok Hw]. split_and!; done. Qed.

Lemma put_drawn w d op : drawn w d → op_ok (d_type d) op → zlen (concat (map op_bytes (d_ops (add_op d op)))) + 20 <= 2 ^ 30 →
  ∃ w', do_op junk d2f env w op = Done (0, w', None) ∧ drawn w' (add_op d op).
Proof.
  intros (Ht & Hok & Hw & Hs & Hp) Hop Hlen. cbn [d_ops add_op] in Hlen. rewrite map_app, concat_app in Hlen. cbn [map concat] in Hlen.
  rewrite app_nil_r, zlen_app, <- Hw, zlen_written in Hlen by done.
  destruct (op_written junk d2f env (d_type d) w op Hop Ht Hok ltac:(lia)) as (w' & -> & Hok' & Hw' & _ & Ht' & Hs' & Hp'). exists w'. split; [done|].
  unfold drawn. rewrite Ht', Hs', Hp', Hw', Hw. split_and!; try done. cbn [d_ops add_op]. rewrite map_app, concat_app. cbn [map concat]. by rewrite app_nil_r.
Qed.

(** A script that is in order runs to its end. *)
Lemma run_drawn ds cmds ds' store : script ds cmds ds' → forest ds →
  (∀ i d, ds' !! i = Some d → zlen (concat (map op_bytes (d_ops d))) + 20 <= 2 ^ 30) →
  Forall2 drawn store ds → ∃ store', run store cmds = Done (Some store') ∧ Forall2 drawn store' ds'.
Proof.
  intros Hs. revert store. induction Hs as [ds|ds i d op cmds ds' Hi Hop Hs IH|ds i d f t cmds ds' Hi Hok Hs IH]; intros store Hf Hlen Hall; cbn [run].
  { by exists store. }
  all: destruct (Forall2_lookup_r _ _ _ _ _ Hall Hi) as (w & Hw & Hd).
  - rewrite Hw. destruct (put_drawn w d op Hd Hop) as (w' & -> & Hd').
    { destruct (script_forest _ _ _ Hs) as [_ Hg]; [by apply put_forest|].
      destruct (Hg i (add_op d op)) as (e & ops & subs & He & _ & Ho & _); [apply list_lookup_insert_eq; by eapply lookup_lt_Some|].
      specialize (Hlen i e He). rewrite Ho, map_app, concat_app, zlen_app in Hlen. pose proof (zlen_nonneg (concat (map op_bytes ops))). lia. }
    cbn [obind Z.eqb]. apply IH; [by apply put_forest | done | by apply Forall2_insert].
  - destruct Hd as (Ht & Hwok & Hwr & Hsub & Hp), Hok as (Hq & Hok'). unfold pbc_wmessage_message. rewrite Hw, Ht, Hq. cbn [obind].
    pose proof Hok' as (_ & _ & _ & _ & Hm). rewrite Hm. cbn [obind].
    destruct (push_holds _ _ (length store, f) Hsub) as (a & -> & Ha). cbn [obind]. rewrite (Forall2_length _ _ _ Hall) in Ha.
    apply IH; [apply enter_forest; done | done |]. apply Forall2_app; [|by repeat constructor; apply new_drawn]. by apply Forall2_insert.
Qed.

(** *** Descendants *)

Section Forest.
Context (ds : list draft) (Hds : forest ds).

(** [j] is [i] or a message inside of it. *)
Definition inside (i j : nat) : Prop := rtc (child ds) i j.

Lemma child_lt i j : child ds i j → (i < j)%nat.
Proof. intros (d & f & Hi & Hj). by eapply forest_sub. Qed.

Lemma inside_le i j : inside i j → (i <= j)%nat.
Proof. induction 1 as [|i k j Hc _ IH]; [done|]. apply child_lt in Hc. lia. Qed.

Lemma child_unique i i' j : child ds i j → child ds i' j → i = i'.
Proof.
  intros (d & f & Hi & Hj) (d' & f' & Hi' & Hj'). apply list_elem_of_lookup in Hj as [k Hk], Hj' as [k' Hk'].
  by destruct (forest_once ds Hds _ _ _ _ _ _ _ _ _ Hi Hi' Hk Hk').
Qed.

Lemma inside_linear a b k : inside a k → inside b k → inside a b ∨ inside b a.
Proof.
  intros Ha. revert b. revert k Ha. apply (rtc_ind_r (λ k, ∀ b, inside b k → inside a b ∨ inside b a)); [by right|].
  intros k k' Ha Hk IH b Hb. apply rtc_inv_r in Hb as [<-|(k0 & Hb & Hk0)]; [left; by eapply rtc_r|]. rewrite <- (child_unique _ _ _ Hk Hk0) in Hb. by apply IH.
Qed.

(** Two messages of the same message have nothing in common. *)
Lemma siblings_disjoint i j j' k : child ds i j → child ds i j' → j ≠ j' → inside j k → inside j' k → False.
Proof.
  intros Hj Hj' Hne Hk Hk'.
  assert (∀ a b, child ds i a → child ds i b → a ≠ b → ¬ inside a b) as H.
  { intros a b Ha Hb Hab Hin. apply rtc_inv_r in Hin as [<-|(p & Hin & Hp)]; [done|]. rewrite (child_unique _ _ _ Hp Hb) in Hin.
    apply inside_le in Hin. apply child_lt in Ha. lia. }
  destruct (inside_linear _ _ _ Hk Hk') as [Hin|Hin]; [apply (H j j') | apply (H j' j)]; auto.
Qed.

(** *** The bytes of a message *)

Lemma draft_bytes_fuel n : ∀ n' i, (length ds <= n + i)%nat → (length ds <= n' + i)%nat → draft_bytes n ds i = draft_bytes n' ds i.
Proof.
  induction n as [|n IH]; intros n' i Hn Hn'.
  { cbn [draft_bytes]. destruct n'; [done|]. cbn [draft_bytes]. by rewrite lookup_ge_None_2 by lia. }
  destruct n' as [|n'].
  { cbn [draft_bytes]. by rewrite lookup_ge_None_2 by lia. }
  cbn [draft_bytes]. destruct (ds !! i) as [d|] eqn:Hi; [|done]. do 2 f_equal. apply List.map_ext_in. intros [j f] Hj. cbn [fst snd].
  apply list_elem_of_In, (forest_sub ds Hds i d j f Hi) in Hj as [Hlt _]. f_equal. apply IH; lia.
Qed.

Lemma message_bytes_eq i d : ds !! i = Some d →
  message_bytes ds i = concat (map op_bytes (d_ops d)) ++ concat (map (λ s, sub_bytes s.2 (message_bytes ds s.1)) (d_subs d)).
Proof.
  intros Hi. pose proof (lookup_lt_Some _ _ _ Hi). unfold message_bytes. rewrite (draft_bytes_fuel _ (S (length ds)) i) by lia.
  cbn [draft_bytes]. by rewrite Hi.
Qed.

(** A message is longer than the messages inside. *)
Lemma sub_shorter i j : child ds i j → zlen (message_bytes ds j) < zlen (message_bytes ds i).
Proof.
  intros (d & f & Hi & Hj). destruct (forest_sub ds Hds i d j f Hi Hj) as (_ & _ & _ & _ & _ & Hid & _). rewrite (message_bytes_eq i d Hi), zlen_app.
  destruct (key_spec (f_id f) WT_LEND Hid ltac:(done)) as (_ & Hk & _). destruct (enc32_bytes _ Hk) as [_ Hl].
  assert (zlen (sub_bytes f (message_bytes ds j)) <= zlen (concat (map (λ s, sub_bytes s.2 (message_bytes ds s.1)) (d_subs d)))) as Hin.
  { apply list_elem_of_split in Hj as (l1 & l2 & ->). rewrite map_app, concat_app, zlen_app. cbn [map concat fst snd]. rewrite zlen_app.
    pose proof (zlen_nonneg (concat (map (λ s, sub_bytes s.2 (message_bytes ds s.1)) l1))).
    pose proof (zlen_nonneg (concat (map (λ s, sub_bytes s.2 (message_bytes ds s.1)) l2))). lia. }
  unfold sub_bytes in Hin at 1. rewrite !zlen_app in Hin. pose proof (zlen_nonneg (concat (map op_bytes (d_ops d)))).
  pose proof (zlen_nonneg (_pbcV_encode32 (zlen (message_bytes ds j)))). lia.
Qed.

Lemma message_shorter i : (i < length ds)%nat → zlen (message_bytes ds i) <= zlen (message_bytes ds 0).
Proof.
  induction i as [i IH] using lt_wf_ind. intros Hi. destruct (decide (i = 0%nat)) as [->|Hne]; [done|].
  destruct (forest_parent ds Hds i ltac:(lia)) as [p Hp]. pose proof (child_lt _ _ Hp). pose proof (sub_shorter _ _ Hp). specialize (IH p ltac:(lia) ltac:(lia)). lia.
Qed.

(** *** The buffer *)

Definition subs_bytes (subs : list (nat * _field)) : list Z := concat (map (λ s, sub_bytes s.2 (message_bytes ds s.1)) subs).

Lemma subs_bytes_snoc l j f : subs_bytes (l ++ [(j, f)]) = subs_bytes l ++ sub_bytes f (message_bytes ds j).
Proof. unfold subs_bytes. rewrite map_app, concat_app. cbn [map concat fst snd]. by rewrite app_nil_r. Qed.

(** The message is in the store as the client wrote it. *)
Definition present (store : list wmessage) (i : nat) : Prop := ∃ w d, store !! i = Some w ∧ ds !! i = Some d ∧ drawn w d.

(** The store with the message [i] and those inside it in whatever state. *)
Definition same_outside (i : nat) (S S' : list wmessage) : Prop := ∀ k, ¬ inside i k → S' !! k = S !! k.

Lemma append_sub w f s : wm_ok w → id_ok (f_id f) → w_ptr w + zlen s + 20 <= 2 ^ 30 →
  ∃ w1 w2 w3, _expand_message junk w (20 + zlen s) = Done w1
    ∧ emit w1 (_pbcV_encode32 (u32 (Z.lor (s32 (Z.shiftl (f_id f) 3)) WT_LEND)) ++ _pbcV_encode32 (u32 (zlen s))) = Done w2
    ∧ emit w2 s = Done w3 ∧ wrote w w3 (sub_bytes f s).
Proof.
  intros Hok Hid Hlen. pose proof (zlen_nonneg s). assert (0 <= w_ptr w) by apply Hok. destruct (key_spec (f_id f) WT_LEND Hid ltac:(done)) as (-> & Hk & _).
  assert (is_u32 (zlen s)) as Hu by (unfold is_u32; lia). rewrite (u32_id _ Hu). destruct (enc32_bytes _ Hk) as [_ Hl], (enc32_bytes _ Hu) as [_ Hl'].
  destruct (expand_ok junk w (20 + zlen s) Hok) as (w1 & Hw1 & Hwr1 & Hroom); [lia | lia |]. pose proof Hwr1 as (Hok1 & _ & Hp1 & _). rewrite zlen_nil in Hp1.
  destruct (emit_ok w1 (_pbcV_encode32 (key (f_id f) WT_LEND) ++ _pbcV_encode32 (zlen s)) Hok1) as (w2 & Hw2 & Hwr2 & Hsz2); [rewrite zlen_app; lia|].
  pose proof Hwr2 as (Hok2 & _ & Hp2 & _). rewrite zlen_app in Hp2. destruct (emit_ok w2 s Hok2) as (w3 & Hw3 & Hwr3 & _); [lia|].
  exists w1, w2, w3. split_and!; [done..|]. unfold sub_bytes. rewrite app_assoc. eapply wrote_trans; [|done]. exact (wrote_trans _ _ _ [] _ Hwr1 Hwr2).
Qed.

(** Making the buffer of a sub-message. *)
Definition buffers (n j : nat) : Prop := ∀ S, (∀ k, inside j k → present S k) →
  ∃ S', pbc_wmessage_buffer junk d2f n S j = Done (S', message_bytes ds j) ∧ same_outside j S S'.

Context (Hmax : zlen (message_bytes ds 0) + 20 <= 2 ^ 30).

Lemma append_subs_ok n i d : ds !! i = Some d → (∀ j f, (j, f) ∈ d_subs d → buffers n j) →
  ∀ rest done S w, d_subs d = done ++ rest → S !! i = Some w → wm_ok w → written w = concat (map op_bytes (d_ops d)) ++ subs_bytes done →
  (∀ j f k, (j, f) ∈ rest → inside j k → present S k) →
  ∃ S' w', append_subs junk (pbc_wmessage_buffer junk d2f n) rest S i = Done S'
    ∧ S' !! i = Some w' ∧ wm_ok w' ∧ written w' = message_bytes ds i ∧ same_outside i S S'.
Proof.
  intros Hi Hbuf. pose proof (message_shorter i (lookup_lt_Some _ _ _ Hi)) as Hshort. rewrite (message_bytes_eq i d Hi) in Hshort |- *. fold (subs_bytes (d_subs d)) in Hshort |- *.
  induction rest as [|[j f] rest IH]; intros dn S w Hsplit Hw Hok Hwr Hpres; cbn [append_subs].
  { rewrite app_nil_r in Hsplit. subst dn. by exists S, w. }
  assert ((j, f) ∈ d_subs d) as Hj by (rewrite Hsplit; set_solver). assert (child ds i j) as Hc by (by exists d, f). pose proof (child_lt _ _ Hc) as Hlt.
  destruct (Hbuf j f Hj S) as (S1 & -> & Hout); [intros k; apply (Hpres j f); set_solver|]. cbn [obind].
  assert (S1 !! i = Some w) as -> by (rewrite Hout; [done|]; intros Hin; apply inside_le in Hin; lia).
  destruct (forest_sub ds Hds i d j f Hi Hj) as (_ & _ & _ & _ & _ & Hid & _).
  destruct (append_sub w f (message_bytes ds j) Hok Hid) as (w1 & w2 & w3 & -> & Hw2 & Hw3 & Hok3 & Hwr3 & _).
  { rewrite <- (zlen_written w Hok), Hwr, zlen_app. rewrite Hsplit, zlen_app in Hshort. unfold subs_bytes in Hshort at 1. rewrite map_app, concat_app in Hshort.
    cbn [map concat fst snd] in Hshort. fold (subs_bytes dn) (subs_bytes rest) in Hshort. rewrite !zlen_app in Hshort. unfold sub_bytes in Hshort. rewrite !zlen_app in Hshort.
    pose proof (zlen_nonneg (subs_bytes rest)). pose proof (zlen_nonneg (_pbcV_encode32 (key (f_id f) WT_LEND))).
    pose proof (zlen_nonneg (_pbcV_encode32 (zlen (message_bytes ds j)))). lia. }
  cbn [obind]. rewrite Hw2. cbn [obind]. rewrite Hw3. cbn [obind].
  assert (S1 !! i = Some w) as HS1 by (rewrite Hout; [done|]; intros Hin; apply inside_le in Hin; lia).
  destruct (IH (dn ++ [(j, f)]) (<[i := w3]> S1) w3) as (S' & w' & -> & Hw' & Hok' & Hwr' & Hout').
  { by rewrite <- app_assoc. } { apply list_lookup_insert_eq. by eapply lookup_lt_Some. } { done. }
  { by rewrite Hwr3, Hwr, subs_bytes_snoc, app_assoc. }
  { intros j' f' k Hj' Hin. assert (child ds i j') as Hc' by (exists d, f'; rewrite Hsplit; set_solver). pose proof (child_lt _ _ Hc'). pose proof (inside_le _ _ Hin).
    assert (j ≠ j') as Hne.
    { intros <-. apply list_elem_of_lookup in Hj' as [a Ha].
      destruct (forest_once ds Hds i d i d (length dn) (length dn + Datatypes.S a) j f f' Hi Hi) as [_ E]; [by rewrite Hsplit, list_lookup_middle | | lia].
      rewrite Hsplit, lookup_app_r by lia. by replace (length dn + Datatypes.S a - length dn)%nat with (Datatypes.S a) by lia. }
    destruct (Hpres j' f' k) as (wk & dk & Hk & Hdk); [set_solver | done |]. exists wk, dk. split; [|done]. rewrite list_lookup_insert_ne by lia.
    rewrite Hout; [done|]. intros Hin'. by eapply (siblings_disjoint i j j' k). }
  exists S', w'. split_and!; try done. intros k Hk. rewrite (Hout' k Hk). rewrite list_lookup_insert_ne by (intros <-; by apply Hk, rtc_refl).
  apply Hout. intros Hin. apply Hk. by eapply rtc_l.
Qed.

Lemma buffer_ok n : ∀ i, (i < length ds <= n + i)%nat → buffers n i.
Proof.
  induction n as [|n IH]; intros i [Hi Hn] S Hpres; [lia|]. cbn [pbc_wmessage_buffer].
  destruct (Hpres i) as (w & d & Hw & Hd & _ & Hok & Hwr & Hsub & Hpk); [apply rtc_refl|]. rewrite Hw, Hpk. cbn [obind].
  rewrite (array_list_holds _ _ Hsub). cbn [obind]. rewrite list_insert_id by done.
  destruct (append_subs_ok n i d Hd) with (rest := d_subs d) (done := @nil (nat * _field)) (S := S) (w := w) as (S' & w' & -> & Hw' & Hok' & Hwr' & Hout).
  { intros j f Hj. destruct (forest_sub ds Hds i d j f Hd Hj) as (Hlt & d' & Hd' & _). apply lookup_lt_Some in Hd'. apply IH. lia. }
  { done. } { done. } { done. } { by rewrite app_nil_r. }
  { intros j f k Hj Hin. apply Hpres. eapply rtc_l; [by exists d, f | done]. }
  cbn [obind]. rewrite Hw'. unfold slice_of. rewrite bytes_written by done. cbn [obind]. rewrite Hwr'. by exists S'.
Qed.

(** ** Reading *)

(** The field of a sub-message. *)
Definition sub_chunk (s : nat * _field) : chunk :=
  let b := message_bytes ds s.1 in
  let head := _pbcV_encode32 (key (f_id s.2) WT_LEND) ++ _pbcV_encode32 (zlen b) in
  (head ++ b, λ start, Atom (key (f_id s.2) WT_LEND) (start + zlen head) (start + zlen head + zlen b)).

Definition draft_chunks (d : draft) : list chunk := map op_chunk (d_ops d) ++ map sub_chunk (d_subs d).

Lemma sub_chunks_bytes subs : chunks_bytes (map sub_chunk subs) = subs_bytes subs.
Proof.
  unfold chunks_bytes, subs_bytes. rewrite List.map_map. f_equal. apply List.map_ext. intros s. unfold sub_bytes. cbn [sub_chunk fst]. by rewrite app_assoc.
Qed.

Lemma draft_chunks_bytes i d : ds !! i = Some d → chunks_bytes (draft_chunks d) = message_bytes ds i.
Proof. intros Hi. unfold draft_chunks. rewrite chunks_bytes_app, op_chunks_bytes, sub_chunks_bytes. by rewrite (message_bytes_eq i d Hi). Qed.

Lemma draft_chunks_ok n : ∀ i d, (length ds <= n + i)%nat → ds !! i = Some d → Forall chunk_ok (draft_chunks d).
Proof.
  induction n as [|n IH]; intros i d Hn Hi; pose proof (lookup_lt_Some _ _ _ Hi) as Hlt; [lia|].
  pose proof (message_shorter i Hlt) as Hshort. rewrite <- (draft_chunks_bytes i d Hi) in Hshort. unfold draft_chunks in *.
  rewrite chunks_bytes_app, zlen_app in Hshort. pose proof (zlen_nonneg (chunks_bytes (map sub_chunk (d_subs d)))). apply Forall_app. split.
  - apply (op_chunks (d_type d)); [by apply (forest_ops ds Hds i) | lia].
  - apply Forall_fmap, Forall_forall. intros [j f] Hj. cbn. destruct (forest_sub ds Hds i d j f Hi Hj) as (Hij & d' & Hd' & _ & _ & Hid & _).
    pose proof (message_shorter j (lookup_lt_Some _ _ _ Hd')). apply (one_field_lend (f_id f) (message_bytes ds j)); [done | | cbn; lia].
    rewrite <- (draft_chunks_bytes j d' Hd'). apply chunks_bytes_ok, (IH j d'); [lia | done].
Qed.

(** A sub-message as the reader stores it. *)
Definition sub_items (subs : list (nat * _field)) (rms : list rmessage) : list item := zip_with (λ s rm, (s.2, inr rm)) subs rms.

Context (f2d : Z → Z) (stk : Z → list Z).

(** The message [i] is read, whatever follows it. *)
Definition readable (fuel : nat) (i : nat) : Prop := ∀ d tail, ds !! i = Some d → zlen (message_bytes ds i ++ tail) < 2 ^ 31 →
  ∃ rm, _pbc_rmessage_new f2d env stk fuel (Some (d_type d)) (message_bytes ds i ++ tail) (zlen (message_bytes ds i)) None = Done (rm, None)
    ∧ r_msg rm = Some (d_type d) ∧ shows ds rm i.

Lemma subs_decode fuel m msg tail subs : ∀ pre,
  (∀ j f, (j, f) ∈ subs → readable fuel j ∧ ∃ d, ds !! j = Some d ∧ sub_ok m f (d_type d)) →
  msg = pre ++ subs_bytes subs ++ tail → zlen msg < 2 ^ 31 →
  ∃ rms, Forall2 (λ s rm, shows ds rm s.1) subs rms
    ∧ Forall2 (λ a p, _pbcM_ip_query (m_id m) (Z.shiftr (wire_id a) 3) = Done (Some p.1) ∧ decodes f2d env (_pbc_rmessage_new f2d env stk fuel) msg a p)
        (chunk_atoms (map sub_chunk subs) (zlen pre)) (sub_items subs rms).
Proof.
  induction subs as [|[j f] subs IH]; intros pre Hsubs Hmsg Hlen; [by exists []|].
  destruct (Hsubs j f) as (Hr & d & Hd & _ & Hq & Hid & Hlab & Ht & Hm); [apply elem_of_cons; by left|].
  set (b := message_bytes ds j) in *. set (hd := _pbcV_encode32 (key (f_id f) WT_LEND) ++ _pbcV_encode32 (zlen b)).
  assert (msg = pre ++ (hd ++ b) ++ subs_bytes subs ++ tail) as Emsg.
  { rewrite Hmsg. unfold subs_bytes at 1. cbn [map concat fst snd]. unfold sub_bytes. fold b. unfold hd. by rewrite <- !app_assoc. }
  destruct (slice_read pre hd b (subs_bytes subs ++ tail)) as (Hdrop & _). rewrite <- Emsg in Hdrop.
  assert (zlen msg = zlen pre + zlen hd + zlen b + zlen (subs_bytes subs ++ tail)) as El by (rewrite Emsg, !zlen_app; lia).
  pose proof (zlen_nonneg (subs_bytes subs ++ tail)). pose proof (zlen_nonneg pre). pose proof (zlen_nonneg hd).
  destruct (Hr d (subs_bytes subs ++ tail) Hd) as (rm & Hread & Hrm & Hshow); [fold b; rewrite zlen_app; lia|].
  destruct (lend_atom (f_id f) pre hd b Hid ltac:(lia)) as (Hlend & Es & Ee).
  destruct (IH (pre ++ hd ++ b)) as (rms & Hshows & Hdec).
  { intros j' f' Hj'. apply Hsubs, elem_of_cons. by right. } { by rewrite Emsg, <- !app_assoc. } { done. }
  exists (rm :: rms). split; [by constructor|]. cbn [map chunk_atoms sub_chunk fst snd]. fold b. fold hd. constructor.
  - cbn [wire_id fst]. rewrite key_number by done. split; [done|]. split; [done|]. cbn [fst snd]. split; [done|]. split; [done|]. split; [by rewrite Hrm|].
    exists (Some (d_type d)). split; [done|]. rewrite Es, Ee in *. rewrite Hdrop. exact Hread.
  - by rewrite zlen_app in Hdec.
Qed.

Lemma sub_items_fields subs rms : length subs = length rms → (sub_items subs rms).*1 = map snd subs.
Proof. revert rms; induction subs as [|s subs IH]; intros [|rm rms] Hl; try done. cbn. f_equal. apply IH. by injection Hl. Qed.

(** Only the items of fields with another name are left out. *)
Lemma named_items_nil name items : (∀ f, f ∈ items.*1 → f_name f ≠ name) → named_items name items = [].
Proof.
  intros H. destruct (named_items name items) as [|p l] eqn:E; [done|]. assert (p ∈ named_items name items) as Hp by (rewrite E; apply elem_of_cons; by left).
  apply named_items_elem in Hp as [Hp Hn]. destruct (H p.1); [|done]. apply list_elem_of_fmap. by exists p.
Qed.

(** The items of a field are its sub-messages. *)
Lemma named_subs m f subs rms : (∀ s, s ∈ subs → _pbcM_sp_query (Some (m_name m)) (f_name s.2) = Done (Some s.2)) →
  _pbcM_sp_query (Some (m_name m)) (f_name f) = Done (Some f) → Forall2 (λ s rm, shows ds rm s.1) subs rms →
  Forall2 (λ j p, p.1 = f ∧ ∃ rm, p.2 = inr rm ∧ shows ds rm j) (subs_of f subs) (named_items (f_name f) (sub_items subs rms)).
Proof.
  intros Hsubs Hf Hall. induction Hall as [|[j g] rm subs rms Hs Hall IH]; [constructor|]. unfold subs_of, named_items, sub_items in *. cbn [List.filter zip_with fst snd].
  assert (_pbcM_sp_query (Some (m_name m)) (f_name g) = Done (Some g)) as Hg by (apply (Hsubs (j, g)), elem_of_cons; by left).
  specialize (IH (λ s Hin, Hsubs s (proj2 (elem_of_cons _ _ _) (or_intror Hin)))). destruct (decide (g = f)) as [->|Hne].
  - rewrite !bool_decide_eq_true_2 by done. cbn [map fst]. constructor; [|done]. cbn. eauto.
  - rewrite (bool_decide_eq_false_2 (g = f)) by done. rewrite bool_decide_eq_false_2; [done|]. intros En. rewrite En, Hf in Hg. congruence.
Qed.

(** The accessors find in the index of a message what is in its draft. *)
Lemma index_shows i d tail rms index : ds !! i = Some d → Forall2 (λ s rm, shows ds rm s.1) (d_subs d) rms →
  sp_ok index → indexed (sp_abs index) (op_items tail (d_ops d) ++ sub_items (d_subs d) rms) → shows ds (RMessage (Some (d_type d)) (Some index)) i.
Proof.
  intros Hi Hsubs Hok Hidx. pose proof (forest_ops ds Hds i d Hi) as Hops. set (m := d_type d) in *.
  assert (∀ s, s ∈ d_subs d → _pbcM_sp_query (Some (m_name m)) (f_name s.2) = Done (Some s.2) ∧ f_type s.2 = PTYPE_MESSAGE) as Hsub.
  { intros [j g] Hj. destruct (forest_sub ds Hds i d j g Hi Hj) as (_ & d' & _ & Hq & _ & _ & _ & Ht & _). done. }
  apply (Shows ds _ i d Hi); fold m.
  - intros f Hf Hh Ht. apply (index_reads m tail); [done | done | | done | by left]. pose proof (Hidx (f_name f)) as Hn. rewrite named_items_app in Hn.
    rewrite (named_items_nil (f_name f) (sub_items _ _)), app_nil_r in Hn; [done|]. rewrite sub_items_fields by (by eapply Forall2_length).
    intros g Hg E. apply list_elem_of_fmap in Hg as (s & -> & Hs). destruct (Hsub s Hs) as [Hq Htm]. rewrite E, Hf in Hq. congruence.
  - intros f t Hf Hh Hm Ht. pose proof (Hidx (f_name f)) as Hn. rewrite named_items_app in Hn. rewrite (named_items_nil (f_name f) (op_items _ _)) in Hn.
    2: { rewrite op_items_fields. intros g Hg E. apply list_elem_of_fmap in Hg as (op & -> & Hop). rewrite Forall_forall in Hops. specialize (Hops op Hop).
         apply (op_not_message m op Hops). destruct Hops as (Hq & _). rewrite E, Hf in Hq. congruence. }
    cbn [app] in Hn. pose proof (named_subs m f _ _ (λ s Hs, proj1 (Hsub s Hs)) Hf Hsubs) as Hns.
    destruct (named_items (f_name f) (sub_items (d_subs d) rms)) as [|[g v] rest] eqn:En.
    + apply Forall2_nil_inv_r in Hns as ->. assert (_pbcM_sp_query (Some index) (f_name f) = Done None) as Hq by (rewrite query_ok by auto; by rewrite Hn).
      unfold pbc_rmessage_size, pbc_rmessage_message. cbn [r_index r_msg]. rewrite Hq. cbn [obind]. split; [done|]. split; [done|]. intros _ k.
      rewrite Hf. cbn [obind]. unfold message_of. by rewrite Hm.
    + assert (g = f) as -> by (destruct (subs_of f (d_subs d)); [by apply Forall2_nil_inv_l in Hns | by apply Forall2_cons in Hns as [(E & _) _]]).
      destruct Hn as (rv & Hrv & He). pose proof (index_query index _ _ Hok Hrv) as Hq. change (v :: map snd rest) with (map snd ((f, v) :: rest)) in He.
      set (rm := RMessage (Some m) (Some index)). pose proof (Forall2_length _ _ _ Hns) as Hlen. split_and!.
      * rewrite (entry_size rm index f _ rv eq_refl Hq He). unfold zlen. by rewrite length_map, Hlen.
      * intros k j Hk. destruct (Forall2_lookup_l _ _ _ _ _ Hns Hk) as (p & Hp & _ & sub & Ev & Hshow). exists sub. split; [|done].
        apply (entry_sub env rm index f _ rv k sub eq_refl Hq He Ht). rewrite list_lookup_fmap, Hp. cbn. by rewrite Ev.
      * intros E. by rewrite E in Hlen.
Qed.

Context (Hstk : ∀ i, stack_ok (stk i)) (Hsing : ∀ i d, ds !! i = Some d → singular d).

Lemma message_readable n : ∀ i fuel, (i < length ds <= n + i)%nat → zlen (message_bytes ds i) < Z.of_nat fuel → readable fuel i.
Proof.
  induction n as [|n IH]; intros i fuel Hn Hfuel d tail Hd Hlen; [lia|]. pose proof (zlen_nonneg (message_bytes ds i)). destruct fuel as [|fuel]; [lia|].
  pose proof (message_shorter i ltac:(lia)). pose proof (draft_chunks_bytes i d Hd) as Eb.
  assert (message_bytes ds i ++ tail = concat (map op_bytes (d_ops d)) ++ subs_bytes (d_subs d) ++ tail) as Emsg by (by rewrite (message_bytes_eq i d Hd), <- app_assoc).
  assert (∀ j f, (j, f) ∈ d_subs d → readable fuel j ∧ ∃ d', ds !! j = Some d' ∧ sub_ok (d_type d) f (d_type d')) as Hsubs.
  { intros j f Hj. destruct (forest_sub ds Hds i d j f Hd Hj) as (Hij & d' & Hd' & Hok). split; [|by exists d'].
    pose proof (lookup_lt_Some _ _ _ Hd'). apply IH; [lia|]. pose proof (sub_shorter i j ltac:(by exists d, f)). lia. }
  destruct (subs_decode fuel (d_type d) (message_bytes ds i ++ tail) tail (d_subs d) (concat (map op_bytes (d_ops d))) Hsubs Emsg Hlen) as (rms & Hshows & Hdec).
  destruct (read_chunks f2d env stk fuel (d_type d) (draft_chunks d) tail (op_items (subs_bytes (d_subs d) ++ tail) (d_ops d) ++ sub_items (d_subs d) rms))
    as (index & Hr & Hiok & Hidx).
  { by apply (draft_chunks_ok (length ds) i d ltac:(lia)). } { rewrite Eb. lia. } { done. }
  { apply (items_ok_intro (d_type d)); rewrite fmap_app, op_items_fields, sub_items_fields by (by eapply Forall2_length); [|by apply (Hsing i)].
    intros f Hf. apply elem_of_app in Hf as [Hf|Hf]; apply list_elem_of_fmap in Hf as (x & -> & Hx).
    - pose proof (forest_ops ds Hds i d Hd) as Hops. rewrite Forall_forall in Hops. apply Hops, Hx.
    - destruct x as [j f]. by destruct (Hsubs j f Hx) as (_ & d' & _ & Hq & _). }
  { rewrite Eb. unfold draft_chunks. rewrite chunk_atoms_app, op_chunks_bytes. apply Forall2_app; [|done].
    apply (ops_decode f2d env _ (d_type d) _ _ (d_ops d) []); [by apply (forest_ops ds Hds i) | done | done]. }
  rewrite Eb in Hr. exists (RMessage (Some (d_type d)) (Some index)). split; [done|]. split; [done|]. by eapply index_shows.
Qed.
End Forest.
End Client.

(** ** Properties *)

(** C1: nested messages are read back.  A client fills a new message and
    sub-messages of it, to any depth and in any order of the calls (the fields
    that are not repeated at most once per message).  Every call succeeds;
    [pbc_wmessage_buffer] returns the fields of the message followed by its
    sub-messages, each with its length, however the calls were ordered; the bytes
    are read by [pbc_rmessage_new] without error; and the accessors find, in the
    message and in every message inside, the values and sub-messages of each field
    in the order in which they were given, the declared default of a field and the
    empty message of a sub-message that was not. *)
Theorem message_tree_roundtrip junk d2f f2d env type_name m cmds ds stk :
  _pbcP_get_message env type_name = Done (Some m) →
  script env [Draft m [] []] cmds ds → Forall singular ds →
  zlen (message_bytes ds 0) + 20 <= 2 ^ 30 → (∀ i, stack_ok (stk i)) →
  ∃ store store' rm, run junk d2f env [_wmessage_new junk m] cmds = Done (Some store)
    ∧ pbc_wmessage_buffer junk d2f (length store) store 0 = Done (store', message_bytes ds 0)
    ∧ pbc_rmessage_new f2d env stk type_name (message_bytes ds 0) = Done (Some rm, None)
    ∧ shows env ds rm 0.
Proof.
  intros Hm Hs Hsing Hlen Hstk. destruct (script_forest env _ _ _ Hs (start_forest env m)) as [Hds Hg].
  destruct (Hg 0%nat _ eq_refl) as (d & ops & subs & Hd & Ht & _). cbn [d_type] in Ht. pose proof (lookup_lt_Some _ _ _ Hd) as Hpos.
  destruct (run_drawn junk d2f env _ _ _ [_wmessage_new junk m] Hs (start_forest env m)) as (store & Hrun & Hall).
  { intros i e He. pose proof (message_shorter env ds Hds i (lookup_lt_Some _ _ _ He)) as Hshort. rewrite (message_bytes_eq env ds Hds i e He), zlen_app in Hshort.
    pose proof (zlen_nonneg (concat (map (λ s, sub_bytes s.2 (message_bytes ds s.1)) (d_subs e)))). lia. }
  { apply Forall2_cons. split; [apply new_drawn | constructor]. }
  destruct (buffer_ok junk d2f env ds Hds Hlen (length store) 0%nat) with (S := store) as (store' & Hbuf & _).
  { rewrite (Forall2_length _ _ _ Hall). lia. }
  { intros k Hk. assert (∃ e, ds !! k = Some e) as [e He].
    { apply rtc_inv_r in Hk as [<-|(p & _ & dp & f & Hp & Hj)]; [by exists d|]. destruct (forest_sub env ds Hds p dp k f Hp Hj) as (_ & e & He & _). by exists e. }
    destruct (Forall2_lookup_r _ _ _ _ _ Hall He) as (w & Hw & Hdr). by exists w, e. }
  destruct (message_readable env ds Hds Hlen f2d stk Hstk (λ i e He, proj1 (Forall_lookup _ _) Hsing i e He) (length ds) 0 (S (length (message_bytes ds 0))))
    with (d := d) (tail := @nil Z) as (rm & Hr & Hrm & Hshow); [lia | unfold zlen; lia | done | rewrite app_nil_r; lia |].
  rewrite app_nil_r, Ht in Hr. exists store, store', rm. split_and!; [done | done | | done].
  unfold pbc_rmessage_new. rewrite Hm. cbn [obind]. rewrite Hr. cbn [obind]. by rewrite Hrm.
Qed.

(** A message type that contains itself. *)
Definition tree_id : _field := Field 1 [105; 100] PTYPE_INT64 LABEL_OPTIONAL (VInteger 0 0) (TName None).
Definition tree_sub : _field := Field 2 [115; 117; 98] PTYPE_MESSAGE LABEL_REPEATED (VInteger 0 0) (TMessage (Some [84])).
Definition tree_name : _field := Field 3 [110] PTYPE_STRING LABEL_REQUIRED (VStr [] 0) (TName None).

Definition tree_env : pbc_env :=
  Eval vm_compute in
    match (do! p <- pbc_new_empty; do! (p, _, _) <- register_fields p [84] [tree_id; tree_sub; tree_name] _pbcA_open; Done p) with
    | Done p => p
    | Fault _ => Env (MapSp 0 0 false []) (MapSp 0 0 false []) (MapSp 0 0 false []) ""
    end.

Definition tree_msg : _message :=
  Eval vm_compute in
    match _pbcP_get_message tree_env [84] with
    | Done (Some m) => m
    | _ => Message [] None (MapSp 0 0 false [])
    end.

(** Calls on four messages, the parents written to after their sub-messages were
    made; the third message stays empty. *)
Definition tree_cmds : list command :=
  [Enter 0 tree_sub; Put 1 (WInt tree_id 7 0); Enter 1 tree_sub; Put 0 (WStr tree_name [104; 105] []); Enter 0 tree_sub;
   Put 3 (WInt tree_id 9 0); Put 1 (WStr tree_name [33] [])].

Definition tree_drafts : list draft :=
  [Draft tree_msg [WStr tree_name [104; 105] []] [(1%nat, tree_sub); (3%nat, tree_sub)];
   Draft tree_msg [WInt tree_id 7 0; WStr tree_name [33] []] [(2%nat, tree_sub)];
   Draft tree_msg [] []; Draft tree_msg [WInt tree_id 9 0] []].

Lemma tree_int_ok l : is_u32 l → l ≠ 0 → op_ok tree_msg (WInt tree_id l 0).
Proof.
  intros Hl Hne. unfold op_ok. cbn [op_field]. split; [vm_compute; reflexivity|]. split; [vm_compute; reflexivity|]. split; [split; vm_compute; congruence|].
  split; [done|]. split; [apply (bool_decide_unpack _); vm_compute; exact I|]. split; [done|]. split; [done|]. split; [width|]. intros _.
  unfold is_default_integer. cbn. by rewrite (proj2 (Z.eqb_neq l 0) Hne).
Qed.

Lemma tree_name_ok bs : bytes_ok bs → bs ≠ [] → op_ok tree_msg (WStr tree_name bs []).
Proof.
  intros Hb Hne. unfold op_ok. cbn [op_field]. split; [vm_compute; reflexivity|]. split; [vm_compute; reflexivity|]. split; [split; vm_compute; congruence|].
  split; [done|]. split; [apply (bool_decide_unpack _); vm_compute; exact I|]. done.
Qed.

Lemma tree_sub_ok : sub_ok tree_env tree_msg tree_sub tree_msg.
Proof. unfold sub_ok, id_ok. split_and!; vm_compute; first [reflexivity | discriminate]. Qed.

Lemma message_tree_roundtrip_witness :
  ∃ store store' rm, run (λ _, 170) id tree_env [_wmessage_new (λ _, 170) tree_msg] tree_cmds = Done (Some store)
    ∧ pbc_wmessage_buffer (λ _, 170) id (length store) store 0 = Done (store', message_bytes tree_drafts 0)
    ∧ pbc_rmessage_new id tree_env (λ _, replicate 10 255) [84] (message_bytes tree_drafts 0) = Done (Some rm, None)
    ∧ shows tree_env tree_drafts rm 0.
Proof.
  apply (message_tree_roundtrip (λ _, 170) id id tree_env [84] tree_msg tree_cmds tree_drafts (λ _, replicate 10 255)).
  - vm_compute. reflexivity.
  - unfold tree_cmds.
    repeat first [ eapply script_enter; [reflexivity | apply tree_sub_ok |] | eapply script_put; [reflexivity | |] ].
    1: apply tree_int_ok; [width | done].
    1: apply tree_name_ok; [repeat (apply Forall_cons; split; [width|]); by apply Forall_nil | done].
    1: apply tree_int_ok; [width | done].
    1: apply tree_name_ok; [repeat (apply Forall_cons; split; [width|]); by apply Forall_nil | done].
    apply script_nil.
  - repeat (apply Forall_cons; split); [..|by apply Forall_nil]; apply (bool_decide_unpack _); vm_compute; exact I.
  - vm_compute. discriminate.
  - intros _. split; [|reflexivity]. apply Forall_replicate. width.
Defined.
