(* ===== verification/Bootstrap.v ===== *)
(** * pbc bootstrap ([3rd/pbc/src/bootstrap.c])

    A new environment must know the messages a file descriptor is made of before
    it can read one.  [_pbcB_init] loads them from the bytes of
    descriptor.pbc.h, which hold a simpler message read with two patterns into
    the structs [field_t] and [file_t].  [set_field_one], used after the
    registration of a file too, replaces the type names of fields by pointers. *)

From S2P Require Import Prelude Varint Chain PMap SpMap PArray StringPool Context Proto Wmessage Decode CMem Pattern.

(** ** Fields in place

    A field object is shared by the two tables of its message; a change of it is
    a change of both. *)

Definition sp_traverse {V} (g : V → outcome V) (m : map_sp V) : outcome (map_sp V) :=
  do! slots <- traverse (λ s, do! v <- traverse_option g (sp_pointer s);
                              Done (SpSlot (sp_key s) (sp_hash s) v (sp_next s))) (sp_slots m);
  Done (MapSp (sp_cap m) (sp_size m) (sp_heap m) slots).

Definition ip_traverse {V} (g : V → outcome V) (m : map_ip V) : outcome (map_ip V) :=
  do! arr <- traverse_option (traverse (traverse_option g)) (ip_array m);
  do! slots <- traverse (λ s, do! v <- traverse_option g (ip_pointer s);
                              Done (IpSlot (ip_id s) v (ip_next s))) (ip_slots m);
  Done (MapIp arr (ip_hash_size m) slots).

(** ** Resolving the type of a field *)

(** [f->default_v->s.str], as a string; [None] is the null pointer. *)
Definition var_string (v : pbc_var) : outcome (option (list Z)) :=
  match v with
  | VStr s _ => Done (Some s)
  | VSlice (Some b) _ => do! s <- cstr b; Done (Some s)
  | VSlice None _ => Done None
  | VInteger l h => if (l =? 0) && (h =? 0) then Done None else Fault BadRead
  | _ => Fault BadRead
  end.

(** The default of an enum field.  [_pbcM_si_query] answers 1 for a name it does
    not have, which the test [err < 0] lets through: the id is then read from
    the bytes of the string pointer. *)
Definition enum_default (e : _enum) (defv : pbc_var) : outcome pbc_var :=
  do! str <- var_string defv;
  match str with
  | Some (c :: s) =>
      do! id <- _pbcM_si_query (e_name e) (c :: s);
      match id with
      | None => Fault BadRead
      | Some id => do! name <- _pbcM_ip_query (Some (e_id e)) id; Done (VEnum id name)
      end
  | _ => Done (e_default_v e)
  end.

Definition set_type (f : _field) (t : type_ref) (d : pbc_var) : _field :=
  Field (f_id f) (f_name f) (f_type f) (f_label f) d t.

Definition set_field_one (p : pbc_env) (f : _field) : outcome _field :=
  match f_type_name f with
  | TName (Some type_name) =>
      if f_type f =? PTYPE_MESSAGE then
        do! m <- _pbcM_sp_query (Some (msgs p)) type_name;
        Done (set_type f (TMessage (match m with Some _ => Some type_name | None => None end)) (f_default_v f))
      else if f_type f =? PTYPE_ENUM then
        do! e <- _pbcM_sp_query (Some (enums p)) type_name;
        match e with
        | None => Fault NullDeref
        | Some e => do! d <- enum_default e (f_default_v f); Done (set_type f (TEnum (Some type_name)) d)
        end
      else Done f
  | _ => if (f_type f =? PTYPE_MESSAGE) || (f_type f =? PTYPE_ENUM) then Fault BadRead else Done f
  end.

Definition unresolved (f : _field) : bool := match f_type_name f with TName _ => true | _ => false end.

(** The field [ptr.2] of the message [ptr.1].  A name that is repeated in a
    message stands for several objects; they are all in the queue, and the first
    entry resolves them together. *)
Definition resolve_field (p : pbc_env) (ptr : field_ptr) : outcome pbc_env :=
  do! m <- _pbcP_get_message p ptr.1;
  match m with
  | None => Fault NullDeref
  | Some m =>
      let g f := if bool_decide (f_name f = ptr.2) && unresolved f then set_field_one p f else Done f in
      do! id <- traverse_option (ip_traverse g) (m_id m);
      do! name <- sp_traverse g (m_name m);
      put_message p ptr.1 (Message (m_key m) id name)
  end.

Definition _pbcB_register_fields (p : pbc_env) (queue : array field_ptr) : outcome pbc_env :=
  for_loop (Z.to_nat (pbc_array_size queue)) 0
    (λ i p, do! ptr <- _pbcA_index queue i; resolve_field p ptr) p.

(** ** The structs *)

(** [struct file_t], with its name and arrays loaded from memory. *)
Record file_t := FileT {
  ft_name : option (list Z);
  ft_message_name : array pbc_var;
  ft_message_size : array pbc_var;
  ft_message_field : array pbc_var;
  ft_enum_name : array pbc_var;
  ft_enum_size : array pbc_var;
  ft_enum_string : array pbc_var;
  ft_enum_id : array pbc_var }.

(** [struct field_t] *)
Record field_t := FieldT {
  fd_name : option (list Z);
  fd_id : Z;
  fd_label : Z;
  fd_type : Z;
  fd_type_name : option (list Z);
  fd_default_integer : Z;
  fd_default_string : option (list Z) * Z;
  fd_default_real : Z }.

(** [offsetof] in the two structs, and their sizes: pointers and doubles take
    eight bytes, an [int] four, a [pbc_slice] sixteen and a [pbc_array] 64. *)
Definition sizeof_field_t : nat := 80.
Definition sizeof_file_t : nat := 528.

Definition load_s32 (m : CMem.mem) (off : Z) : outcome Z := do! v <- load_int 4 m off; Done (s32 v).

Definition load_field_t (m : CMem.mem) : outcome field_t :=
  do! name <- load_ptr m 0;
  do! id <- load_s32 m 16;
  do! label <- load_s32 m 20;
  do! type <- load_s32 m 24;
  do! type_name <- load_ptr m 32;
  do! di <- load_s32 m 48;
  do! ds <- load_ptr m 56;
  do! dl <- load_s32 m 64;
  do! dr <- load_int 8 m 72;
  Done (FieldT name id label type type_name di (ds, dl) dr).

Definition load_file_t (m : CMem.mem) : outcome file_t :=
  do! name <- load_ptr m 0;
  do! mn <- load_array m 80;
  do! ms <- load_array m 144;
  do! mf <- load_array m 208;
  do! en <- load_array m 272;
  do! es <- load_array m 336;
  do! est <- load_array m 400;
  do! eid <- load_array m 464;
  Done (FileT name mn ms mf en es est eid).

(** ** The patterns *)

(** The fields of a pattern are zeroed by [_pbcP_new]. *)
Definition blank_field : _pattern_field := PField 0 0 0 0 0 (VInteger 0 0).
Definition _set_string (id off : Z) : _pattern_field := PField id off PTYPE_STRING CTYPE_VAR 0 (VStr [] 0).
Definition _set_int32 (id off : Z) : _pattern_field := PField id off PTYPE_INT32 CTYPE_INT32 0 (VInteger 0 0).
Definition _set_double (id off : Z) : _pattern_field := PField id off PTYPE_DOUBLE CTYPE_DOUBLE 0 (VInteger 0 0).
Definition _set_message_array (id off : Z) : _pattern_field := PField id off PTYPE_MESSAGE CTYPE_ARRAY 0 (VInteger 0 0).
Definition _set_string_array (id off : Z) : _pattern_field := PField id off PTYPE_STRING CTYPE_ARRAY 0 (VInteger 0 0).
Definition _set_int32_array (id off : Z) : _pattern_field := PField id off PTYPE_INT32 CTYPE_ARRAY 0 (VInteger 0 0).

Definition FIELD_T : pbc_pattern :=
  [_set_string 1 0; _set_int32 2 16; _set_int32 3 20; _set_int32 4 24; _set_string 5 32;
   _set_int32 6 48; _set_string 7 56; _set_double 8 72].

(** Ten fields are allocated and nine are set. *)
Definition FILE_T : pbc_pattern :=
  [_set_string 1 0; _set_string_array 2 16; _set_string_array 3 80; _set_int32_array 4 144;
   _set_message_array 5 208; _set_string_array 6 272; _set_int32_array 7 336; _set_string_array 8 400;
   _set_int32_array 9 464; blank_field].

Section Bootstrap.
Context (d2f f2d : Z → Z) (stk : Z → list Z) (hi_junk : Z).

(** ** Enums *)

(** The string a variable of an array points to. *)
Definition var_cstr (v : pbc_var) : outcome (list Z) :=
  do! s <- var_string v;
  match s with
  | Some s => Done s
  | None => Fault NullDeref
  end.

Definition set_enum_one (p : pbc_env) (file : file_t) (name : list Z) (start sz : Z) : outcome pbc_env :=
  do! table <- for_loop (Z.to_nat sz) 0
    (λ i table,
      do! id <- _pbcA_index (ft_enum_id file) (start + i);
      do! string <- _pbcA_index (ft_enum_string file) (start + i);
      do! id <- int_low id;
      do! s <- var_cstr string;
      Done (table ++ [(s32 id, s)])) [];
  do! (p, _) <- _pbcP_push_enum p name table;
  Done p.

Definition set_enums (p : pbc_env) (file : file_t) : outcome pbc_env :=
  do! (p, _) <- for_loop (Z.to_nat (pbc_array_size (ft_enum_size file))) 0
    (λ i '(p, start),
      do! name <- _pbcA_index (ft_enum_name file) i;
      do! var <- _pbcA_index (ft_enum_size file) i;
      do! sz <- int_low var;
      do! name <- var_cstr name;
      do! p <- set_enum_one p file name start (s32 sz);
      Done (p, s32 (start + sz))) (p, 0);
  Done p.

(** ** Messages *)

(** Only the low word of an integer is set: the other is what the stack held. *)
Definition set_default (type : Z) (input : field_t) : pbc_var :=
  if (type =? PTYPE_DOUBLE) || (type =? PTYPE_FLOAT) then VReal (fd_default_real input)
  else if (type =? PTYPE_STRING) || (type =? PTYPE_ENUM)
  then VSlice (fd_default_string input).1 (fd_default_string input).2
  else VInteger (u32 (fd_default_integer input)) hi_junk.

(** A field that cannot be unpacked is skipped. *)
Definition set_msg_field (p : pbc_env) (file : file_t) (name : list Z) (i : Z) (queue : array field_ptr)
    : outcome (pbc_env * array field_ptr) :=
  do! v <- _pbcA_index (ft_message_field file) i;
  match v with
  | VSlice (Some buf) len =>
      do! slice <- bytes_at buf 0 len;
      do! (ret, field, _) <- pbc_pattern_unpack d2f f2d FIELD_T slice (replicate sizeof_field_t MUndef) stk;
      if negb (ret =? 0) then Done (p, queue)
      else
        do! field <- load_field_t field;
        do! fname <- match fd_name field with Some b => cstr b | None => Fault NullDeref end;
        do! tname <- match fd_type_name field with Some b => do! s <- cstr b; Done (Some s) | None => Done None end;
        let f := Field (fd_id field) fname (fd_type field) (fd_label field) (set_default (fd_type field) field) (TName tname) in
        _pbcP_push_message p name f queue
  | _ => Fault BadRead
  end.

Definition set_msg_one (p : pbc_env) (file : file_t) (name : list Z) (start sz : Z) (queue : array field_ptr)
    : outcome (pbc_env * array field_ptr) :=
  do! (p, queue) <- for_loop (Z.to_nat sz) 0 (λ i '(p, queue), set_msg_field p file name (start + i) queue) (p, queue);
  do! (p, _) <- _pbcP_init_message p name;
  Done (p, queue).

Definition set_msgs (p : pbc_env) (file : file_t) (queue : array field_ptr) : outcome (pbc_env * array field_ptr) :=
  do! (p, queue, _) <- for_loop (Z.to_nat (pbc_array_size (ft_message_size file))) 0
    (λ i '(p, queue, start),
      do! name <- _pbcA_index (ft_message_name file) i;
      do! sz <- _pbcA_index (ft_message_size file) i;
      do! sz <- int_low sz;
      do! name <- var_cstr name;
      do! (p, queue) <- set_msg_one p file name start (s32 sz) queue;
      Done (p, queue, s32 (start + sz))) (p, queue, 0);
  Done (p, queue).

(** ** The whole bootstrap *)

Definition register_internal (p : pbc_env) (slice : list Z) : outcome (pbc_env * Z) :=
  do! (r, mem, err) <- pbc_pattern_unpack d2f f2d FILE_T slice (replicate sizeof_file_t MUndef) stk;
  let p := match err with Some e => Env (files p) (enums p) (msgs p) e | None => p end in
  if negb (r =? 0) then Done (p, 1)
  else
    do! file <- load_file_t mem;
    do! name <- match ft_name file with Some b => cstr b | None => Fault NullDeref end;
    do! fs <- _pbcM_sp_insert (files p) name None;
    let p := Env fs (enums p) (msgs p) (lasterror p) in
    do! p <- set_enums p file;
    do! (p, queue) <- set_msgs p file _pbcA_open;
    do! p <- _pbcB_register_fields p queue;
    do! _ <- pbc_pattern_close_arrays FILE_T mem;
    Done (p, 0).

Definition _pbcB_init (p : pbc_env) (pbc_descriptor : list Z) : outcome pbc_env :=
  do! (p, _) <- register_internal p pbc_descriptor;
  Done p.

(** [pbc_new], with the bytes of descriptor.pbc.h as an argument. *)
Definition pbc_new (pbc_descriptor : list Z) : outcome pbc_env :=
  do! p <- pbc_new_empty;
  _pbcB_init p pbc_descriptor.

End Bootstrap.
