(* ===== verification/Descriptor.v ===== *)
(** * The descriptor messages ([3rd/pbc/src/descriptor.pbc.h])

    The bytes compiled into the library, and what the bootstrap makes of them:
    the messages and enums of google/protobuf/descriptor.proto, with every
    reference between them resolved.  The evaluation does not depend on the
    contents of uninitialised memory, over which the theorem quantifies. *)

From S2P Require Import Prelude Varint Chain PMap SpMap PArray StringPool Context Proto Wmessage Decode CMem Pattern Bootstrap.

Definition pbc_descriptor : list Z :=
  [72;1;72;2;72;3;72;4;72;5;72;6;72;7;72;8;72;9;72;10;72;11;72;12;
   72;13;72;14;72;15;72;16;72;17;72;18;72;1;72;2;72;3;72;1;72;2;72;3;
   72;0;72;1;72;2;50;42;103;111;111;103;108;101;46;112;114;111;116;111;98;117;102;46;
   70;105;101;108;100;68;101;115;99;114;105;112;116;111;114;80;114;111;116;111;46;84;121;112;
   101;0;50;43;103;111;111;103;108;101;46;112;114;111;116;111;98;117;102;46;70;105;101;108;
   100;68;101;115;99;114;105;112;116;111;114;80;114;111;116;111;46;76;97;98;101;108;0;50;
   41;103;111;111;103;108;101;46;112;114;111;116;111;98;117;102;46;70;105;108;101;79;112;116;
   105;111;110;115;46;79;112;116;105;109;105;122;101;77;111;100;101;0;50;35;103;111;111;103;
   108;101;46;112;114;111;116;111;98;117;102;46;70;105;101;108;100;79;112;116;105;111;110;115;
   46;67;84;121;112;101;0;66;12;84;89;80;69;95;68;79;85;66;76;69;0;66;11;84;
   89;80;69;95;70;76;79;65;84;0;66;11;84;89;80;69;95;73;78;84;54;52;0;66;
   12;84;89;80;69;95;85;73;78;84;54;52;0;66;11;84;89;80;69;95;73;78;84;51;
   50;0;66;13;84;89;80;69;95;70;73;88;69;68;54;52;0;66;13;84;89;80;69;95;
   70;73;88;69;68;51;50;0;66;10;84;89;80;69;95;66;79;79;76;0;66;12;84;89;
   80;69;95;83;84;82;73;78;71;0;66;11;84;89;80;69;95;71;82;79;85;80;0;66;
   13;84;89;80;69;95;77;69;83;83;65;71;69;0;66;11;84;89;80;69;95;66;89;84;
   69;83;0;66;12;84;89;80;69;95;85;73;78;84;51;50;0;66;10;84;89;80;69;95;
   69;78;85;77;0;66;14;84;89;80;69;95;83;70;73;88;69;68;51;50;0;66;14;84;
   89;80;69;95;83;70;73;88;69;68;54;52;0;66;12;84;89;80;69;95;83;73;78;84;
   51;50;0;66;12;84;89;80;69;95;83;73;78;84;54;52;0;66;15;76;65;66;69;76;
   95;79;80;84;73;79;78;65;76;0;66;15;76;65;66;69;76;95;82;69;81;85;73;82;
   69;68;0;66;15;76;65;66;69;76;95;82;69;80;69;65;84;69;68;0;66;6;83;80;
   69;69;68;0;66;10;67;79;68;69;95;83;73;90;69;0;66;13;76;73;84;69;95;82;
   85;78;84;73;77;69;0;66;7;83;84;82;73;78;71;0;66;5;67;79;82;68;0;66;
   13;83;84;82;73;78;71;95;80;73;69;67;69;0;56;18;56;3;56;3;56;3;10;11;
   100;101;115;99;114;105;112;116;111;114;0;32;1;32;9;32;7;32;2;32;8;32;3;32;
   3;32;3;32;4;32;9;32;3;32;5;32;1;32;1;32;1;32;1;32;7;32;2;32;
   1;32;2;42;51;24;2;16;1;32;11;42;36;103;111;111;103;108;101;46;112;114;111;116;
   111;98;117;102;46;70;105;108;101;68;101;115;99;114;105;112;116;111;114;80;114;111;116;111;
   0;10;5;102;105;108;101;0;42;13;32;9;24;0;10;5;110;97;109;101;0;16;1;42;
   16;32;9;24;0;10;8;112;97;99;107;97;103;101;0;16;2;42;19;32;9;24;2;10;
   11;100;101;112;101;110;100;101;110;99;121;0;16;3;42;55;24;2;16;4;32;11;42;32;
   103;111;111;103;108;101;46;112;114;111;116;111;98;117;102;46;68;101;115;99;114;105;112;116;
   111;114;80;114;111;116;111;0;10;13;109;101;115;115;97;103;101;95;116;121;112;101;0;42;
   56;24;2;16;5;32;11;42;36;103;111;111;103;108;101;46;112;114;111;116;111;98;117;102;
   46;69;110;117;109;68;101;115;99;114;105;112;116;111;114;80;114;111;116;111;0;10;10;101;
   110;117;109;95;116;121;112;101;0;42;57;24;2;16;6;32;11;42;39;103;111;111;103;108;
   101;46;112;114;111;116;111;98;117;102;46;83;101;114;118;105;99;101;68;101;115;99;114;105;
   112;116;111;114;80;114;111;116;111;0;10;8;115;101;114;118;105;99;101;0;42;57;24;2;
   16;7;32;11;42;37;103;111;111;103;108;101;46;112;114;111;116;111;98;117;102;46;70;105;
   101;108;100;68;101;115;99;114;105;112;116;111;114;80;114;111;116;111;0;10;10;101;120;116;
   101;110;115;105;111;110;0;42;46;24;0;16;8;32;11;42;28;103;111;111;103;108;101;46;
   112;114;111;116;111;98;117;102;46;70;105;108;101;79;112;116;105;111;110;115;0;10;8;111;
   112;116;105;111;110;115;0;42;58;24;0;16;9;32;11;42;31;103;111;111;103;108;101;46;
   112;114;111;116;111;98;117;102;46;83;111;117;114;99;101;67;111;100;101;73;110;102;111;0;
   10;17;115;111;117;114;99;101;95;99;111;100;101;95;105;110;102;111;0;42;13;32;9;24;
   0;10;5;110;97;109;101;0;16;1;42;53;24;2;16;2;32;11;42;37;103;111;111;103;
   108;101;46;112;114;111;116;111;98;117;102;46;70;105;101;108;100;68;101;115;99;114;105;112;
   116;111;114;80;114;111;116;111;0;10;6;102;105;101;108;100;0;42;57;24;2;16;6;32;
   11;42;37;103;111;111;103;108;101;46;112;114;111;116;111;98;117;102;46;70;105;101;108;100;
   68;101;115;99;114;105;112;116;111;114;80;114;111;116;111;0;10;10;101;120;116;101;110;115;
   105;111;110;0;42;54;24;2;16;3;32;11;42;32;103;111;111;103;108;101;46;112;114;111;
   116;111;98;117;102;46;68;101;115;99;114;105;112;116;111;114;80;114;111;116;111;0;10;12;
   110;101;115;116;101;100;95;116;121;112;101;0;42;56;24;2;16;4;32;11;42;36;103;111;
   111;103;108;101;46;112;114;111;116;111;98;117;102;46;69;110;117;109;68;101;115;99;114;105;
   112;116;111;114;80;114;111;116;111;0;10;10;101;110;117;109;95;116;121;112;101;0;42;73;
   24;2;16;5;32;11;42;47;103;111;111;103;108;101;46;112;114;111;116;111;98;117;102;46;
   68;101;115;99;114;105;112;116;111;114;80;114;111;116;111;46;69;120;116;101;110;115;105;111;
   110;82;97;110;103;101;0;10;16;101;120;116;101;110;115;105;111;110;95;114;97;110;103;101;
   0;42;49;24;0;16;7;32;11;42;31;103;111;111;103;108;101;46;112;114;111;116;111;98;
   117;102;46;77;101;115;115;97;103;101;79;112;116;105;111;110;115;0;10;8;111;112;116;105;
   111;110;115;0;42;14;32;5;24;0;10;6;115;116;97;114;116;0;16;1;42;12;32;5;
   24;0;10;4;101;110;100;0;16;2;42;13;32;9;24;0;10;5;110;97;109;101;0;16;
   1;42;15;32;5;24;0;10;7;110;117;109;98;101;114;0;16;3;42;59;24;0;16;4;
   32;14;42;43;103;111;111;103;108;101;46;112;114;111;116;111;98;117;102;46;70;105;101;108;
   100;68;101;115;99;114;105;112;116;111;114;80;114;111;116;111;46;76;97;98;101;108;0;10;
   6;108;97;98;101;108;0;42;57;24;0;16;5;32;14;42;42;103;111;111;103;108;101;46;
   112;114;111;116;111;98;117;102;46;70;105;101;108;100;68;101;115;99;114;105;112;116;111;114;
   80;114;111;116;111;46;84;121;112;101;0;10;5;116;121;112;101;0;42;18;32;9;24;0;
   10;10;116;121;112;101;95;110;97;109;101;0;16;6;42;17;32;9;24;0;10;9;101;120;
   116;101;110;100;101;101;0;16;2;42;22;32;9;24;0;10;14;100;101;102;97;117;108;116;
   95;118;97;108;117;101;0;16;7;42;47;24;0;16;8;32;11;42;29;103;111;111;103;108;
   101;46;112;114;111;116;111;98;117;102;46;70;105;101;108;100;79;112;116;105;111;110;115;0;
   10;8;111;112;116;105;111;110;115;0;42;13;32;9;24;0;10;5;110;97;109;101;0;16;
   1;42;57;24;2;16;2;32;11;42;41;103;111;111;103;108;101;46;112;114;111;116;111;98;
   117;102;46;69;110;117;109;86;97;108;117;101;68;101;115;99;114;105;112;116;111;114;80;114;
   111;116;111;0;10;6;118;97;108;117;101;0;42;46;24;0;16;3;32;11;42;28;103;111;
   111;103;108;101;46;112;114;111;116;111;98;117;102;46;69;110;117;109;79;112;116;105;111;110;
   115;0;10;8;111;112;116;105;111;110;115;0;42;13;32;9;24;0;10;5;110;97;109;101;
   0;16;1;42;15;32;5;24;0;10;7;110;117;109;98;101;114;0;16;2;42;51;24;0;
   16;3;32;11;42;33;103;111;111;103;108;101;46;112;114;111;116;111;98;117;102;46;69;110;
   117;109;86;97;108;117;101;79;112;116;105;111;110;115;0;10;8;111;112;116;105;111;110;115;
   0;42;13;32;9;24;0;10;5;110;97;109;101;0;16;1;42;55;24;2;16;2;32;11;
   42;38;103;111;111;103;108;101;46;112;114;111;116;111;98;117;102;46;77;101;116;104;111;100;
   68;101;115;99;114;105;112;116;111;114;80;114;111;116;111;0;10;7;109;101;116;104;111;100;
   0;42;49;24;0;16;3;32;11;42;31;103;111;111;103;108;101;46;112;114;111;116;111;98;
   117;102;46;83;101;114;118;105;99;101;79;112;116;105;111;110;115;0;10;8;111;112;116;105;
   111;110;115;0;42;13;32;9;24;0;10;5;110;97;109;101;0;16;1;42;19;32;9;24;
   0;10;11;105;110;112;117;116;95;116;121;112;101;0;16;2;42;20;32;9;24;0;10;12;
   111;117;116;112;117;116;95;116;121;112;101;0;16;3;42;48;24;0;16;4;32;11;42;30;
   103;111;111;103;108;101;46;112;114;111;116;111;98;117;102;46;77;101;116;104;111;100;79;112;
   116;105;111;110;115;0;10;8;111;112;116;105;111;110;115;0;42;21;32;9;24;0;10;13;
   106;97;118;97;95;112;97;99;107;97;103;101;0;16;1;42;29;32;9;24;0;10;21;106;
   97;118;97;95;111;117;116;101;114;95;99;108;97;115;115;110;97;109;101;0;16;8;42;30;
   24;0;16;10;32;8;10;20;106;97;118;97;95;109;117;108;116;105;112;108;101;95;102;105;
   108;101;115;0;48;0;42;40;24;0;16;20;32;8;10;30;106;97;118;97;95;103;101;110;
   101;114;97;116;101;95;101;113;117;97;108;115;95;97;110;100;95;104;97;115;104;0;48;0;
   42;72;24;0;16;9;32;14;42;41;103;111;111;103;108;101;46;112;114;111;116;111;98;117;
   102;46;70;105;108;101;79;112;116;105;111;110;115;46;79;112;116;105;109;105;122;101;77;111;
   100;101;0;10;13;111;112;116;105;109;105;122;101;95;102;111;114;0;58;6;83;80;69;69;
   68;0;42;30;24;0;16;16;32;8;10;20;99;99;95;103;101;110;101;114;105;99;95;115;
   101;114;118;105;99;101;115;0;48;0;42;32;24;0;16;17;32;8;10;22;106;97;118;97;
   95;103;101;110;101;114;105;99;95;115;101;114;118;105;99;101;115;0;48;0;42;30;24;0;
   16;18;32;8;10;20;112;121;95;103;101;110;101;114;105;99;95;115;101;114;118;105;99;101;
   115;0;48;0;42;68;24;2;16;231;7;32;11;42;36;103;111;111;103;108;101;46;112;114;
   111;116;111;98;117;102;46;85;110;105;110;116;101;114;112;114;101;116;101;100;79;112;116;105;
   111;110;0;10;21;117;110;105;110;116;101;114;112;114;101;116;101;100;95;111;112;116;105;111;
   110;0;42;34;24;0;16;1;32;8;10;24;109;101;115;115;97;103;101;95;115;101;116;95;
   119;105;114;101;95;102;111;114;109;97;116;0;48;0;42;42;24;0;16;2;32;8;10;32;
   110;111;95;115;116;97;110;100;97;114;100;95;100;101;115;99;114;105;112;116;111;114;95;97;
   99;99;101;115;115;111;114;0;48;0;42;68;24;2;16;231;7;32;11;42;36;103;111;111;
   103;108;101;46;112;114;111;116;111;98;117;102;46;85;110;105;110;116;101;114;112;114;101;116;
   101;100;79;112;116;105;111;110;0;10;21;117;110;105;110;116;101;114;112;114;101;116;101;100;
   95;111;112;116;105;111;110;0;42;60;24;0;16;1;32;14;42;35;103;111;111;103;108;101;
   46;112;114;111;116;111;98;117;102;46;70;105;101;108;100;79;112;116;105;111;110;115;46;67;
   84;121;112;101;0;10;6;99;116;121;112;101;0;58;7;83;84;82;73;78;71;0;42;15;
   32;8;24;0;10;7;112;97;99;107;101;100;0;16;2;42;21;24;0;16;3;32;8;10;
   11;100;101;112;114;101;99;97;116;101;100;0;48;0;42;29;32;9;24;0;10;21;101;120;
   112;101;114;105;109;101;110;116;97;108;95;109;97;112;95;107;101;121;0;16;9;42;68;24;
   2;16;231;7;32;11;42;36;103;111;111;103;108;101;46;112;114;111;116;111;98;117;102;46;
   85;110;105;110;116;101;114;112;114;101;116;101;100;79;112;116;105;111;110;0;10;21;117;110;
   105;110;116;101;114;112;114;101;116;101;100;95;111;112;116;105;111;110;0;42;68;24;2;16;
   231;7;32;11;42;36;103;111;111;103;108;101;46;112;114;111;116;111;98;117;102;46;85;110;
   105;110;116;101;114;112;114;101;116;101;100;79;112;116;105;111;110;0;10;21;117;110;105;110;
   116;101;114;112;114;101;116;101;100;95;111;112;116;105;111;110;0;42;68;24;2;16;231;7;
   32;11;42;36;103;111;111;103;108;101;46;112;114;111;116;111;98;117;102;46;85;110;105;110;
   116;101;114;112;114;101;116;101;100;79;112;116;105;111;110;0;10;21;117;110;105;110;116;101;
   114;112;114;101;116;101;100;95;111;112;116;105;111;110;0;42;68;24;2;16;231;7;32;11;
   42;36;103;111;111;103;108;101;46;112;114;111;116;111;98;117;102;46;85;110;105;110;116;101;
   114;112;114;101;116;101;100;79;112;116;105;111;110;0;10;21;117;110;105;110;116;101;114;112;
   114;101;116;101;100;95;111;112;116;105;111;110;0;42;68;24;2;16;231;7;32;11;42;36;
   103;111;111;103;108;101;46;112;114;111;116;111;98;117;102;46;85;110;105;110;116;101;114;112;
   114;101;116;101;100;79;112;116;105;111;110;0;10;21;117;110;105;110;116;101;114;112;114;101;
   116;101;100;95;111;112;116;105;111;110;0;42;60;24;2;16;2;32;11;42;45;103;111;111;
   103;108;101;46;112;114;111;116;111;98;117;102;46;85;110;105;110;116;101;114;112;114;101;116;
   101;100;79;112;116;105;111;110;46;78;97;109;101;80;97;114;116;0;10;5;110;97;109;101;
   0;42;25;32;9;24;0;10;17;105;100;101;110;116;105;102;105;101;114;95;118;97;108;117;
   101;0;16;3;42;27;32;4;24;0;10;19;112;111;115;105;116;105;118;101;95;105;110;116;
   95;118;97;108;117;101;0;16;4;42;27;32;3;24;0;10;19;110;101;103;97;116;105;118;
   101;95;105;110;116;95;118;97;108;117;101;0;16;5;42;21;32;1;24;0;10;13;100;111;
   117;98;108;101;95;118;97;108;117;101;0;16;6;42;21;32;12;24;0;10;13;115;116;114;
   105;110;103;95;118;97;108;117;101;0;16;7;42;24;32;9;24;0;10;16;97;103;103;114;
   101;103;97;116;101;95;118;97;108;117;101;0;16;8;42;18;32;9;24;1;10;10;110;97;
   109;101;95;112;97;114;116;0;16;1;42;21;32;8;24;1;10;13;105;115;95;101;120;116;
   101;110;115;105;111;110;0;16;2;42;59;24;2;16;1;32;11;42;40;103;111;111;103;108;
   101;46;112;114;111;116;111;98;117;102;46;83;111;117;114;99;101;67;111;100;101;73;110;102;
   111;46;76;111;99;97;116;105;111;110;0;10;9;108;111;99;97;116;105;111;110;0;42;13;
   32;5;24;2;10;5;112;97;116;104;0;16;1;42;13;32;5;24;2;10;5;115;112;97;
   110;0;16;2;26;34;103;111;111;103;108;101;46;112;114;111;116;111;98;117;102;46;70;105;
   108;101;68;101;115;99;114;105;112;116;111;114;83;101;116;0;26;36;103;111;111;103;108;101;
   46;112;114;111;116;111;98;117;102;46;70;105;108;101;68;101;115;99;114;105;112;116;111;114;
   80;114;111;116;111;0;26;32;103;111;111;103;108;101;46;112;114;111;116;111;98;117;102;46;
   68;101;115;99;114;105;112;116;111;114;80;114;111;116;111;0;26;47;103;111;111;103;108;101;
   46;112;114;111;116;111;98;117;102;46;68;101;115;99;114;105;112;116;111;114;80;114;111;116;
   111;46;69;120;116;101;110;115;105;111;110;82;97;110;103;101;0;26;37;103;111;111;103;108;
   101;46;112;114;111;116;111;98;117;102;46;70;105;101;108;100;68;101;115;99;114;105;112;116;
   111;114;80;114;111;116;111;0;26;36;103;111;111;103;108;101;46;112;114;111;116;111;98;117;
   102;46;69;110;117;109;68;101;115;99;114;105;112;116;111;114;80;114;111;116;111;0;26;41;
   103;111;111;103;108;101;46;112;114;111;116;111;98;117;102;46;69;110;117;109;86;97;108;117;
   101;68;101;115;99;114;105;112;116;111;114;80;114;111;116;111;0;26;39;103;111;111;103;108;
   101;46;112;114;111;116;111;98;117;102;46;83;101;114;118;105;99;101;68;101;115;99;114;105;
   112;116;111;114;80;114;111;116;111;0;26;38;103;111;111;103;108;101;46;112;114;111;116;111;
   98;117;102;46;77;101;116;104;111;100;68;101;115;99;114;105;112;116;111;114;80;114;111;116;
   111;0;26;28;103;111;111;103;108;101;46;112;114;111;116;111;98;117;102;46;70;105;108;101;
   79;112;116;105;111;110;115;0;26;31;103;111;111;103;108;101;46;112;114;111;116;111;98;117;
   102;46;77;101;115;115;97;103;101;79;112;116;105;111;110;115;0;26;29;103;111;111;103;108;
   101;46;112;114;111;116;111;98;117;102;46;70;105;101;108;100;79;112;116;105;111;110;115;0;
   26;28;103;111;111;103;108;101;46;112;114;111;116;111;98;117;102;46;69;110;117;109;79;112;
   116;105;111;110;115;0;26;33;103;111;111;103;108;101;46;112;114;111;116;111;98;117;102;46;
   69;110;117;109;86;97;108;117;101;79;112;116;105;111;110;115;0;26;31;103;111;111;103;108;
   101;46;112;114;111;116;111;98;117;102;46;83;101;114;118;105;99;101;79;112;116;105;111;110;
   115;0;26;30;103;111;111;103;108;101;46;112;114;111;116;111;98;117;102;46;77;101;116;104;
   111;100;79;112;116;105;111;110;115;0;26;36;103;111;111;103;108;101;46;112;114;111;116;111;
   98;117;102;46;85;110;105;110;116;101;114;112;114;101;116;101;100;79;112;116;105;111;110;0;
   26;45;103;111;111;103;108;101;46;112;114;111;116;111;98;117;102;46;85;110;105;110;116;101;
   114;112;114;101;116;101;100;79;112;116;105;111;110;46;78;97;109;101;80;97;114;116;0;26;
   31;103;111;111;103;108;101;46;112;114;111;116;111;98;117;102;46;83;111;117;114;99;101;67;
   111;100;101;73;110;102;111;0;26;40;103;111;111;103;108;101;46;112;114;111;116;111;98;117;
   102;46;83;111;117;114;99;101;67;111;100;101;73;110;102;111;46;76;111;99;97;116;105;111;
   110;0].

(** ** What is registered *)

(** The reference of a field is resolved, to something registered. *)
Definition reference_ok (messages enums : list (list Z)) (f : _field) : bool :=
  if f_type f =? PTYPE_MESSAGE then
    match f_type_name f with TMessage (Some n) => bool_decide (n ∈ messages) | _ => false end
  else if f_type f =? PTYPE_ENUM then
    match f_type_name f with TEnum (Some n) => bool_decide (n ∈ enums) | _ => false end
  else true.

(** A message's two tables have the same fields. *)
Definition tables_agree (m : _message) : bool :=
  forallb (λ f, match _pbcM_ip_query (m_id m) (f_id f) with
                | Done (Some g) => bool_decide (f_name g = f_name f) && bool_decide (f_type_name g = f_type_name f)
                | _ => false
                end) (_pbcM_sp_foreach (m_name m)).

Definition env_messages (p : pbc_env) : list (list Z) := (sp_assoc (msgs p)).*1.
Definition env_enums (p : pbc_env) : list (list Z) := (sp_assoc (enums p)).*1.

(** Every reference of every message is resolved and the tables agree. *)
Definition env_resolved (p : pbc_env) : bool :=
  forallb (λ m, tables_agree m && forallb (reference_ok (env_messages p) (env_enums p)) (_pbcM_sp_foreach (m_name m)))
    (_pbcM_sp_foreach (msgs p)).

(** A message has exactly these fields, by name and number. *)
Definition has_fields (p : pbc_env) (name : string) (fs : list (string * Z)) : bool :=
  match _pbcP_get_message p (lit name) with
  | Done (Some m) =>
      bool_decide (length (_pbcM_sp_foreach (m_name m)) = length fs)
      && forallb (λ '(n, id), match _pbcM_sp_query (Some (m_name m)) (lit n) with
                              | Done (Some f) => f_id f =? id
                              | _ => false
                              end) fs
  | _ => false
  end.

Definition descriptor_messages : list string :=
  ["FileDescriptorSet"; "FileDescriptorProto"; "DescriptorProto"; "DescriptorProto.ExtensionRange";
   "FieldDescriptorProto"; "EnumDescriptorProto"; "EnumValueDescriptorProto"; "ServiceDescriptorProto";
   "MethodDescriptorProto"; "FileOptions"; "MessageOptions"; "FieldOptions"; "EnumOptions";
   "EnumValueOptions"; "ServiceOptions"; "MethodOptions"; "UninterpretedOption";
   "UninterpretedOption.NamePart"; "SourceCodeInfo"; "SourceCodeInfo.Location"]%string.

Definition descriptor_check (p : pbc_env) : bool :=
  env_resolved p
  && bool_decide (length (env_messages p) = length descriptor_messages)
  && forallb (λ n, bool_decide (lit ("google.protobuf." +:+ n) ∈ env_messages p)) descriptor_messages
  && bool_decide (length (env_enums p) = 4%nat)
  && has_fields p "google.protobuf.FileDescriptorSet" [("file", 1)]%string
  && has_fields p "google.protobuf.EnumValueDescriptorProto" [("name", 1); ("number", 2); ("options", 3)]%string
  && has_fields p "google.protobuf.FieldDescriptorProto"
       [("name", 1); ("extendee", 2); ("number", 3); ("label", 4); ("type", 5); ("type_name", 6); ("default_value", 7);
        ("options", 8)]%string
  && bool_decide (lasterror p = "").

(** C21: A new environment knows the twenty messages and the four enums of
    descriptor.proto: [pbc_new] reads the bytes compiled into the library
    without a fault or an error, whatever uninitialised memory holds and
    whatever the conversions between float and double do; every message is
    indexed by name and number alike, every field that refers to a message or an
    enum was made to point to one that is registered, and the messages
    [pbc_register] reads have the fields it asks for. *)
Theorem bootstrap_descriptor d2f f2d stk hi_junk :
  ∃ p, pbc_new d2f f2d stk hi_junk pbc_descriptor = Done p ∧ descriptor_check p = true.
Proof.
  enough (match pbc_new d2f f2d stk hi_junk pbc_descriptor with Done p => descriptor_check p | Fault _ => false end = true) as H.
  { destruct (pbc_new d2f f2d stk hi_junk pbc_descriptor) as [p|]; [by exists p|discriminate H]. }
  vm_compute. reflexivity.
Qed.
