(* ===== verification/Register.v ===== *)
(** * Registering proto files ([3rd/pbc/src/register.c])

    [pbc_register] reads a [google.protobuf.FileDescriptorSet] with the reader of
    [Rmessage] and enters the messages, enums and extensions of its files into
    the environment, each file after the files it depends on.  Strings that
    outlive the call are copied into the pool of their file; a string of the
    model is its contents, which a pool keeps ([StringPool]). *)

From S2P Require Import Prelude Varint Chain PMap SpMap PArray StringPool Context Proto Wmessage Decode CMem Pattern Rmessage Bootstrap.

(** ** [strtol] and its relatives, base 10 *)

Definition is_space (c : Z) : bool := (c =? 32) || ((9 <=? c) && (c <=? 13)).
Definition is_digit (c : Z) : bool := (48 <=? c) && (c <=? 57).

Fixpoint skip_spaces (s : list Z) : list Z :=
  match s with
  | c :: s' => if is_space c then skip_spaces s' else s
  | [] => []
  end.

Fixpoint digits (s : list Z) (acc : Z) : Z :=
  match s with
  | c :: s' => if is_digit c then digits s' (10 * acc + (c - 48)) else acc
  | [] => acc
  end.

(** The sign and the magnitude of the number at the start of a string. *)
Definition scan_number (s : list Z) : bool * Z :=
  match skip_spaces s with
  | c :: s' =>
      if c =? 45 then (true, digits s' 0)
      else if c =? 43 then (false, digits s' 0)
      else (false, digits (c :: s') 0)
  | [] => (false, 0)
  end.

(** [long] and [long long] have 64 bits; a number outside of the range is
    replaced by the nearest bound. *)
Definition strtoll (s : list Z) : Z :=
  let '(neg, n) := scan_number s in
  if (neg : bool) then Z.max (- n) (- 2 ^ 63) else Z.min n (2 ^ 63 - 1).
Definition strtol (s : list Z) : Z := strtoll s.
Definition strtoul (s : list Z) : Z :=
  let '(neg, n) := scan_number s in
  if 2 ^ 64 <=? n then 2 ^ 64 - 1 else if (neg : bool) then u64 (- n) else n.

Section Register.
Context (strtod : list Z → Z) (junk : nat → Z).

(** ** Names *)

(** [_pbcS_build], and the bytes at the address it returns. *)
Definition pool_build (pool : stringpool) (str : list Z) (sz : Z) : outcome (list Z * stringpool) :=
  do! (p, pool) <- _pbcS_build junk pool str sz;
  match string_at pool p (sz + 1) with
  | Some bs => Done (bs, pool)
  | None => Fault OutOfBounds
  end.

(** The same for a string that is only used as a whole. *)
Definition pool_name (pool : stringpool) (str : list Z) (sz : Z) : outcome (list Z * stringpool) :=
  do! (bs, pool) <- pool_build pool str sz;
  do! s <- cstr bs;
  Done (s, pool).

(** The bytes of the name, the value of [*sz] and the pool. *)
Definition _concat_name (pool : stringpool) (prefix : list Z) (prefix_sz : Z) (name : list Z) (name_sz : Z)
    : outcome (list Z * Z * stringpool) :=
  if prefix_sz =? 0 then
    do! (s, pool) <- pool_build pool name name_sz;
    Done (s, name_sz, pool)
  else
    do! a <- bytes_at prefix 0 prefix_sz;
    do! b <- bytes_at name 0 name_sz;
    let temp := a ++ [46] ++ b ++ [0] in
    do! (s, pool) <- pool_build pool temp (name_sz + prefix_sz + 1);
    Done (s, name_sz + prefix_sz + 1, pool).

(** ** Reading descriptors *)

(** The string of a field and its size; a null pointer cannot be read. *)
Definition rm_string (rm : rmessage) (key : string) (i : Z) : outcome (list Z * Z) :=
  do! (s, sz) <- pbc_rmessage_string rm (lit key) i;
  match s with
  | Some s => Done (s, sz)
  | None => Fault NullDeref
  end.

Definition rm_cstr (rm : rmessage) (key : string) (i : Z) : outcome (list Z) :=
  do! (s, _) <- rm_string rm key i;
  cstr s.

Definition rm_int (rm : rmessage) (key : string) : outcome Z :=
  do! (l, _) <- pbc_rmessage_integer rm (lit key) 0 false;
  Done (s32 l).

(** [pbc_rmessage_message], which the callers use without a test for null. *)
Definition rm_sub (p : pbc_env) (rm : rmessage) (key : string) (i : Z) : outcome rmessage :=
  do! (m, _) <- pbc_rmessage_message p rm (lit key) i;
  match m with
  | Some m => Done m
  | None => Fault NullDeref
  end.

Definition rm_size (rm : rmessage) (key : string) : outcome Z := pbc_rmessage_size rm (lit key).

(** ** Enums *)

Definition _register_enum (p : pbc_env) (pool : stringpool) (enum_type : rmessage) (prefix : list Z) (prefix_sz : Z)
    : outcome (pbc_env * stringpool) :=
  do! field_count <- rm_size enum_type "value";
  do! (table, pool) <- for_loop (Z.to_nat field_count) 0
    (λ i '(table, pool),
      do! value <- rm_sub p enum_type "value" i;
      do! (enum_name, enum_name_sz) <- rm_string value "name" 0;
      do! (s, pool) <- pool_name pool enum_name enum_name_sz;
      do! id <- rm_int value "number";
      Done (table ++ [(id, s)], pool)) ([], pool);
  do! (name, name_sz) <- rm_string enum_type "name" 0;
  do! (temp, _, pool) <- _concat_name pool prefix prefix_sz name name_sz;
  do! key <- cstr temp;
  do! (p, _) <- _pbcP_push_enum p key table;
  Done (p, pool).

(** ** Fields *)

(** The default value from its text; [value] is the memory of the string. *)
Definition _set_default (pool : stringpool) (type : Z) (value : option (list Z)) (sz : Z) : outcome (pbc_var * stringpool) :=
  match value with
  | None => Done (if (type =? PTYPE_STRING) || (type =? PTYPE_BYTES) then VStr [] 0 else VInteger 0 0, pool)
  | Some value =>
      if sz =? 0 then Done (if (type =? PTYPE_STRING) || (type =? PTYPE_BYTES) then VStr [] 0 else VInteger 0 0, pool)
      else
        do! text <- cstr value;
        if (type =? PTYPE_DOUBLE) || (type =? PTYPE_FLOAT) then Done (VReal (strtod text), pool)
        else if type =? PTYPE_STRING then do! (s, pool) <- pool_name pool value sz; Done (VStr s sz, pool)
        else if type =? PTYPE_ENUM then Done (VStr text sz, pool)
        else if type =? PTYPE_BOOL then Done (VInteger (if bool_decide (text = lit "true") then 1 else 0) 0, pool)
        else if (type =? PTYPE_UINT64) || (type =? PTYPE_INT64) || (type =? PTYPE_SFIXED64) || (type =? PTYPE_SINT64) then
          let v := strtoll text in Done (VInteger (u32 v) (u32 (Z.shiftr v 32)), pool)
        else if (type =? PTYPE_INT32) || (type =? PTYPE_FIXED32) || (type =? PTYPE_SFIXED32) || (type =? PTYPE_SINT32) then
          let low := s32 (strtol text) in Done (VInteger (u32 low) (if low <? 0 then u32 (-1) else 0), pool)
        else if type =? PTYPE_UINT32 then Done (VInteger (u32 (strtoul text)) 0, pool)
        else if (type =? PTYPE_BYTES) || (type =? PTYPE_MESSAGE) then Done (VSlice None 0, pool)
        else Done (VInteger 0 0, pool)
  end.

(** The type name without its first character; of an empty name nothing is left
    to point to. *)
Definition drop_dot (s : option (list Z)) : option (list Z) :=
  match s with
  | Some (_ :: rest) => match cstr rest with Done s => Some s | Fault _ => None end
  | _ => None
  end.

Definition _register_field (p : pbc_env) (field : rmessage) (name : list Z) (pool : stringpool) : outcome (_field * stringpool) :=
  do! id <- rm_int field "number";
  do! type <- rm_int field "type";
  do! l <- rm_int field "label";
  do! n <- rm_size field "options";
  do! label <- (if 0 <? n then
                  do! options <- rm_sub p field "options" 0;
                  do! packed <- rm_int options "packed";
                  Done (if packed =? 0 then s32 (l - 1) else LABEL_PACKED)
                else Done (s32 (l - 1)));
  do! (tn, _) <- pbc_rmessage_string field (lit "type_name") 0;
  do! (default_value, vsz) <- pbc_rmessage_string field (lit "default_value") 0;
  do! (d, pool) <- _set_default pool type default_value vsz;
  Done (Field id name type label d (TName (drop_dot tn)), pool).

(** ** Messages *)

(** What the registration of a file changes. *)
Record reg := Reg { g_env : pbc_env; g_pool : stringpool; g_queue : array field_ptr }.

(** One extension and the extendee of the one before it. *)
Definition register_extension_one (prefix : list Z) (prefix_sz : Z) (msg : rmessage) (i : Z)
    (st : reg * option (list Z)) : outcome (reg * option (list Z)) :=
  let '(Reg p pool queue, last) := st in
  do! extension <- rm_sub p msg "extension" i;
  do! (field_name, field_name_sz) <- rm_string extension "name" 0;
  do! (name, _, pool) <- _concat_name pool prefix prefix_sz field_name field_name_sz;
  do! name <- cstr name;
  do! (f, pool) <- _register_field p extension name pool;
  do! (extendee, _) <- rm_string extension "extendee" 0;
  do! extendee <- cstr extendee;
  do! (p, queue) <- (match extendee with
                     | [] => Fault OutOfBounds
                     | _ :: target => _pbcP_push_message p target f queue
                     end);
  match last with
  | None => Done (Reg p pool queue, Some extendee)
  | Some last =>
      if bool_decide (extendee = last) then Done (Reg p pool queue, Some last)
      else do! (p, _) <- _pbcP_init_message p (drop 1 last); Done (Reg p pool queue, Some extendee)
  end.

Definition _register_extension (st : reg) (prefix : list Z) (prefix_sz : Z) (msg : rmessage) : outcome reg :=
  do! extension_count <- rm_size msg "extension";
  if extension_count <=? 0 then Done st
  else
    do! (st, last) <- for_loop (Z.to_nat extension_count) 0 (register_extension_one prefix prefix_sz msg) (st, None);
    match last with
    | None => Fault NullDeref
    | Some last =>
        do! (p, _) <- _pbcP_init_message (g_env st) (drop 1 last);
        Done (Reg p (g_pool st) (g_queue st))
    end.

Definition register_field_one (temp : list Z) (message_type : rmessage) (i : Z) (st : reg) : outcome reg :=
  let '(Reg p pool queue) := st in
  do! field <- rm_sub p message_type "field" i;
  do! (field_name, field_name_sz) <- rm_string field "name" 0;
  do! (name, pool) <- pool_name pool field_name field_name_sz;
  do! (f, pool) <- _register_field p field name pool;
  do! (p, queue) <- _pbcP_push_message p temp f queue;
  Done (Reg p pool queue).

Definition register_enum_one (key : string) (msg : rmessage) (prefix : list Z) (prefix_sz : Z) (i : Z) (st : reg) : outcome reg :=
  let '(Reg p pool queue) := st in
  do! enum_type <- rm_sub p msg key i;
  do! (p, pool) <- _register_enum p pool enum_type prefix prefix_sz;
  Done (Reg p pool queue).

(** [fuel] bounds the nesting of messages. *)
Fixpoint _register_message (fuel : nat) (st : reg) (message_type : rmessage) (prefix : list Z) (prefix_sz : Z) : outcome reg :=
  match fuel with
  | O => Fault OutOfFuel
  | S fuel' =>
      do! (name, name_sz) <- rm_string message_type "name" 0;
      do! (temp, sz, pool) <- _concat_name (g_pool st) prefix prefix_sz name name_sz;
      do! key <- cstr temp;
      do! field_count <- rm_size message_type "field";
      do! st <- for_loop (Z.to_nat field_count) 0 (register_field_one key message_type) (Reg (g_env st) pool (g_queue st));
      do! (p, _) <- _pbcP_init_message (g_env st) key;
      do! st <- _register_extension (Reg p (g_pool st) (g_queue st)) temp sz message_type;
      do! enum_count <- rm_size message_type "enum_type";
      do! st <- for_loop (Z.to_nat enum_count) 0 (register_enum_one "enum_type" message_type temp sz) st;
      do! message_count <- rm_size message_type "nested_type";
      for_loop (Z.to_nat message_count) 0
        (λ i st,
          do! nested_type <- rm_sub (g_env st) message_type "nested_type" i;
          _register_message fuel' st nested_type temp sz) st
  end.

(** ** Files *)

Definition _register (fuel : nat) (p : pbc_env) (file : rmessage) (pool : stringpool) : outcome (pbc_env * stringpool) :=
  do! (package, package_sz) <- rm_string file "package" 0;
  do! enum_count <- rm_size file "enum_type";
  do! st <- for_loop (Z.to_nat enum_count) 0 (register_enum_one "enum_type" file package package_sz) (Reg p pool _pbcA_open);
  do! message_count <- rm_size file "message_type";
  do! st <- for_loop (Z.to_nat message_count) 0
    (λ i st,
      do! message_type <- rm_sub (g_env st) file "message_type" i;
      _register_message fuel st message_type package package_sz) st;
  do! st <- _register_extension st package package_sz file;
  do! p <- _pbcB_register_fields (g_env st) (g_queue st);
  Done (p, g_pool st).

Inductive check_file :=
  | CHECK_FILE_OK (fname : list Z)
  | CHECK_FILE_EXIST
  | CHECK_FILE_DEPENDENCY.

(** Whether a dependency, from number [i] on, is not registered. *)
Fixpoint missing_dependency (n : nat) (i : Z) (p : pbc_env) (file : rmessage) : outcome bool :=
  match n with
  | O => Done false
  | S n' =>
      do! dname <- rm_cstr file "dependency" i;
      do! q <- _pbcM_sp_query (Some (files p)) dname;
      match q with
      | None => Done true
      | Some _ => missing_dependency n' (i + 1) p file
      end
  end.

Definition _check_file_name (p : pbc_env) (file : rmessage) : outcome check_file :=
  do! filename <- rm_cstr file "name" 0;
  do! q <- _pbcM_sp_query (Some (files p)) filename;
  match q with
  | Some _ => Done CHECK_FILE_EXIST
  | None =>
      do! sz <- rm_size file "dependency";
      do! missing <- missing_dependency (Z.to_nat sz) 0 p file;
      Done (if (missing : bool) then CHECK_FILE_DEPENDENCY else CHECK_FILE_OK filename)
  end.

(** The pool is the value of the file's name; it grows while the file is
    registered. *)
Definition put_file (p : pbc_env) (name : list Z) (pool : stringpool) : outcome pbc_env :=
  do! (fs, i) <- _pbcM_sp_query_insert (files p) name;
  Done (Env (sp_store fs i (Some pool)) (enums p) (msgs p) (lasterror p)).

Definition register_file (p : pbc_env) (file : rmessage) (filename : list Z) (fuel : nat) : outcome pbc_env :=
  do! (name, pool) <- pool_name (_pbcS_new junk) (filename ++ [0]) (zlen filename);
  do! fs <- _pbcM_sp_insert (files p) name (Some pool);
  do! (p, pool) <- _register fuel (Env fs (enums p) (msgs p) (lasterror p)) file pool;
  put_file p name pool.

(** One pass over the files: the environment, the files left, and how many of
    them wait for others. *)
Fixpoint _register_no_dependency (fuel : nat) (p : pbc_env) (fs : list (option rmessage))
    : outcome (pbc_env * list (option rmessage) * Z) :=
  match fs with
  | [] => Done (p, [], 0)
  | None :: fs' =>
      do! (p, rest, r) <- _register_no_dependency fuel p fs';
      Done (p, None :: rest, r)
  | Some file :: fs' =>
      do! err <- _check_file_name p file;
      match err with
      | CHECK_FILE_EXIST =>
          do! (p, rest, r) <- _register_no_dependency fuel p fs';
          Done (p, Some file :: rest, r)
      | CHECK_FILE_DEPENDENCY =>
          do! (p, rest, r) <- _register_no_dependency fuel p fs';
          Done (p, Some file :: rest, r + 1)
      | CHECK_FILE_OK filename =>
          do! p <- register_file p file filename fuel;
          do! (p, rest, r) <- _register_no_dependency fuel p fs';
          Done (p, None :: rest, r)
      end
  end.

Definition set_error (p : pbc_env) (e : string) : pbc_env := Env (files p) (enums p) (msgs p) e.

(** The passes, until none waits or a pass leaves as many waiting as the one
    before. *)
Fixpoint register_passes (rounds : nat) (fuel : nat) (p : pbc_env) (fs : list (option rmessage)) (r : Z) : outcome (pbc_env * Z) :=
  match rounds with
  | O => Fault OutOfFuel
  | S rounds' =>
      do! (p, fs, rr) <- _register_no_dependency fuel p fs;
      if rr =? r then Done (set_error p "register dependency error", 1)
      else if 0 <? rr then register_passes rounds' fuel p fs rr
      else Done (p, 0)
  end.

(** The files of a set, in order; [None] when one cannot be opened. *)
Fixpoint open_files (n : nat) (i : Z) (p : pbc_env) (message : rmessage) : outcome (option (list rmessage)) :=
  match n with
  | O => Done (Some [])
  | S n' =>
      do! (f, _) <- pbc_rmessage_message p message (lit "file") i;
      match f with
      | None => Done None
      | Some f =>
          do! rest <- open_files n' (i + 1) p message;
          Done (match rest with Some l => Some (f :: l) | None => None end)
      end
  end.

(** The environment and the return value: 0, or 1 after an error. *)
Definition pbc_register (f2d : Z → Z) (stk : Z → list Z) (p : pbc_env) (slice : list Z) : outcome (pbc_env * Z) :=
  do! (message, err) <- pbc_rmessage_new f2d p stk (lit "google.protobuf.FileDescriptorSet") slice;
  let p := match err with Some e => set_error p e | None => p end in
  match message with
  | None => Done (set_error p "register open google.protobuf.FileDescriptorSet fail", 1)
  | Some message =>
      do! n <- rm_size message "file";
      if n =? 0 then Done (set_error p "register empty", 1)
      else
        do! fs <- open_files (Z.to_nat n) 0 p message;
        match fs with
        | None => Done (set_error p "register open fail", 1)
        | Some fs => register_passes (S (length fs)) (S (length slice)) p (List.map Some fs) n
        end
  end.

End Register.
