(* ===== verification/RegisterFiles.v ===== *)
(** * The files of a descriptor set ([3rd/pbc/src/register.c])

    [pbc_register] makes passes over the files of a set and registers, in each
    pass, those whose dependencies are registered.  The theorem says what the
    passes achieve for every set of files: they come to an end, and either every
    file is registered after the files it depends on, or the files left over
    cannot be registered. *)

From S2P Require Import Prelude Varint Chain PMap SpMap PArray StringPool Context Proto Wmessage Decode CMem Pattern Rmessage Bootstrap Descriptor Register.

(** ** Registering the contents of a file does not touch the table of files *)

Lemma new_message_files p name p' m : new_message p name = Done (p', m) → files p' = files p.
Proof. unfold new_message. intros H. unbind H. by injection H as <- _. Qed.

Lemma put_message_files p name m p' : put_message p name m = Done p' → files p' = files p.
Proof. unfold put_message. intros H. unbind H. by injection H as <-. Qed.

Lemma push_message_files p name f q p' q' : _pbcP_push_message p name f q = Done (p', q') → files p' = files p.
Proof.
  unfold _pbcP_push_message. intros H. destruct (_pbcM_sp_query (Some (msgs p)) name) as [[m|]|]; cbn [obind] in H; [| |discriminate H].
  - unbind H. injection H as <- _. by apply put_message_files in E0.
  - unbind H. injection H as <- _. apply put_message_files in E1. apply new_message_files in E. congruence.
Qed.

Lemma init_message_files p name p' m : _pbcP_init_message p name = Done (p', m) → files p' = files p.
Proof.
  unfold _pbcP_init_message. intros H. destruct (_pbcM_sp_query (Some (msgs p)) name) as [[m0|]|]; cbn [obind] in H; [| |discriminate H].
  - unbind H. injection H as <- _. by apply put_message_files in E0.
  - by apply new_message_files in H.
Qed.

Lemma push_enum_files p name t p' e : _pbcP_push_enum p name t = Done (p', e) → files p' = files p.
Proof.
  unfold _pbcP_push_enum. intros H. destruct (_pbcM_sp_query (Some (enums p)) name) as [[e0|]|]; cbn [obind] in H; [| |discriminate H].
  - by injection H as <- _.
  - unbind H. by injection H as <- _.
Qed.

Lemma resolve_field_files p ptr p' : resolve_field p ptr = Done p' → files p' = files p.
Proof.
  unfold resolve_field. intros H. destruct (_pbcP_get_message p ptr.1) as [[m|]|]; cbn [obind] in H; [|discriminate H..].
  unbind H. by apply put_message_files in H.
Qed.

Lemma register_fields_files p q p' : _pbcB_register_fields p q = Done p' → files p' = files p.
Proof.
  unfold _pbcB_register_fields. intros H. eapply (for_loop_inv (λ x, files x = files p)); [|exact H|done].
  intros j x y Hxy Hx. unbind Hxy. apply resolve_field_files in Hxy. congruence.
Qed.

Section Files.
Context (strtod : list Z → Z) (junk : nat → Z).

Lemma register_enum_files p pool e pre sz p' pool' : _register_enum junk p pool e pre sz = Done (p', pool') → files p' = files p.
Proof. unfold _register_enum. intros H. unbind H. injection H as <- _. eauto using push_enum_files. Qed.

Lemma enum_one_files key m pre sz j x y : register_enum_one junk key m pre sz j x = Done y → files (g_env y) = files (g_env x).
Proof.
  destruct x as [p pool q]. unfold register_enum_one. intros H. unbind H. injection H as <-. cbn. eauto using register_enum_files.
Qed.

Lemma field_one_files temp m j x y : register_field_one strtod junk temp m j x = Done y → files (g_env y) = files (g_env x).
Proof.
  destruct x as [p pool q]. unfold register_field_one. intros H. unbind H. injection H as <-. cbn. eauto using push_message_files.
Qed.

Lemma extension_one_files pre sz m j x y :
  register_extension_one strtod junk pre sz m j x = Done y → files (g_env y.1) = files (g_env x.1).
Proof.
  destruct x as [[p pool q] last]. unfold register_extension_one. intros H. unbind H.
  assert (files p0 = files p) as Hp by (destruct a1; [discriminate E6|]; eauto using push_message_files).
  destruct last as [last|]; [destruct (bool_decide _)|].
  - by injection H as <- _.
  - unbind H. injection H as <- _. cbn. match goal with E : _pbcP_init_message _ _ = _ |- _ => apply init_message_files in E end.
    congruence.
  - by injection H as <- _.
Qed.

Lemma extension_files st pre sz m st' : _register_extension strtod junk st pre sz m = Done st' → files (g_env st') = files (g_env st).
Proof.
  unfold _register_extension. intros H. unbind H. destruct (_ <=? 0); [by injection H as <-|].
  destruct (for_loop _ _ _ _) as [[st1 [last|]]|] eqn:El; cbn [obind] in H; [|discriminate H..].
  unbind H. injection H as <-. cbn. apply init_message_files in E0. rewrite E0.
  eapply (for_loop_inv (λ x, files (g_env x.1) = files (g_env st))) in El; [done| |done].
  intros j x y Hxy Hx. apply extension_one_files in Hxy. congruence.
Qed.

Lemma enum_loop_files key n m pre sz st st' :
  for_loop n 0 (register_enum_one junk key m pre sz) st = Done st' → files (g_env st') = files (g_env st).
Proof.
  intros H. eapply (for_loop_inv (λ x, files (g_env x) = files (g_env st))); [|exact H|done].
  intros j x y Hxy Hx. apply enum_one_files in Hxy. congruence.
Qed.

Lemma field_loop_files temp n m st st' :
  for_loop n 0 (register_field_one strtod junk temp m) st = Done st' → files (g_env st') = files (g_env st).
Proof.
  intros H. eapply (for_loop_inv (λ x, files (g_env x) = files (g_env st))); [|exact H|done].
  intros j x y Hxy Hx. apply field_one_files in Hxy. congruence.
Qed.

Lemma register_message_files fuel st m pre sz st' :
  _register_message strtod junk fuel st m pre sz = Done st' → files (g_env st') = files (g_env st).
Proof.
  revert st m pre sz st'. induction fuel as [|fuel IH]; intros st m pre sz st' H; [discriminate H|].
  cbn [_register_message] in H. unbind H.
  eapply (for_loop_inv (λ x, files (g_env x) = files (g_env st))) in H; [done| |].
  - intros j x y Hxy Hx. unbind Hxy. apply IH in Hxy. congruence.
  - repeat match goal with
    | E : for_loop _ _ (register_enum_one _ _ _ _ _) _ = Done _ |- _ => apply enum_loop_files in E
    | E : for_loop _ _ (register_field_one _ _ _ _) _ = Done _ |- _ => apply field_loop_files in E
    | E : _register_extension _ _ _ _ _ _ = Done _ |- _ => apply extension_files in E
    | E : _pbcP_init_message _ _ = Done _ |- _ => apply init_message_files in E
    end. cbn in *. congruence.
Qed.

Lemma register_files_kept fuel p file pool p' pool' :
  _register strtod junk fuel p file pool = Done (p', pool') → files p' = files p.
Proof.
  unfold _register. intros H. unbind H. injection H as <- _.
  repeat match goal with
  | E : for_loop _ _ (register_enum_one _ _ _ _ _) _ = Done _ |- _ => apply enum_loop_files in E
  | E : _register_extension _ _ _ _ _ _ = Done _ |- _ => apply extension_files in E
  | E : _pbcB_register_fields _ _ = Done _ |- _ => apply register_fields_files in E
  end.
  match goal with E : for_loop _ _ _ ?s = Done ?s' |- _ =>
    apply (for_loop_inv (λ x, files (g_env x) = files (g_env s))) in E; [| |done] end.
  - cbn in *. congruence.
  - intros j x y Hxy Hx. unbind Hxy. apply register_message_files in Hxy. congruence.
Qed.

End Files.

(** ** The table of files *)

Definition registered (p : pbc_env) (n : list Z) : Prop := is_Some (mjoin (sp_abs (files p) !! n)).

#[export] Instance registered_dec p n : Decision (registered p n).
Proof. unfold registered. apply _. Defined.

(** A file as the passes see it: the reader, its name and its dependencies. *)
Record fview := FView { v_file : rmessage; v_name : list Z; v_deps : list (list Z) }.

Definition name_ok (n : list Z) : Prop := calc_hash n ≠ 0 ∧ zlen n < 2 ^ 31 ∧ 0 ∉ n.

Record view_ok (v : fview) : Prop := {
  view_name : rm_cstr (v_file v) "name" 0 = Done (v_name v);
  view_size : rm_size (v_file v) "dependency" = Done (zlen (v_deps v));
  view_deps : ∀ i d, v_deps v !! i = Some d → rm_cstr (v_file v) "dependency" (Z.of_nat i) = Done d;
  view_name_ok : name_ok (v_name v);
  view_deps_ok : Forall (λ d, calc_hash d ≠ 0) (v_deps v) }.

(** The names of [N] are not entered with a null pointer, as the bootstrap
    enters its own. *)
Definition table_ok (N : list (list Z)) (p : pbc_env) : Prop :=
  sp_ok (files p) ∧ ∀ n, n ∈ N → sp_abs (files p) !! n ≠ Some None.

Lemma query_file p n : sp_ok (files p) → calc_hash n ≠ 0 →
  _pbcM_sp_query (Some (files p)) n = Done (mjoin (sp_abs (files p) !! n)).
Proof. intros Hok Hh. apply query_ok; auto. Qed.

(** [missing_dependency] looks for the first dependency that is missing. *)
Lemma missing_spec p file ds i : sp_ok (files p) → Forall (λ d, calc_hash d ≠ 0) ds →
  (∀ j d, ds !! j = Some d → rm_cstr file "dependency" (i + Z.of_nat j) = Done d) →
  missing_dependency (length ds) i p file = Done (bool_decide (¬ Forall (registered p) ds)).
Proof.
  revert i. induction ds as [|d ds IH]; intros i Hok Hh Hd; cbn [missing_dependency length].
  - by rewrite bool_decide_eq_false_2 by (intros H; apply H; constructor).
  - apply Forall_cons in Hh as [Hh Hhs]. specialize (Hd 0%nat d eq_refl) as Hd0. rewrite Z.add_0_r in Hd0.
    rewrite Hd0. cbn [obind]. rewrite query_file by done. cbn [obind].
    destruct (mjoin (sp_abs (files p) !! d)) as [pool|] eqn:E.
    + rewrite IH; [|done|done|].
      * f_equal. apply bool_decide_ext. rewrite Forall_cons. unfold registered at 2. rewrite E. split; [|intuition eauto].
        intros Hn [_ Hall]. done.
      * intros j d' Hj. rewrite <- Z.add_assoc. replace (1 + Z.of_nat j) with (Z.of_nat (S j)) by lia. by apply (Hd (S j)).
    + rewrite bool_decide_eq_true_2; [done|]. rewrite Forall_cons. unfold registered at 1. rewrite E. intros [[? ?] _]. done.
Qed.

Lemma check_spec p v : sp_ok (files p) → view_ok v →
  _check_file_name p (v_file v) =
  Done (if decide (registered p (v_name v)) then CHECK_FILE_EXIST
        else if decide (Forall (registered p) (v_deps v)) then CHECK_FILE_OK (v_name v) else CHECK_FILE_DEPENDENCY).
Proof.
  intros Hok [Hn Hs Hd (Hh & _) Hhs]. unfold _check_file_name. rewrite Hn. cbn [obind]. rewrite query_file by done. cbn [obind].
  destruct (decide (registered p (v_name v))) as [[pool E]|Hno]; [by rewrite E|].
  destruct (mjoin (sp_abs (files p) !! v_name v)) as [pool|] eqn:E; [destruct Hno; by exists pool|].
  rewrite Hs. cbn [obind]. unfold zlen. rewrite Nat2Z.id, missing_spec by done. cbn [obind].
  destruct (decide (Forall (registered p) (v_deps v))).
  - by rewrite bool_decide_eq_false_2 by tauto.
  - by rewrite bool_decide_eq_true_2.
Qed.

Section Passes.
Context (strtod : list Z → Z) (junk : nat → Z) (fuel : nat).

Lemma pool_name_new n : 0 ∉ n → zlen n < 2 ^ 31 →
  ∃ pool, pool_name junk (_pbcS_new junk) (n ++ [0]) (zlen n) = Done (n, pool).
Proof.
  intros Hn Hl. pose proof (zlen_nonneg n).
  destruct (build_spec junk (_pbcS_new junk) (n ++ [0]) (zlen n)) as (q & pool & Hb & _ & _ & Hs & _);
    [apply new_pool_wf|lia|rewrite zlen_app; unfold zlen; cbn [length]; lia|].
  exists pool. unfold pool_name, pool_build. rewrite Hb. cbn [obind]. rewrite Hs. cbn [obind].
  rewrite take_ge by (rewrite length_app; unfold zlen; cbn [length]; lia). by rewrite cstr_app.
Qed.

Lemma register_file_spec N p v p' : table_ok N p → v_name v ∈ N → name_ok (v_name v) → ¬ registered p (v_name v) →
  register_file strtod junk p (v_file v) (v_name v) fuel = Done p' →
  table_ok N p' ∧ ∀ n, registered p' n ↔ n = v_name v ∨ registered p n.
Proof.
  intros [Hok Hnull] HN (Hh & Hl & H0) Hno H. unfold register_file in H.
  destruct (pool_name_new (v_name v) H0 Hl) as (pool & Hp). rewrite Hp in H. cbn [obind] in H.
  assert (sp_abs (files p) !! v_name v = None) as Hnone.
  { specialize (Hnull _ HN). unfold registered in Hno. destruct (sp_abs (files p) !! v_name v) as [[q|]|]; [|done..].
    destruct Hno. by eexists. }
  destruct (sp_step_ok (files p) (OpInsert (v_name v) (Some pool)) Hok Hnone) as (fs & Hs & Hok1 & Ha1).
  cbn [sp_step op_key op_value] in Hs, Ha1. rewrite Hs in H. cbn [obind] in H. unbind H.
  apply register_files_kept in E. cbn [files] in E. unfold put_file in H. rewrite E in H.
  destruct (sp_step_ok fs (OpSet (v_name v) (Some s)) Hok1 I) as (fs2 & Hs2 & Hok2 & Ha2).
  cbn [sp_step op_key op_value] in Hs2, Ha2. destruct (_pbcM_sp_query_insert fs (v_name v)) as [[fs3 i]|]; [|discriminate Hs2].
  cbn [obind] in H, Hs2. injection Hs2 as Hs2. injection H as <-. rewrite Hs2.
  assert (sp_abs fs2 = <[v_name v := Some s]> (sp_abs (files p))) as Ha by (by rewrite Ha2, Ha1, insert_insert_eq).
  unfold table_ok, registered. cbn [files]. rewrite Ha. split_and!; [done| |].
  - intros n Hn. destruct (decide (n = v_name v)) as [->|Hne]; [by rewrite lookup_insert_eq|].
    rewrite lookup_insert_ne by done. by apply Hnull.
  - intros n. destruct (decide (n = v_name v)) as [->|Hne]; [rewrite lookup_insert_eq; naive_solver|].
    rewrite lookup_insert_ne by done. naive_solver.
Qed.

(** ** One pass *)

(** The entries a pass works on: a file, or null once it is registered. *)
Definition entry_ok (p : pbc_env) (v : fview) (o : option rmessage) : Prop :=
  o = Some (v_file v) ∨ o = None ∧ registered p (v_name v).

(** How many files are not registered. *)
Definition waiting (p : pbc_env) (vs : list fview) : nat := length (filter (λ v, ¬ registered p (v_name v)) vs).

Record pass_post (p : pbc_env) (vs : list fview) (p' : pbc_env) (fs' : list (option rmessage)) (r : Z) : Prop := {
  pass_grows : ∀ n, registered p n → registered p' n;
  pass_only : ∀ n, registered p' n → registered p n ∨ n ∈ v_name <$> vs;
  pass_entries : Forall2 (entry_ok p') vs fs';
  pass_count : r = Z.of_nat (waiting p' vs);
  pass_waits : ∀ v, v ∈ vs → ¬ registered p' (v_name v) → ¬ Forall (registered p) (v_deps v);
  pass_after : ∀ v, v ∈ vs → registered p' (v_name v) → registered p (v_name v) ∨ Forall (registered p') (v_deps v) }.

(** The rest of a pass after the head [v] was looked at. *)
Lemma pass_cons p p1 v o vs p' fs' r :
  (∀ n, registered p n → registered p1 n) → (∀ n, registered p1 n → registered p n ∨ n = v_name v) →
  v_name v ∉ v_name <$> vs → pass_post p1 vs p' fs' r →
  (registered p1 (v_name v) → registered p (v_name v) ∨ Forall (registered p1) (v_deps v)) →
  (¬ registered p1 (v_name v) → ¬ Forall (registered p) (v_deps v)) →
  entry_ok p1 v o →
  pass_post p (v :: vs) p' (o :: fs') (r + if decide (registered p1 (v_name v)) then 0 else 1).
Proof.
  intros Hg1 Ho1 Hfresh [Hg Ho He Hc Hw Ha] Hafter Hwaits Hentry.
  assert (registered p' (v_name v) ↔ registered p1 (v_name v)) as Hiff.
  { split; [|apply Hg]. intros H. destruct (Ho _ H); [done|]. done. }
  split.
  - auto.
  - intros n Hn. destruct (Ho n Hn) as [H|H]; [|right; set_solver]. destruct (Ho1 n H) as [?|?]; [by left|right; set_solver].
  - constructor; [|done]. destruct Hentry as [?|[-> ?]]; [by left|right; split; [done|by apply Hg]].
  - unfold waiting in *. rewrite filter_cons. destruct (decide (registered p1 (v_name v))) as [H|H].
    + rewrite decide_False by tauto. lia.
    + rewrite decide_True by tauto. cbn [length]. lia.
  - intros x Hx Hn. apply elem_of_cons in Hx as [->|Hx].
    + apply Hwaits. tauto.
    + intros Hall. eapply (Hw x Hx Hn). by eapply Forall_impl.
  - intros x Hx Hn. apply elem_of_cons in Hx as [->|Hx].
    + destruct Hafter as [?|Hall]; [by apply Hiff|by left|right]. by eapply Forall_impl.
    + destruct (Ha x Hx Hn) as [H|H]; [|by right]. destruct (Ho1 _ H) as [?|He']; [by left|].
      destruct Hfresh. rewrite <- He'. by apply list_elem_of_fmap_2.
Qed.

(** The head adds [add] to the count of the rest of the pass. *)
Lemma pass_result p1 v N vs p fs o add :
  (if decide (registered p1 (v_name v)) then 0 else 1) = add →
  match _register_no_dependency strtod junk fuel p1 fs with
  | Done (p', fs', r) => table_ok N p' ∧ pass_post p1 vs p' fs' r
  | Fault f => ∃ w p0, w ∈ vs ∧ register_file strtod junk p0 (v_file w) (v_name w) fuel = Fault f
  end →
  (∀ p' fs' r, pass_post p1 vs p' fs' r →
     pass_post p (v :: vs) p' (o :: fs') (r + if decide (registered p1 (v_name v)) then 0 else 1)) →
  match (do! (p', rest, r) <- _register_no_dependency strtod junk fuel p1 fs; Done (p', o :: rest, if add =? 0 then r else r + 1)) with
  | Done (p', fs', r) => table_ok N p' ∧ pass_post p (v :: vs) p' fs' r
  | Fault f => ∃ w p0, w ∈ v :: vs ∧ register_file strtod junk p0 (v_file w) (v_name w) fuel = Fault f
  end.
Proof.
  intros <- Htail Hcons. destruct (_register_no_dependency _ _ _ p1 fs) as [[[p' rest] r]|f]; cbn [obind].
  - destruct Htail as [Hok Hpost]. split; [done|]. specialize (Hcons p' rest r Hpost).
    destruct (decide (registered p1 (v_name v))); [by rewrite Z.add_0_r in Hcons|done].
  - destruct Htail as (w & p0 & Hw & ?). exists w, p0. split; [set_solver|done].
Qed.

Lemma pass_spec N vs fs p :
  table_ok N p → Forall view_ok vs → (∀ v, v ∈ vs → v_name v ∈ N) → NoDup (v_name <$> vs) →
  Forall2 (entry_ok p) vs fs →
  match _register_no_dependency strtod junk fuel p fs with
  | Done (p', fs', r) => table_ok N p' ∧ pass_post p vs p' fs' r
  | Fault f => ∃ v p0, v ∈ vs ∧ register_file strtod junk p0 (v_file v) (v_name v) fuel = Fault f
  end.
Proof.
  intros Hok Hv HN Hnd He. revert p Hok He. revert fs.
  induction vs as [|v vs IH]; intros fs p Hok He; apply Forall2_cons_inv_l in He || apply Forall2_nil_inv_l in He.
  { subst fs. cbn. split; [done|]. split; [done|by left|constructor|done|set_solver|set_solver]. }
  destruct He as (o & fs' & Ho & He & ->). apply Forall_cons in Hv as [Hv Hvs]. cbn in Hnd. apply NoDup_cons in Hnd as [Hfresh Hnd].
  assert (∀ p1, table_ok N p1 → (∀ n, registered p n → registered p1 n) →
    match _register_no_dependency strtod junk fuel p1 fs' with
    | Done (p', fs', r) => table_ok N p' ∧ pass_post p1 vs p' fs' r
    | Fault f => ∃ v p0, v ∈ vs ∧ register_file strtod junk p0 (v_file v) (v_name v) fuel = Fault f
    end) as Htail.
  { intros p1 Hok1 Hg. apply IH; [done|set_solver|done|done|]. eapply Forall2_impl; [exact He|].
    intros x y [?|[? ?]]; [by left|right; auto]. }
  destruct Ho as [->|[-> Hreg]]; cbn [_register_no_dependency].
  - rewrite check_spec by (apply Hok || done). cbn [obind].
    destruct (decide (registered p (v_name v))) as [Hreg|Hno]; [|destruct (decide (Forall (registered p) (v_deps v))) as [Hd|Hd]].
    + apply (pass_result p v N vs p fs' (Some (v_file v)) 0); [by rewrite decide_True by done|by apply Htail|]. intros p' rest r Hpost.
      eapply pass_cons; [done|by left|done|done|by left|done|by left].
    + destruct (register_file strtod junk p (v_file v) (v_name v) fuel) as [p1|f] eqn:Er; cbn [obind].
      2:{ exists v, p. split; [set_solver|done]. }
      destruct (register_file_spec N p v p1 Hok ltac:(set_solver) (view_name_ok _ Hv) Hno Er) as [Hok1 Hr1].
      assert (∀ n, registered p n → registered p1 n) as Hg by (intros n ?; apply Hr1; by right).
      assert (registered p1 (v_name v)) as Hv1 by (apply Hr1; by left).
      apply (pass_result p1 v N vs p fs' None 0); [by rewrite decide_True by done|by apply Htail|]. intros p' rest r Hpost.
      eapply pass_cons; [done| |done|done| |done|by right].
      * intros n Hn. apply Hr1 in Hn. tauto.
      * intros _. right. by eapply Forall_impl.
    + apply (pass_result p v N vs p fs' (Some (v_file v)) 1); [by rewrite decide_False by done|by apply Htail|]. intros p' rest r Hpost.
      eapply pass_cons; [done|by left|done|done|by left|done|by left].
  - apply (pass_result p v N vs p fs' None 0); [by rewrite decide_True by done|by apply Htail|]. intros p' rest r Hpost.
    eapply pass_cons; [done|by left|done|done|by left|done|by right].
Qed.

(** ** All passes *)

Lemma filter_length_le {A} (P Q : A → Prop) `{!∀ x, Decision (P x), !∀ x, Decision (Q x)} (l : list A) :
  (∀ x, P x → Q x) → (length (filter P l) <= length (filter Q l))%nat.
Proof.
  intros HPQ. induction l as [|x l IH]; [done|]. rewrite !filter_cons.
  destruct (decide (P x)); [rewrite decide_True by auto|destruct (decide (Q x))]; cbn [length]; lia.
Qed.

Lemma filter_length_eq {A} (P Q : A → Prop) `{!∀ x, Decision (P x), !∀ x, Decision (Q x)} (l : list A) :
  (∀ x, P x → Q x) → (length (filter Q l) <= length (filter P l))%nat → ∀ x, x ∈ l → Q x → P x.
Proof.
  intros HPQ. induction l as [|y l IH]; [set_solver|]. rewrite !filter_cons. intros Hl x Hx Hq.
  pose proof (filter_length_le P Q l HPQ). apply elem_of_cons in Hx as [->|Hx].
  - destruct (decide (P y)); [done|]. rewrite decide_True in Hl by done. cbn [length] in Hl. lia.
  - apply IH; [|done|done]. destruct (decide (P y)); [rewrite decide_True in Hl by auto|destruct (decide (Q y))]; cbn [length] in Hl; lia.
Qed.

(** What [pbc_register] achieves for the files [vs]. *)
Definition register_post (p : pbc_env) (vs : list fview) (res : outcome (pbc_env * Z)) : Prop :=
  match res with
  | Done (p', code) =>
      (∀ n, registered p n → registered p' n)
      ∧ (∀ n, registered p' n → registered p n ∨ n ∈ v_name <$> vs)
      ∧ (∀ v, v ∈ vs → registered p' (v_name v) → registered p (v_name v) ∨ Forall (registered p') (v_deps v))
      ∧ (code = 0 ∧ Forall (λ v, registered p' (v_name v)) vs
         ∨ code = 1 ∧ Exists (λ v, ¬ registered p' (v_name v)) vs
           ∧ ∀ v, v ∈ vs → ¬ registered p' (v_name v) → ¬ Forall (registered p') (v_deps v))
  | Fault f => ∃ v p0, v ∈ vs ∧ register_file strtod junk p0 (v_file v) (v_name v) fuel = Fault f
  end.

Lemma register_post_trans p p1 vs fs r res :
  pass_post p vs p1 fs r → register_post p1 vs res → register_post p vs res.
Proof.
  intros [Hg Ho _ _ _ Ha]. destruct res as [[p' code]|f]; [|done]. intros (Hg' & Ho' & Ha' & Hc). split_and!; [auto| | |done].
  - intros n Hn. destruct (Ho' n Hn) as [H|H]; [by apply Ho|by right].
  - intros v Hv Hn. destruct (Ha' v Hv Hn) as [H|H]; [|by right]. destruct (Ha v Hv H) as [?|?]; [by left|right].
    by eapply Forall_impl.
Qed.

(** A pass that leaves nothing waiting, or as much as was waiting before. *)
Lemma last_pass p vs p' fs r code :
  pass_post p vs p' fs r →
  (code = 0 ∧ r <= 0 ∨ code = 1 ∧ 0 < r ∧ Z.of_nat (waiting p vs) <= r) →
  register_post p vs (Done (p', code)).
Proof.
  intros [Hg Ho _ Hc Hw Ha] Hr. split_and!; [done..|].
  destruct Hr as [[-> Hr]|(-> & Hpos & Hr)]; [left|right]; (split; [done|]).
  - apply Forall_forall. intros v Hv. destruct (decide (registered p' (v_name v))) as [|Hn]; [done|].
    assert (v ∈ filter (λ v, ¬ registered p' (v_name v)) vs) as Hin by (by apply list_elem_of_filter).
    unfold waiting in Hc. destruct (filter _ vs); [by apply elem_of_nil in Hin|]. cbn [length] in Hc. lia.
  - assert (∀ v, v ∈ vs → ¬ registered p (v_name v) → ¬ registered p' (v_name v)) as Heq.
    { apply (filter_length_eq (λ v, ¬ registered p' (v_name v)) (λ v, ¬ registered p (v_name v))); [auto|].
      unfold waiting in *. lia. }
    split.
    + unfold waiting in Hc. destruct (filter (λ v, ¬ registered p' (v_name v)) vs) as [|v l] eqn:E; [cbn [length] in Hc; lia|].
      apply Exists_exists. exists v. apply and_comm, (list_elem_of_filter (λ v, ¬ registered p' (v_name v))). rewrite E. by left.
    + intros v Hv Hn Hall. apply (Hw v Hv Hn). eapply Forall_impl; [exact Hall|]. intros d Hd.
      destruct (Ho d Hd) as [?|Hin]; [done|]. apply list_elem_of_fmap in Hin as (w & -> & Hin).
      destruct (decide (registered p (v_name w))) as [|Hnw]; [done|]. by destruct (Heq w Hin Hnw).
Qed.

Lemma passes_spec N vs rounds fs p r :
  table_ok N p → Forall view_ok vs → (∀ v, v ∈ vs → v_name v ∈ N) → NoDup (v_name <$> vs) →
  Forall2 (entry_ok p) vs fs → Z.of_nat (waiting p vs) <= r → 0 < r < Z.of_nat rounds →
  register_post p vs (register_passes strtod junk rounds fuel p fs r).
Proof.
  revert fs p r. induction rounds as [|rounds IH]; intros fs p r Hok Hv HN Hnd He Hw Hr; [lia|].
  cbn [register_passes]. pose proof (pass_spec N vs fs p Hok Hv HN Hnd He) as Hpass.
  destruct (_register_no_dependency _ _ _ p fs) as [[[p1 fs1] rr]|f]; cbn [obind]; [|exact Hpass].
  destruct Hpass as [Hok1 Hpost]. pose proof (pass_count _ _ _ _ _ Hpost) as Hc.
  assert (waiting p1 vs <= waiting p vs)%nat as Hle.
  { apply filter_length_le. intros x Hx Hn. apply Hx. by apply (pass_grows _ _ _ _ _ Hpost). }
  destruct (Z.eqb_spec rr r) as [->|Hne].
  - change (register_post p vs (Done (p1, 1))). eapply last_pass; [exact Hpost|right; lia].
  - destruct (Z.ltb_spec 0 rr) as [Hpos|Hz].
    + eapply register_post_trans; [exact Hpost|]. apply IH; [done..|apply Hpost|lia|lia].
    + eapply last_pass; [exact Hpost|left; lia].
Qed.

End Passes.

(** ** The call *)

Lemma open_files_views p message vs i :
  (∀ j v, vs !! j = Some v → pbc_rmessage_message p message (lit "file") (i + Z.of_nat j) = Done (Some (v_file v), None)) →
  open_files (length vs) i p message = Done (Some (v_file <$> vs)).
Proof.
  revert i. induction vs as [|v vs IH]; intros i Hv; [done|]. cbn [length open_files].
  pose proof (Hv 0%nat v eq_refl) as H0. rewrite Z.add_0_r in H0. rewrite H0. cbn [obind].
  rewrite IH; [done|]. intros j w Hj. rewrite <- Z.add_assoc. replace (1 + Z.of_nat j) with (Z.of_nat (S j)) by lia. by apply Hv.
Qed.


(** ** The table of files after the bootstrap *)

Lemma set_enums_files p file p' : set_enums p file = Done p' → files p' = files p.
Proof.
  unfold set_enums. intros H. unbind H. injection H as <-.
  eapply (for_loop_inv (λ x, files x.1 = files p)) in E; [exact E| |done].
  intros j [x xa] [y ya] Hxy Hx. cbn in *. unbind Hxy. injection Hxy as <- _. unfold set_enum_one in *.
  match goal with E : (do! table <- _; _) = Done _ |- _ => unbind E; injection E as <- end.
  match goal with E : _pbcP_push_enum _ _ _ = _ |- _ => apply push_enum_files in E end. congruence.
Qed.

Lemma set_msg_field_files d2f f2d stk hj p file name i q p' q' :
  set_msg_field d2f f2d stk hj p file name i q = Done (p', q') → files p' = files p.
Proof.
  unfold set_msg_field. intros H. destruct (_pbcA_index _ _) as [v|]; cbn [obind] in H; [|discriminate H].
  destruct v as [| | | |[buf|] len]; [discriminate H..| |discriminate H]. unbind H. destruct (negb _).
  - by injection H as <- _.
  - unbind H. by apply push_message_files in H.
Qed.

Lemma set_msgs_files d2f f2d stk hj p file q p' q' : set_msgs d2f f2d stk hj p file q = Done (p', q') → files p' = files p.
Proof.
  unfold set_msgs. intros H. unbind H. injection H as <- <-.
  eapply (for_loop_inv (λ x, files x.1.1 = files p)) in E; [exact E| |done].
  intros j [[x xa] xb] [[y ya] yb] Hxy Hx. cbn in *. unbind Hxy. injection Hxy as <- _ _. unfold set_msg_one in *.
  match goal with E : (do! (p, queue) <- for_loop _ _ _ _; _) = Done _ |- _ => unbind E; injection E as <- _ end.
  match goal with E : _pbcP_init_message _ _ = _ |- _ => apply init_message_files in E; rewrite E end.
  match goal with E : for_loop _ _ _ _ = _ |- _ => eapply (for_loop_inv (λ z, files z.1 = files p)) in E; [exact E| |done] end.
  intros k [u uq] [w wq] Huw Hu. cbn in *. apply set_msg_field_files in Huw. congruence.
Qed.

(** The bootstrap enters one name, with a null pointer. *)
Lemma bootstrap_files d2f f2d stk hj bytes p :
  pbc_new d2f f2d stk hj bytes = Done p → sp_ok (files p).
Proof.
  unfold pbc_new, _pbcB_init, register_internal, pbc_new_empty. intros H.
  destruct (sp_new_ok (V := stringpool) 0 false) as (mf & Ef & Hwf & Ha & _); [done|].
  assert (sp_ok mf) as Hok by (split; [done|rewrite Ha; constructor]).
  rewrite Ef in H. cbn [obind] in H. unbind H. injection H as <-.
  match goal with E : obind (_pbcM_sp_new _ _) _ = Done _ |- _ => unbind E; injection E as <- end.
  match goal with E : obind (pbc_pattern_unpack _ _ _ _ _ _) _ = Done _ |- _ => rename E into Hint; unbind Hint end.
  cbn [files enums msgs lasterror] in *. destruct (negb _).
  - injection Hint as <- _. by destruct o.
  - unbind Hint. injection Hint as <- _.
    repeat match goal with
    | E : _pbcB_register_fields _ _ = Done _ |- _ => apply register_fields_files in E; rewrite E; clear E
    | E : set_msgs _ _ _ _ _ _ _ = Done _ |- _ => apply set_msgs_files in E; rewrite E; clear E
    | E : set_enums _ _ = Done _ |- _ => apply set_enums_files in E; rewrite E; clear E
    end. cbn [files].
    match goal with E : _pbcM_sp_insert ?fs ?n None = Done ?m |- _ =>
      assert (fs = mf) as Hfs by (by destruct o); rewrite Hfs in E;
      destruct (sp_step_ok mf (OpInsert n None) Hok) as (m' & Hm & Hok' & _);
        [by rewrite sp_abs_None by (rewrite Ha; apply not_elem_of_nil)|]; cbn [sp_step] in Hm; rewrite E in Hm; by injection Hm as ->
    end.
Qed.

(** ** Two files in the wrong order

    Log.proto depends on RpcServer.proto and comes first in the set; the
    environment knows the fields of descriptors the passes read. *)

Definition demo_set : list Z :=
  [10;33;10;9;76;111;103;46;112;114;111;116;111;18;3;76;111;103;26;15;82;112;99;83;
   101;114;118;101;114;46;112;114;111;116;111;10;28;10;15;82;112;99;83;101;114;118;101;114;
   46;112;114;111;116;111;18;9;82;112;99;83;101;114;118;101;114].

Definition demo_stk : Z → list Z := λ _, replicate 10 0.

Definition demo_fields (fs : list (Z * string * Z * Z)) : list _field :=
  List.map (λ '(id, n, ty, l), Field id (lit n) ty l (if ty =? PTYPE_STRING then VStr [] 0 else VInteger 0 0)
                                 (if ty =? PTYPE_MESSAGE then TMessage (Some (lit "google.protobuf.FileDescriptorProto")) else TName None)) fs.

Definition demo_new : outcome pbc_env :=
  do! p <- pbc_new_empty;
  do! (p, _, _) <- register_fields p (lit "google.protobuf.FileDescriptorProto")
    (demo_fields [(1, "name", PTYPE_STRING, LABEL_OPTIONAL); (2, "package", PTYPE_STRING, LABEL_OPTIONAL);
                  (3, "dependency", PTYPE_STRING, LABEL_REPEATED)]%string) _pbcA_open;
  do! (p, _, _) <- register_fields p (lit "google.protobuf.FileDescriptorSet")
    (demo_fields [(1, "file", PTYPE_MESSAGE, LABEL_REPEATED)]%string) _pbcA_open;
  Done p.

Definition demo_env : pbc_env := Eval vm_compute in
  match demo_new with
  | Done p => p
  | Fault _ => Env (MapSp 0 0 false []) (MapSp 0 0 false []) (MapSp 0 0 false []) ""
  end.

Lemma demo_env_files : sp_ok (files demo_env).
Proof.
  destruct (sp_new_ok (V := stringpool) 0 false) as (mf & Ef & Hwf & Ha & _); [done|].
  assert (mf = files demo_env) as <- by (vm_compute in Ef; injection Ef as <-; reflexivity).
  split; [done|]. rewrite Ha. constructor.
Qed.

Definition demo_message : rmessage := Eval vm_compute in
  match pbc_rmessage_new id demo_env demo_stk (lit "google.protobuf.FileDescriptorSet") demo_set with
  | Done (Some m, _) => m
  | _ => RMessage None None
  end.

Definition demo_file (i : Z) : rmessage :=
  match pbc_rmessage_message demo_env demo_message (lit "file") i with
  | Done (Some m, _) => m
  | _ => RMessage None None
  end.

Definition demo_views : list fview :=
  [FView (demo_file 0) (lit "Log.proto") [lit "RpcServer.proto"];
   FView (demo_file 1) (lit "RpcServer.proto") []].

Lemma demo_views_ok : Forall view_ok demo_views.
Proof.
  assert (∀ n, bool_decide (calc_hash n ≠ 0 ∧ 0 ∉ n) && (zlen n <? 2 ^ 31) = true → name_ok n) as Hname.
  { intros n H. bprop. apply bool_decide_eq_true in H as [? ?]. by split. }
  apply Forall_cons. split; [|apply Forall_cons; split; [|by apply Forall_nil]]; split; cbn [v_file v_name v_deps].
  - vm_compute. reflexivity.
  - vm_compute. reflexivity.
  - intros [|i] d Hd; [injection Hd as <-; vm_compute; reflexivity|by destruct i].
  - apply Hname. vm_compute. reflexivity.
  - apply Forall_singleton. vm_compute. discriminate.
  - vm_compute. reflexivity.
  - vm_compute. reflexivity.
  - intros i d Hd. by destruct i.
  - apply Hname. vm_compute. reflexivity.
  - by apply Forall_nil.
Qed.

