(* ===== verification/RegisterTypes.v ===== *)
(** * The types of registered fields ([3rd/pbc/src/proto.c], [bootstrap.c], [register.c])

    [f->type_name] is a union: the name of a type while a file is read, and a
    pointer to its descriptor from then on.  [_pbcP_push_message] queues the
    fields that have a type name, and [_pbcB_register_fields] replaces the names
    when the whole file is known.  The theorem says that no name is left behind:
    what [pbc_new] and [pbc_register] make is safe to use. *)

From S2P Require Import Prelude Varint Chain PMap SpMap PArray StringPool Context Proto Wmessage Decode CMem Pattern Rmessage Bootstrap Descriptor Register RegisterFiles.

(** ** What the tables hold *)

Lemma read_at_elem {A} (l : list A) i x : read_at l i = Done x → x ∈ l.
Proof. unfold read_at. repeat case_match; intros; simplify_eq. by eapply list_elem_of_lookup_2. Qed.

Lemma write_at_elem {A} (l l' bs : list A) i x : write_at l i bs = Done l' → x ∈ l' → x ∈ l ∨ x ∈ bs.
Proof.
  unfold write_at. destruct (_ && _); intros H Hx; [|discriminate H]. injection H as <-. rewrite !elem_of_app in Hx.
  destruct Hx as [Hx|[Hx|Hx]]; [left | by right | left].
  - rewrite <- (take_drop (Z.to_nat i) l). apply elem_of_app. by left.
  - rewrite <- (take_drop (Z.to_nat i + length bs) l). apply elem_of_app. by right.
Qed.

Lemma walk_elem {S P} `{!ChainSlot S P} (t : list S) test fuel : ∀ i j s, walk fuel t test i = Done (inl (j, s)) → s ∈ t ∧ test s = Done true.
Proof.
  induction fuel as [|fuel IH]; intros i j s H; cbn [walk] in H.
  all: destruct (read_at t i) as [s0|] eqn:Er; cbn [obind] in H; [|discriminate H].
  all: destruct (test s0) as [[]|] eqn:Et; cbn [obind] in H; [..|discriminate H].
  1,3: injection H as _ <-; split; [by eapply read_at_elem | done].
  all: destruct (s_next s0 =? 0); [discriminate H|]; first [discriminate H | by eapply IH].
Qed.

(** A field found by name is one of the table's. *)
Lemma query_elem {V} (m : map_sp V) key v : _pbcM_sp_query (Some m) key = Done (Some v) →
  v ∈ _pbcM_sp_foreach m ∧ ∃ i s, sp_slots m !! i = Some s ∧ sp_key s = Some key ∧ sp_pointer s = Some v.
Proof.
  unfold _pbcM_sp_query. intros H. destruct (walk _ _ _ _) as [[[j s]|[j s]]|] eqn:Ew; cbn [obind] in H; [|discriminate H..].
  injection H as Hv. apply walk_elem in Ew as [Hin Hm]. split.
  - apply list_elem_of_omap. by exists s.
  - apply list_elem_of_lookup in Hin as [i Hi]. exists i, s. split; [done|]. split; [|done]. unfold slot_matches in Hm. case_match; [|discriminate Hm].
    destruct (sp_key s); [|discriminate Hm]. injection Hm as Hm. by apply bool_decide_eq_true in Hm as ->.
Qed.

(** A query that ends gives what the table holds. *)
Lemma query_done {V} (m : map_sp V) key r : sp_ok m → _pbcM_sp_query (Some m) key = Done r → r = mjoin (sp_abs m !! key).
Proof.
  intros Hok Hq. destruct (decide (key ∈ (sp_assoc m).*1)) as [Hin|Hno].
  { rewrite query_ok in Hq by auto. by injection Hq as <-. }
  rewrite sp_abs_None by done. destruct r as [v|]; [|done]. exfalso. apply Hno.
  apply query_elem in Hq as (_ & i & s & Hs & Hk & _). eapply assoc_entry. by eapply slot_assoc.
Qed.

Lemma insert_elem {V} (m m' : map_sp V) key v x : sp_wf m → _pbcM_sp_insert m key (Some v) = Done m' →
  sp_wf m' ∧ (x ∈ _pbcM_sp_foreach m' → x = v ∨ x ∈ _pbcM_sp_foreach m).
Proof.
  intros Hwf Hi. destruct (insert_ok m key (Some v) Hwf) as (m1 & Hm1 & Hwf' & Ha). rewrite Hi in Hm1. injection Hm1 as <-.
  split; [done|]. rewrite !foreach_assoc, Ha by done. cbn. by rewrite elem_of_cons.
Qed.

(** The pointers in a table by number. *)
Definition ip_values {V} (m : map_ip V) : list V := omap id (default [] (ip_array m)) ++ omap ip_pointer (ip_slots m).

Lemma ip_values_elem {V} (m : map_ip V) v :
  v ∈ ip_values m ↔ (∃ a, ip_array m = Some a ∧ Some v ∈ a) ∨ ∃ s, s ∈ ip_slots m ∧ ip_pointer s = Some v.
Proof.
  unfold ip_values. rewrite elem_of_app, !list_elem_of_omap. split; (intros [H|H]; [left | by right]).
  - destruct H as (o & Ho & Hv). cbn in Hv. subst o. destruct (ip_array m); [eauto | by apply elem_of_nil in Ho].
  - destruct H as (a & -> & Ha). by exists (Some v).
Qed.

Lemma ip_query_elem {V} (m : map_ip V) id v : _pbcM_ip_query (Some m) id = Done (Some v) → v ∈ ip_values m.
Proof.
  unfold _pbcM_ip_query. rewrite ip_values_elem. destruct (ip_array m) as [a|].
  - destruct (_ && _); [|discriminate]. intros H%read_at_elem. eauto.
  - destruct (_ =? 0); [discriminate|]. intros H. destruct (walk _ _ _ _) as [[[j s]|[j s]]|] eqn:Ew; cbn [obind] in H; [|discriminate H..].
    injection H as Hv. apply walk_elem in Ew as [Hin _]. eauto.
Qed.

Lemma place_elem {V} (t t' : list (ip_slot V)) e e' home new s : place t e home new = Done (t', e') → s ∈ t' →
  ip_pointer s = ip_pointer new ∨ ∃ s0, s0 ∈ t ∧ ip_pointer s = ip_pointer s0.
Proof.
  assert (∀ (t0 : list (ip_slot V)) i x y, y ∈ <[i := x]> t0 → y = x ∨ y ∈ t0) as Hins.
  { intros t0 i x y Hy. apply list_elem_of_lookup in Hy as [k Hk]. apply list_lookup_insert_Some in Hk as [(_ & <- & _)|[_ Hk]]; [by left | right].
    by eapply list_elem_of_lookup_2. }
  unfold place. intros H Hs. destruct (read_at t home) as [slot|] eqn:Er; cbn [obind] in H; [|discriminate H]. destruct (used slot).
  - unbind H. injection H as <- _. unfold link in Hs. destruct (t !! Z.to_nat home) as [sh|] eqn:Eh; [|eauto].
    apply list_elem_of_lookup_2 in Eh. apply Hins in Hs as [->|Hs]; [right; by exists sh|]. apply Hins in Hs as [->|Hs]; [by left | eauto].
  - injection H as <- _. apply Hins in Hs as [->|Hs]; [by left | eauto].
Qed.

Lemma ip_new_hash_loop_elem {V} size (table : list (Z * option V)) : ∀ st st' s v, ip_new_hash_loop size st table = Done st' → s ∈ st'.1 → ip_pointer s = Some v →
  (∃ id, (id, Some v) ∈ table) ∨ ∃ s0, s0 ∈ st.1 ∧ ip_pointer s0 = Some v.
Proof.
  induction table as [|[id p] table IH]; intros st st' s v H Hs Hv; cbn [ip_new_hash_loop] in H; [injection H as <-; eauto|].
  destruct (place _ _ _ _) as [[t1 e1]|] eqn:Ep; cbn [obind] in H; [|discriminate H].
  destruct (IH _ _ _ _ H Hs Hv) as [[i Hi]|(s0 & Hs0 & Hv0)]; [left; exists i; apply elem_of_cons; by right|].
  destruct (place_elem _ _ _ _ _ _ _ Ep Hs0) as [E|(s1 & Hs1 & E)]; [left; exists id; apply elem_of_cons; left; cbn in E; congruence|].
  right. exists s1. split; [done|]. congruence.
Qed.

Lemma ip_fill_elem {V} (table : list (Z * option V)) : ∀ arr arr' v, ip_fill arr table = Done arr' → Some v ∈ arr' →
  (∃ id, (id, Some v) ∈ table) ∨ Some v ∈ arr.
Proof.
  induction table as [|[id p] table IH]; intros arr arr' v H Hv; cbn [ip_fill] in H; [injection H as <-; by right|].
  destruct (write_at _ _ _) as [a1|] eqn:Ew; cbn [obind] in H; [|discriminate H].
  destruct (IH _ _ _ H Hv) as [[i Hi]|Ha]; [left; exists i; apply elem_of_cons; by right|].
  destruct (write_at_elem _ _ _ _ _ Ew Ha) as [Ha'|Ha']; [by right|]. apply list_elem_of_singleton in Ha' as <-. left. exists id. apply elem_of_cons. by left.
Qed.

(** A table by number has the pointers it was made from, and no others. *)
Lemma ip_new_elem {V} (table : list (Z * option V)) m v : _pbcM_ip_new table = Done m → v ∈ ip_values m → ∃ id, (id, Some v) ∈ table.
Proof.
  assert (∀ m, _pbcM_ip_new_hash table = Done m → v ∈ ip_values m → ∃ id, (id, Some v) ∈ table) as Hhash.
  { intros m0 H Hv. unfold _pbcM_ip_new_hash in H. destruct (ip_new_hash_loop _ _ _) as [[sl e]|] eqn:El; cbn [obind] in H; [|discriminate H].
    injection H as <-. apply ip_values_elem in Hv as [(a & Ha & _)|(s & Hs & Hp)]; [discriminate Ha|]. cbn [ip_slots] in Hs.
    destruct (ip_new_hash_loop_elem _ _ _ _ _ _ El Hs Hp) as [?|(s0 & Hs0 & Hp0)]; [done|]. cbn [fst] in Hs0.
    apply elem_of_replicate in Hs0 as [-> _]. discriminate Hp0. }
  intros H Hv. unfold _pbcM_ip_new in H. destruct table as [|[mx p] rest]; [discriminate H|]. destruct (_ || _); [by eapply Hhash|].
  destruct (ip_max _ _ _); [|by eapply Hhash]. destruct (ip_fill _ _) as [arr|] eqn:Ef; cbn [obind] in H; [|discriminate H]. injection H as <-.
  apply ip_values_elem in Hv as [(a & Ha & Hin)|(s & Hs & _)]; [|by apply elem_of_nil in Hs]. injection Ha as <-.
  destruct (ip_fill_elem _ _ _ _ Ef Hin) as [?|Hr]; [done|]. apply elem_of_replicate in Hr as [Hr _]. discriminate Hr.
Qed.

(** ** Changing the objects in a table *)

Lemma traverse_rel {A B} (g : A → outcome B) l : ∀ l', traverse g l = Done l' → Forall2 (λ a b, g a = Done b) l l'.
Proof.
  induction l as [|a l IH]; intros l' H; cbn [traverse] in H; [injection H as <-; constructor|]. unbind H. injection H as <-. by constructor; auto.
Qed.

Lemma traverse_option_rel {A B} (g : A → outcome B) o b : traverse_option g o = Done (Some b) → ∃ a, o = Some a ∧ g a = Done b.
Proof. destruct o as [a|]; cbn; intros H; [|discriminate H]. unbind H. injection H as <-. eauto. Qed.

(** The chains depend on the keys and links of the slots only. *)
Lemma table_same {S P} `{!ChainSlot S P} (home : P → nat) (t t' : list S) :
  Forall2 (λ s s', s_next s' = s_next s ∧ used s' = used s
                   ∧ ∀ p', payload s' = Some p' → ∃ p, payload s = Some p ∧ home p = home p') t t' →
  Chain.table_ok home t → Chain.table_ok home t'.
Proof.
  intros Hall [Hchain Hnext Hfree Hhome].
  assert (∀ i l, chain t i l → chain t' i l) as Hc.
  { induction 1 as [i s Hs Hn | i s k l Hs Hn Hc IH]; destruct (Forall2_lookup_l _ _ _ _ _ Hall Hs) as (s' & Hs' & En & _).
    - eapply chain_end; [done | congruence].
    - eapply (chain_step _ _ s' k); [done | congruence | done]. }
  split.
  - intros i Hi. rewrite <- (Forall2_length _ _ _ Hall) in Hi. destruct (Hchain i Hi) as [l Hl]. eauto.
  - intros i s' k Hs' Hn. destruct (Forall2_lookup_r _ _ _ _ _ Hall Hs') as (s & Hs & En & _).
    destruct (Hnext i s k Hs ltac:(congruence)) as (sk & Hsk & Hu). destruct (Forall2_lookup_l _ _ _ _ _ Hall Hsk) as (sk' & Hsk' & _ & Eu & _).
    exists sk'. split; [done|]. congruence.
  - intros i s' Hs' Hu. destruct (Forall2_lookup_r _ _ _ _ _ Hall Hs') as (s & Hs & En & Eu & _). rewrite En. apply (Hfree i s Hs). congruence.
  - intros i s' p' Hs' Hp. destruct (Forall2_lookup_r _ _ _ _ _ Hall Hs') as (s & Hs & _ & _ & Hpay). destruct (Hpay p' Hp) as (p & Hp0 & <-).
    destruct (Hhome i s p Hs Hp0) as (l & Hl & Hin). eauto.
Qed.

Lemma sp_traverse_elem {V} (g : V → outcome V) (m m' : map_sp V) : sp_wf m → sp_traverse g m = Done m' →
  sp_wf m' ∧ ∀ v', v' ∈ _pbcM_sp_foreach m' → ∃ v, v ∈ _pbcM_sp_foreach m ∧ g v = Done v'.
Proof.
  intros [Hcap Hlen Htab Hsize Hhash Hblank] H. unfold sp_traverse in H. destruct (traverse _ _) as [slots|] eqn:Et; cbn [obind] in H; [|discriminate H].
  injection H as <-. apply traverse_rel in Et.
  assert (Forall2 (λ s s', sp_key s' = sp_key s ∧ sp_hash s' = sp_hash s ∧ sp_next s' = sp_next s
                           ∧ traverse_option g (sp_pointer s) = Done (sp_pointer s')) (sp_slots m) slots) as Hall.
  { eapply Forall2_impl; [exact Et|]. intros s s' Hs. cbn beta in Hs. unbind Hs. by injection Hs as <-. }
  clear Et. split.
  - split; cbn [sp_cap sp_slots sp_size].
    + done.
    + rewrite <- Hlen. unfold zlen. by rewrite (Forall2_length _ _ _ Hall).
    + eapply table_same; [|exact Htab]. eapply Forall2_impl; [exact Hall|]. intros s s' (Ek & Eh & En & _). rewrite !used_sp_key, Ek. split_and!; [done..|].
      intros p' Hp. cbn in *. rewrite Ek in Hp. destruct (sp_key s); [|discriminate Hp]. injection Hp as <-. eexists. split; [done|]. unfold sp_home. cbn. by rewrite Eh.
    + rewrite Hsize. clear -Hall. unfold zlen, entries. f_equal. induction Hall as [|s s' l l' (Ek & _) _ IH]; [done|]. cbn. rewrite Ek.
      destruct (sp_key s); cbn; [by f_equal | done].
    + intros p' Hp. apply list_elem_of_omap in Hp as (s' & Hs' & Hp). apply list_elem_of_lookup in Hs' as [i Hi].
      destruct (Forall2_lookup_r _ _ _ _ _ Hall Hi) as (s & Hs & Ek & Eh & _). cbn in Hp. rewrite Ek in Hp. destruct (sp_key s) as [k|] eqn:Eks; [|discriminate Hp].
      injection Hp as <-. cbn. rewrite Eh. apply (Hhash (k, sp_hash s, sp_pointer s)). apply list_elem_of_omap. exists s.
      split; [by eapply list_elem_of_lookup_2|]. cbn. by rewrite Eks.
    + intros i s' Hs' Hk. destruct (Forall2_lookup_r _ _ _ _ _ Hall Hs') as (s & Hs & Ek & Eh & En & Ep). rewrite Ek in Hk. pose proof (Hblank i s Hs Hk) as ->.
      destruct s' as [k h v n]. cbn in *. injection Ep as <-. by subst.
  - intros v' Hv. apply list_elem_of_omap in Hv as (s' & Hs' & Hp). apply list_elem_of_lookup in Hs' as [i Hi].
    destruct (Forall2_lookup_r _ _ _ _ _ Hall Hi) as (s & Hs & _ & _ & _ & Ep). rewrite Hp in Ep. apply traverse_option_rel in Ep as (v & Hv & Hg).
    exists v. split; [|done]. apply list_elem_of_omap. exists s. split; [by eapply list_elem_of_lookup_2 | done].
Qed.

Lemma ip_traverse_elem {V} (g : V → outcome V) (m m' : map_ip V) v' : ip_traverse g m = Done m' → v' ∈ ip_values m' →
  ∃ v, v ∈ ip_values m ∧ g v = Done v'.
Proof.
  unfold ip_traverse. intros H Hv. unbind H. injection H as <-. apply ip_values_elem in Hv as [(arr & Ha & Hin)|(s' & Hs' & Hp)]; cbn [ip_array ip_slots] in *.
  - subst. apply traverse_option_rel in E as (arr0 & Harr0 & Ht). apply traverse_rel in Ht. apply list_elem_of_lookup in Hin as [i Hi].
    destruct (Forall2_lookup_r _ _ _ _ _ Ht Hi) as (o & Ho & Hg). apply traverse_option_rel in Hg as (v & -> & Hg). exists v. split; [|done].
    apply ip_values_elem. left. exists arr0. split; [done|]. by eapply list_elem_of_lookup_2.
  - apply traverse_rel in E0. apply list_elem_of_lookup in Hs' as [i Hi]. destruct (Forall2_lookup_r _ _ _ _ _ E0 Hi) as (s & Hs & Hg). cbn beta in Hg. unbind Hg.
    injection Hg as <-. cbn in Hp. subst. apply traverse_option_rel in E1 as (v & Hv & Hg). exists v. split; [|done]. apply ip_values_elem. right.
    exists s. split; [by eapply list_elem_of_lookup_2 | done].
Qed.

(** ** The descriptors of an environment *)

(** A field of the message, in its table by name or in the one by number. *)
Definition has_field (m : _message) (f : _field) : Prop :=
  f ∈ _pbcM_sp_foreach (m_name m) ∨ ∃ t, m_id m = Some t ∧ f ∈ ip_values t.

Definition known_message (p : pbc_env) (name : list Z) : Prop := is_Some (mjoin (sp_abs (msgs p) !! name)).
Definition known_enum (p : pbc_env) (name : list Z) : Prop := is_Some (mjoin (sp_abs (enums p) !! name)).

(** The union of the field holds a pointer: to a known message, or null when there
    was no message of that name; to a known enum. *)
Definition resolved (p : pbc_env) (f : _field) : Prop :=
  (f_type f = PTYPE_MESSAGE → ∃ o, f_type_name f = TMessage o ∧ ∀ k, o = Some k → known_message p k)
  ∧ (f_type f = PTYPE_ENUM → ∃ k, f_type_name f = TEnum (Some k) ∧ known_enum p k).

(** The fields that still hold a name are in the queue. *)
Record descriptors (queue : list field_ptr) (p : pbc_env) : Prop := {
  d_msgs : sp_ok (msgs p);
  d_enums : sp_ok (enums p);
  d_msgs_null k : sp_abs (msgs p) !! k ≠ Some None;
  d_enums_null k : sp_abs (enums p) !! k ≠ Some None;
  d_fields name m : sp_abs (msgs p) !! name = Some (Some m) → sp_wf (m_name m)
    ∧ ∀ f, has_field m f → resolved p f ∨ unresolved f = true ∧ (name, f_name f) ∈ queue }.

(** No descriptor is lost. *)
Definition extends (p p' : pbc_env) : Prop :=
  (∀ k, known_message p k → known_message p' k) ∧ ∀ k, known_enum p k → known_enum p' k.

#[export] Instance extends_preorder : PreOrder extends.
Proof. split; [intros p; by split | intros p1 p2 p3 [H1 H2] [H3 H4]; split; auto]. Qed.

Lemma resolved_extends p p' f : extends p p' → resolved p f → resolved p' f.
Proof.
  intros [Hm He] [H1 H2]. split; intros Ht.
  - destruct (H1 Ht) as (o & Ho & Hk). exists o. auto.
  - destruct (H2 Ht) as (k & Hk & He'). exists k. auto.
Qed.

(** Storing a message whose fields are resolved or queued; the other messages
    keep what they have in the queue. *)
Lemma store_descriptors l l' p p' name m : descriptors l p → enums p' = enums p → sp_ok (msgs p') →
  sp_abs (msgs p') = <[name := Some m]> (sp_abs (msgs p)) → sp_wf (m_name m) →
  (∀ f, has_field m f → resolved p f ∨ unresolved f = true ∧ (name, f_name f) ∈ l') →
  (∀ n x, n ≠ name → (n, x) ∈ l → (n, x) ∈ l') → descriptors l' p' ∧ extends p p'.
Proof.
  intros [Hm He Hnm Hne Hf] Een Hok1 Hab1 Hwf Hfields Hothers.
  assert (extends p p') as Hext.
  { unfold extends, known_message, known_enum. rewrite Een, Hab1. split; [|done]. intros k Hk. destruct (decide (k = name)) as [->|Hkn].
    - rewrite lookup_insert_eq. by eexists.
    - by rewrite lookup_insert_ne. }
  split; [|done]. split; rewrite ?Een; try done.
  - intros k. rewrite Hab1. destruct (decide (k = name)) as [->|Hkn]; [by rewrite lookup_insert_eq | rewrite lookup_insert_ne by done; apply Hnm].
  - intros n m0 Hn. rewrite Hab1 in Hn. destruct (decide (n = name)) as [->|Hkn].
    + rewrite lookup_insert_eq in Hn. injection Hn as <-. split; [done|]. intros f Hin. destruct (Hfields f Hin); [left; by eapply resolved_extends | by right].
    + rewrite lookup_insert_ne in Hn by done. destruct (Hf n m0 Hn) as [Hwf0 Hf0]. split; [done|]. intros f Hin.
      destruct (Hf0 f Hin) as [?|[? ?]]; [left; by eapply resolved_extends | right; auto].
Qed.

Lemma put_descriptors l l' p name m p' : descriptors l p → put_message p name m = Done p' → sp_wf (m_name m) →
  (∀ f, has_field m f → resolved p f ∨ unresolved f = true ∧ (name, f_name f) ∈ l') →
  (∀ n x, n ≠ name → (n, x) ∈ l → (n, x) ∈ l') → descriptors l' p' ∧ extends p p'.
Proof.
  intros Hd Hput. destruct (put_ok p name m (d_msgs _ _ Hd)) as (p1 & Hp1 & Hok1 & Hab1). rewrite Hput in Hp1. injection Hp1 as <-.
  apply (store_descriptors l l' p p' name m Hd); [|done|done]. unfold put_message in Hput. unbind Hput. by injection Hput as <-.
Qed.

Lemma absent_key {V} (m : map_sp V) k : (∀ k, sp_abs m !! k ≠ Some None) → mjoin (sp_abs m !! k) = None → sp_abs m !! k = None.
Proof. intros Hnull H. specialize (Hnull k). destruct (sp_abs m !! k) as [[v|]|]; [discriminate H | done | done]. Qed.

Lemma present_key {V} (m : map_sp V) k v : Some v = mjoin (sp_abs m !! k) → sp_abs m !! k = Some (Some v).
Proof. destruct (sp_abs m !! k) as [[?|]|]; cbn; congruence. Qed.

Lemma new_message_descriptors l p name p' m : descriptors l p → sp_abs (msgs p) !! name = None → new_message p name = Done (p', m) →
  descriptors l p' ∧ extends p p' ∧ sp_abs (msgs p') !! name = Some (Some m).
Proof.
  intros Hd Hno Hnew. destruct (new_message_ok p name (d_msgs _ _ Hd) Hno) as (p1 & m1 & Hp1 & _ & Hwf & Ha & Hok1 & Hab1). rewrite Hnew in Hp1. injection Hp1 as <- <-.
  assert (enums p' = enums p ∧ m_id m = None) as [Een Eid] by (unfold new_message in Hnew; unbind Hnew; by injection Hnew as <- <-).
  destruct (store_descriptors l l p p' name m Hd Een Hok1 Hab1 Hwf) as [Hd' Hext]; [|done|split; [done|]; split; [done | by rewrite Hab1, lookup_insert_eq]].
  intros f [Hin|(t & Ht & _)]; [|congruence]. rewrite foreach_assoc, Ha in Hin by done. by apply elem_of_nil in Hin.
Qed.

Lemma push_message_descriptors l p name f queue p' queue' : descriptors l p → holds queue l → unresolved f = true →
  _pbcP_push_message p name f queue = Done (p', queue') → ∃ l', descriptors l' p' ∧ holds queue' l' ∧ extends p p'.
Proof.
  intros Hd Hq Hf H. unfold _pbcP_push_message in H. destruct (_pbcM_sp_query (Some (msgs p)) name) as [q|] eqn:Eq; cbn [obind] in H; [|discriminate H].
  apply (query_done _ _ _ (d_msgs _ _ Hd)) in Eq.
  destruct (match q with Some m => Done (p, m) | None => new_message p name end) as [[p1 m]|] eqn:E1; cbn [obind] in H; [|discriminate H].
  assert (descriptors l p1 ∧ extends p p1 ∧ sp_abs (msgs p1) !! name = Some (Some m)) as (Hd1 & Hext1 & Hm).
  { destruct q as [m0|].
    - injection E1 as <- <-. split; [done|]. split; [done|]. by apply present_key.
    - apply (new_message_descriptors l p name p1 m Hd); [|done]. apply absent_key; [apply (d_msgs_null _ _ Hd) | done]. }
  clear E1 Eq. destruct (d_fields _ _ Hd1 name m Hm) as [Hwf Hfields].
  destruct (_pbcM_sp_insert (m_name m) (f_name f) (Some f)) as [fields|] eqn:Ei; cbn [obind] in H; [|discriminate H].
  destruct (put_message p1 name _) as [p2|] eqn:Ep; cbn [obind] in H; [|discriminate H].
  assert (∃ l', holds queue' l' ∧ p' = p2 ∧ (∀ x, x ∈ l → x ∈ l') ∧ (resolved p1 f ∨ (name, f_name f) ∈ l')) as (l' & Hq' & -> & Hl & Hnew).
  { destruct ((f_type f =? PTYPE_MESSAGE) || (f_type f =? PTYPE_ENUM)) eqn:Et.
    - destruct (push_holds queue l (name, f_name f) Hq) as (q2 & Hpush & Hq2). rewrite Hpush in H. cbn [obind] in H. injection H as <- <-.
      exists (l ++ [(name, f_name f)]). split_and!; [done | done | intros x Hx; apply elem_of_app; by left | right; apply elem_of_app; right; by apply list_elem_of_singleton].
    - injection H as <- <-. exists l. split_and!; try done. left. bprop. split; intros E; rewrite E in *; done. }
  destruct (put_descriptors l l' p1 name _ p2 Hd1 Ep) as [Hd2 Hext2].
  - cbn [m_name]. by destruct (insert_elem _ _ _ _ f Hwf Ei).
  - intros g [Hg|(t & Ht & Hg)]; cbn [m_name m_id] in *.
    + apply (insert_elem _ _ _ _ g Hwf Ei) in Hg as [->|Hg]; [tauto|]. destruct (Hfields g (or_introl Hg)) as [?|[? ?]]; [by left | right; auto].
    + destruct (Hfields g (or_intror (ex_intro _ t (conj Ht Hg)))) as [?|[? ?]]; [by left | right; auto].
  - auto.
  - exists l'. split; [done|]. split; [done|]. by transitivity p1.
Qed.

Lemma init_message_descriptors l p name p' m : descriptors l p → _pbcP_init_message p name = Done (p', m) → descriptors l p' ∧ extends p p'.
Proof.
  intros Hd H. unfold _pbcP_init_message in H. destruct (_pbcM_sp_query (Some (msgs p)) name) as [q|] eqn:Eq; cbn [obind] in H; [|discriminate H].
  apply (query_done _ _ _ (d_msgs _ _ Hd)) in Eq. destruct q as [m0|].
  - apply present_key in Eq. destruct (d_fields _ _ Hd name m0 Eq) as [Hwf Hfields]. unbind H. injection H as <- <-.
    eapply put_descriptors; [done | done | done | | done]. intros f [Hf|(t & Ht & Hf)]; cbn [m_name m_id] in *; [by apply Hfields; left|].
    injection Ht as <-. destruct (ip_new_elem _ _ _ E Hf) as [i Hi]. apply Hfields. left.
    unfold field_table in Hi. apply list_elem_of_fmap in Hi as (f0 & Hf0 & Hin). congruence.
  - destruct (new_message_descriptors l p name p' m Hd) as (Hd' & Hext & _); [|done|done]. apply absent_key; [apply (d_msgs_null _ _ Hd) | done].
Qed.

Lemma push_enum_descriptors l p name table p' e : descriptors l p → _pbcP_push_enum p name table = Done (p', e) → descriptors l p' ∧ extends p p'.
Proof.
  intros Hd H. unfold _pbcP_push_enum in H. destruct (_pbcM_sp_query (Some (enums p)) name) as [q|] eqn:Eq; cbn [obind] in H; [|discriminate H].
  apply (query_done _ _ _ (d_enums _ _ Hd)) in Eq. destruct q as [e0|]; [by injection H as <- _|].
  symmetry in Eq. apply (absent_key _ _ (d_enums_null _ _ Hd)) in Eq. unbind H. injection H as <- _. destruct Hd as [Hm He Hnm Hne Hf].
  match goal with E : _pbcM_sp_insert (enums p) name (Some ?v) = Done ?m |- _ =>
    destruct (sp_step_ok (enums p) (OpInsert name (Some v)) He Eq) as (es' & Hes & Hok & Hab); cbn [sp_step] in Hes; rewrite E in Hes; injection Hes as <-; rename m into es end.
  cbn [op_key op_value] in Hab.
  assert (∀ k, known_enum p k → is_Some (mjoin (sp_abs es !! k))) as Hk.
  { intros k Hk. rewrite Hab. destruct (decide (k = name)) as [->|Hkn]; [rewrite lookup_insert_eq; by eexists | by rewrite lookup_insert_ne]. }
  assert (extends p (Env (files p) es (msgs p) (lasterror p))) as Hext by (split; [done | exact Hk]). split; [|done]. split; cbn [msgs enums]; try done.
  - intros k. rewrite Hab. destruct (decide (k = name)) as [->|Hkn]; [by rewrite lookup_insert_eq | rewrite lookup_insert_ne by done; apply Hne].
  - intros n m Hn. destruct (Hf n m Hn) as [Hwf Hf0]. split; [done|]. intros f Hin. destruct (Hf0 f Hin) as [?|?]; [left; by eapply resolved_extends | by right].
Qed.

(** *** Resolving *)

Lemma set_field_resolved l p f f' : descriptors l p → set_field_one p f = Done f' → resolved p f' ∧ f_name f' = f_name f.
Proof.
  intros Hd H. unfold set_field_one in H. destruct (f_type_name f) as [[n|]|o|o] eqn:Et.
  2-4: destruct ((_ =? _) || _) eqn:Eo; [discriminate H|]; injection H as <-; bprop; (split; [|done]); split; intros E; rewrite E in *; done.
  destruct (Z.eqb_spec (f_type f) PTYPE_MESSAGE) as [Em|Em].
  - unbind H. injection H as <-. split; [|done]. split; cbn [f_type set_type f_type_name]; [|by rewrite Em]. intros _.
    eexists. split; [done|]. intros k Hk. apply (query_done _ _ _ (d_msgs _ _ Hd)) in E. unfold known_message.
    destruct a as [m|]; [|discriminate Hk]. injection Hk as <-. rewrite <- E. by eexists.
  - destruct (Z.eqb_spec (f_type f) PTYPE_ENUM) as [Ee|Ee].
    + destruct (_pbcM_sp_query _ n) as [[e|]|] eqn:Eq; cbn [obind] in H; [|discriminate H..]. unbind H. injection H as <-. split; [|done].
      split; cbn [f_type set_type f_type_name]; [by rewrite Ee|]. intros _. exists n. split; [done|].
      apply (query_done _ _ _ (d_enums _ _ Hd)) in Eq. unfold known_enum. rewrite <- Eq. by eexists.
    + injection H as <-. split; [|done]. by split.
Qed.

Lemma resolve_descriptors ptr l p p' : descriptors (ptr :: l) p → resolve_field p ptr = Done p' → descriptors l p' ∧ extends p p'.
Proof.
  intros Hd H. unfold resolve_field in H. destruct (_pbcP_get_message p ptr.1) as [[m|]|] eqn:Em; cbn [obind] in H; [|discriminate H..].
  unfold _pbcP_get_message in Em. apply (query_done _ _ _ (d_msgs _ _ Hd)) in Em. apply present_key in Em. destruct (d_fields _ _ Hd _ m Em) as [Hwf Hfields].
  set (g := λ f, if bool_decide (f_name f = ptr.2) && unresolved f then set_field_one p f else Done f) in H.
  assert (∀ f f', has_field m f → g f = Done f' → resolved p f' ∨ unresolved f' = true ∧ (ptr.1, f_name f') ∈ l) as Hg.
  { intros f f' Hf Hgf. unfold g in Hgf. destruct (bool_decide _ && _) eqn:Eb; bprop.
    - left. by destruct (set_field_resolved _ _ _ _ Hd Hgf).
    - injection Hgf as <-. destruct (Hfields f Hf) as [?|[Hu Hin]]; [by left|]. right. split; [done|]. apply elem_of_cons in Hin as [Hin|Hin]; [|done]. exfalso.
      rewrite Hu in Eb. destruct Eb as [Eb|Eb]; [|done]. apply bool_decide_eq_false in Eb. apply Eb. by rewrite <- Hin. }
  destruct (traverse_option (ip_traverse g) (m_id m)) as [id|] eqn:Eid; cbn [obind] in H; [|discriminate H].
  destruct (sp_traverse g (m_name m)) as [name|] eqn:Ename; cbn [obind] in H; [|discriminate H].
  destruct (sp_traverse_elem g _ _ Hwf Ename) as [Hwf' Hin'].
  apply (put_descriptors (ptr :: l) l p ptr.1 (Message (m_key m) id name) p' Hd H); cbn [m_name]; [done| |].
  - intros f' [Hf|(t' & Ht' & Hf)]; cbn [m_name m_id] in *.
    + destruct (Hin' f' Hf) as (f & Hin & Hgf). apply (Hg f); [by left | done].
    + subst id. apply traverse_option_rel in Eid as (t & Ht & Htr). destruct (ip_traverse_elem g t t' f' Htr Hf) as (f & Hin & Hgf).
      apply (Hg f); [right; by exists t | done].
  - intros n x Hn Hin. apply elem_of_cons in Hin as [Hin|Hin]; [|done]. by rewrite <- Hin in Hn.
Qed.

(** The queue is worked off. *)
Lemma register_fields_descriptors l queue p p' : descriptors l p → holds queue l → _pbcB_register_fields p queue = Done p' →
  descriptors [] p' ∧ extends p p'.
Proof.
  intros Hd Hq H. unfold _pbcB_register_fields in H. assert (pbc_array_size queue = zlen l) as Esz by apply Hq. rewrite Esz in H. unfold zlen in H. rewrite Nat2Z.id in H.
  assert (∀ l2 l1 p1, l = l1 ++ l2 → descriptors l2 p1 →
    for_loop (length l2) (Z.of_nat (length l1)) (λ i p, do! ptr <- _pbcA_index queue i; resolve_field p ptr) p1 = Done p' → descriptors [] p' ∧ extends p1 p') as Hloop.
  2: { exact (Hloop l [] p eq_refl Hd H). }
  clear -Hq. induction l2 as [|ptr l2 IH]; intros l1 p1 -> Hd H; cbn [length for_loop] in H; [injection H as <-; by split|].
  rewrite (index_holds queue _ _ Hq) in H by lia. rewrite Nat2Z.id, list_lookup_middle in H by done. cbn [obind] in H.
  destruct (resolve_field p1 ptr) as [p2|] eqn:Er; cbn [obind] in H; [|discriminate H]. destruct (resolve_descriptors _ _ _ _ Hd Er) as [Hd2 Hext].
  destruct (IH (l1 ++ [ptr]) p2) as [Hd' Hext']; [by rewrite <- app_assoc | done | |split; [done | by transitivity p2]].
  rewrite length_app. cbn [length]. replace (Z.of_nat (length l1 + 1)) with (Z.of_nat (length l1) + 1) by lia. done.
Qed.

(** ** Registration *)

Section Types.
Context (strtod : list Z → Z) (junk : nat → Z).

(** What is kept while a file is registered into [p0]. *)
Definition ready (p0 : pbc_env) (st : reg) : Prop := ∃ l, descriptors l (g_env st) ∧ holds (g_queue st) l ∧ extends p0 (g_env st).

Lemma ready_env p0 p pool queue p' pool' : ready p0 (Reg p pool queue) → (∀ l, descriptors l p → descriptors l p' ∧ extends p p') → ready p0 (Reg p' pool' queue).
Proof. intros (l & Hd & Hq & He) H. destruct (H l Hd) as [Hd' He']. exists l. cbn in *. split; [done|]. split; [done|]. by transitivity p. Qed.

Lemma ready_push p0 p pool queue name f p' queue' pool' : ready p0 (Reg p pool queue) → unresolved f = true →
  _pbcP_push_message p name f queue = Done (p', queue') → ready p0 (Reg p' pool' queue').
Proof.
  intros (l & Hd & Hq & He) Hf H. destruct (push_message_descriptors l p name f queue p' queue' Hd Hq Hf H) as (l' & Hd' & Hq' & He').
  exists l'. cbn in *. split; [done|]. split; [done|]. by transitivity p.
Qed.

Lemma register_field_unresolved p field name pool f pool' : _register_field strtod junk p field name pool = Done (f, pool') → unresolved f = true.
Proof. unfold _register_field. intros H. unbind H. by injection H as <- _. Qed.

Lemma enum_one_ready p0 key m pre sz j x y : register_enum_one junk key m pre sz j x = Done y → ready p0 x → ready p0 y.
Proof.
  destruct x as [p pool q]. unfold register_enum_one, _register_enum. intros H Hr. unbind H. injection H as <-.
  match goal with E : obind _ _ = Done _ |- _ => unbind E; injection E as <- _ end.
  eapply ready_env; [exact Hr|]. intros ? ?. by eapply push_enum_descriptors.
Qed.

Lemma field_one_ready p0 temp m j x y : register_field_one strtod junk temp m j x = Done y → ready p0 x → ready p0 y.
Proof.
  destruct x as [p pool q]. unfold register_field_one. intros H Hr. unbind H. injection H as <-.
  eapply ready_push; [exact Hr | by eapply register_field_unresolved | done].
Qed.

Lemma extension_one_ready p0 pre sz m j x y :
  register_extension_one strtod junk pre sz m j x = Done y → ready p0 x.1 → ready p0 y.1.
Proof.
  destruct x as [[p pool q] last]. unfold register_extension_one. intros H Hr. cbn [fst] in Hr. unbind H.
  match goal with E : match ?l with [] => _ | _ :: _ => _ end = Done (?p1, ?q1), F : _register_field _ _ _ _ _ _ = Done (?f, ?pool1) |- _ =>
    assert (ready p0 (Reg p1 pool1 q1)) as Hr1
      by (destruct l; [discriminate E|]; eapply ready_push; [exact Hr | by eapply register_field_unresolved | done]) end.
  destruct last as [last|]; [destruct (bool_decide _)|].
  - by injection H as <-.
  - unbind H. injection H as <-. cbn [fst]. eapply ready_env; [exact Hr1|]. intros ? ?. by eapply init_message_descriptors.
  - by injection H as <-.
Qed.

Lemma extension_ready p0 st pre sz m st' : _register_extension strtod junk st pre sz m = Done st' → ready p0 st → ready p0 st'.
Proof.
  unfold _register_extension. intros H Hr. unbind H. destruct (_ <=? 0); [by injection H as <-|].
  destruct (for_loop _ _ _ _) as [[[p pool q] [last|]]|] eqn:El; cbn [obind] in H; [|discriminate H..].
  unbind H. injection H as <-. cbn [g_env g_pool g_queue] in *.
  eapply (for_loop_inv (λ x, ready p0 x.1)) in El; [|intros; by eapply extension_one_ready|done].
  eapply ready_env; [exact El|]. intros ? ?. by eapply init_message_descriptors.
Qed.

Lemma register_message_ready p0 fuel : ∀ st m pre sz st', _register_message strtod junk fuel st m pre sz = Done st' → ready p0 st → ready p0 st'.
Proof.
  induction fuel as [|fuel IH]; intros st m pre sz st' H Hr; [discriminate H|]. cbn [_register_message] in H. unbind H.
  eapply (for_loop_inv (ready p0)) in H; [done| |].
  { intros j x y Hxy Hx. unbind Hxy. by eapply IH. }
  eapply (for_loop_inv (ready p0)) in E7; [exact E7 | intros; by eapply enum_one_ready |]. eapply extension_ready; [exact E5|].
  eapply (for_loop_inv (ready p0)) in E3; [|intros; by eapply field_one_ready|].
  - destruct a1 as [p1 pool1 q1]. cbn [g_env g_pool g_queue] in *. eapply ready_env; [exact E3|]. intros ? ?. by eapply init_message_descriptors.
  - destruct Hr as (q & Hd & Hq & He). by exists q.
Qed.

Lemma register_types fuel p file pool p' pool' : _register strtod junk fuel p file pool = Done (p', pool') → descriptors [] p → descriptors [] p' ∧ extends p p'.
Proof.
  unfold _register. intros H Hd. unbind H. injection H as <- _.
  assert (ready p (Reg p pool _pbcA_open)) as Hr by (exists []; split; [done|]; split; [apply open_holds | done]).
  eapply (for_loop_inv (ready p)) in E1; [|intros; by eapply enum_one_ready|exact Hr].
  eapply (for_loop_inv (ready p)) in E3; [| |exact E1].
  2: { intros j x y Hxy Hx. unbind Hxy. by eapply register_message_ready. }
  eapply extension_ready in E4 as (l0 & Hd0 & Hq0 & He0); [|exact E3].
  match goal with E : _pbcB_register_fields _ _ = Done _ |- _ => destruct (register_fields_descriptors _ _ _ _ Hd0 Hq0 E) as [Hd1 He1] end.
  split; [done|]. by etransitivity.
Qed.

(** The tables of files and the error are not involved. *)
Lemma descriptors_same l p fs e : descriptors l p → descriptors l (Env fs (enums p) (msgs p) e) ∧ extends p (Env fs (enums p) (msgs p) e).
Proof. intros [Hm He Hnm Hne Hf]. by split. Qed.

Lemma register_file_types p file name fuel p' : register_file strtod junk p file name fuel = Done p' → descriptors [] p → descriptors [] p' ∧ extends p p'.
Proof.
  unfold register_file, put_file. intros H Hd. unbind H. injection H as <-.
  match goal with E : _register _ _ _ (Env ?fs _ _ _) _ _ = Done _ |- _ =>
    destruct (descriptors_same [] p fs (lasterror p) Hd) as [Hd1 He1]; destruct (register_types _ _ _ _ _ _ E Hd1) as [Hd2 He2] end.
  match goal with |- descriptors [] (Env ?fs (enums ?q) _ ?e) ∧ _ => destruct (descriptors_same [] q fs e Hd2) as [Hd3 He3] end.
  split; [done|]. etransitivity; [exact He1|]. by etransitivity.
Qed.

Lemma pass_types fuel fs : ∀ p p' rest r, _register_no_dependency strtod junk fuel p fs = Done (p', rest, r) → descriptors [] p → descriptors [] p' ∧ extends p p'.
Proof.
  induction fs as [|[file|] fs IH]; intros p p' rest r H Hd; cbn [_register_no_dependency] in H.
  - by injection H as <- _ _.
  - unbind H. destruct a as [fname| |]; unbind H; injection H as <- _ _; [|by eapply IH..].
    match goal with E : register_file _ _ _ _ _ _ = Done _ |- _ => destruct (register_file_types _ _ _ _ _ E Hd) as [Hd1 He1] end.
    match goal with E : _register_no_dependency _ _ _ _ _ = Done _ |- _ => destruct (IH _ _ _ _ E Hd1) as [Hd2 He2] end.
    split; [done|]. by etransitivity.
  - unbind H. injection H as <- _ _. by eapply IH.
Qed.

Lemma passes_types rounds fuel : ∀ p fs r p' r', register_passes strtod junk rounds fuel p fs r = Done (p', r') → descriptors [] p → descriptors [] p' ∧ extends p p'.
Proof.
  induction rounds as [|rounds IH]; intros p fs r p' r' H Hd; cbn [register_passes] in H; [discriminate H|].
  destruct (_register_no_dependency _ _ _ _ _) as [[[p1 fs1] rr]|] eqn:Ep; cbn [obind] in H; [|discriminate H]. destruct (pass_types _ _ _ _ _ _ Ep Hd) as [Hd1 He1].
  destruct (rr =? r); [injection H as <- _|destruct (0 <? rr); [|injection H as <- _]].
  - destruct (descriptors_same [] p1 (files p1) "register dependency error" Hd1) as [Hd2 He2]. split; [done | by etransitivity].
  - destruct (IH _ _ _ _ _ H Hd1) as [Hd2 He2]. split; [done | by etransitivity].
  - done.
Qed.

Lemma pbc_register_types f2d stk p slice p' r : pbc_register strtod junk f2d stk p slice = Done (p', r) → descriptors [] p → descriptors [] p' ∧ extends p p'.
Proof.
  unfold pbc_register. intros H Hd. destruct (pbc_rmessage_new _ _ _ _ _) as [[message err]|]; cbn [obind] in H; [|discriminate H].
  set (p1 := match err with Some e => set_error p e | None => p end) in *.
  assert (descriptors [] p1 ∧ extends p p1) as [Hd1 He1] by (unfold p1; destruct err; [by apply descriptors_same | by split]).
  assert (∀ e, descriptors [] (set_error p1 e) ∧ extends p (set_error p1 e)) as Herr.
  { intros e. destruct (descriptors_same [] p1 (files p1) e Hd1) as [Hd2 He2]. split; [done | by etransitivity]. }
  destruct message as [message|]; [|by injection H as <- _]. unbind H. destruct (_ =? 0); [by injection H as <- _|]. unbind H.
  destruct a0 as [fs|]; [|by injection H as <- _]. destruct (passes_types _ _ _ _ _ _ _ H Hd1) as [Hd2 He2]. split; [done | by etransitivity].
Qed.

(** ** The bootstrap *)

Lemma empty_types p : pbc_new_empty = Done p → descriptors [] p.
Proof.
  unfold pbc_new_empty. intros H. destruct (sp_new_ok (V := stringpool) 0 false) as (mf & Ef & _); [done|].
  destruct (sp_new_ok (V := _enum) 0 false) as (me & Ee & Hwe & Hae & _); [done|]. destruct (sp_new_ok (V := _message) 0 false) as (mm & Em & Hwm & Ham & _); [done|].
  rewrite Ef in H. cbn [obind] in H. rewrite Ee in H. cbn [obind] in H. rewrite Em in H. cbn [obind] in H. injection H as <-.
  assert (sp_abs mm = ∅ ∧ sp_abs me = ∅) as [Hm He] by (unfold sp_abs; by rewrite Ham, Hae).
  split; cbn [msgs enums]; [split; [done | rewrite Ham; constructor] | split; [done | rewrite Hae; constructor] | ..]; intros k; rewrite ?Hm, ?He; [done..|].
  intros m Hk. discriminate Hk.
Qed.

Lemma set_enums_types l p file p' : set_enums p file = Done p' → descriptors l p → descriptors l p'.
Proof.
  unfold set_enums. intros H Hd. unbind H. injection H as <-.
  eapply (for_loop_inv (λ x, descriptors l x.1)) in E; [exact E| |done]. intros j [x s] [y s'] Hxy Hx. cbn [fst] in *. unbind Hxy. injection Hxy as <- _.
  unfold set_enum_one in *. match goal with F : obind (for_loop _ _ _ _) _ = Done _ |- _ => unbind F; injection F as <- end.
  by eapply push_enum_descriptors.
Qed.

Section Boot.
Context (d2f f2d : Z → Z) (stk : Z → list Z) (hi_junk : Z).

Definition queued (x : pbc_env * array field_ptr) : Prop := ∃ l, descriptors l x.1 ∧ holds x.2 l.

Lemma set_msg_field_types p file name i q y : set_msg_field d2f f2d stk hi_junk p file name i q = Done y → queued (p, q) → queued y.
Proof.
  destruct y as [p' q']. unfold set_msg_field. intros H Hq. destruct (_pbcA_index _ _) as [v|]; cbn [obind] in H; [|discriminate H].
  destruct v as [| | | |[buf|] len]; [discriminate H..| |discriminate H]. unbind H. destruct (negb _); [by injection H as <- <-|].
  unbind H. destruct Hq as (l0 & Hd & Hq). eapply push_message_descriptors in H as (l' & Hd' & Hq' & _); [by exists l' | exact Hd | exact Hq | done].
Qed.

Lemma set_msgs_types p file q y : set_msgs d2f f2d stk hi_junk p file q = Done y → queued (p, q) → queued y.
Proof.
  destruct y as [p' q']. unfold set_msgs. intros H Hq. unbind H. injection H as <- <-.
  eapply (for_loop_inv (λ x, queued x.1)) in E; [exact E| |done]. intros j [[x xa] xb] [[u ua] ub] Hxy Hx. cbn [fst] in *. unbind Hxy. injection Hxy as <- <- _.
  unfold set_msg_one in *. match goal with F : obind (for_loop _ _ _ _) _ = Done _ |- _ => unbind F; injection F as <- <- end.
  match goal with F : for_loop _ _ _ _ = Done ?z |- _ => eapply (for_loop_inv queued) in F as (l & Hd & Hl); [| |exact Hx] end.
  - exists l. split; [|done]. by eapply init_message_descriptors.
  - intros ? [w wq] ? Hwz Hw. by eapply set_msg_field_types.
Qed.

Lemma bootstrap_types bytes p : pbc_new d2f f2d stk hi_junk bytes = Done p → descriptors [] p.
Proof.
  unfold pbc_new, _pbcB_init, register_internal. intros H. unbind H. injection H as <-. apply empty_types in E.
  match goal with F : obind (pbc_pattern_unpack _ _ _ _ _ _) _ = Done _ |- _ => rename F into Hint; unbind Hint end.
  match type of Hint with (if _ then Done (?p, _) else _) = _ => set (p1 := p) in *; assert (descriptors [] p1) as Hd1
    by (unfold p1; destruct o; [by apply descriptors_same | done]) end.
  destruct (negb _); [by injection Hint as <- _|]. unbind Hint. injection Hint as <- _.
  match goal with F : set_enums (Env ?fs _ _ ?e) _ = Done _ |- _ => destruct (descriptors_same [] p1 fs e Hd1) as [Hd2 _]; eapply set_enums_types in F; [|exact Hd2] end.
  match goal with F : set_msgs _ _ _ _ ?q _ _ = Done _, G : descriptors [] ?q |- _ =>
    eapply set_msgs_types in F as (l3 & Hd3 & Hq3); [|exists []; split; [exact G | apply open_holds]] end.
  match goal with F : _pbcB_register_fields _ _ = Done _ |- _ => by destruct (register_fields_descriptors _ _ _ _ Hd3 Hq3 F) end.
Qed.
End Boot.
End Types.

(** ** Properties *)

(** The environments a program can make: a new one, and what any descriptor sets
    registered into it leave, whether they were accepted or not.  The bytes, the
    uninitialised memory and the conversions are arbitrary in each call. *)
Inductive descriptor_env : pbc_env → Prop :=
  | env_new d2f f2d stk hi_junk bytes p : pbc_new d2f f2d stk hi_junk bytes = Done p → descriptor_env p
  | env_register strtod junk f2d stk p slice p' r : descriptor_env p → pbc_register strtod junk f2d stk p slice = Done (p', r) → descriptor_env p'.

Lemma env_descriptors p : descriptor_env p → descriptors [] p.
Proof. induction 1 as [|strtod junk f2d stk p slice p' r _ IH H]; [by eapply bootstrap_types | by eapply pbc_register_types]. Qed.

(** C20: no type name is left in a field.  In every environment that [pbc_new] and
    any calls of [pbc_register] make, a field of a message, found by name or by
    number, has in the union [type_name] the pointer that goes with its type and
    never the name it was registered with: a field of message type points to a
    message of the environment, or nowhere when no message of that name was
    registered; a field of enum type always points to an enum of the environment.
    So following the pointer never reads the wrong member of the union. *)
Theorem types_resolved p name m f :
  descriptor_env p → _pbcP_get_message p name = Done (Some m) →
  (∃ key, _pbcM_sp_query (Some (m_name m)) key = Done (Some f)) ∨ (∃ id, _pbcM_ip_query (m_id m) id = Done (Some f)) →
  (f_type f = PTYPE_MESSAGE → f_type_name f = TMessage None ∨ ∃ t, field_message p f = Done (Some t))
  ∧ (f_type f = PTYPE_ENUM → ∃ e, field_enum p f = Done (Some e)).
Proof.
  intros Hp Hm Hf. apply env_descriptors in Hp as Hd. unfold _pbcP_get_message in Hm. apply (query_done _ _ _ (d_msgs _ _ Hd)), present_key in Hm.
  assert (resolved p f) as [Hmsg Henum].
  { destruct (d_fields _ _ Hd name m Hm) as [_ Hfields]. destruct (Hfields f) as [?|[_ Hin]]; [|done|by apply elem_of_nil in Hin].
    destruct Hf as [[k Hk]|[i Hi]]; [left; by apply query_elem in Hk as [Hk _]|]. right. destruct (m_id m) as [t|]; [|discriminate Hi].
    exists t. split; [done|]. by eapply ip_query_elem. }
  assert (∀ {V} (g : map_sp V) k, sp_ok g → is_Some (mjoin (sp_abs g !! k)) → ∃ v, _pbcM_sp_query (Some g) k = Done (Some v)) as Hq.
  { intros V g k Hok [v Hv]. exists v. apply index_query; [done|]. by apply present_key. }
  split; intros Ht.
  - destruct (Hmsg Ht) as ([k|] & Eo & Hk); [right | by left]. unfold field_message, _pbcP_get_message. rewrite Eo. apply Hq; [apply (d_msgs _ _ Hd) | by apply Hk].
  - destruct (Henum Ht) as (k & Eo & Hk). unfold field_enum. rewrite Eo. apply Hq; [apply (d_enums _ _ Hd) | done].
Qed.

(** The environment of descriptor.proto, with the two files of [demo_set]
    registered. *)
Definition boot_env : pbc_env := Eval vm_compute in
  match pbc_new id id demo_stk 0 pbc_descriptor with
  | Done p => p
  | Fault _ => Env (MapSp 0 0 false []) (MapSp 0 0 false []) (MapSp 0 0 false []) ""
  end.

Definition boot_registered : pbc_env * Z := Eval vm_compute in
  match pbc_register (λ _, 0) (λ _, 0) id demo_stk boot_env demo_set with
  | Done r => r
  | Fault _ => (boot_env, -1)
  end.

Definition boot_message : _message := Eval vm_compute in
  match _pbcP_get_message boot_registered.1 (lit "google.protobuf.FieldDescriptorProto") with
  | Done (Some m) => m
  | _ => Message [] None (MapSp 0 0 false [])
  end.

Definition boot_field : _field := Eval vm_compute in
  match _pbcM_sp_query (Some (m_name boot_message)) (lit "type") with
  | Done (Some f) => f
  | _ => Field 0 [] 0 0 (VInteger 0 0) (TName None)
  end.

Lemma types_resolved_witness :
  boot_registered.2 = 0 ∧ f_type boot_field = PTYPE_ENUM
  ∧ ((f_type boot_field = PTYPE_MESSAGE → f_type_name boot_field = TMessage None ∨ ∃ t, field_message boot_registered.1 boot_field = Done (Some t))
     ∧ (f_type boot_field = PTYPE_ENUM → ∃ e, field_enum boot_registered.1 boot_field = Done (Some e))).
Proof.
  split; [reflexivity|]. split; [reflexivity|].
  apply (types_resolved boot_registered.1 (lit "google.protobuf.FieldDescriptorProto") boot_message boot_field).
  - apply (env_register (λ _, 0) (λ _, 0) id demo_stk boot_env demo_set boot_registered.1 boot_registered.2).
    + apply (env_new id id demo_stk 0 pbc_descriptor). vm_compute. reflexivity.
    + vm_compute. reflexivity.
  - vm_compute. reflexivity.
  - right. exists 5. vm_compute. reflexivity.
Defined.
