(* ===== verification/Defaults.v ===== *)
(** * Default values of fields ([_set_default] of [3rd/pbc/src/register.c])

    A descriptor gives the default of a field as text.  Numbers come in decimal;
    [decimal] is the text a number has, and the theorems say which number the
    field gets. *)

From S2P Require Import Prelude PArray StringPool Context Proto Wmessage Register.

(** ** Decimal text *)

Lemma digit_range d : 0 <= d < 10 → is_digit (48 + d) = true ∧ is_space (48 + d) = false ∧ 48 + d ≠ 45 ∧ 48 + d ≠ 43 ∧ 48 + d ≠ 0.
Proof. intros H. unfold is_digit, is_space. assert (d = 0 ∨ d = 1 ∨ d = 2 ∨ d = 3 ∨ d = 4 ∨ d = 5 ∨ d = 6 ∨ d = 7 ∨ d = 8 ∨ d = 9) by lia.
  destruct_or!; subst; done. Qed.

(** Every character is a digit. *)
Definition all_digits (l : list Z) : Prop := Forall (λ c, ∃ d, c = 48 + d ∧ 0 <= d < 10) l.

Lemma dec_digits_all fuel n : 0 <= n → all_digits (dec_digits fuel n).
Proof.
  revert n. induction fuel as [|fuel IH]; intros n Hn; cbn [dec_digits]; [constructor|].
  destruct (Z.ltb_spec n 10).
  - constructor; [by exists n|constructor].
  - apply Forall_app. split; [apply IH; zmod|]. constructor; [|constructor]. exists (n mod 10). split; [done|zmod].
Qed.

Lemma digits_app l d acc : all_digits l → 0 <= d < 10 → digits (l ++ [48 + d]) acc = 10 * digits l acc + d.
Proof.
  intros Hl Hd. revert acc. induction Hl as [|c l (e & -> & He) _ IH]; intros acc; cbn [app digits].
  - rewrite (proj1 (digit_range d Hd)). lia.
  - rewrite (proj1 (digit_range e He)). apply IH.
Qed.

Lemma digits_dec fuel n : 0 <= n < 10 ^ Z.of_nat fuel → digits (dec_digits fuel n) 0 = n.
Proof.
  revert n. induction fuel as [|fuel IH]; intros n Hn; cbn [dec_digits]; [simpl in Hn; cbn; lia|].
  destruct (Z.ltb_spec n 10).
  - cbn [digits]. rewrite (proj1 (digit_range n ltac:(lia))). lia.
  - rewrite digits_app; [|apply dec_digits_all; zmod|zmod].
    rewrite IH; [zmod|]. rewrite Nat2Z.inj_succ, Z.pow_succ_r in Hn by lia. split; [zmod|]. apply Z.div_lt_upper_bound; lia.
Qed.

Lemma dec_digits_first fuel n : 0 <= n → ∃ d l, dec_digits (S fuel) n = (48 + d) :: l ∧ 0 <= d < 10.
Proof.
  intros Hn. pose proof (dec_digits_all (S fuel) n Hn) as Hall. destruct (dec_digits (S fuel) n) as [|c l] eqn:E.
  - cbn [dec_digits] in E. destruct (n <? 10); [discriminate E|]. by apply app_eq_nil in E as [_ E].
  - apply Forall_cons in Hall as [(d & -> & Hd) _]. eauto.
Qed.

Lemma scan_decimal v : Z.abs v < 10 ^ 20 → scan_number (decimal v) = (v <? 0, Z.abs v).
Proof.
  intros Hv. unfold decimal, scan_number. destruct (Z.ltb_spec v 0).
  - cbn [skip_spaces]. change (is_space 45) with false. cbv iota. change (45 =? 45) with true. cbv iota.
    rewrite (digits_dec 20) by (change (Z.of_nat 20) with 20; lia). f_equal. lia.
  - destruct (dec_digits_first 19 v ltac:(lia)) as (d & l & E & Hd). rewrite E.
    destruct (digit_range d Hd) as (_ & Hsp & H45 & H43 & _). cbn [skip_spaces]. rewrite Hsp.
    rewrite (proj2 (Z.eqb_neq _ 45) H45), (proj2 (Z.eqb_neq _ 43) H43), <- E.
    rewrite (digits_dec 20) by (change (Z.of_nat 20) with 20; lia). f_equal. lia.
Qed.

Lemma decimal_no_zero v : 0 ∉ decimal v.
Proof.
  assert (∀ n, 0 <= n → 0 ∉ dec_digits 20 n) as H.
  { intros n Hn Hin. pose proof (dec_digits_all 20 n Hn) as Hall. unfold all_digits in Hall. rewrite Forall_forall in Hall.
    destruct (Hall 0 Hin) as (d & ? & ?). lia. }
  unfold decimal. destruct (Z.ltb_spec v 0); [|by apply H].
  intros Hin. apply elem_of_cons in Hin as [?|Hin]; [lia|]. apply (H (- v)); [lia|done].
Qed.

Lemma decimal_size v : zlen (decimal v) ≠ 0.
Proof.
  unfold decimal. destruct (Z.ltb_spec v 0).
  - rewrite zlen_cons. pose proof (zlen_nonneg (dec_digits 20 (- v))). lia.
  - destruct (dec_digits_first 19 v ltac:(lia)) as (d & l & -> & _). rewrite zlen_cons. pose proof (zlen_nonneg l). lia.
Qed.

Lemma strtoll_decimal v : is_s64 v → strtoll (decimal v) = v.
Proof. intros Hv. unfold strtoll. rewrite scan_decimal by width. destruct (Z.ltb_spec v 0); width. Qed.

Lemma strtoul_decimal v : 0 <= v < 2 ^ 64 → strtoul (decimal v) = v.
Proof.
  intros Hv. unfold strtoul. rewrite scan_decimal by lia. rewrite (proj2 (Z.ltb_ge v 0)) by lia.
  rewrite Z.abs_eq by lia. by rewrite (proj2 (Z.leb_gt _ _)) by lia.
Qed.

(** ** Properties *)

(** The numbers whose default the code keeps.  An unsigned 64-bit default stops
    at 2^63, a [fixed32] one at 2^31; [fixed64] is missing. *)
Definition default_range (type v : Z) : Prop :=
  type ∈ [PTYPE_INT32; PTYPE_SINT32; PTYPE_SFIXED32] ∧ is_s32 v
  ∨ type = PTYPE_UINT32 ∧ is_u32 v
  ∨ type = PTYPE_FIXED32 ∧ 0 <= v < 2 ^ 31
  ∨ type ∈ [PTYPE_INT64; PTYPE_SINT64; PTYPE_SFIXED64] ∧ is_s64 v
  ∨ type = PTYPE_UINT64 ∧ 0 <= v < 2 ^ 63.

Lemma words_of v : is_s64 v → u32 v + 2 ^ 32 * u32 (Z.shiftr v 32) = u64 v.
Proof. intros Hv. rewrite Z.shiftr_div_pow2 by lia. width. Qed.

Lemma words_of_32 v : is_s32 v → u32 v + 2 ^ 32 * (if v <? 0 then u32 (-1) else 0) = u64 v.
Proof. intros Hv. destruct (Z.ltb_spec v 0); width. Qed.

(** The decimal text of a number is the default a field gets: for every
    integer type and number of [default_range] the two words [_set_default]
    stores are those of the number, sign-extended to 64 bits. *)
Theorem default_integer_words strtod junk pool type v k :
  default_range type v →
  ∃ l h, _set_default strtod junk pool type (Some (decimal v ++ 0 :: k)) (zlen (decimal v)) = Done (VInteger l h, pool)
    ∧ l + 2 ^ 32 * h = u64 v.
Proof.
  intros Hr. unfold _set_default. rewrite (proj2 (Z.eqb_neq _ _) (decimal_size v)), cstr_app by apply decimal_no_zero. cbn [obind].
  destruct Hr as [[Ht Hv]|[[-> Hv]|[[-> Hv]|[[Ht Hv]|[-> Hv]]]]].
  - assert (strtol (decimal v) = v) as E by (apply strtoll_decimal; width).
    exists (u32 v), (if v <? 0 then u32 (-1) else 0). split; [|by apply words_of_32].
    repeat (apply elem_of_cons in Ht as [->|Ht]; [cbn; rewrite E, s32_id by done; done|]). by apply elem_of_nil in Ht.
  - cbn. rewrite strtoul_decimal by width. eexists _, _. split; [done|]. width.
  - assert (strtol (decimal v) = v) as E by (apply strtoll_decimal; width).
    exists (u32 v), (if v <? 0 then u32 (-1) else 0). split; [|apply words_of_32; width].
    cbn. rewrite E, s32_id by width. done.
  - exists (u32 v), (u32 (Z.shiftr v 32)). split; [|by apply words_of].
    repeat (apply elem_of_cons in Ht as [->|Ht]; [cbn; by rewrite strtoll_decimal by done|]). by apply elem_of_nil in Ht.
  - exists (u32 v), (u32 (Z.shiftr v 32)). split; [|apply words_of; width]. cbn. by rewrite strtoll_decimal by width.
Qed.

Lemma default_integer_words_witness :
  ∃ l h, _set_default (λ _, 0) (λ _, 0) (_pbcS_new (λ _, 0)) PTYPE_SINT32 (Some (decimal (-3) ++ [0])) (zlen (decimal (-3)))
      = Done (VInteger l h, _pbcS_new (λ _, 0))
    ∧ l + 2 ^ 32 * h = u64 (-3).
Proof.
  apply (default_integer_words (λ _, 0) (λ _, 0) (_pbcS_new (λ _, 0)) PTYPE_SINT32 (-3) []).
  left. split; [set_solver|width].
Defined.

(** Outside of that range the default is lost: a [fixed64] default is always
    0, an unsigned 64-bit default of 2^63 or more becomes 2^63 - 1, and a
    [fixed32] default of 2^31 or more is sign-extended. *)
Theorem default_integer_lost strtod junk pool v k :
  let set type := _set_default strtod junk pool type (Some (decimal v ++ 0 :: k)) (zlen (decimal v)) in
  (¬ default_range PTYPE_FIXED64 v ∧ set PTYPE_FIXED64 = Done (VInteger 0 0, pool))
  ∧ (2 ^ 63 <= v < 2 ^ 64 → ¬ default_range PTYPE_UINT64 v ∧ set PTYPE_UINT64 = Done (VInteger (2 ^ 32 - 1) (2 ^ 31 - 1), pool))
  ∧ (2 ^ 31 <= v < 2 ^ 32 → ¬ default_range PTYPE_FIXED32 v ∧ set PTYPE_FIXED32 = Done (VInteger v (2 ^ 32 - 1), pool)).
Proof.
  intros set. unfold set, _set_default. rewrite (proj2 (Z.eqb_neq _ _) (decimal_size v)), cstr_app by apply decimal_no_zero. cbn [obind].
  assert (∀ type, default_range type v → type ≠ PTYPE_FIXED64 ∧ (type = PTYPE_UINT64 → v < 2 ^ 63) ∧ (type = PTYPE_FIXED32 → v < 2 ^ 31)) as Hr.
  { intros type [[Ht Hv]|[[-> Hv]|[[-> Hv]|[[Ht Hv]|[-> Hv]]]]];
      try (repeat (apply elem_of_cons in Ht as [->|Ht]; [split_and!; done || lia|]); by apply elem_of_nil in Ht);
      split_and!; done || lia. }
  split_and!; [by intros (H & _)%Hr|done|intros Hv; split; [intros (_ & H & _)%Hr; specialize (H eq_refl); lia|]
              |intros Hv; split; [intros (_ & _ & H)%Hr; specialize (H eq_refl); lia|]].
  - cbn. unfold strtoll. rewrite scan_decimal by lia. rewrite (proj2 (Z.ltb_ge v 0)) by lia.
    rewrite Z.min_r by lia. done.
  - cbn. unfold strtol. rewrite strtoll_decimal by width.
    assert (s32 v <? 0 = true) as -> by (apply Z.ltb_lt; width).
    assert (u32 (s32 v) = v) as -> by (rewrite u32_s32; apply u32_id; width). done.
Qed.
