(* ===== verification/Double.v ===== *)
(** * Integers and doubles

    A [double] is its 64-bit pattern, a [Z].  The Lua binding converts between
    [lua_Number] (a double) and the integers of the wire: an integer becomes the
    nearest double, ties to even, and a double is truncated towards zero when its
    integral part fits, which is all the language defines. *)

From S2P Require Import Prelude.

(** ** The fields of a double *)

Definition dbl_sign (b : Z) : bool := 2 ^ 63 <=? b.
Definition dbl_exp (b : Z) : Z := (b / 2 ^ 52) mod 2 ^ 11.
Definition dbl_frac (b : Z) : Z := b mod 2 ^ 52.

Definition dbl_nan (b : Z) : bool := (dbl_exp b =? 2047) && negb (dbl_frac b =? 0).

(** [(double)n] *)
Definition dbl_mag (mag : Z) : Z :=
  if mag =? 0 then 0
  else
    let k := Z.log2 mag in
    let q :=
      if k <=? 52 then mag * 2 ^ (52 - k)
      else
        let q := mag / 2 ^ (k - 52) in
        let r := mag mod 2 ^ (k - 52) in
        let half := 2 ^ (k - 53) in
        if (half <? r) || ((half =? r) && Z.odd q) then q + 1 else q in
    (k + 1023) * 2 ^ 52 + (q - 2 ^ 52).

Definition dbl_of_Z (n : Z) : Z := if n <? 0 then 2 ^ 63 + dbl_mag (- n) else dbl_mag n.

(** The value truncated to an integer; [None] for NaN and the infinities. *)
Definition dbl_trunc (b : Z) : option Z :=
  let e := dbl_exp b in
  let x := 2 ^ 52 + dbl_frac b in
  let mag := if e =? 0 then 0 else if 1075 <=? e then x * 2 ^ (e - 1075) else x / 2 ^ (1075 - e) in
  if e =? 2047 then None else Some (if dbl_sign b then - mag else mag).

(** [(int64_t)d], [(uint64_t)d]: undefined outside of the range. *)
Definition dbl_s64 (b : Z) : outcome Z :=
  match dbl_trunc b with
  | Some n => if (- 2 ^ 63 <=? n) && (n <? 2 ^ 63) then Done n else Fault SignedOverflow
  | None => Fault SignedOverflow
  end.

Definition dbl_u64 (b : Z) : outcome Z :=
  match dbl_trunc b with
  | Some n => if (0 <=? n) && (n <? 2 ^ 64) then Done n else Fault SignedOverflow
  | None => Fault SignedOverflow
  end.

(** [d < 0] *)
Definition dbl_neg (b : Z) : bool := dbl_sign b && negb (dbl_nan b) && negb (b =? 2 ^ 63).

(** ** Integers below 2^53 are exact *)

Lemma dbl_mag_exact mag : 0 <= mag <= 2 ^ 53 →
  is_u64 (dbl_mag mag) ∧ dbl_mag mag < 2 ^ 63 ∧ dbl_trunc (dbl_mag mag) = Some mag
  ∧ dbl_trunc (2 ^ 63 + dbl_mag mag) = Some (- mag) ∧ (0 < mag → 0 < dbl_mag mag).
Proof.
  intros Hm. destruct (decide (mag = 0)) as [->|Hnz]. { split_and!; done. }
  destruct (decide (mag = 2 ^ 53)) as [->|Hnm]. { split_and!; done. }
  unfold dbl_mag. rewrite (proj2 (Z.eqb_neq _ _)) by done. set (k := Z.log2 mag).
  pose proof (Z.log2_spec mag ltac:(lia)) as Hk. fold k in Hk. pose proof (Z.log2_nonneg mag). fold k in H.
  assert (k <= 52) as Hk52.
  { destruct (Z.le_gt_cases k 52); [done|]. pose proof (Z.pow_le_mono_r 2 53 k ltac:(lia) ltac:(lia)). lia. }
  rewrite (proj2 (Z.leb_le k 52)) by done. cbv zeta.
  assert (2 ^ 52 <= mag * 2 ^ (52 - k) < 2 ^ 53) as Hq.
  { replace (2 ^ 52) with (2 ^ k * 2 ^ (52 - k)) by (rewrite <- Z.pow_add_r by lia; f_equal; lia).
    replace (2 ^ 53) with (2 ^ Z.succ k * 2 ^ (52 - k)) by (rewrite <- Z.pow_add_r by lia; f_equal; lia).
    pose proof (Z.pow_pos_nonneg 2 (52 - k) ltac:(lia) ltac:(lia)). nia. }
  set (q := mag * 2 ^ (52 - k)) in *.
  assert (∀ s, 0 <= s <= 1 → let b := s * 2 ^ 63 + ((k + 1023) * 2 ^ 52 + (q - 2 ^ 52)) in
    is_u64 b ∧ dbl_exp b = k + 1023 ∧ dbl_frac b = q - 2 ^ 52 ∧ dbl_sign b = (s =? 1)) as Hf.
  { intros s Hs b. unfold b, is_u64, dbl_exp, dbl_frac, dbl_sign.
    split_and!; try (lia || zmod). }
  assert (∀ s, 0 <= s <= 1 → let b := s * 2 ^ 63 + ((k + 1023) * 2 ^ 52 + (q - 2 ^ 52)) in
    dbl_trunc b = Some (if s =? 1 then - mag else mag)) as Ht.
  { intros s Hs b. destruct (Hf s Hs) as (_ & He & Hfr & Hsg). fold b in He, Hfr, Hsg. unfold dbl_trunc. rewrite He, Hfr, Hsg.
    rewrite (proj2 (Z.eqb_neq (k + 1023) 2047)), (proj2 (Z.eqb_neq (k + 1023) 0)) by lia.
    replace (2 ^ 52 + (q - 2 ^ 52)) with q by lia. unfold q.
    destruct (Z.leb_spec 1075 (k + 1023)) as [Hge|Hlt].
    - replace (52 - k) with 0 by lia. replace (k + 1023 - 1075) with 0 by lia. by rewrite !Z.mul_1_r.
    - replace (1075 - (k + 1023)) with (52 - k) by lia. rewrite Z.div_mul; [done|]. apply Z.pow_nonzero; lia. }
  pose proof (Hf 0 ltac:(lia)) as (Hr & _). cbv zeta in Hr. rewrite Z.mul_0_l, Z.add_0_l in Hr.
  pose proof (Ht 0 ltac:(lia)) as Ht0. cbv zeta in Ht0. rewrite Z.mul_0_l, Z.add_0_l in Ht0.
  pose proof (Ht 1 ltac:(lia)) as Ht1. cbv zeta in Ht1. rewrite Z.mul_1_l in Ht1.
  split_and!; [done | lia | done | done | lia].
Qed.

(** The conversions used by the binding are inverse on these integers. *)
Lemma dbl_exact n : - 2 ^ 53 <= n <= 2 ^ 53 → dbl_trunc (dbl_of_Z n) = Some n ∧ is_u64 (dbl_of_Z n).
Proof.
  intros Hn. unfold dbl_of_Z. destruct (Z.ltb_spec n 0).
  - destruct (dbl_mag_exact (- n) ltac:(lia)) as (Hr & Hlt & _ & -> & _). rewrite Z.opp_involutive. split; [done|]. unfold is_u64 in *. lia.
  - destruct (dbl_mag_exact n ltac:(lia)) as (Hr & Hlt & -> & _). done.
Qed.

Lemma dbl_s64_exact n : - 2 ^ 53 <= n <= 2 ^ 53 → dbl_s64 (dbl_of_Z n) = Done n.
Proof.
  intros Hn. unfold dbl_s64. destruct (dbl_exact n Hn) as [-> _].
  by rewrite (proj2 (Z.leb_le _ _)), (proj2 (Z.ltb_lt _ _)) by lia.
Qed.

Lemma dbl_u64_exact n : 0 <= n <= 2 ^ 53 → dbl_u64 (dbl_of_Z n) = Done n ∧ dbl_neg (dbl_of_Z n) = false.
Proof.
  intros Hn. unfold dbl_u64. destruct (dbl_exact n ltac:(lia)) as [-> _].
  rewrite (proj2 (Z.leb_le _ _)), (proj2 (Z.ltb_lt _ _)) by lia. split; [done|].
  unfold dbl_of_Z, dbl_neg. rewrite (proj2 (Z.ltb_ge n 0)) by lia.
  destruct (dbl_mag_exact n Hn) as (_ & Hlt & _). unfold dbl_sign. by rewrite (proj2 (Z.leb_gt _ _)) by lia.
Qed.
