(* ===== verification/LuaApi.v ===== *)
(** * The Lua interface ([3rd/lua-5.2.3/src])

    The part of the Lua 5.2 API that the pbc binding calls, over an explicit
    stack: values, tables with identity, indices from the bottom and from the top
    of the stack, the conversions between numbers and strings, and errors, which
    leave the C function.  Setting and getting fields ignores metatables (those of [protobuf.lua] have no
    [__newindex], and the C code reads with the raw functions) and the stack has room.  The
    conversions [sprintf("%.14g")] and [strtod], the border [luaH_getn] finds and
    the order in which [luaH_next] goes through a table are operations of a class;
    all that is assumed is that the border is one and that every entry of the
    table is passed once.

    C code sees the world through pointers: light userdata is a pointer, or a
    number cast to one. *)

From S2P Require Import Prelude Double.

(** ** Values *)

(** [PInt 0] is NULL; [PMem b] points to the memory [b]; the others point to the
    objects of an environment [e]: message [i] of the writer or reader [r], and
    patterns. *)
Inductive ptr :=
  | PInt (n : Z)
  | PMem (b : list Z)
  | PEnv (e : nat)
  | PWm (e r i : nat)
  | PRm (e r i : nat)
  | PPat (e i : nat)
  | PGc (i : nat).

Inductive lvalue :=
  | LNil
  | LBool (b : bool)
  | LNum (n : Z)
  | LStr (s : list Z)
  | LLight (p : ptr)
  | LUdata (i : nat)
  | LTab (t : nat)
  | LFun (f : nat).

#[export] Instance ptr_eq_dec : EqDecision ptr.
Proof. solve_decision. Defined.
#[export] Instance lvalue_eq_dec : EqDecision lvalue.
Proof. solve_decision. Defined.

(** Keys are strings or integers; nil is never stored. *)
Notation ltable := (gmap (list Z + Z) lvalue).

Definition tget (t : ltable) (k : list Z + Z) : lvalue := default LNil (t !! k).

Definition tset (t : ltable) (k : list Z + Z) (v : lvalue) : ltable :=
  match v with LNil => delete k t | _ => <[k := v]> t end.

(** A border of a table, as the manual defines the length operator. *)
Definition border (t : ltable) (n : Z) : Prop :=
  0 <= n ∧ (n = 0 ∨ tget t (inr n) ≠ LNil) ∧ tget t (inr (n + 1)) = LNil.

Class Lua := {
  lua_number2str : Z → list Z;
  luaO_str2d : list Z → option Z;
  luaH_getn : ltable → Z;
  luaH_getn_border t : border t (luaH_getn t);
  luaH_next : ltable → list ((list Z + Z) * lvalue);
  luaH_next_perm t : luaH_next t ≡ₚ map_to_list t }.

(** ** The state

    The stack has its top first.  [C] is the state of the C code. *)
Record lua_State (C : Type) := LState {
  l_stack : list lvalue;
  l_tables : list ltable;
  l_c : C }.
Arguments LState {C}.
Arguments l_stack {C}.
Arguments l_tables {C}.
Arguments l_c {C}.

(** A C function changes the state and returns a value or raises an error. *)
Definition M (C A : Type) : Type := lua_State C → outcome (lua_State C * (A + string)).

Definition lret {C A} (a : A) : M C A := λ L, Done (L, inl a).

Definition lbind {C A B} (m : M C A) (k : A → M C B) : M C B := λ L,
  do! (L, r) <- m L;
  match r with
  | inl a => k a L
  | inr e => Done (L, inr e)
  end.

Declare Scope lua_scope.
Delimit Scope lua_scope with lua.
Notation "'lua!' x <- e ; k" := (lbind e (λ x, k))
  (at level 10, x pattern, e at level 100, k at level 200) : lua_scope.
Notation "'run!' e ; k" := (lbind e (λ _, k))
  (at level 10, e at level 100, k at level 200) : lua_scope.
#[global] Open Scope lua_scope.

Definition lift {C A} (x : outcome A) : M C A := λ L, do! a <- x; Done (L, inl a).

Definition luaL_error {C A} (msg : string) : M C A := λ L, Done (L, inr msg).

(** The loop [for (i = i0; i < i0 + n; i++)]. *)
Fixpoint lfor {C S} (n : nat) (i : Z) (body : Z → S → M C S) (s : S) : M C S :=
  match n with
  | O => lret s
  | Datatypes.S n' => lua! s <- body i s; lfor n' (i + 1) body s
  end.

Section Api.
Context {C : Type} `{Lua}.
Implicit Types L : lua_State C.

(** ** The stack *)

(** The distance from the top; [None] for a positive index above the top. *)
Definition slot (st : list lvalue) (idx : Z) : option nat :=
  if 0 <? idx then if idx <=? zlen st then Some (Z.to_nat (zlen st - idx)) else None
  else Some (Z.to_nat (- idx - 1)).

Definition index2addr (idx : Z) : M C lvalue := λ L,
  match slot (l_stack L) idx with
  | None => Done (L, inl LNil)
  | Some p => match l_stack L !! p with Some v => Done (L, inl v) | None => Fault OutOfBounds end
  end.

Definition set_stack (st : list lvalue) : M C unit := λ L, Done (LState st (l_tables L) (l_c L), inl ()).

Definition get_stack : M C (list lvalue) := λ L, Done (L, inl (l_stack L)).

Definition set_slot (idx : Z) (v : lvalue) : M C unit :=
  lua! st <- get_stack;
  match slot st idx with
  | None => lift (Fault OutOfBounds)
  | Some p => set_stack (<[p := v]> st)
  end.

Definition push (v : lvalue) : M C unit := lua! st <- get_stack; set_stack (v :: st).

Definition lua_settop (idx : Z) : M C unit :=
  lua! st <- get_stack;
  if 0 <=? idx then
    if idx <=? zlen st then set_stack (drop (Z.to_nat (zlen st - idx)) st)
    else set_stack (replicate (Z.to_nat (idx - zlen st)) LNil ++ st)
  else if - (idx + 1) <=? zlen st then set_stack (drop (Z.to_nat (- (idx + 1))) st)
  else lift (Fault OutOfBounds).

Definition lua_pop (n : Z) : M C unit := lua_settop (- n - 1).

Definition lua_pushvalue (idx : Z) : M C unit := lua! v <- index2addr idx; push v.

(** The top is moved to the place of [idx]. *)
Definition lua_insert (idx : Z) : M C unit :=
  lua! st <- get_stack;
  match slot st idx, st with
  | Some p, v :: rest =>
      if (p <? length st)%nat then set_stack (take p rest ++ v :: drop p rest) else lift (Fault OutOfBounds)
  | _, _ => lift (Fault OutOfBounds)
  end.

(** ** Pushing *)

Definition lua_pushnil : M C unit := push LNil.
Definition lua_pushnumber (n : Z) : M C unit := push (LNum n).
Definition lua_pushinteger (n : Z) : M C unit := push (LNum (dbl_of_Z n)).
Definition lua_pushboolean (b : Z) : M C unit := push (LBool (negb (b =? 0))).
Definition lua_pushlightuserdata (p : ptr) : M C unit := push (LLight p).

(** [len] bytes from the pointer. *)
Definition copy_mem (p : ptr) (len : Z) : outcome (list Z) :=
  match p with
  | PMem b => if (0 <=? len) && (len <=? zlen b) then Done (take (Z.to_nat len) b) else Fault OutOfBounds
  | _ => if len =? 0 then Done [] else Fault NullDeref
  end.

Definition lua_pushlstring (p : ptr) (len : Z) : M C unit := lua! s <- lift (copy_mem p len); push (LStr s).

(** [None] is NULL. *)
Definition lua_pushstring (s : option (list Z)) : M C unit :=
  match s with None => lua_pushnil | Some s => push (LStr s) end.

(** ** Reading *)

Definition tonumber (v : lvalue) : option Z :=
  match v with LNum n => Some n | LStr s => luaO_str2d s | _ => None end.

Definition lua_tonumberx (idx : Z) : M C (option Z) := lua! v <- index2addr idx; lret (tonumber v).

(** [lua_number2integer] is a cast to a 64-bit integer. *)
Definition lua_tointegerx (idx : Z) : M C (option Z) :=
  lua! v <- index2addr idx;
  match tonumber v with
  | Some n => lua! i <- lift (dbl_s64 n); lret (Some i)
  | None => lret None
  end.

Definition lua_tointeger (idx : Z) : M C Z := lua! i <- lua_tointegerx idx; lret (default 0 i).

Definition lua_toboolean (idx : Z) : M C bool :=
  lua! v <- index2addr idx;
  lret (match v with LNil | LBool false => false | _ => true end).

(** A number on the stack becomes a string. *)
Definition lua_tolstring (idx : Z) : M C (option (list Z)) :=
  lua! v <- index2addr idx;
  match v with
  | LStr s => lret (Some s)
  | LNum n => run! set_slot idx (LStr (lua_number2str n)); lret (Some (lua_number2str n))
  | _ => lret None
  end.

Definition lua_touserdata (idx : Z) : M C ptr :=
  lua! v <- index2addr idx;
  lret (match v with LLight p => p | LUdata i => PGc i | _ => PInt 0 end).

Definition lua_isstring (idx : Z) : M C bool :=
  lua! v <- index2addr idx; lret (match v with LStr _ | LNum _ => true | _ => false end).

Definition lua_isuserdata (idx : Z) : M C bool :=
  lua! v <- index2addr idx; lret (match v with LLight _ | LUdata _ => true | _ => false end).

Definition lua_islightuserdata (idx : Z) : M C bool :=
  lua! v <- index2addr idx; lret (match v with LLight _ => true | _ => false end).

Definition lua_isnil (idx : Z) : M C bool :=
  lua! v <- index2addr idx; lret (match v with LNil => true | _ => false end).

Definition lua_istable (idx : Z) : M C bool :=
  lua! v <- index2addr idx; lret (match v with LTab _ => true | _ => false end).

(** ** Checked arguments *)

Definition tag_error {A} : M C A := luaL_error "bad argument".

Definition luaL_checklstring (idx : Z) : M C (list Z) :=
  lua! s <- lua_tolstring idx;
  match s with Some s => lret s | None => tag_error end.

Definition luaL_checkstring (idx : Z) : M C (list Z) := lua! s <- luaL_checklstring idx; lret (c_string s).

Definition luaL_checknumber (idx : Z) : M C Z :=
  lua! n <- lua_tonumberx idx;
  match n with Some n => lret n | None => tag_error end.

Definition luaL_checkinteger (idx : Z) : M C Z :=
  lua! n <- lua_tointegerx idx;
  match n with Some n => lret n | None => tag_error end.

(** ** Tables *)

Definition get_table (t : nat) : M C ltable := λ L,
  match l_tables L !! t with Some x => Done (L, inl x) | None => Fault NullDeref end.

Definition put_table (t : nat) (x : ltable) : M C unit := λ L,
  Done (LState (l_stack L) (<[t := x]> (l_tables L)) (l_c L), inl ()).

(** [api_check(L, ttistable(t))] *)
Definition table_at (idx : Z) : M C nat :=
  lua! v <- index2addr idx;
  match v with LTab t => lret t | _ => lift (Fault AssertFailed) end.

Definition lua_newtable : M C unit := λ L,
  Done (LState (LTab (length (l_tables L)) :: l_stack L) (l_tables L ++ [∅]) (l_c L), inl ()).

Definition lua_rawgeti (idx n : Z) : M C unit :=
  lua! t <- table_at idx;
  lua! x <- get_table t;
  push (tget x (inr n)).

(** The value is the top of the stack and is popped. *)
Definition raw_set (idx : Z) (k : list Z + Z) : M C unit :=
  lua! v <- index2addr (-1);
  lua! t <- table_at idx;
  lua! x <- get_table t;
  run! put_table t (tset x k v);
  lua_pop 1.

Definition lua_rawseti (idx n : Z) : M C unit := raw_set idx (inr n).

Definition lua_setfield (idx : Z) (k : list Z) : M C unit := raw_set idx (inl k).

Definition lua_rawlen (idx : Z) : M C Z :=
  lua! v <- index2addr idx;
  match v with
  | LTab t => lua! x <- get_table t; lret (luaH_getn x)
  | LStr s => lret (zlen s)
  | _ => lret 0
  end.

(** ** Calling a C function

    The arguments are on the stack; the results are the values above the ones
    the function leaves, as many as it says. *)
Definition call_c (f : M C Z) (args : list lvalue) (L : lua_State C) : outcome (lua_State C * (list lvalue + string)) :=
  do! (L', r) <- f (LState (rev args) (l_tables L) (l_c L));
  match r with
  | inl n => Done (LState (l_stack L) (l_tables L') (l_c L'), inl (rev (take (Z.to_nat n) (l_stack L'))))
  | inr e => Done (LState (l_stack L) (l_tables L') (l_c L'), inr e)
  end.

End Api.

(** ** Stack lemmas *)

Lemma lbind_done {C A B} (m : M C A) (k : A → M C B) L L' a : m L = Done (L', inl a) → lbind m k L = k a L'.
Proof. intros E. unfold lbind. by rewrite E. Qed.

Section Lemmas.
Context {C : Type} `{Lua}.
Implicit Types (st : list lvalue) (tb : list ltable) (c : C).

(** A value at the distance [p] from the top. *)
Lemma index_top st tb c idx p v : slot st idx = Some p → st !! p = Some v →
  index2addr idx (LState st tb c) = Done (LState st tb c, inl v).
Proof. intros E1 E2. unfold index2addr. cbn [l_stack]. by rewrite E1, E2. Qed.

Lemma pop_1 v st tb c : lua_pop 1 (LState (v :: st) tb c) = Done (LState st tb c, inl ()).
Proof.
  unfold lua_pop, lua_settop, lbind, get_stack. cbn [obind l_stack]. pose proof (zlen_nonneg st).
  change (0 <=? -1 - 1) with false. rewrite zlen_cons, (proj2 (Z.leb_le (- _) _)) by lia. done.
Qed.

Lemma raw_set_top st tb c v idx p k t x : slot (v :: st) idx = Some p → (v :: st) !! p = Some (LTab t) → tb !! t = Some x →
  raw_set idx k (LState (v :: st) tb c) = Done (LState st (<[t := tset x k v]> tb) c, inl ()).
Proof.
  intros E1 E2 E3. unfold raw_set. erewrite lbind_done by (by apply (index_top _ _ _ (-1) 0)).
  unfold table_at. erewrite lbind_done by (erewrite lbind_done by (by eapply index_top); done).
  erewrite lbind_done by (unfold get_table; cbn [l_tables]; by rewrite E3). erewrite lbind_done by done. apply pop_1.
Qed.

Lemma rawgeti_top st tb c idx n p t x : slot st idx = Some p → st !! p = Some (LTab t) → tb !! t = Some x →
  lua_rawgeti idx n (LState st tb c) = Done (LState (tget x (inr n) :: st) tb c, inl ()).
Proof.
  intros E1 E2 E3. unfold lua_rawgeti, table_at. erewrite lbind_done by (erewrite lbind_done by (by eapply index_top); done).
  erewrite lbind_done by (unfold get_table; cbn [l_tables]; by rewrite E3). done.
Qed.

Lemma rawlen_top st tb c idx p t x : slot st idx = Some p → st !! p = Some (LTab t) → tb !! t = Some x →
  lua_rawlen idx (LState st tb c) = Done (LState st tb c, inl (luaH_getn x)).
Proof.
  intros E1 E2 E3. unfold lua_rawlen. erewrite lbind_done by (by eapply index_top). cbv beta iota.
  erewrite lbind_done by (unfold get_table; cbn [l_tables]; by rewrite E3). done.
Qed.

Lemma copy_mem_all s : copy_mem (PMem s) (zlen s) = Done s.
Proof.
  unfold copy_mem. rewrite (proj2 (Z.leb_le _ _)), (proj2 (Z.leb_le _ _)) by (pose proof (zlen_nonneg s); lia).
  cbn [andb]. unfold zlen. by rewrite Nat2Z.id, take_ge.
Qed.

End Lemmas.

(** ** An implementation of the class

    Counting up from 1 finds a border; the conversions are those of integers. *)

Fixpoint count_border (fuel : nat) (t : ltable) (n : Z) : Z :=
  match fuel with
  | O => n
  | S fuel' => if decide (tget t (inr (n + 1)) = LNil) then n else count_border fuel' t (n + 1)
  end.

(** A table with the keys 1 to [k] has at least [k] entries. *)
Lemma keys_size (k : nat) (t : ltable) : (∀ i, 1 <= i <= Z.of_nat k → is_Some (t !! inr i)) → (k ≤ size t)%nat.
Proof.
  revert t; induction k as [|k IH]; intros t Hk; [lia|]. destruct (Hk (Z.of_nat (S k)) ltac:(lia)) as [v Hv].
  pose proof (IH (delete (inr (Z.of_nat (S k))) t)) as IH'. rewrite map_size_delete_Some in IH' by eauto.
  assert (size t ≠ 0%nat) by (intros E; apply map_size_empty_inv in E; by rewrite E in Hv).
  assert (k ≤ Nat.pred (size t))%nat; [|lia]. apply IH'. intros i Hi. rewrite lookup_delete_ne by (intros [=]; lia). apply Hk. lia.
Qed.

Lemma tget_Some t k : tget t k ≠ LNil → is_Some (t !! k).
Proof. unfold tget. destruct (t !! k); [eauto | done]. Qed.

Lemma count_border_ok fuel t n : 0 <= n → (∀ i, 1 <= i <= n → tget t (inr i) ≠ LNil) → (size t < Z.to_nat n + fuel)%nat →
  border t (count_border fuel t n).
Proof.
  revert n; induction fuel as [|fuel IH]; intros n Hn Hall Hf; cbn [count_border].
  - pose proof (keys_size (Z.to_nat n) t) as Hs. rewrite Z2Nat.id in Hs by done.
    specialize (Hs ltac:(intros i Hi; by apply tget_Some, Hall)). lia.
  - destruct (decide _) as [E|E].
    + split; [done|]. split; [|done]. destruct (decide (n = 0)); [by left|]. right. apply Hall. lia.
    + apply IH; [lia | | lia]. intros i Hi. destruct (decide (i = n + 1)) as [->|]; [done|]. apply Hall. lia.
Qed.

Definition count_lua : Lua := {|
  lua_number2str n := decimal (default 0 (dbl_trunc n));
  luaO_str2d _ := None;
  luaH_getn t := count_border (S (size t)) t 0;
  luaH_getn_border t := count_border_ok (S (size t)) t 0 ltac:(lia) ltac:(lia) ltac:(lia);
  luaH_next := map_to_list;
  luaH_next_perm t := Permutation_refl (map_to_list t) |}.
