(* ===== verification/PbcLua.v ===== *)
(** * The Lua binding of pbc ([3rd/pbc/binding/lua/pbc-lua.c])

    Every function of the module [protobuf.c], over the stack of [LuaApi] and the
    models of the pbc functions it calls.  The objects of an environment are kept
    in its [world], where the pointers handed to Lua lead; an object that was
    deleted is [None], and using it faults. *)

From S2P Require Import Prelude Varint PArray SpMap StringPool Context Proto Wmessage Decode CMem Pattern PatternNew Rmessage Bootstrap Register Double LuaApi.

(** ** The state of the C code *)

(** The messages of a writer or a reader, the first is the one [new] returned. *)
Record world := World {
  wd_env : pbc_env;
  wd_wm : list (option (list wmessage));
  wd_rm : list (option (list rmessage));
  wd_pat : list (option pbc_pattern) }.

(** [struct gcobj]; the arrays are [None] when they were freed, their cells are
    [None] until they are written. *)
Record gcobj := GcObj {
  o_env : ptr;
  size_pat : Z;
  cap_pat : Z;
  o_pat : option (list (option ptr));
  size_msg : Z;
  cap_msg : Z;
  o_msg : option (list (option ptr)) }.

(** What the local variables of [protobuf.lua] hold.  A function of [_writer] is
    named by its entry; the one for messages is a closure over the type [_env_type]
    returned. *)
Inductive writer :=
  | WrInt | WrReal | WrBool | WrString | WrInt64 | WrInt32 | WrInt52 | WrUint52
  | WrMessage (message_type : lvalue)
  | WrRepeated (w : writer).

(** The metatables a table can have: [_R_meta] of a message that is read,
    [decode_message_mt] of a sub-message that is not decoded yet, and the table
    [{ __index = .. }] of a decoded message. *)
Inductive metatable := MetaReader | MetaMessage | MetaDefault (t : nat).

(** [s_meta] are the metatables of the tables; the caches are under the names of
    the message types. *)
Record script := Script {
  s_meta : gmap nat metatable;
  encode_type_cache : gmap (list Z) (gmap (list Z + Z) writer);
  default_cache : gmap (list Z) nat }.

(** When the module is loaded. *)
Definition new_script : script := Script ∅ ∅ ∅.

(** [c_gc] are the blocks of the full userdata, [c_meta] their metatables;
    [c_script] is the module [protobuf] that the C functions are called from. *)
Record cstate := CState { c_envs : list (option world); c_gc : list gcobj; c_meta : gmap nat nat; c_script : script }.

Notation lua := (M cstate).

Section Objects.

Definition get_c : lua cstate := λ L, Done (L, inl (l_c L)).

Definition set_c (c : cstate) : lua unit := λ L, Done (LState (l_stack L) (l_tables L) c, inl ()).

Definition get_world (e : nat) : lua world :=
  lua! c <- get_c;
  match c_envs c !! e with
  | Some (Some w) => lret w
  | _ => lift (Fault NullDeref)
  end.

Definition put_world (e : nat) (w : world) : lua unit :=
  lua! c <- get_c; set_c (CState (<[e := Some w]> (c_envs c)) (c_gc c) (c_meta c) (c_script c)).

Definition set_env (w : world) (p : pbc_env) : world := World p (wd_wm w) (wd_rm w) (wd_pat w).

(** [env->lasterror], when a call sets it. *)
Definition note_error (w : world) (err : option string) : world :=
  match err with Some e => set_env w (set_error (wd_env w) e) | None => w end.

Definition env_at (p : ptr) : lua nat := match p with PEnv e => lret e | _ => lift (Fault BadRead) end.

(** A call on a message that is being written. *)
Definition on_wmessage {A} (p : ptr) (f : pbc_env → list wmessage → nat → outcome (A * list wmessage * option string)) : lua A :=
  match p with
  | PWm e r i =>
      lua! w <- get_world e;
      match wd_wm w !! r with
      | Some (Some store) =>
          lua! (a, store, err) <- lift (f (wd_env w) store i);
          run! put_world e (note_error (World (wd_env w) (<[r := Some store]> (wd_wm w)) (wd_rm w) (wd_pat w)) err);
          lret a
      | _ => lift (Fault NullDeref)
      end
  | _ => lift (Fault BadRead)
  end.

(** A call that writes one field of the message. *)
Definition write_field (p : ptr) (f : pbc_env → wmessage → outcome wres) : lua Z :=
  on_wmessage p (λ env store i,
    match store !! i with
    | None => Fault NullDeref
    | Some m => do! (ret, m, err) <- f env m; Done (ret, <[i := m]> store, err)
    end).

(** A call on a message that is being read. *)
Definition on_rmessage {A} (p : ptr) (f : pbc_env → rmessage → outcome (A * option string)) : lua A :=
  match p with
  | PRm e r i =>
      lua! w <- get_world e;
      match wd_rm w !! r with
      | Some (Some store) =>
          match store !! i with
          | None => lift (Fault NullDeref)
          | Some m =>
              lua! (a, err) <- lift (f (wd_env w) m);
              run! put_world e (note_error w err);
              lret a
          end
      | _ => lift (Fault NullDeref)
      end
  | _ => lift (Fault BadRead)
  end.

Definition get_pattern (p : ptr) : lua (world * pbc_pattern) :=
  match p with
  | PPat e i =>
      lua! w <- get_world e;
      match wd_pat w !! i with
      | Some (Some pat) => lret (w, pat)
      | _ => lift (Fault NullDeref)
      end
  | _ => lift (Fault BadRead)
  end.

(** [struct pbc_slice] from a pointer and a length. *)
Definition slice_at (p : ptr) (len : Z) : lua (list Z) := lift (copy_mem p len).

(** The address kept in a [struct pbc_slice], and back. *)
Definition ptr_mem (p : ptr) : outcome (option (list Z)) :=
  match p with
  | PMem b => Done (Some b)
  | PInt n => if n =? 0 then Done None else Fault BadRead
  | _ => Fault BadRead
  end.

Definition mem_ptr (b : option (list Z)) : ptr := match b with Some b => PMem b | None => PInt 0 end.

(** [(uint32_t)(intptr_t)p] *)
Definition ptr_u32 (p : ptr) : outcome Z := match p with PInt n => Done (u32 n) | _ => Fault BadRead end.

End Objects.

Section Binding.
Context `{Lua} (junk : nat → Z) (d2f f2d : Z → Z) (strtod : list Z → Z) (stk : Z → list Z) (hi_junk : Z) (pbc_descriptor : list Z).
(** Calling a Lua function: its result. *)
Context (lua_function : lvalue → list lvalue → lua lvalue).

Definition checkuserdata (index : Z) : lua ptr :=
  lua! ud <- lua_touserdata index;
  match ud with
  | PInt 0 => luaL_error "userdata is nil"
  | _ => lret ud
  end.

(** ** Environments *)

Definition _env_new : lua Z :=
  lua! env <- lift (pbc_new d2f f2d stk hi_junk pbc_descriptor);
  lua! c <- get_c;
  run! set_c (CState (c_envs c ++ [Some (World env [] [] [])]) (c_gc c) (c_meta c) (c_script c));
  run! lua_pushlightuserdata (PEnv (length (c_envs c)));
  lret 1.

Definition _env_register : lua Z :=
  lua! env <- checkuserdata 1;
  lua! buffer <- luaL_checklstring 2;
  lua! e <- env_at env;
  lua! w <- get_world e;
  lua! (p, ret) <- lift (pbc_register strtod junk f2d stk (wd_env w) buffer);
  run! put_world e (set_env w p);
  if negb (ret =? 0) then luaL_error "register fail" else lret 0.

Definition _env_type : lua Z :=
  run! lua_settop 3;
  lua! env <- checkuserdata 1;
  lua! type_name <- luaL_checkstring 2;
  lua! isnil <- lua_isnil 3;
  lua! e <- env_at env;
  lua! w <- get_world e;
  if (isnil : bool) then
    lua! (ret, _) <- lift (pbc_type (wd_env w) type_name None false);
    run! lua_pushboolean ret;
    lret 1
  else
    lua! key <- luaL_checkstring 3;
    lua! (ret, type) <- lift (pbc_type (wd_env w) type_name (Some key) true);
    run! lua_pushinteger ret;
    match type with
    | None => lret 1
    | Some type => run! lua_pushstring (Some type); lret 2
    end.

Definition _last_error : lua Z :=
  lua! env <- checkuserdata 1;
  lua! e <- env_at env;
  lua! w <- get_world e;
  let '(err, p) := pbc_error (wd_env w) in
  run! put_world e (set_env w p);
  run! lua_pushstring (Some (lit err));
  lret 1.

(** ** Reading messages *)

Definition _rmessage_new : lua Z :=
  lua! env <- checkuserdata 1;
  lua! type_name <- luaL_checkstring 2;
  lua! isstr <- lua_isstring 3;
  lua! slice <- (if (isstr : bool) then lua! s <- lua_tolstring 3; lret (default [] s)
                 else lua! buffer <- lua_touserdata 3; lua! len <- luaL_checkinteger 4; slice_at buffer (s32 len));
  lua! e <- env_at env;
  lua! w <- get_world e;
  lua! (m, err) <- lift (pbc_rmessage_new f2d (wd_env w) stk type_name slice);
  let w := note_error w err in
  match m with
  | None => run! put_world e w; lret 0
  | Some m =>
      run! put_world e (World (wd_env w) (wd_wm w) (wd_rm w ++ [Some [m]]) (wd_pat w));
      run! lua_pushlightuserdata (PRm e (length (wd_rm w)) 0);
      lret 1
  end.

(** The heap of the message is freed, and every message on it. *)
Definition pbc_rmessage_delete (p : ptr) : lua unit :=
  match p with
  | PInt 0 => lret ()
  | PRm e r _ =>
      lua! w <- get_world e;
      match wd_rm w !! r with
      | Some (Some _) => put_world e (World (wd_env w) (wd_wm w) (<[r := None]> (wd_rm w)) (wd_pat w))
      | _ => lift (Fault NullDeref)
      end
  | _ => lift (Fault BadRead)
  end.

Definition _rmessage_delete : lua Z :=
  lua! m <- checkuserdata 1;
  run! pbc_rmessage_delete m;
  lret 0.

(** The message, the key and the index of an accessor. *)
Definition rmessage_args : lua (ptr * list Z * Z) :=
  lua! m <- checkuserdata 1;
  lua! key <- luaL_checkstring 2;
  lua! index <- luaL_checkinteger 3;
  lret (m, key, s32 index).

Definition rmessage_words (hi : bool) : lua (Z * Z) :=
  lua! (m, key, index) <- rmessage_args;
  lua! (low, h) <- on_rmessage m (λ _ m, do! v <- pbc_rmessage_integer m key index hi; Done (v, None));
  lret (low, default 0 h).

Definition _rmessage_integer : lua Z :=
  lua! (low, _) <- rmessage_words false;
  run! lua_pushinteger (s32 low);
  lret 1.

Definition _rmessage_int32 : lua Z :=
  lua! (low, _) <- rmessage_words false;
  run! lua_pushlightuserdata (PInt low);
  lret 1.

Definition _rmessage_int64 : lua Z :=
  lua! (low, hi) <- rmessage_words true;
  run! lua_pushlstring (PMem (le_split 4 low ++ le_split 4 hi)) 8;
  lret 1.

Definition _rmessage_int52 : lua Z :=
  lua! (low, hi) <- rmessage_words true;
  run! lua_pushnumber (dbl_of_Z (s64 (join64 low hi)));
  lret 1.

Definition _rmessage_uint52 : lua Z :=
  lua! (low, hi) <- rmessage_words true;
  run! lua_pushnumber (dbl_of_Z (join64 low hi));
  lret 1.

Definition _rmessage_real : lua Z :=
  lua! (m, key, index) <- rmessage_args;
  lua! v <- on_rmessage m (λ _ m, do! v <- pbc_rmessage_real m key index; Done (v, None));
  run! lua_pushnumber v;
  lret 1.

Definition _rmessage_string : lua Z :=
  lua! m <- checkuserdata 1;
  lua! key <- luaL_checkstring 2;
  lua! index <- lua_tointeger 3;
  lua! (v, sz) <- on_rmessage m (λ _ m, do! v <- pbc_rmessage_string m key (s32 index); Done (v, None));
  run! lua_pushlstring (mem_ptr v) sz;
  lret 1.

(** A sub-message joins the messages of its reader. *)
Definition _rmessage_message : lua Z :=
  lua! m <- checkuserdata 1;
  lua! key <- luaL_checkstring 2;
  lua! index <- lua_tointeger 3;
  lua! v <- on_rmessage m (λ env m, pbc_rmessage_message env m key (s32 index));
  lua! p <- match m, v with
            | PRm e r _, Some sub =>
                lua! w <- get_world e;
                let store := match wd_rm w !! r with Some (Some store) => store | _ => [] end in
                run! put_world e (World (wd_env w) (wd_wm w) (<[r := Some (store ++ [sub])]> (wd_rm w)) (wd_pat w));
                lret (PRm e r (length store))
            | _, _ => lret (PInt 0)
            end;
  run! lua_pushlightuserdata p;
  lret 1.

Definition _rmessage_size : lua Z :=
  lua! m <- checkuserdata 1;
  lua! key <- luaL_checkstring 2;
  lua! sz <- on_rmessage m (λ _ m, do! n <- pbc_rmessage_size m key; Done (n, None));
  run! lua_pushinteger sz;
  lret 1.

(** ** Writing messages *)

Definition _wmessage_new : lua Z :=
  lua! env <- checkuserdata 1;
  lua! type_name <- luaL_checkstring 2;
  lua! e <- env_at env;
  lua! w <- get_world e;
  lua! m <- lift (pbc_wmessage_new junk (wd_env w) type_name);
  match m with
  | None => run! lua_pushlightuserdata (PInt 0); lret 1
  | Some m =>
      run! put_world e (World (wd_env w) (wd_wm w ++ [Some [m]]) (wd_rm w) (wd_pat w));
      run! lua_pushlightuserdata (PWm e (length (wd_wm w)) 0);
      lret 1
  end.

Definition pbc_wmessage_delete (p : ptr) : lua unit :=
  match p with
  | PInt 0 => lret ()
  | PWm e r _ =>
      lua! w <- get_world e;
      match wd_wm w !! r with
      | Some (Some _) => put_world e (World (wd_env w) (<[r := None]> (wd_wm w)) (wd_rm w) (wd_pat w))
      | _ => lift (Fault NullDeref)
      end
  | _ => lift (Fault BadRead)
  end.

Definition _wmessage_delete : lua Z :=
  lua! m <- lua_touserdata 1;
  run! pbc_wmessage_delete m;
  lret 0.

Definition write_integer_to (m : ptr) (key : list Z) (low hi : Z) : lua Z :=
  write_field m (λ _ w, pbc_wmessage_integer junk w key low hi).

Definition _wmessage_integer : lua Z :=
  lua! m <- checkuserdata 1;
  lua! key <- luaL_checkstring 2;
  lua! n <- luaL_checkinteger 3;
  let number := s32 n in
  let hi := if number <? 0 then 2 ^ 32 - 1 else 0 in
  run! write_integer_to m key (u32 number) hi;
  lret 0.

Definition _wmessage_real : lua Z :=
  lua! m <- checkuserdata 1;
  lua! key <- luaL_checkstring 2;
  lua! number <- luaL_checknumber 3;
  run! write_field m (λ _ w, pbc_wmessage_real junk d2f w key number);
  lret 0.

Definition _wmessage_string : lua Z :=
  lua! m <- checkuserdata 1;
  lua! key <- luaL_checkstring 2;
  lua! v <- luaL_checklstring 3;
  lua! err <- write_field m (λ env w, pbc_wmessage_string junk env w key (v ++ [0]) (s32 (zlen v)));
  if negb (err =? 0) then luaL_error "Write string error" else lret 0.

Definition _wmessage_message : lua Z :=
  lua! m <- checkuserdata 1;
  lua! key <- luaL_checkstring 2;
  lua! sub <- on_wmessage m (λ env store i,
                do! (store, j, err) <- pbc_wmessage_message junk store i env key; Done (j, store, err));
  run! lua_pushlightuserdata
         match m, sub with PWm e r _, Some j => PWm e r j | _, _ => PInt 0 end;
  lret 1.

Definition _wmessage_int32 : lua Z :=
  lua! m <- checkuserdata 1;
  lua! key <- luaL_checkstring 2;
  lua! light <- lua_islightuserdata 3;
  if negb light then luaL_error "Need a lightuserdata for int32"
  else
    lua! number <- lua_touserdata 3;
    lua! v <- lift (ptr_u32 number);
    run! write_integer_to m key v 0;
    lret 0.

(** A string of eight bytes or a light userdata. *)
Definition _wmessage_int64 : lua Z :=
  lua! m <- checkuserdata 1;
  lua! key <- luaL_checkstring 2;
  lua! v <- index2addr 3;
  match v with
  | LStr s =>
      if negb (zlen s =? 8) then luaL_error "Need an 8 length string for int64"
      else run! write_integer_to m key (le_join (take 4 s)) (le_join (drop 4 s)); lret 0
  | LLight (PInt n) =>
      let v64 := u64 n in
      run! write_integer_to m key (u32 v64) (u32 (Z.shiftr v64 32)); lret 0
  | LLight _ => lift (Fault BadRead)
  | _ => luaL_error "Need an int64 type"
  end.

Definition _wmessage_int52 : lua Z :=
  lua! m <- checkuserdata 1;
  lua! key <- luaL_checkstring 2;
  lua! d <- luaL_checknumber 3;
  lua! number <- lift (dbl_s64 d);
  let hi := u32 (Z.shiftr number 32) in
  run! write_integer_to m key (u32 number) hi;
  lret 0.

Definition _wmessage_uint52 : lua Z :=
  lua! m <- checkuserdata 1;
  lua! key <- luaL_checkstring 2;
  lua! v <- luaL_checknumber 3;
  if dbl_neg v then luaL_error "negative number passed to unsigned field"
  else
    lua! number <- lift (dbl_u64 v);
    let hi := u32 (Z.shiftr number 32) in
    run! write_integer_to m key (u32 number) hi;
    lret 0.

Definition wmessage_slice (m : ptr) : lua (list Z) :=
  on_wmessage m (λ env store i,
    do! (store, s) <- pbc_wmessage_buffer junk d2f (S (length store)) store i; Done (s, store, None)).

Definition _wmessage_buffer : lua Z :=
  lua! m <- checkuserdata 1;
  lua! s <- wmessage_slice m;
  run! lua_pushlightuserdata (PMem s);
  run! lua_pushinteger (zlen s);
  lret 2.

Definition _wmessage_buffer_string : lua Z :=
  lua! m <- checkuserdata 1;
  lua! s <- wmessage_slice m;
  run! lua_pushlstring (PMem s) (zlen s);
  lret 1.

End Binding.

(** ** Lemmas on the state *)

Definition put_env (c : cstate) (e : nat) (w : world) : cstate := CState (<[e := Some w]> (c_envs c)) (c_gc c) (c_meta c) (c_script c).

Lemma put_put c e w w' : put_env (put_env c e w) e w' = put_env c e w'.
Proof. unfold put_env. cbn. by rewrite list_insert_insert_eq. Qed.

Lemma put_same c e w : c_envs c !! e = Some (Some w) → put_env c e w = c.
Proof. intros He. destruct c as [envs gcs metas sc]. unfold put_env. cbn in *. by rewrite list_insert_id. Qed.

Lemma get_world_ok st tb c e w : c_envs c !! e = Some (Some w) → get_world e (LState st tb c) = Done (LState st tb c, inl w).
Proof. intros He. unfold get_world. erewrite lbind_done by done. cbn. by rewrite He. Qed.

Lemma put_world_ok st tb c e w : put_world e w (LState st tb c) = Done (LState st tb (put_env c e w), inl ()).
Proof. done. Qed.
