(* ===== verification/LuaDecode.v ===== *)
(** * Decoding into Lua tables ([_decode] of [3rd/pbc/binding/lua/pbc-lua.c])

    [_decode] runs [pbc_decode] with a callback that stores each field in a
    table: a single field under its name, an element of a repeated field at the
    end of an array that is created with the first one and kept under the name
    and, in a table of its own, under the field's id.  Sub-messages are decoded by
    a Lua function, which is a parameter. *)

From S2P Require Import Prelude Varint PArray SpMap StringPool Context Proto Wmessage Decode Double LuaApi PbcLua.

(** ** The code *)

Section Decode.
Context `{Lua} (f2d : Z → Z) (stk : Z → list Z) (lua_function : lvalue → list lvalue → lua lvalue).

(** [lua_call(L, 2, 1)] *)
Definition lua_call_2_1 : lua unit :=
  lua! st <- get_stack;
  match st with
  | a2 :: a1 :: f :: rest => lua! r <- lua_function f [a1; a2]; set_stack (r :: rest)
  | _ => lift (Fault OutOfBounds)
  end.

Definition type_text (n : string + list Z) : list Z := match n with inl s => lit s | inr s => s end.

(** -3 table key, -2 table id, -1 value; the array is pushed. *)
Definition new_array (id : Z) (key : list Z) : lua unit :=
  run! lua_rawgeti (-2) id;
  lua! isnil <- lua_isnil (-1);
  if (isnil : bool) then
    run! lua_pop 1;
    run! lua_newtable;
    run! lua_pushvalue (-1);
    run! lua_pushvalue (-1);
    run! lua_setfield (-6) key;
    lua_rawseti (-4) id
  else lret ().

Definition word_of (v : pbc_value) : lua (Z * Z) :=
  match v with PI low hi => lret (low, hi) | _ => lift (Fault BadRead) end.

Definition push_value (type : Z) (type_name : string + list Z) (v : pbc_value) : lua unit :=
  if type =? PBC_INT then lua! (low, _) <- word_of v; lua_pushinteger (s32 low)
  else if type =? PBC_REAL then match v with PF f => lua_pushnumber f | _ => lift (Fault BadRead) end
  else if type =? PBC_BOOL then lua! (low, _) <- word_of v; lua_pushboolean low
  else if type =? PBC_ENUM then match v with PE _ name => lua_pushstring name | _ => lift (Fault BadRead) end
  else if (type =? PBC_BYTES) || (type =? PBC_STRING) then
    match v with PS s => lua_pushlstring (PMem s) (zlen s) | _ => lift (Fault BadRead) end
  else if type =? PBC_MESSAGE then
    match v with
    | PS s =>
        run! lua_pushvalue (-3);
        run! lua_pushstring (Some (type_text type_name));
        run! lua_pushlstring (PMem s) (zlen s);
        lua_call_2_1
    | _ => lift (Fault BadRead)
    end
  else if type =? PBC_FIXED64 then
    lua! (low, hi) <- word_of v; lua_pushlstring (PMem (le_split 4 low ++ le_split 4 hi)) 8
  else if type =? PBC_FIXED32 then lua! (low, _) <- word_of v; lua_pushlightuserdata (PInt low)
  else if type =? PBC_INT64 then lua! (low, hi) <- word_of v; lua_pushnumber (dbl_of_Z (s64 (join64 low hi)))
  else if type =? PBC_UINT then lua! (low, hi) <- word_of v; lua_pushnumber (dbl_of_Z (join64 low hi))
  else luaL_error "Unknown type".

(** -3 function decode, -2 table key, -1 table id *)
Definition decode_cb (ev : event) : lua unit :=
  match ev_key ev with
  | None => lret ()
  | Some key =>
      if negb (Z.land (ev_type ev) PBC_REPEATED =? 0) then
        run! push_value (Z.land (ev_type ev) (Z.lnot PBC_REPEATED)) (ev_type_name ev) (ev_value ev);
        run! new_array (ev_id ev) key;
        lua! n <- lua_rawlen (-1);
        run! lua_insert (-2);
        run! lua_rawseti (-2) (n + 1);
        lua_pop 1
      else
        run! push_value (ev_type ev) (ev_type_name ev) (ev_value ev);
        lua_setfield (-3) key
  end.

(** The calls [pbc_decode] makes. *)
Fixpoint callbacks (evs : list event) : lua unit :=
  match evs with
  | [] => lret ()
  | ev :: rest => run! decode_cb ev; callbacks rest
  end.

Definition _decode : lua Z :=
  lua! env <- checkuserdata 1;
  lua! f <- index2addr 2;
  run! match f with LFun _ => lret () | _ => tag_error end;
  lua! t <- index2addr 3;
  run! match t with LTab _ => lret () | _ => tag_error end;
  lua! type <- luaL_checkstring 4;
  lua! v <- index2addr 5;
  lua! slice <- match v with
                | LStr s => lret s
                | _ => lua! p <- checkuserdata 5; lua! len <- luaL_checkinteger 6; slice_at p (s32 len)
                end;
  run! lua_pushvalue 2;
  run! lua_pushvalue 3;
  run! lua_newtable;
  lua! e <- env_at env;
  lua! w <- get_world e;
  lua! (n, evs, err) <- lift (pbc_decode f2d (wd_env w) type slice stk);
  run! put_world e (note_error w err);
  run! callbacks evs;
  run! lua_pushboolean (if n <? 0 then 0 else 1);
  lret 1.

End Decode.

(** ** Arrays *)

(** The table with the values at [i], [i + 1], ... *)
Fixpoint array_from (i : Z) (l : list lvalue) : ltable :=
  match l with
  | [] => ∅
  | v :: l' => <[inr i := v]> (array_from (i + 1) l')
  end.

Definition array_table (l : list lvalue) : ltable := array_from 1 l.

Lemma array_from_snoc i l v : array_from i (l ++ [v]) = <[inr (i + zlen l) := v]> (array_from i l).
Proof.
  revert i; induction l as [|x l IH]; intros i; cbn [app array_from].
  - by rewrite zlen_nil, Z.add_0_r.
  - rewrite IH, zlen_cons, insert_insert_ne by (pose proof (zlen_nonneg l); intros [=]; lia). do 2 f_equal. lia.
Qed.

Lemma array_from_lookup i l k : i <= k → array_from i l !! inr k = l !! Z.to_nat (k - i).
Proof.
  revert i; induction l as [|x l IH]; intros i Hk; cbn [array_from]; [done|].
  destruct (decide (k = i)) as [->|Hne].
  - by rewrite lookup_insert_eq, Z.sub_diag.
  - rewrite lookup_insert_ne by congruence. rewrite IH by lia.
    replace (Z.to_nat (k - i)) with (S (Z.to_nat (k - (i + 1)))) by lia. done.
Qed.

Lemma array_from_below i l k : k < i → array_from i l !! inr k = None.
Proof.
  revert i; induction l as [|x l IH]; intros i Hk; cbn [array_from]; [done|].
  rewrite lookup_insert_ne by (intros [=]; lia). apply IH. lia.
Qed.

(** The only border of an array is its length. *)
Lemma array_border l n : LNil ∉ l → border (array_table l) n → n = zlen l.
Proof.
  intros Hnn (Hn & Hlast & Hnext). unfold array_table, tget in *. rewrite array_from_lookup in Hnext by lia.
  replace (n + 1 - 1) with n in Hnext by lia. unfold zlen.
  destruct (l !! Z.to_nat n) as [v|] eqn:E; cbn in Hnext.
  { subst. by apply list_elem_of_lookup_2 in E. }
  apply lookup_ge_None in E. destruct (decide (n = 0)) as [->|Hn0]; [destruct l; cbn in *; lia|].
  destruct Hlast as [?|Hlast]; [done|]. rewrite array_from_lookup in Hlast by lia.
  destruct (l !! Z.to_nat (n - 1)) eqn:E'; [|done]. apply lookup_lt_Some in E'. lia.
Qed.

(** ** One event *)

(** The Lua value of a field that is not a message. *)
Definition scalar_value (type : Z) (v : pbc_value) : option lvalue :=
  match v with
  | PI low hi =>
      if type =? PBC_INT then Some (LNum (dbl_of_Z (s32 low)))
      else if type =? PBC_BOOL then Some (LBool (negb (low =? 0)))
      else if type =? PBC_FIXED64 then Some (LStr (le_split 4 low ++ le_split 4 hi))
      else if type =? PBC_FIXED32 then Some (LLight (PInt low))
      else if type =? PBC_INT64 then Some (LNum (dbl_of_Z (s64 (join64 low hi))))
      else if type =? PBC_UINT then Some (LNum (dbl_of_Z (join64 low hi)))
      else None
  | PF f => if type =? PBC_REAL then Some (LNum f) else None
  | PE _ name => if type =? PBC_ENUM then LStr <$> name else None
  | PS s => if (type =? PBC_BYTES) || (type =? PBC_STRING) then Some (LStr s) else None
  end.

Definition ev_repeated (ev : event) : bool := negb (Z.land (ev_type ev) PBC_REPEATED =? 0).

Definition ev_lvalue (ev : event) : option lvalue :=
  scalar_value (if ev_repeated ev then Z.land (ev_type ev) (Z.lnot PBC_REPEATED) else ev_type ev) (ev_value ev).

Section Events.
Context `{Lua} (lua_function : lvalue → list lvalue → lua lvalue).
Implicit Types (st : list lvalue) (tb : list ltable) (c : cstate).

Lemma scalar_not_nil type v lv : scalar_value type v = Some lv → lv ≠ LNil.
Proof. unfold scalar_value. destruct v as [| | |? [|]]; repeat case_if; intros [=]; by subst. Qed.

Lemma push_scalar type name v lv st tb c : scalar_value type v = Some lv →
  push_value lua_function type name v (LState st tb c) = Done (LState (lv :: st) tb c, inl ()).
Proof.
  intros Hv. unfold push_value, scalar_value in *. destruct v as [low hi|f|s|id [name'|]];
    repeat (match type of Hv with context [type =? ?b] => destruct (Z.eqb_spec type b) as [->|]; cbn -[le_split] in Hv end);
    try discriminate Hv; injection Hv as <-; cbn; try done; unfold lua_pushlstring; by rewrite copy_mem_all.
Qed.

(** A single field is stored under its name. *)
Lemma cb_single ev key lv st tb c f i t x : ev_key ev = Some key → ev_repeated ev = false → ev_lvalue ev = Some lv →
  tb !! t = Some x →
  decode_cb lua_function ev (LState (LTab i :: LTab t :: f :: st) tb c)
  = Done (LState (LTab i :: LTab t :: f :: st) (<[t := <[inl key := lv]> x]> tb) c, inl ()).
Proof.
  intros Hk Hr Hv Ht. unfold decode_cb, ev_lvalue in *. rewrite Hk. fold (ev_repeated ev). rewrite Hr in *.
  erewrite lbind_done by (by apply push_scalar). unfold lua_setfield. erewrite (raw_set_top _ _ _ _ (-3) 2) by done.
  do 4 f_equal. unfold tset. apply scalar_not_nil in Hv. by destruct lv.
Qed.

(** The end of an array that is on the top, below the new value. *)
Lemma cb_append st tb c lv a l : tb !! a = Some (array_table l) → LNil ∉ l → lv ≠ LNil →
  (lua! n <- lua_rawlen (-1); run! lua_insert (-2); run! lua_rawseti (-2) (n + 1); lua_pop 1) (LState (LTab a :: lv :: st) tb c)
  = Done (LState st (<[a := array_table (l ++ [lv])]> tb) c, inl ()).
Proof.
  intros Ha Hnn Hv. erewrite lbind_done by (by eapply (rawlen_top _ _ _ (-1) 0)).
  rewrite (array_border l _ Hnn (luaH_getn_border (array_table l))).
  erewrite lbind_done by done. cbn [length Nat.ltb Nat.leb take drop app].
  erewrite lbind_done by (by eapply (raw_set_top _ _ _ _ (-2) 1)). rewrite pop_1. do 4 f_equal.
  unfold array_table. rewrite array_from_snoc, Z.add_comm. unfold tset. by destruct lv.
Qed.

(** An element of a repeated field whose array exists. *)
Lemma cb_repeated ev key lv st tb c f i t ti a l : ev_key ev = Some key → ev_repeated ev = true → ev_lvalue ev = Some lv →
  tb !! i = Some ti → tget ti (inr (ev_id ev)) = LTab a → tb !! a = Some (array_table l) → LNil ∉ l →
  decode_cb lua_function ev (LState (LTab i :: LTab t :: f :: st) tb c)
  = Done (LState (LTab i :: LTab t :: f :: st) (<[a := array_table (l ++ [lv])]> tb) c, inl ()).
Proof.
  intros Hk Hr Hv Hi Hid Ha Hnn. unfold decode_cb, ev_lvalue in *. rewrite Hk. fold (ev_repeated ev). rewrite Hr in *. cbn [negb].
  erewrite lbind_done by (by apply push_scalar). erewrite lbind_done.
  2: { unfold new_array. erewrite lbind_done by (by eapply (rawgeti_top _ _ _ (-2) _ 1)). rewrite Hid. reflexivity. }
  eapply cb_append; [done | done | by eapply scalar_not_nil].
Qed.

(** The first element of a repeated field. *)
Lemma cb_repeated_first ev key lv st tb c f i t ti x : ev_key ev = Some key → ev_repeated ev = true → ev_lvalue ev = Some lv →
  i ≠ t → tb !! i = Some ti → tb !! t = Some x → tget ti (inr (ev_id ev)) = LNil →
  decode_cb lua_function ev (LState (LTab i :: LTab t :: f :: st) tb c)
  = let a := LTab (length tb) in
    Done (LState (LTab i :: LTab t :: f :: st)
            (<[i := <[inr (ev_id ev) := a]> ti]> (<[t := <[inl key := a]> x]> tb) ++ [array_table [lv]]) c, inl ()).
Proof.
  intros Hk Hr Hv Hit Hi Ht Hid. unfold decode_cb, ev_lvalue in *. rewrite Hk. fold (ev_repeated ev). rewrite Hr in *. cbn [negb].
  pose proof (lookup_lt_Some _ _ _ Hi) as Hil. pose proof (lookup_lt_Some _ _ _ Ht) as Htl.
  erewrite lbind_done by (by apply push_scalar). erewrite lbind_done.
  2: { unfold new_array. erewrite lbind_done by (by eapply (rawgeti_top _ _ _ (-2) _ 1)). rewrite Hid.
       erewrite lbind_done by done. cbn [negb]. erewrite lbind_done by apply pop_1. erewrite lbind_done by done.
       cbn [l_tables l_stack l_c]. erewrite lbind_done by done. erewrite lbind_done by done.
       cbn [l_tables l_stack l_c]. unfold lua_setfield. erewrite lbind_done.
       2: { apply (raw_set_top _ _ _ _ (-6) 5 _ t x); [done | done | by rewrite lookup_app_l]. }
       unfold lua_rawseti. apply (raw_set_top _ _ _ _ (-4) 3 _ i ti); [done | done |].
       rewrite list_lookup_insert_ne by done. by rewrite lookup_app_l. }
  rewrite (cb_append _ _ _ _ (length tb) []); [..|set_solver | by eapply scalar_not_nil].
  - cbv zeta. do 3 f_equal. cbn [tset]. rewrite !insert_app_l by (rewrite ?length_insert; done).
    rewrite insert_app_r_alt by (by rewrite !length_insert). by rewrite !length_insert, Nat.sub_diag.
  - rewrite !list_lookup_insert_ne by lia. by rewrite lookup_app_r, Nat.sub_diag by done.
Qed.

End Events.

(** ** All events *)

Definition ev_ok (ev : event) : Prop := is_Some (ev_key ev) ∧ is_Some (ev_lvalue ev).

(** Events with one id have one name and are all repeated or all single. *)
Definition consistent (evs : list event) : Prop :=
  ∀ e1 e2, e1 ∈ evs → e2 ∈ evs →
    (ev_id e1 = ev_id e2 ↔ ev_key e1 = ev_key e2) ∧ (ev_id e1 = ev_id e2 → ev_repeated e1 = ev_repeated e2).

Definition ev_val (ev : event) : lvalue := default LNil (ev_lvalue ev).

Definition field_events (key : list Z) (evs : list event) : list event := filter (λ e, ev_key e = Some key) evs.

(** The elements of the repeated field [id]. *)
Definition elements (id : Z) (evs : list event) : list lvalue :=
  ev_val <$> filter (λ e, ev_id e = id ∧ ev_repeated e = true) evs.

(** What a name maps to when the array of the field [id] is the table [arr id]. *)
Definition field_content (arr : gmap Z nat) (x0 : ltable) (key : list Z) (evs : list event) : option lvalue :=
  match last (field_events key evs) with
  | None => x0 !! inl key
  | Some e => if ev_repeated e then LTab <$> arr !! ev_id e else ev_lvalue e
  end.

(** The tables after the events [evs], starting from [tb0] with the target [t]
    and the empty table [i] of ids. *)
Record filled (tb0 : list ltable) (i t : nat) (x0 : ltable) (evs : list event) (tb : list ltable) (arr : gmap Z nat) : Prop := {
  fl_len : (length tb0 ≤ length tb)%nat;
  fl_id : ∃ ti, tb !! i = Some ti ∧ ∀ id, tget ti (inr id) = match arr !! id with Some a => LTab a | None => LNil end;
  fl_arr : ∀ id a, arr !! id = Some a → (length tb0 ≤ a)%nat ∧ tb !! a = Some (array_table (elements id evs));
  fl_inj : ∀ id1 id2 a, arr !! id1 = Some a → arr !! id2 = Some a → id1 = id2;
  fl_dom : ∀ id, arr !! id = None → elements id evs = [];
  fl_key : ∃ x, tb !! t = Some x ∧ (∀ n, x !! inr n = x0 !! inr n) ∧ ∀ key, x !! inl key = field_content arr x0 key evs;
  fl_old : ∀ j, (j < length tb0)%nat → j ≠ i → j ≠ t → tb !! j = tb0 !! j }.

Lemma field_events_snoc key evs ev :
  field_events key (evs ++ [ev]) = field_events key evs ++ (if decide (ev_key ev = Some key) then [ev] else []).
Proof. unfold field_events. by rewrite filter_app, filter_cons, filter_nil. Qed.

Lemma elements_snoc id evs ev :
  elements id (evs ++ [ev]) = elements id evs ++ (if decide (ev_id ev = id ∧ ev_repeated ev = true) then [ev_val ev] else []).
Proof. unfold elements. rewrite filter_app, fmap_app, filter_cons, filter_nil. f_equal. by case_decide. Qed.

Lemma field_content_snoc arr x0 key evs ev : field_content arr x0 key (evs ++ [ev]) =
  if decide (ev_key ev = Some key) then (if ev_repeated ev then LTab <$> arr !! ev_id ev else ev_lvalue ev)
  else field_content arr x0 key evs.
Proof.
  unfold field_content. rewrite field_events_snoc. destruct (decide _); [by rewrite last_snoc | by rewrite app_nil_r].
Qed.

Lemma elements_not_nil id evs : Forall ev_ok evs → LNil ∉ elements id evs.
Proof.
  intros Hok Hin. unfold elements in Hin. apply list_elem_of_fmap in Hin as (e & He & Hin). apply list_elem_of_filter in Hin as [_ Hin].
  rewrite Forall_forall in Hok. destruct (Hok e Hin) as [_ [lv Hlv]]. unfold ev_val in He. rewrite Hlv in He. cbn in He.
  unfold ev_lvalue in Hlv. by apply scalar_not_nil in Hlv.
Qed.

(** Events of other fields do not see the arrays of a new field. *)
Lemma field_content_arr arr arr' x0 key evs :
  (∀ e, e ∈ evs → ev_key e = Some key → ev_repeated e = true → arr' !! ev_id e = arr !! ev_id e) →
  field_content arr' x0 key evs = field_content arr x0 key evs.
Proof.
  intros Ha. unfold field_content. destruct (last (field_events key evs)) as [e|] eqn:E; [|done].
  apply last_Some_elem_of in E. unfold field_events in E. apply list_elem_of_filter in E as [Hk Hin].
  destruct (ev_repeated e) eqn:Er; [|done]. by rewrite (Ha e).
Qed.

Section Fill.
Context `{Lua} (lua_function : lvalue → list lvalue → lua lvalue).
Context (tb0 : list ltable) (i t : nat) (x0 : ltable) (Hit : i ≠ t) (Hi0 : (i < length tb0)%nat) (Ht0 : (t < length tb0)%nat).

(** A single field changes only the target. *)
Lemma filled_single evs ev key lv tb arr x :
  filled tb0 i t x0 evs tb arr → tb !! t = Some x → ev_key ev = Some key → ev_repeated ev = false → ev_lvalue ev = Some lv →
  filled tb0 i t x0 (evs ++ [ev]) (<[t := <[inl key := lv]> x]> tb) arr.
Proof.
  intros [Hlen (ti & Hti & Hid) Harr Hinj Hdom (x' & Hx & Hn & Hkey) Hold] Hx' Hk Hr Hv. assert (x' = x) as -> by congruence.
  assert (∀ id, elements id (evs ++ [ev]) = elements id evs) as Hel.
  { intros id. rewrite elements_snoc. rewrite decide_False by (rewrite Hr; naive_solver). by rewrite app_nil_r. }
  constructor.
  - by rewrite length_insert.
  - exists ti. split; [|done]. by rewrite list_lookup_insert_ne by done.
  - intros id a Ha. destruct (Harr id a Ha) as [Hle Hta]. split; [done|].
    rewrite list_lookup_insert_ne by lia. by rewrite Hel.
  - done.
  - intros id Hid'. rewrite Hel. auto.
  - exists (<[inl key := lv]> x). rewrite list_lookup_insert_eq by lia. split; [done|]. split.
    + intros n. by rewrite lookup_insert_ne by done.
    + intros k. rewrite field_content_snoc, Hk, Hr. destruct (decide (Some key = Some k)) as [[= ->]|Hne].
      * by rewrite lookup_insert_eq.
      * rewrite lookup_insert_ne by congruence. apply Hkey.
  - intros j Hj Hji Hjt. rewrite list_lookup_insert_ne by done. auto.
Qed.

(** A further element changes only its array. *)
Lemma filled_append evs ev key lv tb arr a :
  filled tb0 i t x0 evs tb arr → consistent (evs ++ [ev]) → arr !! ev_id ev = Some a → elements (ev_id ev) evs ≠ [] →
  ev_key ev = Some key → ev_repeated ev = true → ev_lvalue ev = Some lv →
  filled tb0 i t x0 (evs ++ [ev]) (<[a := array_table (elements (ev_id ev) evs ++ [lv])]> tb) arr.
Proof.
  intros [Hlen (ti & Hti & Hid) Harr Hinj Hdom (x & Hx & Hn & Hkey) Hold] Hcons Ha Hne Hk Hr Hv.
  destruct (Harr _ _ Ha) as [Hle Hta]. constructor.
  - by rewrite length_insert.
  - exists ti. split; [|done]. by rewrite list_lookup_insert_ne by lia.
  - intros id a' Ha'. destruct (Harr id a' Ha') as [Hle' Hta']. split; [done|]. rewrite elements_snoc.
    destruct (decide (ev_id ev = id ∧ _)) as [[<- _]|Hn'].
    + simplify_eq. rewrite list_lookup_insert_eq by (by eapply lookup_lt_Some). unfold ev_val. by rewrite Hv.
    + rewrite app_nil_r, list_lookup_insert_ne; [done|]. intros ->. apply Hn'. split; [|done]. by eapply Hinj.
  - done.
  - intros id Hid'. rewrite elements_snoc, decide_False, app_nil_r; [auto|]. intros [<- _]. congruence.
  - exists x. rewrite list_lookup_insert_ne by lia. split; [done|]. split; [done|].
    intros k. rewrite field_content_snoc, Hk, Hr. destruct (decide (Some key = Some k)) as [[= ->]|_]; [|done].
    rewrite Hkey. unfold field_content.
    destruct (last (field_events k evs)) as [e|] eqn:El.
    + apply last_Some_elem_of in El. unfold field_events in El. apply list_elem_of_filter in El as [Hke Hin].
      destruct (Hcons e ev ltac:(set_solver) ltac:(set_solver)) as [Hiff Hrep].
      assert (ev_id e = ev_id ev) as E by (apply Hiff; congruence). by rewrite Hrep, Hr, E.
    + exfalso. apply last_None in El. apply Hne. unfold elements.
      destruct (filter _ evs) as [|e l] eqn:Ef; [done|].
      assert (e ∈ filter (λ e, ev_id e = ev_id ev ∧ ev_repeated e = true) evs) as Hin by (rewrite Ef; set_solver).
      apply list_elem_of_filter in Hin as [[He _] Hin].
      destruct (Hcons e ev ltac:(set_solver) ltac:(set_solver)) as [Hiff _]. apply Hiff in He.
      assert (e ∈ field_events k evs) as Hc by (unfold field_events; apply list_elem_of_filter; split; [congruence | done]).
      rewrite El in Hc. set_solver.
  - intros j Hj Hji Hjt. rewrite list_lookup_insert_ne by lia. auto.
Qed.

(** A first element makes a new array. *)
Lemma filled_first evs ev key lv tb arr x ti :
  filled tb0 i t x0 evs tb arr → consistent (evs ++ [ev]) → arr !! ev_id ev = None → tb !! i = Some ti → tb !! t = Some x →
  ev_key ev = Some key → ev_repeated ev = true → ev_lvalue ev = Some lv →
  filled tb0 i t x0 (evs ++ [ev])
    (<[i := <[inr (ev_id ev) := LTab (length tb)]> ti]> (<[t := <[inl key := LTab (length tb)]> x]> tb) ++ [array_table [lv]])
    (<[ev_id ev := length tb]> arr).
Proof.
  intros [Hlen (ti' & Hti & Hid) Harr Hinj Hdom (x' & Hx & Hn & Hkey) Hold] Hcons Ha Hti' Hx' Hk Hr Hv.
  assert (x' = x) as -> by congruence. assert (ti' = ti) as -> by congruence.
  assert (∀ id a, arr !! id = Some a → a ≠ length tb) as Hfresh.
  { intros id a Hia ->. destruct (Harr _ _ Hia) as [_ Hl]. by rewrite lookup_ge_None_2 in Hl. }
  constructor.
  - rewrite length_app, !length_insert. lia.
  - exists (<[inr (ev_id ev) := LTab (length tb)]> ti). rewrite lookup_app_l by (rewrite !length_insert; lia).
    rewrite list_lookup_insert_eq by (rewrite length_insert; lia). split; [done|]. intros id. unfold tget.
    destruct (decide (id = ev_id ev)) as [->|Hne]; [by rewrite !lookup_insert_eq|].
    rewrite !lookup_insert_ne by congruence. apply Hid.
  - intros id a. destruct (decide (id = ev_id ev)) as [->|Hne].
    + rewrite lookup_insert_eq. intros [= <-]. split; [done|]. rewrite lookup_app_r by (by rewrite !length_insert).
      rewrite !length_insert, Nat.sub_diag. cbn. rewrite elements_snoc, (Hdom _ Ha), decide_True by done. unfold ev_val. by rewrite Hv.
    + rewrite lookup_insert_ne by done. intros Hia. destruct (Harr id a Hia) as [Hle Hta]. split; [done|].
      rewrite lookup_app_l by (rewrite !length_insert; by eapply lookup_lt_Some). rewrite !list_lookup_insert_ne by lia.
      rewrite elements_snoc, decide_False, app_nil_r; [done | naive_solver].
  - intros id1 id2 a. destruct (decide (id1 = ev_id ev)) as [->|H1], (decide (id2 = ev_id ev)) as [->|H2];
      rewrite ?lookup_insert_eq, ?lookup_insert_ne by done; intros E1 E2; simplify_eq; try done.
    + by apply Hfresh in E2.
    + by apply Hfresh in E1.
    + by eapply Hinj.
  - intros id. destruct (decide (id = ev_id ev)) as [->|Hne]; [by rewrite lookup_insert_eq|].
    rewrite lookup_insert_ne by done. intros Hia. rewrite elements_snoc, decide_False, app_nil_r; [auto | naive_solver].
  - exists (<[inl key := LTab (length tb)]> x). rewrite lookup_app_l by (rewrite !length_insert; lia).
    rewrite list_lookup_insert_ne by done. rewrite list_lookup_insert_eq by lia. split; [done|]. split.
    + intros n. by rewrite lookup_insert_ne by done.
    + intros k. rewrite field_content_snoc, Hk, Hr, lookup_insert_eq. destruct (decide (Some key = Some k)) as [[= ->]|Hne].
      * by rewrite lookup_insert_eq.
      * rewrite lookup_insert_ne by congruence. rewrite Hkey. symmetry. apply field_content_arr. intros e Hin Hke _.
        rewrite lookup_insert_ne; [done|]. intros E. destruct (Hcons e ev ltac:(set_solver) ltac:(set_solver)) as [Hiff _].
        assert (ev_key e = ev_key ev) by (by apply Hiff). congruence.
  - intros j Hj Hji Hjt. rewrite lookup_app_l by (rewrite !length_insert; lia). rewrite !list_lookup_insert_ne by done. auto.
Qed.

Lemma callbacks_filled evs : ∀ pre tb arr f st c, filled tb0 i t x0 pre tb arr → (∀ id a, arr !! id = Some a → elements id pre ≠ []) →
  Forall ev_ok (pre ++ evs) → consistent (pre ++ evs) →
  ∃ tb' arr', callbacks lua_function evs (LState (LTab i :: LTab t :: f :: st) tb c) = Done (LState (LTab i :: LTab t :: f :: st) tb' c, inl ())
    ∧ filled tb0 i t x0 (pre ++ evs) tb' arr'.
Proof.
  induction evs as [|ev evs IH]; intros pre tb arr f st c Hf Hne Hok Hcons; cbn [callbacks].
  { exists tb, arr. by rewrite app_nil_r. }
  assert (ev_ok ev) as [[key Hk] [lv Hv]] by (rewrite Forall_forall in Hok; apply Hok; set_solver).
  assert (consistent (pre ++ [ev])) as Hc1 by (intros e1 e2 H1 H2; apply Hcons; set_solver).
  assert (∃ tb1 arr1, decode_cb lua_function ev (LState (LTab i :: LTab t :: f :: st) tb c) = Done (LState (LTab i :: LTab t :: f :: st) tb1 c, inl ())
    ∧ filled tb0 i t x0 (pre ++ [ev]) tb1 arr1 ∧ (∀ id a, arr1 !! id = Some a → elements id (pre ++ [ev]) ≠ [])) as (tb1 & arr1 & Hcb & Hf1 & Hne1).
  2: { erewrite lbind_done by exact Hcb. rewrite (cons_middle ev), app_assoc in Hok, Hcons |- *. by eapply IH. }
  pose proof Hf as [_ (ti & Hti & Hid) Harr _ _ (x & Hx & _) _]. destruct (ev_repeated ev) eqn:Hr.
  - destruct (arr !! ev_id ev) as [a|] eqn:Ea.
    + destruct (Harr _ _ Ea) as [_ Hta]. eexists _, _. split_and!.
      * eapply cb_repeated; try done; [by rewrite Hid, Ea|]. apply elements_not_nil. by apply Forall_app in Hok as [? _].
      * eapply filled_append; eauto.
      * intros id a' Ha'. rewrite elements_snoc. intros E. apply app_nil in E as [E _]. by eapply Hne.
    + eexists _, _. split_and!.
      * eapply cb_repeated_first; try done. by rewrite Hid, Ea.
      * by eapply filled_first.
      * intros id a'. rewrite elements_snoc. destruct (decide (ev_id ev = id)) as [->|Hn].
        -- rewrite decide_True by done. intros _ E. apply app_nil in E as [_ E]. done.
        -- rewrite lookup_insert_ne by done. intros Ha' E. apply app_nil in E as [E _]. by eapply Hne.
  - eexists _, _. split_and!; [by eapply cb_single | by eapply filled_single|].
    intros id a Ha. rewrite elements_snoc. intros E. apply app_nil in E as [E _]. by eapply Hne.
Qed.

End Fill.
