(* ===== verification/LuaPattern.v ===== *)
(** * Patterns from Lua ([_pattern_*] of [3rd/pbc/binding/lua/pbc-lua.c])

    [_pattern_pack] lays its arguments out in a struct on the stack, one letter of
    a format per argument, and packs the struct; [_pattern_unpack] unpacks into
    such a struct and pushes its members.  The struct is the memory of [CMem]. *)

From S2P Require Import Prelude Varint PArray SpMap StringPool Context Proto Wmessage Decode CMem Pattern PatternNew Double LuaApi PbcLua.

(** The letters, by their codes. *)
Definition ch (s : string) : Z := default 0 (head (lit s)).

Definition lower (c : Z) : bool := (ch "a" <=? c) && (c <=? ch "z").

Definition sizeof_slice : Z := 16.

Section Patterns.
Context `{Lua} (junk : nat → Z) (d2f f2d : Z → Z) (stk : Z → list Z).

(** [lua_pushlightuserdata] of the pattern; Lua passes no variable arguments. *)
Definition _pattern_new : lua Z :=
  lua! env <- checkuserdata 1;
  lua! message <- luaL_checkstring 2;
  lua! format <- luaL_checkstring 3;
  lua! e <- env_at env;
  lua! w <- get_world e;
  lua! (pat, err) <- lift (pbc_pattern_new junk (wd_env w) message format []);
  let w := note_error w err in
  match pat with
  | None => run! put_world e w; luaL_error "create patten failed"
  | Some pat =>
      run! put_world e (World (wd_env w) (wd_wm w) (wd_rm w) (wd_pat w ++ [Some pat]));
      run! lua_pushlightuserdata (PPat e (length (wd_pat w)));
      lret 1
  end.

(** [free(pat)] *)
Definition pbc_pattern_delete (p : ptr) : lua unit :=
  match p with
  | PInt 0 => lret ()
  | PPat e i =>
      lua! w <- get_world e;
      match wd_pat w !! i with
      | Some (Some _) => put_world e (World (wd_env w) (wd_wm w) (wd_rm w) (<[i := None]> (wd_pat w)))
      | _ => lift (Fault NullDeref)
      end
  | _ => lift (Fault BadRead)
  end.

Definition _pattern_delete : lua Z :=
  lua! pat <- lua_touserdata 1;
  run! pbc_pattern_delete pat;
  lret 0.

(** ** Members to values *)

(** A [struct pbc_slice] of the struct. *)
Definition load_slice (m : mem) (off : Z) : outcome (option (list Z) * Z) :=
  do! p <- load_ptr m off; do! n <- load_int 4 m (off + 8); Done (p, s32 n).

(** [{ buffer, len }] *)
Definition push_slice_table (p : option (list Z)) (len : Z) : lua unit :=
  run! lua_newtable;
  run! lua_pushlightuserdata (mem_ptr p);
  run! lua_rawseti (-2) 1;
  run! lua_pushinteger len;
  lua_rawseti (-2) 2.

(** The new [ptr]; nothing is pushed for a letter that is not listed. *)
Definition _push_value (m : mem) (ptr : Z) (type : Z) : lua Z :=
  if type =? ch "u" then lua! v <- lift (load_int 8 m ptr); run! lua_pushnumber (dbl_of_Z v); lret (ptr + 8)
  else if type =? ch "i" then lua! v <- lift (load_int 4 m ptr); run! lua_pushinteger (s32 v); lret (ptr + 4)
  else if type =? ch "b" then lua! v <- lift (load_int 4 m ptr); run! lua_pushboolean (s32 v); lret (ptr + 4)
  else if type =? ch "p" then lua! v <- lift (load_int 4 m ptr); run! lua_pushlightuserdata (PInt v); lret (ptr + 4)
  else if type =? ch "x" then
    lua! v <- lift (load_int 8 m ptr); run! lua_pushlstring (PMem (le_split 8 v)) 8; lret (ptr + 8)
  else if type =? ch "d" then lua! v <- lift (load_int 8 m ptr); run! lua_pushnumber (dbl_of_Z (s64 v)); lret (ptr + 8)
  else if type =? ch "r" then lua! v <- lift (load_int 8 m ptr); run! lua_pushnumber v; lret (ptr + 8)
  else if type =? ch "s" then
    lua! (p, len) <- lift (load_slice m ptr); run! lua_pushlstring (mem_ptr p) len; lret (ptr + sizeof_slice)
  else if type =? ch "m" then
    lua! (p, len) <- lift (load_slice m ptr); run! push_slice_table p len; lret (ptr + sizeof_slice)
  else lret ptr.

(** [slice->buffer] and [slice->len] for [slice = pbc_array_slice(array, index)]. *)
Definition array_slice (a : array pbc_var) (index : Z) : outcome (option (list Z) * Z) :=
  do! p <- pbc_array_slice a index;
  match p with
  | None => Fault NullDeref
  | Some i =>
      do! v <- _pbcA_index a i;
      match v with
      | VSlice p len => Done (p, len)
      | VStr s len => Done (Some (s ++ [0]), len)
      | _ => Fault BadRead
      end
  end.

Definition _push_array (a : array pbc_var) (type index : Z) : lua unit :=
  run! (if type =? ch "I" then lua! (v, _) <- lift (pbc_array_integer a index false); lua_pushinteger (s32 v)
        else if type =? ch "U" then
          lua! (low, hi) <- lift (pbc_array_integer a index true); lua_pushnumber (dbl_of_Z (join64 low (default 0 hi)))
        else if type =? ch "D" then
          lua! (low, hi) <- lift (pbc_array_integer a index true); lua_pushnumber (dbl_of_Z (s64 (join64 low (default 0 hi))))
        else if type =? ch "B" then lua! (v, _) <- lift (pbc_array_integer a index false); lua_pushboolean (s32 v)
        else if type =? ch "P" then lua! (v, _) <- lift (pbc_array_integer a index false); lua_pushlightuserdata (PInt v)
        else if type =? ch "X" then
          lua! (low, hi) <- lift (pbc_array_integer a index true);
          lua_pushlstring (PMem (le_split 8 (join64 low (default 0 hi)))) 8
        else if type =? ch "R" then lua! v <- lift (pbc_array_real a index); lua_pushnumber v
        else if type =? ch "S" then lua! (p, len) <- lift (array_slice a index); lua_pushlstring (mem_ptr p) len
        else if type =? ch "M" then lua! (p, len) <- lift (array_slice a index); push_slice_table p len
        else lret ());
  lua_rawseti (-2) (index + 1).

(** One letter of the format; [ptr] and whether there was an array. *)
Definition push_member (m : mem) (type : Z) (s : Z * bool) : lua (Z * bool) :=
  let '(ptr, array) := s in
  if lower type then lua! ptr <- _push_value m ptr type; lret (ptr, array)
  else
    lua! a <- lift (load_array m ptr);
    run! lua_newtable;
    run! lfor (Z.to_nat (pbc_array_size a)) 0 (λ j _, _push_array a type j) ();
    lret (ptr + 64, true).

Fixpoint push_members (m : mem) (format : list Z) (s : Z * bool) : lua (Z * bool) :=
  match format with
  | [] => lret s
  | type :: rest => lua! s <- push_member m type s; push_members m rest s
  end.

(** [alloca(size)] *)
Definition alloca (size : Z) (b : mbyte) : outcome mem :=
  if size <? 0 then Fault OutOfBounds else Done (replicate (Z.to_nat size) b).

Definition _pattern_unpack : lua Z :=
  lua! p <- checkuserdata 1;
  lua! format <- lua_tolstring 2;
  let format := default [] format in
  lua! size <- lua_tointeger 3;
  lua! isstr <- lua_isstring 4;
  lua! slice <- (if (isstr : bool) then luaL_checklstring 4
                 else
                   lua! ud <- lua_isuserdata 4;
                   if negb ud then luaL_error "Need a userdata"
                   else lua! b <- lua_touserdata 4; lua! len <- luaL_checkinteger 5; slice_at b (s32 len));
  lua! temp <- lift (alloca (s32 size) MUndef);
  lua! (w, pat) <- get_pattern p;
  lua! (ret, temp, err) <- lift (pbc_pattern_unpack d2f f2d pat slice temp stk);
  run! match p with PPat e _ => put_world e (note_error w err) | _ => lret () end;
  if ret <? 0 then lret 0
  else
    lua! (_, array) <- push_members temp format (0, false);
    run! (if (array : bool) then lua! _ <- lift (pbc_pattern_close_arrays pat temp); lret () else lret ());
    lret (zlen format).

(** ** Values to members *)

(** The struct and the new [ptr]. *)
Definition put_int (n : nat) (v : Z) (m : mem) (ptr : Z) : lua (mem * Z) :=
  lua! m <- lift (store_int n v m ptr); lret (m, ptr + Z.of_nat n).

Definition put_pointer (p : option (list Z)) (len : Z) (m : mem) (ptr : Z) : lua (mem * Z) :=
  lua! m <- lift (store m ptr (ptr_bytes p));
  lua! m <- lift (store_int 4 (u32 len) m (ptr + 8));
  lret (m, ptr + sizeof_slice).

(** The slice [{ buffer, len }] or the string at [index]. *)
Definition get_slice (index : Z) : lua (option (list Z) * Z) :=
  lua! istab <- lua_istable index;
  if (istab : bool) then
    run! lua_rawgeti index 1;
    lua! p <- lua_touserdata (-1);
    run! lua_rawgeti (if index <? 0 then index - 1 else index) 2;
    lua! len <- lua_tointeger (-1);
    run! lua_pop 2;
    lua! b <- lift (ptr_mem p);
    lret (b, s32 len)
  else
    lua! s <- luaL_checklstring index;
    lret (Some (s ++ [0]), s32 (zlen s)).

(** Eight bytes are copied from the string whatever its length. *)
Definition _get_value (index : Z) (m : mem) (ptr : Z) (type : Z) : lua (mem * Z) :=
  if type =? ch "i" then lua! v <- luaL_checkinteger index; put_int 4 (u32 v) m ptr
  else if type =? ch "u" then lua! d <- luaL_checknumber index; lua! v <- lift (dbl_u64 d); put_int 8 v m ptr
  else if type =? ch "d" then lua! d <- luaL_checknumber index; lua! v <- lift (dbl_s64 d); put_int 8 (u64 v) m ptr
  else if type =? ch "b" then lua! b <- lua_toboolean index; put_int 4 (if (b : bool) then 1 else 0) m ptr
  else if type =? ch "p" then lua! p <- lua_touserdata index; lua! v <- lift (ptr_u32 p); put_int 4 v m ptr
  else if type =? ch "x" then
    lua! s <- luaL_checklstring index;
    lua! bs <- lift (bytes_at (s ++ [0]) 0 8);
    put_int 8 (le_join bs) m ptr
  else if type =? ch "r" then lua! d <- luaL_checknumber index; put_int 8 d m ptr
  else if type =? ch "s" then
    lua! s <- luaL_checklstring index; put_pointer (Some (s ++ [0])) (zlen s) m ptr
  else if type =? ch "m" then lua! (p, len) <- get_slice index; put_pointer p len m ptr
  else luaL_error "unknown format".

(** The element on the top of the stack. *)
Definition _get_array_value (a : array pbc_var) (type : Z) : lua (array pbc_var) :=
  if type =? ch "I" then
    lua! n <- luaL_checkinteger (-1);
    let v := s32 n in
    lift (pbc_array_push_integer a (u32 v) (if v <? 0 then 2 ^ 32 - 1 else 0))
  else if type =? ch "U" then
    lua! d <- luaL_checknumber (-1); lua! v <- lift (dbl_u64 d); lift (pbc_array_push_integer a (u32 v) (u32 (Z.shiftr v 32)))
  else if type =? ch "D" then
    lua! d <- luaL_checknumber (-1); lua! v <- lift (dbl_s64 d); lift (pbc_array_push_integer a (u32 v) (u32 (Z.shiftr v 32)))
  else if type =? ch "B" then
    lua! b <- lua_toboolean (-1); lift (pbc_array_push_integer a (if (b : bool) then 1 else 0) 0)
  else if type =? ch "P" then
    lua! p <- lua_touserdata (-1); lua! v <- lift (ptr_u32 p); lift (pbc_array_push_integer a v 0)
  else if type =? ch "X" then
    lua! s <- luaL_checklstring (-1);
    lua! bs <- lift (bytes_at (s ++ [0]) 0 8);
    let v := le_join bs in
    lift (pbc_array_push_integer a (u32 v) (u32 (Z.shiftr v 32)))
  else if type =? ch "R" then lua! d <- luaL_checknumber (-1); lift (pbc_array_push_real a d)
  else if type =? ch "S" then
    lua! s <- luaL_checklstring (-1); lift (pbc_array_push_slice a (Some (s ++ [0])) (s32 (zlen s)))
  else if type =? ch "M" then lua! (p, len) <- get_slice (-1); lift (pbc_array_push_slice a p len)
  else lret a.

(** The argument [4 + i] for one letter of the format. *)
Definition get_member (i : Z) (type : Z) (s : mem * Z) : lua (mem * Z) :=
  let '(m, ptr) := s in
  if lower type then _get_value (4 + i) m ptr type
  else
    lua! istab <- lua_istable (4 + i);
    if negb istab then luaL_error "need table for array type"
    else
      lua! n <- lua_rawlen (4 + i);
      lua! m <- lfor (Z.to_nat n) 0 (λ j m,
                  run! lua_rawgeti (4 + i) (j + 1);
                  lua! a <- lift (load_array m ptr);
                  lua! a <- _get_array_value a type;
                  lua! m <- lift (store_array a m ptr);
                  run! lua_pop 1;
                  lret m) m;
      lret (m, ptr + 64).

Fixpoint get_members (i : Z) (format : list Z) (s : mem * Z) : lua (mem * Z) :=
  match format with
  | [] => lret s
  | type :: rest => lua! s <- get_member i type s; get_members (i + 1) rest s
  end.

(** A larger buffer is tried as long as the struct does not fit; after 24
    doublings [cap] overflows. *)
Fixpoint pack_grow (fuel : nat) (pat : pbc_pattern) (data : mem) (cap : Z) : outcome (list Z) :=
  do! r <- pbc_pattern_pack d2f f2d pat data (OSlice (fresh_page junk cap) 0 cap);
  match r with
  | Some (_, s) => bytes_at (o_mem s) 0 (o_len s)
  | None =>
      match fuel with
      | O => Fault SignedOverflow
      | S fuel' => pack_grow fuel' pat data (cap * 2)
      end
  end.

Definition _pattern_pack : lua Z :=
  lua! p <- checkuserdata 1;
  lua! format <- lua_tolstring 2;
  let format := default [] format in
  lua! size <- lua_tointeger 3;
  lua! data <- lift (alloca (s32 size) (MByte 0));
  lua! (data, _) <- get_members 0 format (data, 0);
  lua! (_, pat) <- get_pattern p;
  lua! s <- lift (pack_grow 23 pat data 128);
  run! lua_pushlstring (PMem s) (zlen s);
  lua! _ <- lift (pbc_pattern_close_arrays pat data);
  lret 1.

(** ** Sizes *)

Definition member_size (c : Z) : Z :=
  if (c =? ch "b") || (c =? ch "i") || (c =? ch "p") then 4
  else if (c =? ch "r") || (c =? ch "x") || (c =? ch "u") || (c =? ch "d") then 8
  else if (c =? ch "s") || (c =? ch "m") then sizeof_slice
  else 64.

Fixpoint format_size (format : list Z) (size : Z) : Z :=
  match format with
  | [] => size
  | c :: rest => format_size rest (size + member_size c)
  end.

Definition _pattern_size : lua Z :=
  lua! format <- luaL_checklstring 1;
  run! lua_pushinteger (format_size format 0);
  lret 1.

End Patterns.
