(* ===== verification/LuaPatternRT.v ===== *)
(** * Structs from Lua to Lua ([_pattern_pack] and [_pattern_unpack])

    The arguments of [_pattern_pack] are laid out one after another in the struct,
    the struct is packed into a buffer that is doubled until it is large enough,
    and [_pattern_unpack] of the result gives the arguments back. *)

From S2P Require Import Prelude Varint PArray SpMap StringPool Context Proto Wmessage Decode CMem Pattern PatternRT PatternNew Double LuaApi PbcLua LuaPattern.

(** ** Members *)

(** A value a letter accepts, and the bytes it is in the struct. *)
Inductive member : Z → lvalue → list mbyte → Prop :=
  | MemI n : is_s32 n → member (ch "i") (LNum (dbl_of_Z n)) (int_bytes 4 (u32 n))
  | MemU n : 0 <= n <= 2 ^ 53 → member (ch "u") (LNum (dbl_of_Z n)) (int_bytes 8 n)
  | MemD n : - 2 ^ 53 <= n <= 2 ^ 53 → member (ch "d") (LNum (dbl_of_Z n)) (int_bytes 8 (u64 n))
  | MemB (b : bool) : member (ch "b") (LBool b) (int_bytes 4 (if b then 1 else 0))
  | MemP n : is_u32 n → member (ch "p") (LLight (PInt n)) (int_bytes 4 n)
  | MemX s : bytes_ok s → zlen s = 8 → member (ch "x") (LStr s) (int_bytes 8 (le_join s))
  | MemR d : is_u64 d → member (ch "r") (LNum d) (int_bytes 8 d)
  | MemS s : zlen s < 2 ^ 31 →
      member (ch "s") (LStr s) (ptr_bytes (Some (s ++ [0])) ++ int_bytes 4 (zlen s) ++ replicate 4 (MByte 0)).

Inductive members : list Z → list lvalue → list mbyte → Prop :=
  | MemNil : members [] [] []
  | MemCons c v bs fmt vs m : member c v bs → members fmt vs m → members (c :: fmt) (v :: vs) (bs ++ m).

(** The C type of the pattern's field for a letter. *)
Definition letter_ctype (c : Z) : Z :=
  if bool_decide (c ∈ [ch "i"; ch "b"; ch "p"]) then CTYPE_INT32
  else if bool_decide (c ∈ [ch "u"; ch "d"; ch "x"]) then CTYPE_INT64
  else if c =? ch "r" then CTYPE_DOUBLE
  else CTYPE_VAR.

Lemma member_letter c v bs : member c v bs → lower c = true ∧ zlen bs = member_size c ∧ zlen bs = csize (letter_ctype c) ∧ 0 < zlen bs.
Proof.
  assert (∀ n v, zlen (int_bytes n v) = Z.of_nat n) as Hi by (intros; unfold zlen; by rewrite length_int_bytes).
  destruct 1; rewrite ?zlen_app, ?Hi; split_and!; try done.
Qed.

(** The pattern has a field at the place of every member. *)
Fixpoint covers (pat : pbc_pattern) (off : Z) (fmt : list Z) : Prop :=
  match fmt with
  | [] => True
  | c :: rest => (∃ pf, pf ∈ pat ∧ pf_offset pf = off ∧ pf_ctype pf = letter_ctype c) ∧ covers pat (off + member_size c) rest
  end.

Section Pack.
Context `{Lua} (junk : nat → Z) (d2f f2d : Z → Z) (stk : Z → list Z).
Implicit Types (st : list lvalue) (tb : list ltable) (c : cstate).

(** Zero bytes of the struct are replaced by the bytes of a number. *)
Lemma put_int_here n v pre post L :
  put_int n v (pre ++ replicate n (MByte 0) ++ post) (zlen pre) L = Done (L, inl (pre ++ int_bytes n v ++ post, zlen pre + Z.of_nat n)).
Proof.
  unfold put_int, store_int, store. rewrite write_at_here by (by rewrite length_int_bytes, length_replicate). by erewrite lbind_done by done.
Qed.

Lemma put_pointer_here p len pre post L : is_u32 len →
  put_pointer p len (pre ++ replicate 16 (MByte 0) ++ post) (zlen pre) L
  = Done (L, inl (pre ++ (ptr_bytes p ++ int_bytes 4 len ++ replicate 4 (MByte 0)) ++ post, zlen pre + sizeof_slice)).
Proof.
  intros Hl. unfold put_pointer, store_int, store. rewrite u32_id by done.
  change (replicate 16 (MByte 0)) with (replicate 8 (MByte 0) ++ replicate 8 (MByte 0)). rewrite <- app_assoc.
  rewrite write_at_here by done. erewrite lbind_done by done.
  change (replicate 8 (MByte 0)) with (replicate 4 (MByte 0) ++ replicate 4 (MByte 0)).
  replace (pre ++ ptr_bytes p ++ (replicate 4 (MByte 0) ++ replicate 4 (MByte 0)) ++ post)
    with ((pre ++ ptr_bytes p) ++ replicate 4 (MByte 0) ++ (replicate 4 (MByte 0) ++ post)) by (by rewrite <- !app_assoc).
  replace (zlen pre + 8) with (zlen (pre ++ ptr_bytes p)) by (rewrite zlen_app; done).
  rewrite write_at_here by (by rewrite length_int_bytes). erewrite lbind_done by done. unfold lret. by rewrite <- !app_assoc.
Qed.

(** Each argument is laid out at [ptr]. *)
Lemma get_value_here ty v bs pre post L idx : member ty v bs → index2addr idx L = Done (L, inl v) →
  _get_value idx (pre ++ replicate (length bs) (MByte 0) ++ post) (zlen pre) ty L = Done (L, inl (pre ++ bs ++ post, zlen pre + zlen bs)).
Proof.
  intros Hm Hv. destruct (member_letter _ _ _ Hm) as (_ & Hz & _).
  assert (∀ n, tonumber v = Some n → lua_tonumberx idx L = Done (L, inl (Some n))) as Hnum.
  { intros n Hn. unfold lua_tonumberx. erewrite lbind_done by done. by rewrite Hn. }
  assert (∀ n, tonumber v = Some n → luaL_checknumber idx L = Done (L, inl n)) as Hchk.
  { intros n Hn. unfold luaL_checknumber. by erewrite lbind_done by (by apply Hnum). }
  assert (∀ s, v = LStr s → luaL_checklstring idx L = Done (L, inl s)) as Hstr.
  { intros s ->. unfold luaL_checklstring, lua_tolstring. erewrite lbind_done by (by erewrite lbind_done by done). done. }
  destruct Hm as [n Hn|n Hn|n Hn|b|n Hn|s Hs Hs8|d Hd|s Hs]; rewrite ?length_int_bytes, Hz.
  - change (_get_value idx ?m ?p (ch "i")) with (lua! v <- luaL_checkinteger idx; put_int 4 (u32 v) m p).
    erewrite lbind_done; [by rewrite put_int_here|]. unfold luaL_checkinteger, lua_tointegerx.
    erewrite (lbind_done _ _ _ _ (Some n)); [done|]. erewrite lbind_done by done. cbn [tonumber].
    rewrite dbl_s64_exact by (unfold is_s32 in Hn; lia). done.
  - change (_get_value idx ?m ?p (ch "u")) with (lua! d <- luaL_checknumber idx; lua! v <- lift (dbl_u64 d); put_int 8 v m p).
    erewrite lbind_done by (by apply Hchk). destruct (dbl_u64_exact n Hn) as [-> _]. erewrite lbind_done by done. by rewrite put_int_here.
  - change (_get_value idx ?m ?p (ch "d")) with (lua! d <- luaL_checknumber idx; lua! v <- lift (dbl_s64 d); put_int 8 (u64 v) m p).
    erewrite lbind_done by (by apply Hchk). rewrite dbl_s64_exact by done. erewrite lbind_done by done. by rewrite put_int_here.
  - change (_get_value idx ?m ?p (ch "b")) with (lua! b <- lua_toboolean idx; put_int 4 (if (b : bool) then 1 else 0) m p).
    erewrite (lbind_done _ _ _ _ b); [by rewrite put_int_here|]. unfold lua_toboolean. erewrite lbind_done by done. by destruct b.
  - change (_get_value idx ?m ?p (ch "p")) with (lua! q <- lua_touserdata idx; lua! v <- lift (ptr_u32 q); put_int 4 v m p).
    erewrite (lbind_done _ _ _ _ (PInt n)); [|unfold lua_touserdata; by erewrite lbind_done by done].
    cbn [ptr_u32]. rewrite u32_id by done. erewrite lbind_done by done. by rewrite put_int_here.
  - change (_get_value idx ?m ?p (ch "x")) with (lua! s <- luaL_checklstring idx; lua! bs <- lift (bytes_at (s ++ [0]) 0 8); put_int 8 (le_join bs) m p).
    erewrite lbind_done by (by apply Hstr). rewrite <- Hs8 at 1. rewrite (bytes_at_app [] s [0] : bytes_at (s ++ [0]) 0 (zlen s) = Done s).
    erewrite lbind_done by done. by rewrite put_int_here.
  - change (_get_value idx ?m ?p (ch "r")) with (lua! d <- luaL_checknumber idx; put_int 8 d m p).
    erewrite lbind_done by (by apply Hchk). by rewrite put_int_here.
  - change (_get_value idx ?m ?p (ch "s")) with (lua! s <- luaL_checklstring idx; put_pointer (Some (s ++ [0])) (zlen s) m p).
    erewrite lbind_done by (by apply Hstr). apply put_pointer_here. pose proof (zlen_nonneg s). unfold is_u32. lia.
Qed.

(** The argument [k] counted from 0. *)
Lemma index_args args tb c k v : args !! k = Some v →
  index2addr (Z.of_nat k + 1) (LState (rev args) tb c) = Done (LState (rev args) tb c, inl v).
Proof.
  intros Hk. pose proof (lookup_lt_Some _ _ _ Hk). apply (index_top _ _ _ _ (length args - 1 - k)).
  - unfold slot, zlen. rewrite length_rev, (proj2 (Z.ltb_lt 0 _)), (proj2 (Z.leb_le _ _)) by lia. f_equal. lia.
  - rewrite rev_alt. change (rev_append args []) with (reverse args). rewrite reverse_lookup by lia. by replace (length args - S (length args - 1 - k))%nat with k by lia.
Qed.

(** The arguments of a format are laid out one after another. *)
Lemma get_members_ok fmt vs m : members fmt vs m → ∀ pre i L,
  (∀ k v, vs !! k = Some v → index2addr (4 + i + Z.of_nat k) L = Done (L, inl v)) →
  get_members i fmt (pre ++ replicate (length m) (MByte 0), zlen pre) L = Done (L, inl (pre ++ m, zlen pre + zlen m)).
Proof.
  induction 1 as [|ty v bs fmt vs m Hm Hms IH]; intros pre i L Hidx.
  { cbn [get_members length replicate]. change (zlen []) with 0. by rewrite Z.add_0_r. }
  cbn [get_members get_member]. destruct (member_letter _ _ _ Hm) as (Hlow & _). rewrite Hlow.
  rewrite length_app, replicate_add. pose proof (Hidx 0%nat v eq_refl) as H0. rewrite Z.add_0_r in H0.
  erewrite lbind_done by (by eapply get_value_here). rewrite (app_assoc pre bs), <- zlen_app, IH.
  - by rewrite <- !app_assoc, !zlen_app, !Z.add_assoc.
  - intros k x Hk. replace (4 + (i + 1) + Z.of_nat k) with (4 + i + Z.of_nat (S k)) by lia. by apply Hidx.
Qed.

(** The buffer is doubled until the packed struct fits. *)
Lemma pack_grow_ok fuel pat m cap : Forall (field_ok d2f f2d m) pat → 0 < cap →
  let msg := chunks_bytes (struct_chunks d2f m pat) in
  zlen msg <= cap * 2 ^ Z.of_nat fuel → pack_grow junk d2f f2d fuel pat m cap = Done msg.
Proof.
  intros Hok. revert cap; induction fuel as [|fuel IH]; intros cap Hcap msg Hle; cbn [pack_grow];
    set (s := OSlice (fresh_page junk cap) 0 cap);
    assert (zlen (o_mem s) = cap) as Hz by (unfold s, zlen, fresh_page; cbn [o_mem]; rewrite length_map, length_seq; lia);
    assert (slice_in s) as Hin by (unfold slice_in; rewrite Hz; cbn; lia);
    pose proof (pattern_packs d2f f2d pat m s Hok Hin) as Hp; cbv zeta in Hp; fold msg in Hp; cbn [o_len o_pos s] in Hp;
    fold s in Hp; destruct (Z.leb_spec (zlen msg) cap) as [Hfit|Hno].
  2: { change (2 ^ Z.of_nat 0) with 1 in Hle. lia. }
  3: { rewrite Hp. cbn [obind]. apply IH; [lia|]. rewrite Nat2Z.inj_succ, Z.pow_succ_r in Hle by lia. fold msg. lia. }
  all: destruct Hp as (l & -> & Hb & Hl); cbn [obind o_mem o_len]; unfold bytes_at; pose proof (zlen_nonneg msg).
  all: rewrite Hl, Hz, !(proj2 (Z.leb_le _ _)) by lia; cbn [andb]; f_equal; exact Hb.
Qed.

Lemma close_arrays_id m pat data : Forall (field_ok d2f f2d m) pat → pbc_pattern_close_arrays pat data = Done data.
Proof. induction 1 as [|pf pat Hf _ IH]; [done|]. cbn [pbc_pattern_close_arrays]. by rewrite (not_array d2f f2d m pf Hf). Qed.

(** The load of the next number, with what is known of the field. *)
Ltac load_num Hnum n x :=
  let Hld := fresh in
  pose proof (Hnum n x ltac:(done) ltac:(done) ltac:(done)) as Hld;
  let k := eval compute in (Z.of_nat n) in change (Z.of_nat n) with k in Hld;
  rewrite Hld; clear Hld; erewrite lbind_done by done.

(** Each member of the struct is pushed as the value it was made from. *)
Lemma push_value_here ty v bs pf out st tb c : member ty v bs → pf_ctype pf = letter_ctype ty →
  0 <= pf_offset pf → pf_offset pf + csize (pf_ctype pf) <= zlen out → field_val pf out = val_of (letter_ctype ty) bs →
  _push_value out (pf_offset pf) ty (LState st tb c) = Done (LState (v :: st) tb c, inl (pf_offset pf + zlen bs)).
Proof.
  intros Hm Hc Hlo Hhi Hval. set (off := pf_offset pf) in *.
  assert (∀ n x, letter_ctype ty ≠ CTYPE_VAR → csize (letter_ctype ty) = Z.of_nat n → bs = int_bytes n x →
    load_int (Z.of_nat n) out off = Done (x mod 256 ^ Z.of_nat n)) as Hnum.
  { intros n x Hv Hn ->. rewrite <- Hn at 1. rewrite <- Hc. apply load_int_val; [done | done | by rewrite Hc|]. rewrite Hval.
    unfold val_of. rewrite (proj2 (Z.eqb_neq _ _) Hv). unfold int_bytes. by rewrite known_bytes_map, le_join_split. }
  assert (∀ n x, zlen (int_bytes n x) = Z.of_nat n) as Hz by (intros; unfold zlen; by rewrite length_int_bytes).
  destruct Hm as [n Hn|n Hn|n Hn|b|n Hn|s Hs Hs8|d Hd|s Hs]; rewrite ?Hz.
  - change (_push_value out off (ch "i")) with (lua! v <- lift (C := cstate) (load_int 4 out off); run! lua_pushinteger (s32 v); lret (off + 4)).
    load_num Hnum 4%nat (u32 n). rewrite Z.mod_small by (pose proof (u32_range n); unfold is_u32 in *; lia).
    by rewrite s32_u32, s32_id.
  - change (_push_value out off (ch "u")) with (lua! v <- lift (C := cstate) (load_int 8 out off); run! lua_pushnumber (dbl_of_Z v); lret (off + 8)).
    load_num Hnum 8%nat n. by rewrite Z.mod_small by lia.
  - change (_push_value out off (ch "d")) with (lua! v <- lift (C := cstate) (load_int 8 out off); run! lua_pushnumber (dbl_of_Z (s64 v)); lret (off + 8)).
    load_num Hnum 8%nat (u64 n). rewrite Z.mod_small by (unfold u64; apply Z.mod_pos_bound; lia).
    by rewrite s64_u64, s64_id by (unfold is_s64; lia).
  - change (_push_value out off (ch "b")) with (lua! v <- lift (C := cstate) (load_int 4 out off); run! lua_pushboolean (s32 v); lret (off + 4)).
    load_num Hnum 4%nat (if b then 1 else 0). by destruct b.
  - change (_push_value out off (ch "p")) with (lua! v <- lift (C := cstate) (load_int 4 out off); run! lua_pushlightuserdata (PInt v); lret (off + 4)).
    load_num Hnum 4%nat n. by rewrite Z.mod_small by (unfold is_u32 in Hn; lia).
  - change (_push_value out off (ch "x")) with (lua! v <- lift (C := cstate) (load_int 8 out off); run! lua_pushlstring (PMem (le_split 8 v)) 8; lret (off + 8)).
    load_num Hnum 8%nat (le_join s). pose proof (le_split_join s Hs) as E. pose proof (le_join_split 8 (le_join s)) as E2.
    replace (length s) with 8%nat in E by (unfold zlen in Hs8; lia). rewrite E in E2. change (Z.of_nat 8) with 8 in E2. rewrite <- E2, E.
    unfold lua_pushlstring. rewrite <- Hs8 at 1. rewrite copy_mem_all. done.
  - change (_push_value out off (ch "r")) with (lua! v <- lift (C := cstate) (load_int 8 out off); run! lua_pushnumber v; lret (off + 8)).
    load_num Hnum 8%nat d. by rewrite Z.mod_small by (unfold is_u64 in Hd; lia).
  - change (_push_value out off (ch "s")) with
      (lua! (p, len) <- lift (C := cstate) (load_slice out off); run! lua_pushlstring (mem_ptr p) len; lret (off + sizeof_slice)).
    assert (val_of (letter_ctype (ch "s")) (ptr_bytes (Some (s ++ [0])) ++ int_bytes 4 (zlen s) ++ replicate 4 (MByte 0)) = Some (FBytes s)) as Es.
    { pose proof (zlen_nonneg s). unfold val_of. change (letter_ctype (ch "s") =? CTYPE_VAR) with true. cbv iota.
      rewrite take_app_length' by done. rewrite drop_app_length' by done. rewrite take_app_length' by done.
      unfold ptr_bytes. rewrite whole_object_bytes by lia. unfold int_bytes at 1. rewrite known_bytes_map, le_join_split, Z.mod_small by lia.
      rewrite s32_id by (unfold is_s32; lia). rewrite zlen_app. change (zlen [0]) with 1. rewrite !(proj2 (Z.leb_le _ _)) by lia. cbn [andb].
      unfold zlen. by rewrite Nat2Z.id, take_app_length. }
    rewrite Es in Hval. destruct (load_slice_val pf out s) as (b & n & Hp & Hl & Hn & Hb); [done | done | by rewrite Hc | done |].
    fold off in Hp, Hl. unfold load_slice. rewrite Hp. cbn [obind]. rewrite Hl. cbn [obind]. rewrite Hn. erewrite lbind_done by done.
    cbn [mem_ptr]. unfold lua_pushlstring, copy_mem. unfold bytes_at in Hb. cbn [Z.leb Z.compare andb Z.add] in Hb.
    destruct (_ && _); [|done]. injection Hb as Hb. rewrite drop_0 in Hb. rewrite Hb. done.
Qed.

Lemma val_of_cell pf ty pre bs post : pf_ctype pf = letter_ctype ty → pf_offset pf = zlen pre → zlen bs = csize (letter_ctype ty) →
  field_val pf (pre ++ bs ++ post) = val_of (letter_ctype ty) bs.
Proof.
  intros Hc Ho Hz. unfold field_val, cell, field_at. rewrite Hc, Ho, <- Hz. unfold zlen. by rewrite !Nat2Z.id, drop_app_length, take_app_length.
Qed.

(** The members of the unpacked struct are pushed in order. *)
Lemma push_members_ok pat out fmt vs m : members fmt vs m → ∀ pre st tb c,
  covers pat (zlen pre) fmt → (∀ pf, pf ∈ pat → 0 <= pf_offset pf ∧ pf_offset pf + csize (pf_ctype pf) <= zlen out) →
  (∀ pf, pf ∈ pat → field_val pf out = field_val pf (pre ++ m)) →
  push_members out fmt (zlen pre, false) (LState st tb c) = Done (LState (rev vs ++ st) tb c, inl (zlen pre + zlen m, false)).
Proof.
  induction 1 as [|ty v bs fmt vs m Hm Hms IH]; intros pre st tb c Hcov Hin Hval.
  { cbn [push_members]. change (zlen []) with 0. by rewrite Z.add_0_r. }
  destruct (member_letter _ _ _ Hm) as (Hlow & Hsz & Hcs & _). destruct Hcov as [(pf & Hpf & Hoff & Hct) Hcov]. rewrite <- Hsz, <- zlen_app in Hcov.
  destruct (Hin pf Hpf) as [Hlo Hhi]. cbn [push_members push_member]. rewrite Hlow, <- Hoff.
  erewrite lbind_done by (erewrite lbind_done; [done|]; eapply push_value_here; [done.. | by rewrite Hval, (val_of_cell pf ty) by done]).
  rewrite Hoff, <- zlen_app, IH; [| done | done |].
  - cbn [rev]. by rewrite <- app_assoc, !zlen_app, Z.add_assoc.
  - intros f Hf. rewrite <- app_assoc. by apply Hval.
Qed.

Lemma format_size_ok fmt vs m : members fmt vs m → ∀ size, format_size fmt size = size + zlen m.
Proof.
  induction 1 as [|ty v bs fmt vs m Hm Hms IH]; intros size; [cbn; change (zlen []) with 0; lia|].
  cbn [format_size]. destruct (member_letter _ _ _ Hm) as (_ & Hsz & _). rewrite IH, zlen_app. lia.
Qed.

Lemma members_length fmt vs m : members fmt vs m → length fmt = length vs.
Proof. induction 1; cbn; congruence. Qed.

(** Arguments: the pattern, the format, the size and the values. *)
Lemma pattern_pack_ok L e w i pat fmt vs m : c_envs (l_c L) !! e = Some (Some w) → wd_pat w !! i = Some (Some pat) →
  members fmt vs m → zlen m < 2 ^ 31 → Forall (field_ok d2f f2d m) pat →
  let msg := chunks_bytes (struct_chunks d2f m pat) in zlen msg <= 2 ^ 30 →
  call_c (_pattern_pack junk d2f f2d) (LLight (PPat e i) :: LStr fmt :: LNum (dbl_of_Z (zlen m)) :: vs) L = Done (L, inl [LStr msg]).
Proof.
  intros He Hi Hms Hz Hok msg Hmsg. unfold call_c. destruct L as [st tb c]. cbn [l_tables l_c l_stack] in *.
  set (args := LLight (PPat e i) :: LStr fmt :: LNum (dbl_of_Z (zlen m)) :: vs). set (L := LState (rev args) tb c). pose proof (zlen_nonneg m).
  enough (_pattern_pack junk d2f f2d L = Done (LState (LStr msg :: rev args) tb c, inl 1)) as -> by done.
  assert (∀ k v, args !! k = Some v → index2addr (Z.of_nat k + 1) L = Done (L, inl v)) as Hargs by (intros; by apply index_args).
  unfold _pattern_pack. erewrite lbind_done.
  2: { unfold checkuserdata, lua_touserdata. erewrite lbind_done by (by erewrite lbind_done by (by apply (Hargs 0%nat))). done. }
  erewrite lbind_done by (unfold lua_tolstring; by erewrite lbind_done by (by apply (Hargs 1%nat))).
  erewrite lbind_done.
  2: { unfold lua_tointeger, lua_tointegerx. erewrite lbind_done; [done|]. erewrite lbind_done by (by apply (Hargs 2%nat)). cbn [tonumber].
       rewrite dbl_s64_exact by lia. done. }
  change (default 0 (Some (zlen m))) with (zlen m). rewrite s32_id by (unfold is_s32; lia). unfold alloca. rewrite (proj2 (Z.ltb_ge _ _)) by lia. erewrite lbind_done by done.
  unfold zlen at 1. rewrite Nat2Z.id. erewrite lbind_done.
  2: { apply (get_members_ok fmt vs m Hms [] 0). intros k v Hk. replace (4 + 0 + Z.of_nat k) with (Z.of_nat (3 + k) + 1) by lia. by apply Hargs. }
  cbv beta iota. erewrite lbind_done.
  2: { unfold get_pattern. erewrite lbind_done by (by apply get_world_ok). by rewrite Hi. }
  cbn [app]. rewrite pack_grow_ok; [|done|lia|fold msg; lia]. fold msg. erewrite lbind_done by done.
  unfold lua_pushlstring. rewrite copy_mem_all. erewrite lbind_done by done. by rewrite (close_arrays_id m).
Qed.

Lemma pattern_unpack_ok L e w i pat fmt vs m : c_envs (l_c L) !! e = Some (Some w) → wd_pat w !! i = Some (Some pat) →
  members fmt vs m → zlen m < 2 ^ 31 → covers pat 0 fmt → sorted_ids pat → Forall (field_ok d2f f2d m) pat → ForallOrdPairs apart pat →
  let msg := chunks_bytes (struct_chunks d2f m pat) in zlen msg <= 2 ^ 30 → (∀ i, stack_ok (stk i)) →
  call_c (_pattern_unpack d2f f2d stk) [LLight (PPat e i); LStr fmt; LNum (dbl_of_Z (zlen m)); LStr msg] L = Done (L, inl vs).
Proof.
  intros He Hi Hms Hz Hcov Hids Hok Hap msg Hmsg Hstk. unfold call_c. destruct L as [st tb c]. cbn [l_tables l_c l_stack rev app] in *.
  set (args := [LStr msg; LNum (dbl_of_Z (zlen m)); LStr fmt; LLight (PPat e i)]). pose proof (zlen_nonneg m).
  enough (_pattern_unpack d2f f2d stk (LState args tb c) = Done (LState (rev vs ++ args) tb c, inl (zlen fmt))) as ->.
  { cbn [obind l_stack l_tables l_c]. unfold zlen. rewrite Nat2Z.id, (members_length _ _ _ Hms).
    rewrite take_app_length' by (by rewrite length_rev). by rewrite rev_involutive. }
  set (out := replicate (Z.to_nat (zlen m)) MUndef).
  assert (zlen out = zlen m) as Hout by (unfold out; unfold zlen at 1; rewrite length_replicate; lia).
  destruct (pattern_unpacks d2f f2d pat m out stk) as (out' & Hu & Hz' & Hval); [done | done | done | done | fold msg; lia | done |]. fold msg in Hu.
  unfold _pattern_unpack. do 2 (erewrite lbind_done by done).
  erewrite lbind_done.
  2: { unfold lua_tointeger, lua_tointegerx. erewrite lbind_done; [done|]. erewrite lbind_done by done. cbn [tonumber].
       rewrite dbl_s64_exact by lia. done. }
  do 2 (erewrite lbind_done by done). change (default 0 (Some (zlen m))) with (zlen m). rewrite s32_id by (unfold is_s32; lia). unfold alloca. rewrite (proj2 (Z.ltb_ge _ _)) by lia.
  erewrite lbind_done by done. erewrite lbind_done.
  2: { unfold get_pattern. erewrite lbind_done by (by apply get_world_ok). by rewrite Hi. }
  cbv beta iota. fold out. rewrite Hu. erewrite lbind_done by done. cbv beta iota. erewrite lbind_done by apply put_world_ok.
  cbn [note_error]. rewrite put_same by done. change (0 <? 0) with false. cbv iota.
  erewrite lbind_done by (apply (push_members_ok pat out' fmt vs m Hms []); [done | | done];
    intros pf Hpf; rewrite Forall_forall in Hok; destruct (Hok pf Hpf) as (H1 & H2 & _); rewrite Hz'; done).
  done.
Qed.

End Pack.

(** C6: what [_pattern_pack] packs, [_pattern_unpack] gives back.  For a pattern
    with a field under every letter of the format (32 and 64-bit integers,
    booleans, numbers cast to pointers, eight-byte strings, doubles and strings)
    and arguments that the letters and the protobuf types of the fields can hold,
    [_pattern_size] is the size of the struct the arguments are laid out in;
    packing them succeeds whatever number of times the buffer has to be doubled;
    unpacking the string with the same format pushes exactly the arguments, in
    order; no state is changed by either. *)
Theorem lua_pattern_roundtrip `{Lua} junk d2f f2d stk L e w i pat fmt vs m :
  c_envs (l_c L) !! e = Some (Some w) → wd_pat w !! i = Some (Some pat) → members fmt vs m → zlen m < 2 ^ 31 →
  covers pat 0 fmt → sorted_ids pat → Forall (field_ok d2f f2d m) pat → ForallOrdPairs apart pat →
  zlen (chunks_bytes (struct_chunks d2f m pat)) <= 2 ^ 30 → (∀ i, stack_ok (stk i)) →
  ∃ size s,
    call_c _pattern_size [LStr fmt] L = Done (L, inl [size])
    ∧ call_c (_pattern_pack junk d2f f2d) (LLight (PPat e i) :: LStr fmt :: size :: vs) L = Done (L, inl [LStr s])
    ∧ call_c (_pattern_unpack d2f f2d stk) [LLight (PPat e i); LStr fmt; size; LStr s] L = Done (L, inl vs).
Proof.
  intros He Hi Hms Hz Hcov Hids Hok Hap Hmsg Hstk. exists (LNum (dbl_of_Z (zlen m))), (chunks_bytes (struct_chunks d2f m pat)). split.
  { unfold call_c, _pattern_size. cbn [rev app]. erewrite lbind_done by done. rewrite (format_size_ok fmt vs m Hms). by destruct L. }
  split; [by eapply pattern_pack_ok | by eapply pattern_unpack_ok].
Qed.

(** Packing [-5, "hi!", 2^40] with the format ["isd"]. *)
Definition lua_demo_pattern : pbc_pattern :=
  [PField 1 0 PTYPE_INT32 CTYPE_INT32 LABEL_OPTIONAL (VInteger 5 0);
   PField 2 4 PTYPE_STRING CTYPE_VAR LABEL_REQUIRED (VStr [] 0);
   PField 9 20 PTYPE_INT64 CTYPE_INT64 LABEL_REQUIRED (VInteger 0 0)].

Definition lua_demo_state : lua_State cstate :=
  LState [LNil] [] (CState [Some (World demo_env [] [] [Some lua_demo_pattern])] [] ∅ new_script).

Lemma lua_pattern_roundtrip_witness :
  ∃ size s,
    call_c (_pattern_size (H := count_lua)) [LStr (lit "isd")] lua_demo_state = Done (lua_demo_state, inl [size])
    ∧ call_c (_pattern_pack (H := count_lua) (λ _, 170) id id)
        [LLight (PPat 0 0); LStr (lit "isd"); size; LNum (dbl_of_Z (-5)); LStr [104; 105; 33]; LNum (dbl_of_Z (2 ^ 40))] lua_demo_state
      = Done (lua_demo_state, inl [LStr s])
    ∧ call_c (_pattern_unpack (H := count_lua) id id (λ _, replicate 10 255)) [LLight (PPat 0 0); LStr (lit "isd"); size; LStr s] lua_demo_state
      = Done (lua_demo_state, inl [LNum (dbl_of_Z (-5)); LStr [104; 105; 33]; LNum (dbl_of_Z (2 ^ 40))]).
Proof.
  eapply (lua_pattern_roundtrip (H := count_lua) (λ _, 170) id id (λ _, replicate 10 255) lua_demo_state 0 _ 0 lua_demo_pattern (lit "isd")
           [LNum (dbl_of_Z (-5)); LStr [104; 105; 33]; LNum (dbl_of_Z (2 ^ 40))]).
  - reflexivity.
  - reflexivity.
  - apply MemCons; [apply MemI; width|]. apply MemCons; [apply MemS; reflexivity|]. apply MemCons; [apply (MemD (2 ^ 40)); lia | apply MemNil].
  - vm_compute. reflexivity.
  - assert (∀ k pf, lua_demo_pattern !! k = Some pf → pf ∈ lua_demo_pattern) as Hin by (intros k pf Hk; by eapply list_elem_of_lookup_2).
    split; [eexists; split; [by apply (Hin 0%nat) | done]|]. split; [eexists; split; [by apply (Hin 1%nat) | done]|]. split; [|done].
    eexists; split; [by apply (Hin 2%nat)|]; done.
  - apply ord_sorted. repeat constructor.
  - repeat (apply Forall_cons; split); [.. | by apply Forall_nil]; (split; [vm_compute; discriminate|]); (split; [vm_compute; discriminate|]);
      (split; [split; vm_compute; congruence|]); (split; [by (left + right)|]); vm_compute field_val.
    + split; [split; [vm_compute; intuition discriminate|]; left; split; [set_solver | unfold low_types; set_solver]|]. intros _. split; width.
    + split; [done|]. split; [unfold slice_types; set_solver|]. split; [repeat (apply Forall_cons; split; [width|]); by apply Forall_nil|].
      split; [done|]. discriminate.
    + split; [split; [vm_compute; intuition discriminate|]; right; right; left; split; [done | unfold wide_types; set_solver]|]. discriminate.
  - repeat first [apply FOP_nil | apply FOP_cons | apply Forall_nil_2 | apply Forall_cons_2]; unfold apart; vm_compute; by ((left; discriminate) + (right; discriminate)).
  - vm_compute. discriminate.
  - intros _. split; [|reflexivity]. apply Forall_replicate. width.
Defined.
