(* ===== verification/LuaGc.v ===== *)
(** * Releasing the objects of the Lua binding ([struct gcobj] of [pbc-lua.c])

    [protobuf.lua] registers every pattern and every message it reads with one
    userdata object, whose finalizer deletes them and then the environment.  Two
    growing arrays keep the pointers. *)

From S2P Require Import Prelude Varint PArray SpMap StringPool Context Proto Wmessage Decode CMem Pattern PatternNew Rmessage Register Double LuaApi PbcLua LuaPattern.

Notation cells := (option (list (option ptr))).

(** The C function [_clear_gcobj] as a Lua value. *)
Definition clear_gcobj_function : nat := 0.

Definition get_gc (p : ptr) : lua (nat * gcobj) :=
  lua! c <- get_c;
  match p with
  | PGc i => match c_gc c !! i with Some obj => lret (i, obj) | None => lift (Fault NullDeref) end
  | _ => lift (Fault NullDeref)
  end.

Definition put_gc (i : nat) (obj : gcobj) : lua unit :=
  lua! c <- get_c; set_c (CState (c_envs c) (<[i := obj]> (c_gc c)) (c_meta c) (c_script c)).

(** [if (size >= cap) { cap *= 2; p = realloc(p, cap * sizeof( *p)); }] *)
Definition grow (size cap : Z) (p : cells) : outcome (Z * cells) :=
  if cap <=? size then
    if 2 ^ 31 <=? cap * 2 then Fault SignedOverflow
    else Done (cap * 2, Some (resize (Z.to_nat (cap * 2)) None (default [] p)))
  else Done (cap, p).

(** [p[i] = x] and [p[i]] *)
Definition set_cell (p : cells) (i : Z) (x : ptr) : outcome cells :=
  match p with
  | None => Fault NullDeref
  | Some l => do! l <- write_at l i [Some x]; Done (Some l)
  end.

Definition get_cell (p : cells) (i : Z) : outcome ptr :=
  match p with
  | None => Fault NullDeref
  | Some l => do! x <- read_at l i; match x with Some x => Done x | None => Fault BadRead end
  end.

Section Gc.
Context `{Lua}.

(** The environment and what it owns. *)
Definition pbc_delete (p : ptr) : lua unit :=
  lua! e <- env_at p;
  lua! _ <- get_world e;
  lua! c <- get_c;
  set_c (CState (<[e := None]> (c_envs c)) (c_gc c) (c_meta c) (c_script c)).

Definition delete_patterns (obj : gcobj) : lua unit :=
  lfor (Z.to_nat (size_pat obj)) 0 (λ i _, lua! p <- lift (get_cell (o_pat obj) i); pbc_pattern_delete p) ().

Definition delete_messages (obj : gcobj) : lua unit :=
  lfor (Z.to_nat (size_msg obj)) 0 (λ i _, lua! p <- lift (get_cell (o_msg obj) i); pbc_rmessage_delete p) ().

Definition _clear_gcobj : lua Z :=
  lua! p <- lua_touserdata 1;
  lua! (g, obj) <- get_gc p;
  run! delete_patterns obj;
  run! delete_messages obj;
  run! put_gc g (GcObj (o_env obj) (size_pat obj) (cap_pat obj) None (size_msg obj) (cap_msg obj) None);
  run! pbc_delete (o_env obj);
  run! put_gc g (GcObj (PInt 0) (size_pat obj) (cap_pat obj) None (size_msg obj) (cap_msg obj) None);
  lret 0.

(** [lua_newuserdata] of a [struct gcobj], and [lua_setmetatable] of the table on
    the top. *)
Definition new_gcobj (obj : gcobj) : lua unit :=
  lua! c <- get_c;
  run! set_c (CState (c_envs c) (c_gc c ++ [obj]) (c_meta c) (c_script c));
  push (LUdata (length (c_gc c))).

Definition lua_setmetatable (idx : Z) : lua unit :=
  lua! t <- table_at (-1);
  lua! v <- index2addr idx;
  lua! c <- get_c;
  run! match v with
       | LUdata i => set_c (CState (c_envs c) (c_gc c) (<[i := t]> (c_meta c)) (c_script c))
       | _ => lift (Fault AssertFailed)
       end;
  lua_pop 1.

Definition lua_pushcfunction (f : nat) : lua unit := push (LFun f).

Definition _gc : lua Z :=
  lua! env <- lua_touserdata 1;
  run! new_gcobj (GcObj env 0 4 (Some (replicate 4 None)) 0 4 (Some (replicate 4 None)));
  run! lua_newtable;
  run! lua_pushcfunction clear_gcobj_function;
  run! lua_setfield (-2) (lit "__gc");
  run! lua_setmetatable (-2);
  lret 1.

Definition _add_pattern : lua Z :=
  lua! p <- lua_touserdata 1;
  lua! (g, obj) <- get_gc p;
  lua! (cap, pats) <- lift (grow (size_pat obj) (cap_pat obj) (o_pat obj));
  lua! pat <- lua_touserdata 2;
  lua! pats <- lift (set_cell pats (size_pat obj) pat);
  run! put_gc g (GcObj (o_env obj) (size_pat obj + 1) cap pats (size_msg obj) (cap_msg obj) (o_msg obj));
  lret 0.

Definition _add_rmessage : lua Z :=
  lua! p <- lua_touserdata 1;
  lua! (g, obj) <- get_gc p;
  lua! (cap, msgs) <- lift (grow (size_msg obj) (cap_msg obj) (o_msg obj));
  lua! msg <- lua_touserdata 2;
  lua! msgs <- lift (set_cell msgs (size_msg obj) msg);
  run! put_gc g (GcObj (o_env obj) (size_pat obj) (cap_pat obj) (o_pat obj) (size_msg obj + 1) cap msgs);
  lret 0.

(** The finalizer of a userdata, when the collector or [lua_close] runs it; an
    error it raises is dropped. *)
Definition GCTM (g : nat) : lua unit := λ L,
  match c_meta (l_c L) !! g with
  | None => Done (L, inl ())
  | Some t =>
      (lua! x <- get_table t;
       match tget x (inl (lit "__gc")) with
       | LFun _ => λ L, do! (L, _) <- call_c _clear_gcobj [LUdata g] L; Done (L, inl ())
       | _ => lret ()
       end) L
  end.

(** ** The scripts ([protobuf.lua]) *)

Context (junk : nat → Z) (f2d : Z → Z) (stk : Z → list Z).

(** [decode_message]: the message, or nothing. *)
Definition decode_message (P GC : lvalue) (message buffer : list Z) : lua (list lvalue) :=
  lua! r <- call_c (_rmessage_new f2d stk) [P; LStr message; LStr buffer];
  match r with
  | rmessage :: _ => run! call_c _add_rmessage [GC; rmessage]; lret [rmessage]
  | [] => lret []
  end.

(** [_pattern_create] from [c._pattern_new] on. *)
Definition pattern_create (P GC : lvalue) (message format : list Z) : lua (list lvalue) :=
  lua! r <- call_c (LuaPattern._pattern_new junk) [P; LStr message; LStr format];
  match r with
  | cobj :: _ => run! call_c _add_pattern [GC; cobj]; lret [cobj]
  | [] => lret []
  end.

Inductive script_op :=
  | DecodeMessage (message buffer : list Z)
  | PatternCreate (message format : list Z).

(** A script goes on after an error. *)
Fixpoint run_script (P GC : lvalue) (ops : list script_op) : lua unit :=
  match ops with
  | [] => lret ()
  | op :: rest => λ L,
      do! (L, _) <- match op with
                    | DecodeMessage message buffer => decode_message P GC message buffer L
                    | PatternCreate message format => pattern_create P GC message format L
                    end;
      run_script P GC rest L
  end.

End Gc.

(** ** Lemmas *)

(** A loop whose states are known. *)
Lemma lfor_states {C A} (body : Z → A → M C A) (f : nat → lua_State C) n i s :
  (∀ k, (k < n)%nat → body (i + Z.of_nat k) s (f k) = Done (f (S k), inl s)) → lfor n i body s (f 0%nat) = Done (f n, inl s).
Proof.
  revert i f; induction n as [|n IH]; intros i f Hb; [done|]. cbn [lfor].
  erewrite lbind_done by (rewrite <- (Z.add_0_r i); apply (Hb 0%nat); lia). apply (IH (i + 1) (λ k, f (S k))).
  intros k Hk. replace (i + 1 + Z.of_nat k) with (i + Z.of_nat (S k)) by lia. apply Hb. lia.
Qed.

(** The first cells of an array of [cap] cells are the pointers [ps]. *)
Definition keeps (size cap : Z) (p : cells) (ps : list ptr) : Prop :=
  size = zlen ps ∧ 4 <= cap < 2 ^ 31 ∧ ∃ tail, p = Some ((Some <$> ps) ++ tail) ∧ zlen ps + zlen tail = cap.

Lemma add_keeps size cap p ps x : keeps size cap p ps → size < 2 ^ 30 →
  ∃ cap' p' p'', grow size cap p = Done (cap', p') ∧ set_cell p' size x = Done p'' ∧ keeps (size + 1) cap' p'' (ps ++ [x]).
Proof.
  intros (-> & Hcap & tail & -> & Hlen) Hs. pose proof (zlen_nonneg tail).
  assert (∀ tail cap', 4 <= cap' < 2 ^ 31 → zlen ps + zlen tail = cap' → zlen ps < cap' →
    ∃ p'', set_cell (Some ((Some <$> ps) ++ tail)) (zlen ps) x = Done p'' ∧ keeps (zlen ps + 1) cap' p'' (ps ++ [x])) as Hset.
  { intros [|c tl] cap' Hc Hl Hlt; [change (zlen []) with 0 in Hl; lia|]. rewrite zlen_cons in Hl. eexists. unfold set_cell.
    replace (zlen ps) with (zlen (Some <$> ps)) at 1 by (unfold zlen; by rewrite length_fmap).
    rewrite (write_at_here (Some <$> ps) [c] tl [Some x] eq_refl : write_at ((Some <$> ps) ++ c :: tl) _ _ = _). split; [done|].
    unfold keeps. rewrite zlen_app. split; [done|]. split; [done|]. exists tl. split; [|change (zlen [x]) with 1; lia].
    by rewrite fmap_app, <- app_assoc. }
  unfold grow. destruct (Z.leb_spec cap (zlen ps)).
  - rewrite (proj2 (Z.leb_gt _ _)) by lia. assert (tail = []) as -> by (apply length_zero_iff_nil; unfold zlen in *; lia).
    rewrite app_nil_r in *. change (default [] (Some ?x)) with x. change (zlen []) with 0 in Hlen.
    rewrite resize_ge by (rewrite length_fmap; unfold zlen in *; lia).
    destruct (Hset (replicate (Z.to_nat (cap * 2) - length (Some <$> ps)) None) (cap * 2)) as (p'' & Hp & Hh); [lia | | lia | by eexists _, _, _].
    unfold zlen in *. rewrite length_replicate, length_fmap. lia.
  - destruct (Hset tail cap) as (p'' & Hp & Hh); [done | done | done|]. by eexists _, _, _.
Qed.

Lemma keeps_cell size cap p ps k x : keeps size cap p ps → ps !! k = Some x → get_cell p (Z.of_nat k) = Done x.
Proof.
  intros (_ & _ & tail & -> & _) Hk. unfold get_cell. rewrite read_at_nat, lookup_app_l by (rewrite length_fmap; by eapply lookup_lt_Some).
  by rewrite list_lookup_fmap, Hk.
Qed.

Section Owned.
Context `{Lua} (junk : nat → Z) (f2d : Z → Z) (stk : Z → list Z) (e g : nat) (env : pbc_env).
Implicit Types (L : lua_State cstate) (w : world) (obj : gcobj).

Definition pattern_ptrs w : list ptr := PPat e <$> seq 0 (length (wd_pat w)).
Definition message_ptrs w : list ptr := (λ r, PRm e r 0) <$> seq 0 (length (wd_rm w)).

(** Every pattern and message of the environment is alive and in the arrays of
    the object, once, and the object has its finalizer. *)
Record owned w obj L : Prop := Owned {
  own_world : c_envs (l_c L) !! e = Some (Some w);
  own_obj : c_gc (l_c L) !! g = Some obj;
  own_env : o_env obj = PEnv e;
  own_pats : keeps (size_pat obj) (cap_pat obj) (o_pat obj) (pattern_ptrs w);
  own_msgs : keeps (size_msg obj) (cap_msg obj) (o_msg obj) (message_ptrs w);
  own_live_pats : Forall is_Some (wd_pat w);
  own_live_msgs : Forall is_Some (wd_rm w);
  own_types : ∃ s, wd_env w = set_error env s;
  own_gc : ∃ t x f, c_meta (l_c L) !! g = Some t ∧ l_tables L !! t = Some x ∧ tget x (inl (lit "__gc")) = LFun f }.

(** An operation whose pbc call returns, whatever the last error was. *)
Definition op_runs (op : script_op) : Prop := ∀ s,
  match op with
  | DecodeMessage message buffer => ∃ r, pbc_rmessage_new f2d (set_error env s) stk (c_string message) buffer = Done r
  | PatternCreate message format => ∃ r, pbc_pattern_new junk (set_error env s) (c_string message) (c_string format) [] = Done r
  end.

Lemma note_error_types w err s : wd_env w = set_error env s → ∃ s', wd_env (note_error w err) = set_error env s'.
Proof. destruct err as [x|]; intros E; [|eauto]. cbn. rewrite E. by exists x. Qed.

Lemma note_error_fields w err : wd_wm (note_error w err) = wd_wm w ∧ wd_rm (note_error w err) = wd_rm w ∧ wd_pat (note_error w err) = wd_pat w.
Proof. by destruct err. Qed.

(** ** Calls *)

(** The arguments of [c._pattern_new] and [c._rmessage_new]. *)
Lemma pattern_new_call L w message format pat err : c_envs (l_c L) !! e = Some (Some w) →
  pbc_pattern_new junk (wd_env w) (c_string message) (c_string format) [] = Done (pat, err) →
  let w' := note_error w err in
  call_c (LuaPattern._pattern_new junk) [LLight (PEnv e); LStr message; LStr format] L
  = match pat with
    | None => Done (LState (l_stack L) (l_tables L) (put_env (l_c L) e w'), inr "create patten failed"%string)
    | Some pat => Done (LState (l_stack L) (l_tables L) (put_env (l_c L) e (World (wd_env w') (wd_wm w') (wd_rm w') (wd_pat w' ++ [Some pat]))),
                        inl [LLight (PPat e (length (wd_pat w')))])
    end.
Proof.
  intros He Hnew w'. unfold call_c, LuaPattern._pattern_new. cbn [rev app]. erewrite lbind_done by done.
  do 2 erewrite lbind_done by (unfold luaL_checkstring; by erewrite lbind_done by done). erewrite lbind_done by done.
  erewrite lbind_done by (by apply get_world_ok). rewrite Hnew. erewrite lbind_done by done. cbv beta iota. fold w'.
  destruct pat as [pat|]; erewrite lbind_done by apply put_world_ok; done.
Qed.

Lemma rmessage_new_call L w message buffer m err : c_envs (l_c L) !! e = Some (Some w) →
  pbc_rmessage_new f2d (wd_env w) stk (c_string message) buffer = Done (m, err) →
  let w' := note_error w err in
  call_c (_rmessage_new f2d stk) [LLight (PEnv e); LStr message; LStr buffer] L
  = match m with
    | None => Done (LState (l_stack L) (l_tables L) (put_env (l_c L) e w'), inl [])
    | Some m => Done (LState (l_stack L) (l_tables L) (put_env (l_c L) e (World (wd_env w') (wd_wm w') (wd_rm w' ++ [Some [m]]) (wd_pat w'))),
                      inl [LLight (PRm e (length (wd_rm w')) 0)])
    end.
Proof.
  intros He Hnew w'. unfold call_c, _rmessage_new. cbn [rev app]. erewrite lbind_done by done.
  erewrite lbind_done by (unfold luaL_checkstring; by erewrite lbind_done by done). do 2 erewrite lbind_done by done.
  erewrite lbind_done by done. erewrite lbind_done by (by apply get_world_ok). change (default [] (Some buffer)) with buffer.
  rewrite Hnew. erewrite lbind_done by done. cbv beta iota. fold w'.
  destruct m as [m|]; erewrite lbind_done by apply put_world_ok; done.
Qed.

Definition put_obj (c : cstate) obj : cstate := CState (c_envs c) (<[g := obj]> (c_gc c)) (c_meta c) (c_script c).

Lemma get_gc_ok st tb c obj : c_gc c !! g = Some obj → get_gc (PGc g) (LState st tb c) = Done (LState st tb c, inl (g, obj)).
Proof. intros Hg. unfold get_gc. erewrite lbind_done by done. cbn. by rewrite Hg. Qed.

Lemma add_pattern_call L obj p cap pats pats' : c_gc (l_c L) !! g = Some obj →
  grow (size_pat obj) (cap_pat obj) (o_pat obj) = Done (cap, pats) → set_cell pats (size_pat obj) p = Done pats' →
  call_c _add_pattern [LUdata g; LLight p] L
  = Done (LState (l_stack L) (l_tables L)
            (put_obj (l_c L) (GcObj (o_env obj) (size_pat obj + 1) cap pats' (size_msg obj) (cap_msg obj) (o_msg obj))), inl []).
Proof.
  intros Hg Hgrow Hset. unfold call_c, _add_pattern. cbn [rev app]. erewrite lbind_done by done. erewrite lbind_done by (by apply get_gc_ok).
  cbv beta iota. rewrite Hgrow. erewrite lbind_done by done. cbv beta iota. erewrite lbind_done by done. rewrite Hset. by erewrite lbind_done by done.
Qed.

Lemma add_rmessage_call L obj p cap msgs msgs' : c_gc (l_c L) !! g = Some obj →
  grow (size_msg obj) (cap_msg obj) (o_msg obj) = Done (cap, msgs) → set_cell msgs (size_msg obj) p = Done msgs' →
  call_c _add_rmessage [LUdata g; LLight p] L
  = Done (LState (l_stack L) (l_tables L)
            (put_obj (l_c L) (GcObj (o_env obj) (size_pat obj) (cap_pat obj) (o_pat obj) (size_msg obj + 1) cap msgs')), inl []).
Proof.
  intros Hg Hgrow Hset. unfold call_c, _add_rmessage. cbn [rev app]. erewrite lbind_done by done. erewrite lbind_done by (by apply get_gc_ok).
  cbv beta iota. rewrite Hgrow. erewrite lbind_done by done. cbv beta iota. erewrite lbind_done by done. rewrite Hset. by erewrite lbind_done by done.
Qed.

(** ** One operation *)

Lemma seq_snoc n : seq 0 (n + 1) = seq 0 n ++ [n].
Proof. by rewrite Nat.add_1_r, seq_S. Qed.

(** After the operation every object is still owned; at most one was added. *)
Lemma script_step w obj L op : owned w obj L → op_runs op → size_pat obj < 2 ^ 30 → size_msg obj < 2 ^ 30 →
  ∃ L' r w' obj', match op with
    | DecodeMessage message buffer => decode_message f2d stk (LLight (PEnv e)) (LUdata g) message buffer L
    | PatternCreate message format => pattern_create junk (LLight (PEnv e)) (LUdata g) message format L
    end = Done (L', r) ∧ owned w' obj' L' ∧ size_pat obj' <= size_pat obj + 1 ∧ size_msg obj' <= size_msg obj + 1.
Proof.
  intros [Hw Hg Hoe Hps Hms Hlp Hlm (s & Hs) Hgc] Hrun Hp30 Hm30. specialize (Hrun s).
  assert (e < length (c_envs (l_c L)))%nat as Hlt by (by eapply lookup_lt_Some). assert (g < length (c_gc (l_c L)))%nat as Hglt by (by eapply lookup_lt_Some).
  destruct op as [message buffer|message format]; destruct Hrun as [[m err] Hnew]; rewrite <- Hs in Hnew;
    destruct (note_error_types w err s Hs) as (s' & Hs'); destruct (note_error_fields w err) as (Hn1 & Hn2 & Hn3).
  - unfold decode_message, lbind at 1. rewrite (rmessage_new_call L w _ _ m err) by done. cbv zeta. destruct m as [m|]; cbn [obind].
    + destruct (add_keeps _ _ _ _ (PRm e (length (wd_rm w)) 0) Hms ltac:(lia)) as (cap & p & p' & Hgrow & Hset & Hh).
      rewrite Hn2, Hn3. erewrite lbind_done by (by eapply add_rmessage_call). do 4 eexists. split; [done|].
      split; [constructor; cbn; rewrite ?list_lookup_insert_eq by done; try done|cbn; split; lia].
      * unfold message_ptrs. cbn. rewrite length_app. cbn [length]. rewrite seq_snoc, fmap_app. done.
      * apply Forall_app. split; [done|]. by repeat constructor.
      * eauto.
    + eexists _, _, _, obj. split; [done|]. split; [|split; lia].
      constructor; cbn; rewrite ?list_lookup_insert_eq; try done; unfold pattern_ptrs, message_ptrs; rewrite ?Hn2, ?Hn3; eauto.
  - unfold pattern_create, lbind at 1. rewrite (pattern_new_call L w _ _ m err) by done. cbv zeta. destruct m as [m|]; cbn [obind].
    + destruct (add_keeps _ _ _ _ (PPat e (length (wd_pat w))) Hps ltac:(lia)) as (cap & p & p' & Hgrow & Hset & Hh).
      rewrite Hn2, Hn3. erewrite lbind_done by (by eapply add_pattern_call). do 4 eexists. split; [done|].
      split; [constructor; cbn; rewrite ?list_lookup_insert_eq by done; try done|cbn; split; lia].
      * unfold pattern_ptrs. cbn. rewrite length_app. cbn [length]. rewrite seq_snoc, fmap_app. done.
      * apply Forall_app. split; [done|]. by repeat constructor.
      * eauto.
    + eexists _, _, _, obj. split; [done|]. split; [|split; lia].
      constructor; cbn; rewrite ?list_lookup_insert_eq; try done; unfold pattern_ptrs, message_ptrs; rewrite ?Hn2, ?Hn3; eauto.
Qed.

Lemma script_runs ops : ∀ w obj L, owned w obj L → Forall op_runs ops → size_pat obj + zlen ops <= 2 ^ 30 → size_msg obj + zlen ops <= 2 ^ 30 →
  ∃ L' w' obj', run_script junk f2d stk (LLight (PEnv e)) (LUdata g) ops L = Done (L', inl ()) ∧ owned w' obj' L'.
Proof.
  induction ops as [|op ops IH]; intros w obj L Hown Hops Hp Hm; [by exists L, w, obj|]. apply Forall_cons in Hops as [Hop Hops].
  rewrite zlen_cons in Hp, Hm. pose proof (zlen_nonneg ops). destruct (script_step w obj L op Hown Hop) as (L' & r & w' & obj' & Hs & Hown' & Hp' & Hm'); [lia..|].
  destruct (IH w' obj' L' Hown' Hops) as (L2 & w2 & obj2 & Hr & Hown2); [lia..|]. exists L2, w2, obj2. split; [|done].
  cbn [run_script]. by rewrite Hs.
Qed.

(** ** Deleting *)

(** A list of objects of which the first [k] are gone. *)
Definition gone {A} (k : nat) (l : list (option A)) : list (option A) := replicate k None ++ drop k l.

Lemma gone_step {A} k (l : list (option A)) : Forall is_Some l → (k < length l)%nat →
  (∃ x, gone k l !! k = Some (Some x)) ∧ <[k := None]> (gone k l) = gone (S k) l.
Proof.
  intros Hl Hk. destruct (lookup_lt_is_Some_2 l k Hk) as [o Ho]. destruct (Forall_lookup_1 _ _ _ _ Hl Ho) as [x ->].
  unfold gone. rewrite (drop_S l (Some x) k Ho). split.
  - exists x. by apply list_lookup_middle; rewrite length_replicate.
  - rewrite insert_app_r_alt, length_replicate, Nat.sub_diag by (by rewrite length_replicate). cbn [list_insert insert].
    rewrite replicate_S_end, <- app_assoc. done.
Qed.

Lemma gone_all {A} (l : list (option A)) : Forall (λ o, o = None) (gone (length l) l).
Proof. unfold gone. rewrite drop_all, app_nil_r. by apply Forall_replicate. Qed.

(** The loop over an array deletes its pointers in order. *)
Lemma delete_loop (del : ptr → lua unit) (mk : nat → ptr) n size cap p (f : nat → lua_State cstate) :
  keeps size cap p (mk <$> seq 0 n) → (∀ k, (k < n)%nat → del (mk k) (f k) = Done (f (S k), inl ())) →
  lfor (Z.to_nat size) 0 (λ i _, lua! x <- lift (get_cell p i); del x) () (f 0%nat) = Done (f n, inl ()).
Proof.
  intros Hh Hdel. pose proof Hh as (-> & _). assert (Z.to_nat (zlen (mk <$> seq 0 n)) = n) as -> by (unfold zlen; rewrite length_fmap, length_seq; lia).
  apply (lfor_states _ f). intros k Hk. rewrite Z.add_0_l.
  rewrite (keeps_cell _ _ _ _ k (mk k) Hh) by (by rewrite list_lookup_fmap, lookup_seq_lt). erewrite lbind_done by done. by apply Hdel.
Qed.

Definition with_pats L w (pats : list (option pbc_pattern)) : lua_State cstate :=
  LState (l_stack L) (l_tables L) (put_env (l_c L) e (World (wd_env w) (wd_wm w) (wd_rm w) pats)).

Definition with_msgs L w (msgs : list (option (list rmessage))) : lua_State cstate :=
  LState (l_stack L) (l_tables L) (put_env (l_c L) e (World (wd_env w) (wd_wm w) msgs (wd_pat w))).

Lemma with_same L w : c_envs (l_c L) !! e = Some (Some w) → with_pats L w (wd_pat w) = L ∧ with_msgs L w (wd_rm w) = L.
Proof. intros Hw. destruct L as [st tb c], w as [a b d pt]. unfold with_pats, with_msgs. cbn in *. by rewrite put_same. Qed.

Lemma delete_patterns_ok w obj L : c_envs (l_c L) !! e = Some (Some w) → keeps (size_pat obj) (cap_pat obj) (o_pat obj) (pattern_ptrs w) →
  Forall is_Some (wd_pat w) → delete_patterns obj L = Done (with_pats L w (gone (length (wd_pat w)) (wd_pat w)), inl ()).
Proof.
  intros Hw Hps Hlive. rewrite <- (proj1 (with_same L w Hw)) at 1.
  apply (delete_loop _ (PPat e) _ _ _ _ (λ k, with_pats L w (gone k (wd_pat w))) Hps). intros k Hk.
  destruct (gone_step k (wd_pat w) Hlive Hk) as [[x Hx] Hi]. assert (e < length (c_envs (l_c L)))%nat by (by eapply lookup_lt_Some).
  cbn [pbc_pattern_delete]. unfold with_pats. erewrite lbind_done by (apply get_world_ok; cbn; by rewrite list_lookup_insert_eq).
  cbn [wd_pat wd_env wd_wm wd_rm]. by rewrite Hx, Hi, put_world_ok, put_put.
Qed.

Lemma delete_messages_ok w obj L : c_envs (l_c L) !! e = Some (Some w) → keeps (size_msg obj) (cap_msg obj) (o_msg obj) (message_ptrs w) →
  Forall is_Some (wd_rm w) → delete_messages obj L = Done (with_msgs L w (gone (length (wd_rm w)) (wd_rm w)), inl ()).
Proof.
  intros Hw Hms Hlive. rewrite <- (proj2 (with_same L w Hw)) at 1.
  apply (delete_loop _ (λ r, PRm e r 0) _ _ _ _ (λ k, with_msgs L w (gone k (wd_rm w))) Hms). intros k Hk.
  destruct (gone_step k (wd_rm w) Hlive Hk) as [[x Hx] Hi]. assert (e < length (c_envs (l_c L)))%nat by (by eapply lookup_lt_Some).
  cbn [pbc_rmessage_delete]. unfold with_msgs. erewrite lbind_done by (apply get_world_ok; cbn; by rewrite list_lookup_insert_eq).
  cbn [wd_pat wd_env wd_wm wd_rm]. by rewrite Hx, Hi, put_world_ok, put_put.
Qed.

(** All that is owned is deleted, and nothing else of the environment is left. *)
Lemma delete_objects w obj L : owned w obj L → ∃ L1 L2 w',
  delete_patterns obj L = Done (L1, inl ()) ∧ delete_messages obj L1 = Done (L2, inl ())
  ∧ c_envs (l_c L2) !! e = Some (Some w') ∧ Forall (λ o, o = None) (wd_pat w') ∧ Forall (λ o, o = None) (wd_rm w')
  ∧ l_stack L2 = l_stack L ∧ l_tables L2 = l_tables L ∧ c_gc (l_c L2) = c_gc (l_c L) ∧ length (c_envs (l_c L2)) = length (c_envs (l_c L)).
Proof.
  intros [Hw Hg Hoe Hps Hms Hlp Hlm _ _]. assert (e < length (c_envs (l_c L)))%nat by (by eapply lookup_lt_Some).
  set (w1 := World (wd_env w) (wd_wm w) (wd_rm w) (gone (length (wd_pat w)) (wd_pat w))). eexists _, _, _. split; [by eapply delete_patterns_ok|].
  split; [apply (delete_messages_ok w1); [cbn; by rewrite list_lookup_insert_eq | done | done]|]. cbn.
  rewrite list_insert_insert_eq, list_lookup_insert_eq by done. split; [done|]. cbn. split_and!; [apply gone_all | apply gone_all | done | done | done |].
  by rewrite length_insert.
Qed.

Lemma clear_gcobj_ok w obj L : owned w obj L → ∃ L' n, call_c _clear_gcobj [LUdata g] L = Done (L', inl n) ∧ c_envs (l_c L') !! e = Some None.
Proof.
  intros Hown. pose proof Hown as [Hw Hg Hoe _ _ _ _ _ _]. set (La := LState [LUdata g] (l_tables L) (l_c L)).
  assert (owned w obj La) as Hown' by (destruct Hown; by constructor).
  destruct (delete_objects w obj La Hown') as (L1 & L2 & w' & Hd1 & Hd2 & He2 & _ & _ & Hst & Htb & Hgc & Hlen).
  assert (e < length (c_envs (l_c L)))%nat by (by eapply lookup_lt_Some).
  unfold call_c, _clear_gcobj. cbn [rev app]. fold La. erewrite lbind_done by done. erewrite lbind_done by (by apply get_gc_ok). cbv beta iota.
  erewrite lbind_done by done. erewrite lbind_done by done. erewrite lbind_done by done. rewrite Hoe.
  unfold pbc_delete. erewrite lbind_done.
  2: { erewrite lbind_done by done. erewrite lbind_done by (by apply get_world_ok). by erewrite lbind_done by done. }
  eexists _, _. split; [done|]. cbn. rewrite list_lookup_insert_eq; [done|]. by rewrite Hlen.
Qed.

End Owned.

Section GcNew.
Context `{Lua}.

(** The object [_gc] makes owns what there is: nothing. *)
Lemma gc_new L e w : c_envs (l_c L) !! e = Some (Some w) → wd_pat w = [] → wd_rm w = [] →
  ∃ L1 obj, call_c _gc [LLight (PEnv e)] L = Done (L1, inl [LUdata (length (c_gc (l_c L)))])
    ∧ owned e (length (c_gc (l_c L))) (wd_env w) w obj L1 ∧ size_pat obj = 0 ∧ size_msg obj = 0.
Proof.
  intros Hw Hp Hm. set (g := length (c_gc (l_c L))). set (obj := GcObj (PEnv e) 0 4 (Some (replicate 4 None)) 0 4 (Some (replicate 4 None))).
  set (t := length (l_tables L)). set (c1 := CState (c_envs (l_c L)) (c_gc (l_c L) ++ [obj]) (c_meta (l_c L)) (c_script (l_c L))).
  set (x := tset ∅ (inl (lit "__gc")) (LFun clear_gcobj_function)).
  exists (LState (l_stack L) (<[t := x]> (l_tables L ++ [∅])) (CState (c_envs (l_c L)) (c_gc (l_c L) ++ [obj]) (<[g := t]> (c_meta (l_c L))) (c_script (l_c L)))), obj.
  split; [|split; [|done]].
  - unfold call_c, _gc. cbn [rev app]. erewrite lbind_done by done.
    erewrite (lbind_done _ _ _ (LState [LUdata g; LLight (PEnv e)] (l_tables L) c1)) by done. do 2 (erewrite lbind_done by done).
    erewrite lbind_done. 2: { apply (raw_set_top _ _ _ _ (-2) 1); [done | done |]. cbn [l_tables]. by apply list_lookup_middle. }
    unfold lua_setmetatable. erewrite lbind_done. 2: { do 3 (erewrite lbind_done by done). erewrite lbind_done by done. apply pop_1. }
    done.
  - assert (∀ i, i = length (l_tables L) → (l_tables L ++ [∅]) !! i = Some ∅) as Ht by (intros i ->; by apply list_lookup_middle).
    assert (keeps 0 4 (Some (replicate 4 None)) []) as Hh by (split; [done|]; split; [lia|]; by exists (replicate 4 None)).
    constructor; cbn; unfold pattern_ptrs, message_ptrs; rewrite ?Hp, ?Hm; try done.
    + by apply list_lookup_middle.
    + exists (lasterror (wd_env w)). by destruct (wd_env w).
    + exists t, x, clear_gcobj_function. rewrite lookup_insert_eq. split; [done|]. split; [|done].
      apply list_lookup_insert_eq. rewrite length_app. cbn. lia.
Qed.


End GcNew.

(** Five messages, the last of them in a grown array, a pattern and a pattern of a
    message that does not exist. *)
Definition demo_script : list script_op :=
  replicate 5 (DecodeMessage [77] [8; 5]) ++ [PatternCreate [77] (lit "@id %D"); PatternCreate [88] (lit "@id %D")].

