(* ===== verification/ProtobufLua.v ===== *)
(** * The Lua module ([3rd/pbc/binding/lua/protobuf.lua])

    [encode] and [decode] with all they use: the tables of writers and the caches
    of them, [pairs] and [ipairs], the metatables of sub-messages that are decoded
    when they are used, and the tables of defaults.  The C functions are called
    through the stack; a Lua function returns the list of its results.  The local
    variables of the module that change are [c_script] of the state. *)

From S2P Require Import Prelude Varint PArray SpMap StringPool Context Proto Wmessage Decode Rmessage Double LuaApi PbcLua LuaDecode LuaPattern LuaGc.

(** ** Lua *)

Definition truthy (v : lvalue) : bool := match v with LNil | LBool false => false | _ => true end.

(** The string an error is raised with. *)
Definition err_text (s : list Z) : string :=
  String.string_of_list_ascii (List.map (λ b, Ascii.ascii_of_N (Z.to_N b)) s).

Definition key_value (k : list Z + Z) : lvalue :=
  match k with inl s => LStr s | inr n => LNum (dbl_of_Z n) end.

(** The integer a number is, as a key of a table. *)
Definition integer_key (v : lvalue) : option Z :=
  match v with
  | LNum n => match dbl_trunc n with Some i => if dbl_of_Z i =? n then Some i else None | None => None end
  | _ => None
  end.

(** [for .. in .. do .. end] over what the iterator returns. *)
Fixpoint for_each {A} (body : A → lua unit) (l : list A) : lua unit :=
  match l with
  | [] => lret ()
  | x :: rest => run! body x; for_each body rest
  end.

(** The elements from [i] on, until one is nil. *)
Fixpoint array_elements (fuel : nat) (x : ltable) (i : Z) : list lvalue :=
  match fuel with
  | O => []
  | S fuel' => match tget x (inr i) with LNil => [] | v => v :: array_elements fuel' x (i + 1) end
  end.

Section Lua.
Context `{Lua}.

Definition get_script : lua script := lua! c <- get_c; lret (c_script c).

Definition set_script (s : script) : lua unit :=
  lua! c <- get_c; set_c (CState (c_envs c) (c_gc c) (c_meta c) s).

(** A table constructor. *)
Definition new_table (x : ltable) : lua nat := λ L,
  Done (LState (l_stack L) (l_tables L ++ [x]) (l_c L), inl (length (l_tables L))).

Definition setmetatable (t : nat) (m : metatable) : lua unit :=
  lua! s <- get_script;
  set_script (Script (<[t := m]> (s_meta s)) (encode_type_cache s) (default_cache s)).

(** The loop of [ipairs]; an array has no more elements than the table entries. *)
Definition ipairs (v : lvalue) : lua (list lvalue) :=
  match v with
  | LTab t => lua! x <- get_table t; lret (array_elements (size x) x 1)
  | _ => tag_error
  end.

(** A call whose results are not used. *)
Definition call_ (f : lua Z) (args : list lvalue) : lua unit := run! call_c f args; lret ().

(** The first result. *)
Definition call_1 (f : lua Z) (args : list lvalue) : lua lvalue := lua! r <- call_c f args; lret (default LNil (head r)).

End Lua.

Section Module.
Context `{Lua} (junk : nat → Z) (d2f f2d : Z → Z) (stk : Z → list Z).
(** The two objects of the module, and the functions that are not part of it. *)
Context (P GC : lvalue) (user_function : lvalue → list lvalue → lua lvalue).

(** ** Defaults *)

(** [decode_message], with the table it returns. *)
Definition decode_message_table (message buffer : list Z) : lua lvalue :=
  lua! r <- LuaGc.decode_message f2d stk P GC message buffer;
  match r with
  | rmessage :: _ =>
      lua! self <- new_table (<[inl (lit "_CObj") := rmessage]> {[inl (lit "_CType") := LStr message]});
      run! setmetatable self MetaReader;
      lret (LTab self)
  | [] => lret LNil
  end.

Definition default_table (typename : list Z) : lua nat :=
  lua! s <- get_script;
  match default_cache s !! typename with
  | Some v => lret v
  | None =>
      lua! m <- decode_message_table typename [];
      if truthy m then
        lua! v <- new_table {[inl (lit "__index") := m]};
        lua! s <- get_script;
        run! set_script (Script (s_meta s) (encode_type_cache s) (<[typename := v]> (default_cache s)));
        lret v
      else luaL_error "assertion failed!"
  end.

(** ** Decoding *)

Definition decode_message_cb_function : nat := 1.

(** [setmetatable({ typename, buffer }, decode_message_mt)] *)
Definition decode_message_cb (typename buffer : lvalue) : lua lvalue :=
  lua! t <- new_table (tset (tset ∅ (inr 1) typename) (inr 2) buffer);
  run! setmetatable t MetaMessage;
  lret (LTab t).

Definition call_function (f : lvalue) (args : list lvalue) : lua lvalue :=
  if decide (f = LFun decode_message_cb_function) then
    decode_message_cb (default LNil (args !! 0%nat)) (default LNil (args !! 1%nat))
  else user_function f args.

Definition decode (typename : list Z) (buffer length : lvalue) : lua (list lvalue) :=
  lua! ret <- new_table ∅;
  lua! ok <- call_1 (_decode f2d stk call_function) [P; LFun decode_message_cb_function; LTab ret; LStr typename; buffer; length];
  if truthy ok then
    lua! v <- default_table typename;
    run! setmetatable ret (MetaDefault v);
    lret [LTab ret]
  else
    lua! err <- call_c _last_error [P];
    lret (LBool false :: err).

(** A table with [decode_message_mt] is decoded into itself. *)
Definition expand (tbl : nat) : lua unit :=
  lua! x <- get_table tbl;
  let typename := tget x (inr 1) in
  let buffer := tget x (inr 2) in
  run! put_table tbl (delete (inr 1) (delete (inr 2) x));
  lua! ok <- call_1 (_decode f2d stk call_function) [P; LFun decode_message_cb_function; LTab tbl; typename; buffer];
  match typename with
  | LStr name =>
      if truthy ok then lua! v <- default_table name; setmetatable tbl (MetaDefault v)
      else luaL_error (err_text name)
  | _ => luaL_error "index is nil"
  end.

(** What [for k,v in pairs(t)] goes through. *)
Definition pairs (t : lvalue) : lua (list ((list Z + Z) * lvalue)) :=
  match t with
  | LTab i =>
      lua! s <- get_script;
      run! match s_meta s !! i with Some MetaMessage => expand i | _ => lret () end;
      lua! x <- get_table i;
      lret (luaH_next x)
  | _ => tag_error
  end.

(** ** Encoding *)

(** [_writer[t](msg)] for a single field. *)
Definition single_writer (t : Z) (msg : lvalue) : option writer :=
  match t with
  | 1 => Some WrInt
  | 2 => Some WrReal
  | 3 => Some WrBool
  | 4 | 5 | 9 => Some WrString
  | 6 => Some (WrMessage msg)
  | 7 => Some WrInt64
  | 8 => Some WrInt32
  | 10 => Some WrInt52
  | 11 => Some WrUint52
  | _ => None
  end.

Definition _writer (t : Z) (msg : lvalue) : option writer :=
  if t <=? 128 then single_writer t msg else WrRepeated <$> single_writer (t - 128) msg.

(** [encode_type_cache[message_type]]; the table that is made has [_CType] besides
    the functions. *)
Definition encode_type (message_type : lvalue) : lua (list Z) :=
  match message_type with
  | LStr name =>
      lua! s <- get_script;
      match encode_type_cache s !! name with
      | Some _ => lret name
      | None =>
          run! set_script (Script (s_meta s) (<[name := ∅]> (encode_type_cache s)) (default_cache s));
          lret name
      end
  | _ => luaL_error "index is nil"
  end.

(** [type[k]]: from the cache, or by [_encode_type_meta.__index]. *)
Definition type_index (type : list Z) (k : list Z + Z) : lua writer :=
  lua! s <- get_script;
  match default ∅ (encode_type_cache s !! type) !! k with
  | Some func => lret func
  | None =>
      if decide (k = inl (lit "_CType")) then luaL_error "attempt to call a string value"
      else
        lua! r <- call_c _env_type [P; LStr type; key_value k];
        let t := default LNil (r !! 0%nat) in
        let msg := default LNil (r !! 1%nat) in
        match integer_key t ≫= λ t, _writer t msg with
        | None => luaL_error (err_text match k with inl s => s | inr n => lua_number2str (dbl_of_Z n) end)
        | Some func =>
            lua! s <- get_script;
            let cache := default ∅ (encode_type_cache s !! type) in
            run! set_script (Script (s_meta s) (<[type := <[k := func]> cache]> (encode_type_cache s)) (default_cache s));
            lret func
        end
  end.

(** [func(CObj, k, v)]; [encode_message] is called for sub-messages. *)
Fixpoint call_writer (encode_message : lvalue → lvalue → lvalue → lua unit) (func : writer) (CObj k v : lvalue) : lua unit :=
  match func with
  | WrInt => call_ (_wmessage_integer junk) [CObj; k; v]
  | WrReal => call_ (_wmessage_real junk d2f) [CObj; k; v]
  | WrBool => call_ (_wmessage_integer junk) [CObj; k; LNum (dbl_of_Z (if truthy v then 1 else 0))]
  | WrString => call_ (_wmessage_string junk) [CObj; k; v]
  | WrInt64 => call_ (_wmessage_int64 junk) [CObj; k; v]
  | WrInt32 => call_ (_wmessage_int32 junk) [CObj; k; v]
  | WrInt52 => call_ (_wmessage_int52 junk) [CObj; k; v]
  | WrUint52 => call_ (_wmessage_uint52 junk) [CObj; k; v]
  | WrMessage message_type =>
      lua! submessage <- call_1 (_wmessage_message junk) [CObj; k];
      encode_message submessage message_type v
  | WrRepeated func => lua! vs <- ipairs v; for_each (λ v, call_writer encode_message func CObj k v) vs
  end.

(** The fuel is the number of nested calls the Lua stack has room for. *)
Fixpoint encode_message (fuel : nat) (CObj message_type t : lvalue) : lua unit :=
  match fuel with
  | O => luaL_error "stack overflow"
  | S fuel' =>
      lua! type <- encode_type message_type;
      lua! fields <- pairs t;
      for_each (λ '(k, v), lua! func <- type_index type k; call_writer (encode_message fuel') func CObj (key_value k) v) fields
  end.

(** [func] is nil for a string; [args] are the further arguments for it. *)
Definition encode (fuel : nat) (message : list Z) (t func : lvalue) (args : list lvalue) : lua (list lvalue) :=
  lua! encoder <- call_1 (_wmessage_new junk) [P; LStr message];
  run! if truthy encoder then lret () else luaL_error (err_text message);
  run! encode_message fuel encoder (LStr message) t;
  if truthy func then
    lua! r <- call_c (_wmessage_buffer junk d2f) [encoder];
    lua! ret <- user_function func (default LNil (r !! 0%nat) :: default LNil (r !! 1%nat) :: args);
    run! call_ _wmessage_delete [encoder];
    lret [ret]
  else
    lua! s <- call_1 (_wmessage_buffer_string junk d2f) [encoder];
    run! call_ _wmessage_delete [encoder];
    lret [s].

End Module.
