(* ===== verification/LuaRT.v ===== *)
(** * Messages from Lua to Lua ([3rd/pbc/binding/lua])

    What [encode] of [protobuf.lua] makes of a table, [decode] makes a table of
    again: the theorem for tables without sub-messages, from [pairs] over the
    table through the binding and pbc to the string and back. *)

From S2P Require Import Prelude Varint PArray SpMap StringPool Context Proto Wmessage Decode Rmessage Double LuaApi PbcLua LuaDecode LuaPattern LuaGc ProtobufLua.

(** ** Values of a field *)

(** A Lua value that a field can hold, and the write it stands for. *)
Inductive legal (f : _field) : lvalue → wop → Prop :=
  | LegalInt n : type_class (f_type f) = PBC_INT → is_s32 n →
      legal f (LNum (dbl_of_Z n)) (WInt f (u32 n) (if n <? 0 then 2 ^ 32 - 1 else 0))
  | LegalBool b : f_type f = PTYPE_BOOL → legal f (LBool b) (WInt f (if b : bool then 1 else 0) 0)
  | LegalInt64 n : type_class (f_type f) = PBC_INT64 → - 2 ^ 53 <= n <= 2 ^ 53 →
      legal f (LNum (dbl_of_Z n)) (WInt f (u32 n) (u32 (Z.shiftr n 32)))
  | LegalUint n : type_class (f_type f) = PBC_UINT → 0 <= n <= 2 ^ 53 → (f_type f = PTYPE_UINT32 → n < 2 ^ 32) →
      legal f (LNum (dbl_of_Z n)) (WInt f (u32 n) (u32 (Z.shiftr n 32)))
  | LegalFixed64 s : type_class (f_type f) = PBC_FIXED64 → bytes_ok s → zlen s = 8 →
      legal f (LStr s) (WInt f (le_join (take 4 s)) (le_join (drop 4 s)))
  | LegalFixed32 n : type_class (f_type f) = PBC_FIXED32 → is_u32 n → legal f (LLight (PInt n)) (WInt f n 0)
  | LegalString s : type_class (f_type f) ∈ [PBC_STRING; PBC_BYTES] → zlen s < 2 ^ 31 → legal f (LStr s) (WStr f s [0])
  | LegalReal d : f_type f = PTYPE_DOUBLE → legal f (LNum d) (WDouble f d).

(** The callback's type of a field of the class [c], and the value of the event. *)
Lemma event_lvalue op c : type_class (f_type (op_field op)) = c → 0 <= c < 12 →
  ev_lvalue (op_event op) = scalar_value c (op_value op).
Proof.
  intros Hc Hr. unfold ev_lvalue, ev_repeated, op_event. cbn [ev_type ev_value]. rewrite Hc.
  destruct (_ || _).
  - assert (Z.land (Z.lor c PBC_REPEATED) PBC_REPEATED = PBC_REPEATED ∧ Z.land (Z.lor c PBC_REPEATED) (Z.lnot PBC_REPEATED) = c) as [-> ->];
      [|done]. assert (c ∈ seqZ 0 12) as Hin by (apply elem_of_seqZ; lia). clear -Hin. cbn in Hin.
    repeat (apply elem_of_cons in Hin as [->|Hin]; [done|]). by apply elem_of_nil in Hin.
  - assert (Z.land c PBC_REPEATED = 0) as ->; [|done]. assert (c ∈ seqZ 0 12) as Hin by (apply elem_of_seqZ; lia). clear -Hin. cbn in Hin.
    repeat (apply elem_of_cons in Hin as [->|Hin]; [done|]). by apply elem_of_nil in Hin.
Qed.

(** The words of an integer of at most 64 bits. *)
Lemma join_words n : is_s64 n → join64 (u32 n) (u32 (Z.shiftr n 32)) = u64 n.
Proof. intros Hn. rewrite join64_val by apply u32_range. rewrite Z.shiftr_div_pow2 by lia. width. Qed.

(** The value handed back keeps the low word, and the high word of the types
    that have one. *)
Lemma op_value_words f l h : ∃ h', op_value (WInt f l h) = PI l h'.
Proof. cbn [op_value]. repeat case_match; eauto. Qed.

Lemma class_wide t : type_class t ∈ [PBC_INT64; PBC_UINT; PBC_FIXED64] →
  t ∈ [PTYPE_INT64; PTYPE_SINT64; PTYPE_UINT32; PTYPE_UINT64; PTYPE_SFIXED64; PTYPE_FIXED64].
Proof.
  intros Hc. destruct (decide (t ∈ [PTYPE_INT64; PTYPE_SINT64; PTYPE_UINT32; PTYPE_UINT64; PTYPE_SFIXED64; PTYPE_FIXED64])) as [|Hno]; [done|].
  repeat (apply not_elem_of_cons in Hno as [? Hno]). exfalso. revert Hc. unfold type_class.
  repeat match goal with H : t ≠ ?x |- _ => rewrite (proj2 (Z.eqb_neq t x) H); clear H end. cbn [orb].
  repeat (match goal with |- context [if ?b then _ else _] => destruct b end; [intros Hc; by apply (bool_decide_pack _) in Hc|]).
  intros Hc; by apply (bool_decide_pack _) in Hc.
Qed.

Lemma op_value_wide f l h : type_class (f_type f) ∈ [PBC_INT64; PBC_UINT; PBC_FIXED64] → (f_type f = PTYPE_UINT32 → h = 0) →
  op_value (WInt f l h) = PI l h.
Proof.
  intros Hc Hh. apply class_wide in Hc. cbn [op_value]. set (t := f_type f) in *. clearbody t.
  repeat (apply elem_of_cons in Hc as [->|Hc]; [try done; by rewrite Hh|]). by apply elem_of_nil in Hc.
Qed.

Lemma legal_value f v op m : legal f v op → op_ok m op → ev_lvalue (op_event op) = Some v.
Proof.
  intros Hl (_ & _ & _ & _ & Hop). destruct Hl as [n Hc Hn|b Hc|n Hc Hn|n Hc Hn Hsm|s Hc Hb Hs|n Hc Hn|s Hc Hs|d Hc]; cbn [op_field] in *.
  - rewrite (event_lvalue _ PBC_INT) by done. destruct (op_value_words f (u32 n) (if n <? 0 then 2 ^ 32 - 1 else 0)) as [h' ->].
    cbn. by rewrite s32_u32, s32_id.
  - rewrite (event_lvalue _ PBC_BOOL) by (cbn; by rewrite ?Hc). destruct (op_value_words f (if b then 1 else 0) 0) as [h' ->]. by destruct b.
  - rewrite (event_lvalue _ PBC_INT64), op_value_wide by (done || (rewrite ?Hc; set_solver) || (intros E; by rewrite E in Hc)). cbn.
    rewrite join_words by (unfold is_s64; lia). by rewrite s64_u64, s64_id by (unfold is_s64; lia).
  - rewrite (event_lvalue _ PBC_UINT), op_value_wide; [|rewrite Hc; set_solver | | done | done].
    + cbn. rewrite join_words by (unfold is_s64; lia). by rewrite u64_id by (unfold is_u64; lia).
    + intros E. rewrite Z.shiftr_div_pow2, Z.div_small by (specialize (Hsm E); lia). done.
  - rewrite (event_lvalue _ PBC_FIXED64), op_value_wide by (done || (rewrite ?Hc; set_solver) || (intros E; by rewrite E in Hc)).
    change (scalar_value PBC_FIXED64 (PI (le_join (take 4 s)) (le_join (drop 4 s))))
      with (Some (LStr (le_split 4 (le_join (take 4 s)) ++ le_split 4 (le_join (drop 4 s))))).
    unfold zlen in Hs. assert (length (take 4 s) = 4%nat ∧ length (drop 4 s) = 4%nat) as [H4 H4'] by (rewrite length_take, length_drop; lia).
    pose proof (le_split_join (take 4 s) (bytes_ok_take _ _ Hb)) as E1. pose proof (le_split_join (drop 4 s) (bytes_ok_drop _ _ Hb)) as E2.
    rewrite H4 in E1. rewrite H4' in E2. by rewrite E1, E2, take_drop.
  - rewrite (event_lvalue _ PBC_FIXED32) by done. by destruct (op_value_words f n 0) as [h' ->].
  - rewrite (event_lvalue _ _ eq_refl); cbn [op_field op_value scalar_value].
    + repeat (apply elem_of_cons in Hc as [->|Hc]; [done|]). by apply elem_of_nil in Hc.
    + repeat (apply elem_of_cons in Hc as [->|Hc]; [done|]). by apply elem_of_nil in Hc.
  - rewrite (event_lvalue _ PBC_REAL) by (cbn; by rewrite ?Hc). done.
Qed.

(** ** Writing *)

(** The writer [r] of the environment [e] is the message [wm]. *)
Definition has_writer (c : cstate) (e r : nat) (w : world) (wm : wmessage) : Prop :=
  c_envs c !! e = Some (Some w) ∧ wd_wm w !! r = Some (Some [wm]).

Definition set_writer (w : world) (r : nat) (s : option (list wmessage)) : world :=
  World (wd_env w) (<[r := s]> (wd_wm w)) (wd_rm w) (wd_pat w).

Lemma has_writer_set c e r w wm wm' : has_writer c e r w wm → has_writer (put_env c e (set_writer w r (Some [wm']))) e r (set_writer w r (Some [wm'])) wm'.
Proof.
  intros [He Hr]. split; cbn.
  - apply list_lookup_insert_eq. by eapply lookup_lt_Some.
  - apply list_lookup_insert_eq. by eapply lookup_lt_Some.
Qed.

Lemma set_set w r s s' : set_writer (set_writer w r s) r s' = set_writer w r s'.
Proof. unfold set_writer. cbn. by rewrite list_insert_insert_eq. Qed.

Section Writing.
Context `{Lua} (junk : nat → Z) (d2f : Z → Z).
Implicit Types (st : list lvalue) (tb : list ltable) (c : cstate).

Lemma on_writer {A} (g : pbc_env → list wmessage → nat → outcome (A * list wmessage * option string)) st tb c e r w wm wm' a :
  has_writer c e r w wm → g (wd_env w) [wm] 0%nat = Done (a, [wm'], None) →
  on_wmessage (PWm e r 0) g (LState st tb c) = Done (LState st tb (put_env c e (set_writer w r (Some [wm']))), inl a).
Proof.
  intros [He Hr] Hg. unfold on_wmessage. erewrite lbind_done by (by apply get_world_ok). rewrite Hr, Hg.
  erewrite lbind_done by done. cbv beta iota. by erewrite lbind_done by apply put_world_ok.
Qed.

Lemma write_field_ok (g : pbc_env → wmessage → outcome wres) st tb c e r w wm wm' ret :
  has_writer c e r w wm → g (wd_env w) wm = Done (ret, wm', None) →
  write_field (PWm e r 0) g (LState st tb c) = Done (LState st tb (put_env c e (set_writer w r (Some [wm']))), inl ret).
Proof. intros Hw Hg. unfold write_field. eapply on_writer; [done|]. cbn. by rewrite Hg. Qed.

(** The arguments of a writer. *)
Lemma arg_message v k p tb c : (∀ n, p ≠ PInt n) →
  checkuserdata 1 (LState [v; LStr k; LLight p] tb c) = Done (LState [v; LStr k; LLight p] tb c, inl p).
Proof. intros Hp. cbn. destruct p as [[]| | | | | |]; try done; by edestruct Hp. Qed.

Lemma arg_key v k p tb c : 0 ∉ k → luaL_checkstring 2 (LState [v; LStr k; LLight p] tb c) = Done (LState [v; LStr k; LLight p] tb c, inl k).
Proof. intros Hk. unfold luaL_checkstring. erewrite lbind_done by done. unfold lret. by rewrite c_string_id. Qed.

Lemma arg_number n k p tb c : luaL_checknumber 3 (LState [LNum n; LStr k; LLight p] tb c) = Done (LState [LNum n; LStr k; LLight p] tb c, inl n).
Proof. done. Qed.

Lemma arg_integer n i k p tb c : dbl_s64 n = Done i →
  luaL_checkinteger 3 (LState [LNum n; LStr k; LLight p] tb c) = Done (LState [LNum n; LStr k; LLight p] tb c, inl i).
Proof.
  intros Hi. unfold luaL_checkinteger, lua_tointegerx. erewrite (lbind_done _ _ _ _ (Some i)); [done|].
  erewrite lbind_done by done. cbn [tonumber]. by rewrite Hi.
Qed.

(** A C function that returns nothing. *)
Lemma call_none (f : lua Z) args st tb c st' c' : f (LState (rev args) tb c) = Done (LState st' tb c', inl 0) →
  call_ f args (LState st tb c) = Done (LState st tb c', inl ()).
Proof. intros Hf. unfold call_, lbind, call_c. cbn [l_tables l_c l_stack]. by rewrite Hf. Qed.

(** Each writer performs the write its value stands for. *)
Lemma writer_runs enc f v op msg fn c e r w wm wm' st tb : legal f v op → 0 ∉ f_name f → has_writer c e r w wm →
  do_op junk d2f (wd_env w) wm op = Done (0, wm', None) → single_writer (type_class (f_type f)) msg = Some fn →
  call_writer junk d2f enc fn (LLight (PWm e r 0)) (LStr (f_name f)) v (LState st tb c)
  = Done (LState st tb (put_env c e (set_writer w r (Some [wm']))), inl ()).
Proof.
  intros Hl Hk Hw Hdo Hfn.
  assert (∀ v, checkuserdata 1 (LState [v; LStr (f_name f); LLight (PWm e r 0)] tb c) = Done (_, inl (PWm e r 0))) as H1
    by (intros; by apply arg_message).
  assert (∀ v, luaL_checkstring 2 (LState [v; LStr (f_name f); LLight (PWm e r 0)] tb c) = Done (_, inl (f_name f))) as H2
    by (intros; by apply arg_key).
  destruct Hl as [n Hc Hn|b Hc|n Hc Hn|n Hc Hn Hsm|s Hc Hb Hs|n Hc Hn|s Hc Hs|d Hc]; cbn [do_op] in Hdo.
  - rewrite Hc in Hfn. injection Hfn as <-. eapply call_none. cbn [rev app].
    unfold _wmessage_integer. do 2 (erewrite lbind_done by apply H1 || apply H2).
    erewrite lbind_done by (apply arg_integer, dbl_s64_exact; unfold is_s32 in Hn; lia).
    rewrite s32_id by done. erewrite lbind_done by (by eapply write_field_ok). done.
  - assert (type_class (f_type f) = PBC_BOOL) as Hb by (by rewrite Hc). rewrite Hb in Hfn. injection Hfn as <-.
    assert ((if truthy (LBool b) then 1 else 0) = (if b then 1 else 0)) as E by (by destruct b). cbn [call_writer]. rewrite E.
    eapply call_none. cbn [rev app]. unfold _wmessage_integer. do 2 (erewrite lbind_done by apply H1 || apply H2).
    erewrite lbind_done by (apply arg_integer, dbl_s64_exact; destruct b; lia).
    erewrite lbind_done by (eapply write_field_ok; [done | by destruct b]). done.
  - rewrite Hc in Hfn. injection Hfn as <-. eapply call_none. cbn [rev app].
    unfold _wmessage_int52. do 2 (erewrite lbind_done by apply H1 || apply H2). erewrite lbind_done by apply arg_number.
    rewrite dbl_s64_exact by lia. erewrite lbind_done by done. erewrite lbind_done by (by eapply write_field_ok). done.
  - rewrite Hc in Hfn. injection Hfn as <-. eapply call_none. cbn [rev app].
    unfold _wmessage_uint52. do 2 (erewrite lbind_done by apply H1 || apply H2). erewrite lbind_done by apply arg_number.
    destruct (dbl_u64_exact n ltac:(lia)) as [-> ->]. erewrite lbind_done by done. erewrite lbind_done by (by eapply write_field_ok). done.
  - rewrite Hc in Hfn. injection Hfn as <-. eapply call_none. cbn [rev app].
    unfold _wmessage_int64. do 2 (erewrite lbind_done by apply H1 || apply H2). erewrite lbind_done by (by apply (index_top _ _ _ 3 0)).
    cbv beta iota. rewrite (proj2 (Z.eqb_eq _ _) Hs). cbn [negb]. erewrite lbind_done by (by eapply write_field_ok). done.
  - rewrite Hc in Hfn. injection Hfn as <-. eapply call_none. cbn [rev app].
    unfold _wmessage_int32. do 2 (erewrite lbind_done by apply H1 || apply H2). erewrite lbind_done by done. cbn [negb].
    erewrite lbind_done by done. cbn [ptr_u32]. rewrite u32_id by done. erewrite lbind_done by done.
    erewrite lbind_done by (by eapply write_field_ok). done.
  - assert (fn = WrString) as ->.
    { repeat (apply elem_of_cons in Hc as [Hc|Hc]; [rewrite Hc in Hfn; by injection Hfn|]). by apply elem_of_nil in Hc. }
    eapply call_none. cbn [rev app].
    unfold _wmessage_string. do 2 (erewrite lbind_done by apply H1 || apply H2). erewrite lbind_done by done.
    rewrite s32_id by (unfold is_s32; pose proof (zlen_nonneg s); lia). erewrite lbind_done by (by eapply write_field_ok). done.
  - assert (type_class (f_type f) = PBC_REAL) as Hr by (by rewrite Hc). rewrite Hr in Hfn. injection Hfn as <-.
    eapply call_none. cbn [rev app].
    unfold _wmessage_real. do 2 (erewrite lbind_done by apply H1 || apply H2). erewrite lbind_done by apply arg_number.
    erewrite lbind_done by (by eapply write_field_ok). done.
Qed.

Lemma legal_field f v op : legal f v op → op_field op = f.
Proof. by destruct 1. Qed.

(** The fields of a table, and the writes they stand for. *)
Definition writes (m : _message) (fs : list (_field * lvalue)) (ops : list wop) : Prop :=
  Forall2 (λ p op, legal p.1 p.2 op ∧ op_ok m op ∧ 0 ∉ f_name p.1) fs ops.

Lemma writes_ok m fs ops : writes m fs ops → Forall (op_ok m) ops.
Proof. induction 1 as [|p op fs ops (_ & ? & _)]; constructor; done. Qed.

(** ** The entries of a table *)

(** The classes of the fields without sub-messages and enums. *)
Definition scalar_field (f : _field) : Prop :=
  type_class (f_type f) ∈ [PBC_INT; PBC_REAL; PBC_BOOL; PBC_STRING; PBC_BYTES; PBC_FIXED64; PBC_FIXED32; PBC_INT64; PBC_UINT].

Lemma legal_scalar f v op : legal f v op → scalar_field f.
Proof.
  unfold scalar_field. destruct 1 as [? -> | ? -> | ? -> | ? -> | ? -> | ? -> | ? Hc | ? ->];
    [by apply (bool_decide_unpack _) .. | | by apply (bool_decide_unpack _)].
  repeat (apply elem_of_cons in Hc as [->|Hc]; [by apply (bool_decide_unpack _)|]). by apply elem_of_nil in Hc.
Qed.

(** What [_env_type] returns for a field, and the writer it selects. *)
Definition field_class (f : _field) : Z :=
  if is_repeated f then Z.lor (type_class (f_type f)) PBC_REPEATED else type_class (f_type f).

Lemma field_writer f msg : scalar_field f → ∃ fn, single_writer (type_class (f_type f)) msg = Some fn
  ∧ _writer (field_class f) msg = Some (if is_repeated f then WrRepeated fn else fn)
  ∧ integer_key (LNum (dbl_of_Z (field_class f))) = Some (field_class f).
Proof.
  unfold scalar_field, field_class. generalize (type_class (f_type f)) as c. intros c Hc. destruct (is_repeated f);
    repeat (apply elem_of_cons in Hc as [->|Hc]; [eexists; by split_and!|]); by apply elem_of_nil in Hc.
Qed.

Lemma scalar_type m env type_name f : scalar_field f → _pbcP_get_message env type_name = Done (Some m) →
  _pbcM_sp_query (Some (m_name m)) (f_name f) = Done (Some f) → pbc_type env type_name (Some (f_name f)) true = Done (field_class f, None).
Proof.
  intros Hs Hm Hq. unfold pbc_type. rewrite Hm. cbn [obind]. rewrite Hq. cbn [obind _pbcP_type].
  assert (type_key f true = Done None) as ->.
  { unfold type_key. cbn [negb]. unfold scalar_field in Hs. destruct (Z.eqb_spec (f_type f) PTYPE_ENUM) as [E|_]; [rewrite E in Hs|].
    { apply (bool_decide_pack _) in Hs. done. }
    destruct (Z.eqb_spec (f_type f) PTYPE_MESSAGE) as [E|_]; [rewrite E in Hs|done]. apply (bool_decide_pack _) in Hs. done. }
  cbn [obind]. unfold field_class, is_repeated. destruct (Z.eqb_spec (type_class (f_type f)) 0) as [E|_].
  { unfold scalar_field in Hs. rewrite E in Hs. apply (bool_decide_pack _) in Hs. done. }
  by destruct (_ || _).
Qed.

(** The writers in the cache are those of the fields. *)
Definition cache_ok (m : _message) (type_name : list Z) (s : script) : Prop :=
  ∀ f fn, scalar_field f → _pbcM_sp_query (Some (m_name m)) (f_name f) = Done (Some f) →
    default ∅ (encode_type_cache s !! type_name) !! inl (f_name f) = Some fn → _writer (field_class f) LNil = Some fn.

(** An optional value that [pbc_wmessage_*] leaves out because it is the default. *)
Definition left_out (op : wop) : Prop :=
  let f := op_field op in f_label f = LABEL_OPTIONAL ∧
  match op with
  | WInt _ l h => is_default_integer f l h = true
  | WStr _ bs tail => tail = [0] ∧ is_default_string f (bs ++ tail) (zlen bs) = Done true
  | WDouble _ v => ∃ d, f_default_v f = VReal d ∧ double_eq v d = true
  end.

Lemma op_left_out env m w op : left_out op → w_type w = m →
  _pbcM_sp_query (Some (m_name m)) (f_name (op_field op)) = Done (Some (op_field op)) → do_op junk d2f env w op = Done (0, w, None).
Proof.
  intros [Hlab Hdef] Hty Hq. assert (f_label (op_field op) =? LABEL_PACKED = false ∧ f_label (op_field op) =? LABEL_OPTIONAL = true) as [Hp Ho]
    by (by rewrite Hlab). destruct op as [f l h|f bs tail|f v]; cbn [op_field do_op] in *.
  - unfold pbc_wmessage_integer. rewrite Hty, Hq. cbn [obind]. by rewrite Hp, Ho, Hdef.
  - destruct Hdef as [-> Hdef]. unfold pbc_wmessage_string. rewrite Hty, Hq. cbn [obind].
    assert ((if zlen bs <=? 0 then do! s <- cstr (bs ++ [0]); Done (zlen s - zlen bs) else Done (zlen bs)) = Done (zlen bs)) as ->.
    { destruct (Z.leb_spec (zlen bs) 0) as [Hz|_]; [|done]. destruct bs as [|b bs]; [done|]. rewrite zlen_cons in Hz. pose proof (zlen_nonneg bs). lia. }
    cbn [obind]. by rewrite Hp, Ho, Hdef.
  - destruct Hdef as (d & Hd & Heq). unfold pbc_wmessage_real. rewrite Hty, Hq. cbn [obind]. by rewrite Hp, Ho, Hd, Heq.
Qed.

(** An entry of a table that is encoded: a value that is written, the default of an
    optional field, which is not, or the elements of a repeated field. *)
Inductive entry := Kept (f : _field) (v : lvalue) | LeftOut (f : _field) (v : lvalue) | Elements (f : _field) (vs : list lvalue).

Definition entry_field (en : entry) : _field := match en with Kept f _ | LeftOut f _ | Elements f _ => f end.

(** The fields that are written. *)
Definition entry_writes (en : entry) : list (_field * lvalue) :=
  match en with Kept f v => [(f, v)] | LeftOut _ _ => [] | Elements f vs => (f,.) <$> vs end.

(** The table [x] has the elements [vs] at 1, 2, .. and no more. *)
Definition array_of (x : ltable) (vs : list lvalue) : Prop :=
  LNil ∉ vs ∧ ∀ i, (i <= length vs)%nat → tget x (inr (Z.of_nat i + 1)) = default LNil (vs !! i).

Definition entry_ok (m : _message) (tb : list ltable) (kv : (list Z + Z) * lvalue) (en : entry) : Prop :=
  let f := entry_field en in
  kv.1 = inl (f_name f) ∧ f_name f ≠ lit "_CType" ∧ 0 ∉ f_name f ∧ scalar_field f
  ∧ _pbcM_sp_query (Some (m_name m)) (f_name f) = Done (Some f)
  ∧ match en with
    | Kept _ v => kv.2 = v ∧ is_repeated f = false
    | LeftOut _ v => kv.2 = v ∧ is_repeated f = false ∧ ∃ op, legal f v op ∧ left_out op
    | Elements _ vs => is_repeated f = true ∧ ∃ a x, kv.2 = LTab a ∧ tb !! a = Some x ∧ array_of x vs
    end.

Lemma array_elements_ok x vs : array_of x vs → array_elements (size x) x 1 = vs.
Proof.
  intros [Hnil Hx]. assert (length vs ≤ size x)%nat as Hsize.
  { apply keys_size. intros i Hi. apply tget_Some. specialize (Hx (Z.to_nat (i - 1)) ltac:(lia)).
    replace (Z.of_nat (Z.to_nat (i - 1)) + 1) with i in Hx by lia. rewrite Hx.
    destruct (lookup_lt_is_Some_2 vs (Z.to_nat (i - 1)) ltac:(lia)) as [v Hv]. rewrite Hv. cbn. intros ->.
    by apply list_elem_of_lookup_2 in Hv. }
  enough (∀ fuel i, (length vs ≤ i + fuel)%nat → (i <= length vs)%nat → array_elements fuel x (Z.of_nat i + 1) = drop i vs) as Hgo
    by (apply (Hgo (size x) 0%nat); lia).
  induction fuel as [|fuel IH]; intros i Hf Hi; cbn [array_elements]; [by rewrite drop_ge by lia|]. rewrite Hx by done.
  destruct (vs !! i) as [v|] eqn:Ev; cbn [default].
  - apply lookup_lt_Some in Ev as Hlt. rewrite (drop_S _ _ _ Ev).
    replace (Z.of_nat i + 1 + 1) with (Z.of_nat (S i) + 1) by lia. rewrite IH by lia.
    destruct v; try done. by apply list_elem_of_lookup_2 in Ev.
  - apply lookup_ge_None in Ev. by rewrite drop_ge by lia.
Qed.

(** ** Encoding *)

Definition with_script (c : cstate) (s : script) : cstate := CState (c_envs c) (c_gc c) (c_meta c) s.

Lemma get_script_ok st tb c : get_script (LState st tb c) = Done (LState st tb c, inl (c_script c)).
Proof. done. Qed.

Lemma set_script_ok st tb c s : set_script s (LState st tb c) = Done (LState st tb (with_script c s), inl ()).
Proof. done. Qed.

Lemma setmetatable_ok t mt st tb c : setmetatable t mt (LState st tb c)
  = Done (LState st tb (with_script c (Script (<[t := mt]> (s_meta (c_script c))) (encode_type_cache (c_script c)) (default_cache (c_script c)))), inl ()).
Proof. done. Qed.

(** What encoding leaves of the script's state. *)
Definition script_step (m : _message) (type_name : list Z) (s s' : script) : Prop :=
  cache_ok m type_name s' ∧ s_meta s' = s_meta s ∧ default_cache s' = default_cache s.

Lemma env_type_call e w type_name name cls st tb c : c_envs c !! e = Some (Some w) → 0 ∉ type_name → 0 ∉ name →
  pbc_type (wd_env w) type_name (Some name) true = Done (cls, None) →
  call_c _env_type [LLight (PEnv e); LStr type_name; LStr name] (LState st tb c) = Done (LState st tb c, inl [LNum (dbl_of_Z cls)]).
Proof.
  intros He Hk Hn Hty. unfold call_c. cbn [rev app l_tables l_c l_stack].
  enough (_env_type (LState [LStr name; LStr type_name; LLight (PEnv e)] tb c)
    = Done (LState [LNum (dbl_of_Z cls); LStr name; LStr type_name; LLight (PEnv e)] tb c, inl 1)) as -> by done.
  unfold _env_type. do 2 erewrite lbind_done by done.
  erewrite lbind_done by (unfold luaL_checkstring; by erewrite lbind_done by done). rewrite c_string_id by done.
  do 2 erewrite lbind_done by done. erewrite lbind_done by (by apply get_world_ok). cbv beta iota.
  erewrite lbind_done by (unfold luaL_checkstring; by erewrite lbind_done by done). rewrite c_string_id by done.
  rewrite Hty. erewrite lbind_done by done. cbv beta iota. by erewrite lbind_done by done.
Qed.

(** The function of a field, from the cache or made. *)
Lemma type_index_ok m e w type_name f st tb c : c_envs c !! e = Some (Some w) → _pbcP_get_message (wd_env w) type_name = Done (Some m) →
  0 ∉ type_name → 0 ∉ f_name f → f_name f ≠ lit "_CType" → scalar_field f → _pbcM_sp_query (Some (m_name m)) (f_name f) = Done (Some f) →
  cache_ok m type_name (c_script c) →
  ∃ fn s', type_index (LLight (PEnv e)) type_name (inl (f_name f)) (LState st tb c)
      = Done (LState st tb (with_script c s'), inl (if is_repeated f then WrRepeated fn else fn))
    ∧ single_writer (type_class (f_type f)) LNil = Some fn ∧ script_step m type_name (c_script c) s'.
Proof.
  intros He Hm Hk Hn Hct Hsc Hq Hcache. destruct (field_writer f LNil Hsc) as (fn & Hfn & Hw & Hkey).
  unfold type_index. erewrite lbind_done by apply get_script_ok.
  destruct (default ∅ _ !! inl (f_name f)) as [wr|] eqn:Ec.
  - pose proof (Hcache f wr Hsc Hq Ec) as Hwr. rewrite Hw in Hwr. injection Hwr as <-. exists fn, (c_script c). split; [by destruct c|]. done.
  - rewrite decide_False by (intros [=]; done).
    erewrite lbind_done by (apply (env_type_call _ w _ _ (field_class f)); [done..|by apply (scalar_type m)]).
    cbv zeta. cbn [lookup list_lookup default from_option]. cbn [id]. rewrite Hkey. cbn [option_bind mbind]. rewrite Hw.
    eexists fn, _. split; [|split; [done|]].
    { erewrite lbind_done by apply get_script_ok. by erewrite lbind_done by apply set_script_ok. }
    split; [|done]. intros f' fn' Hsc' Hq' Hl. cbn [encode_type_cache] in Hl. rewrite lookup_insert_eq in Hl. cbn [default from_option id] in Hl.
    apply lookup_insert_Some in Hl as [[E <-]|[_ Hl]]; [|by apply Hcache].
    injection E as E. rewrite <- E, Hq in Hq'. by injection Hq' as <-.
Qed.

Lemma put_writer_same c e r w wm : has_writer c e r w wm → put_env c e (set_writer w r (Some [wm])) = c.
Proof.
  intros [He Hr]. destruct c as [envs gcs metas sc], w as [env wms rms pats]. unfold put_env, set_writer. cbn in *.
  by rewrite (list_insert_id wms), (list_insert_id envs).
Qed.

(** A loop over values of one field. *)
Lemma values_run enc m f fn e r st tb vs : single_writer (type_class (f_type f)) LNil = Some fn → ∀ ops c w wm,
  writes m ((f,.) <$> vs) ops → has_writer c e r w wm → w_type wm = m → wm_ok wm → w_ptr wm + zlen (concat (map op_bytes ops)) + 20 <= 2 ^ 30 →
  ∃ wm', for_each (λ v, call_writer junk d2f enc fn (LLight (PWm e r 0)) (LStr (f_name f)) v) vs (LState st tb c)
    = Done (LState st tb (put_env c e (set_writer w r (Some [wm']))), inl ()) ∧ wrote wm wm' (concat (map op_bytes ops)).
Proof.
  intros Hfn. induction vs as [|v vs IH]; intros ops c w wm Hws Hw Hty Hok Hmax; cbn [for_each]; inversion Hws as [|x op y ops' (Hl & Hop & Hk) Hws' Ex]; subst.
  - exists wm. rewrite (put_writer_same _ _ _ _ _ Hw). split; [done | by apply wrote_nil].
  - cbn [map concat fst snd] in *. rewrite zlen_app in Hmax. pose proof (zlen_nonneg (concat (map op_bytes ops'))).
    destruct (op_written junk d2f (wd_env w) _ wm op Hop eq_refl Hok ltac:(lia)) as (wm1 & Hdo & Hwr1).
    erewrite lbind_done by (by eapply writer_runs). pose proof Hwr1 as (Hok1 & _ & Hp1 & Ht1 & _).
    destruct (IH ops' _ _ wm1 Hws' (has_writer_set c e r w wm wm1 Hw)) as (wm2 & -> & Hwr2); [congruence | done | lia |].
    exists wm2. rewrite put_put, set_set. split; [done|]. by eapply wrote_trans.
Qed.

(** One entry of the table. *)
Lemma entry_runs enc m type_name kv en e r st tb ops c w wm : entry_ok m tb kv en → writes m (entry_writes en) ops →
  _pbcP_get_message (wd_env w) type_name = Done (Some m) → 0 ∉ type_name → cache_ok m type_name (c_script c) →
  has_writer c e r w wm → w_type wm = m → wm_ok wm → w_ptr wm + zlen (concat (map op_bytes ops)) + 20 <= 2 ^ 30 →
  ∃ wm' s', (lua! func <- type_index (LLight (PEnv e)) type_name kv.1;
             call_writer junk d2f enc func (LLight (PWm e r 0)) (key_value kv.1) kv.2) (LState st tb c)
    = Done (LState st tb (with_script (put_env c e (set_writer w r (Some [wm']))) s'), inl ())
    ∧ wrote wm wm' (concat (map op_bytes ops)) ∧ script_step m type_name (c_script c) s'.
Proof.
  intros (Hkey & Hct & Hn & Hsc & Hq & Hen) Hws Hm Hk Hcache Hw Hty Hok Hmax. rewrite Hkey. cbn [key_value].
  destruct (type_index_ok m e w type_name (entry_field en) st tb c) as (fn & s' & Hti & Hfn & Hstep); [apply Hw | done..|].
  erewrite lbind_done by exact Hti.
  assert (has_writer (with_script c s') e r w wm) as Hw' by exact Hw.
  destruct en as [f v|f v|f vs]; cbn [entry_field entry_writes] in *.
  - destruct Hen as [-> ->]. destruct (values_run enc m f fn e r st tb [v] Hfn ops _ w wm Hws Hw' Hty Hok Hmax) as (wm' & Hrun & Hwr).
    exists wm', s'. split; [|done]. cbn [for_each] in Hrun. unfold lbind in Hrun.
    destruct (call_writer _ _ _ _ _ _ _ _) as [[L1 [[]|x]]|x]; [exact Hrun | discriminate Hrun | discriminate Hrun].
  - destruct Hen as (-> & -> & op & Hl & Hlo). inversion Hws; subst. exists wm, s'. split; [|split; [by apply wrote_nil | done]].
    assert (op_field op = f) as Hf by (by eapply legal_field).
    rewrite (writer_runs enc f v op LNil fn (with_script c s') e r w wm wm st tb Hl Hn Hw'); [done | | done].
    apply (op_left_out _ (w_type wm)); [done..|]. by rewrite Hf.
  - destruct Hen as (-> & a & x & -> & Hx & Harr). cbn [call_writer ipairs].
    erewrite lbind_done by (unfold get_table; erewrite lbind_done by (cbn [l_tables]; by rewrite Hx); done). rewrite (array_elements_ok x vs Harr).
    destruct (values_run enc m f fn e r st tb vs Hfn ops _ w wm Hws Hw' Hty Hok Hmax) as (wm' & Hrun & Hwr). by exists wm', s'.
Qed.

Lemma fields_run enc m type_name e r st tb kvs ens : Forall2 (entry_ok m tb) kvs ens → ∀ ops c w wm,
  writes m (ens ≫= entry_writes) ops →
  _pbcP_get_message (wd_env w) type_name = Done (Some m) → 0 ∉ type_name → cache_ok m type_name (c_script c) →
  has_writer c e r w wm → w_type wm = m → wm_ok wm → w_ptr wm + zlen (concat (map op_bytes ops)) + 20 <= 2 ^ 30 →
  ∃ wm' s', for_each (λ '(k, v), lua! func <- type_index (LLight (PEnv e)) type_name k;
                        call_writer junk d2f enc func (LLight (PWm e r 0)) (key_value k) v) kvs (LState st tb c)
    = Done (LState st tb (with_script (put_env c e (set_writer w r (Some [wm']))) s'), inl ())
    ∧ wrote wm wm' (concat (map op_bytes ops)) ∧ script_step m type_name (c_script c) s'.
Proof.
  induction 1 as [|kv en kvs ens Hen _ IH]; intros ops c w wm Hws Hm Hk Hcache Hw Hty Hok Hmax; cbn [for_each].
  - inversion Hws; subst. exists wm, (c_script c). rewrite (put_writer_same _ _ _ _ _ Hw). split; [by destruct c|]. split; [by apply wrote_nil | done].
  - cbn in Hws. apply Forall2_app_inv_l in Hws as (ops1 & ops2 & Hws1 & Hws2 & ->).
    rewrite map_app, concat_app, zlen_app in *. pose proof (zlen_nonneg (concat (map op_bytes ops2))).
    destruct (entry_runs enc m type_name kv en e r st tb ops1 c w wm) as (wm1 & s1 & Hrun & Hwr1 & Hc1 & Hm1 & Hd1); [done..|lia|].
    destruct kv as [k v]. cbn [fst snd] in Hrun. erewrite lbind_done by exact Hrun. pose proof Hwr1 as (Hok1 & _ & Hp1 & Ht1 & _).
    destruct (IH ops2 (with_script (put_env c e (set_writer w r (Some [wm1]))) s1) (set_writer w r (Some [wm1])) wm1)
      as (wm2 & s2 & -> & Hwr2 & Hc2 & Hm2 & Hd2); [done | done | done | done | apply (has_writer_set c e r w wm wm1 Hw) | congruence | done | lia |].
    exists wm2, s2. rewrite set_set. split; [|split; [by eapply wrote_trans | split; [done | cbn in *; split; congruence]]].
    unfold with_script, put_env. cbn. by rewrite list_insert_insert_eq.
Qed.

(** A table that is not a sub-message waiting to be decoded. *)
Lemma pairs_plain f2d stk GC user_function t x st tb c : tb !! t = Some x → s_meta (c_script c) !! t ≠ Some MetaMessage →
  ∀ P, pairs f2d stk P GC user_function (LTab t) (LState st tb c) = Done (LState st tb c, inl (luaH_next x)).
Proof.
  intros Hx Hmt P. unfold pairs. erewrite lbind_done by apply get_script_ok.
  erewrite (lbind_done _ _ _ (LState st tb c)) by (by destruct (s_meta (c_script c) !! t) as [[]|]).
  erewrite lbind_done by (unfold get_table; cbn [l_tables]; by rewrite Hx). done.
Qed.

Lemma encode_type_ok m type_name st tb c : cache_ok m type_name (c_script c) → ∃ s',
  encode_type (LStr type_name) (LState st tb c) = Done (LState st tb (with_script c s'), inl type_name) ∧ script_step m type_name (c_script c) s'.
Proof.
  intros Hcache. unfold encode_type. erewrite lbind_done by apply get_script_ok. destruct (encode_type_cache (c_script c) !! type_name) eqn:E.
  - exists (c_script c). split; [by destruct c | done].
  - erewrite lbind_done by apply set_script_ok. eexists. split; [done|]. split; [|done]. intros f fn Hsc Hq Hl.
    cbn [encode_type_cache] in Hl. rewrite lookup_insert_eq in Hl. cbn [default from_option id] in Hl. by rewrite lookup_empty in Hl.
Qed.

Lemma encode_message_ok fuel f2d stk GC user_function m type_name t x ens ops e r st tb c w wm :
  tb !! t = Some x → s_meta (c_script c) !! t ≠ Some MetaMessage → Forall2 (entry_ok m tb) (luaH_next x) ens → writes m (ens ≫= entry_writes) ops →
  _pbcP_get_message (wd_env w) type_name = Done (Some m) → 0 ∉ type_name → cache_ok m type_name (c_script c) →
  has_writer c e r w wm → w_type wm = m → wm_ok wm → w_ptr wm + zlen (concat (map op_bytes ops)) + 20 <= 2 ^ 30 →
  ∃ wm' s', encode_message junk d2f f2d stk (LLight (PEnv e)) GC user_function (S fuel) (LLight (PWm e r 0)) (LStr type_name) (LTab t) (LState st tb c)
    = Done (LState st tb (with_script (put_env c e (set_writer w r (Some [wm']))) s'), inl ())
    ∧ wrote wm wm' (concat (map op_bytes ops)) ∧ script_step m type_name (c_script c) s'.
Proof.
  intros Hx Hmt Hens Hws Hm Hk Hcache Hw Hty Hok Hmax. cbn [encode_message].
  destruct (encode_type_ok m type_name st tb c Hcache) as (s1 & Het & Hc1 & Hm1 & Hd1). erewrite lbind_done by exact Het.
  erewrite lbind_done by (apply (pairs_plain _ _ _ _ _ x); [done | cbn; by rewrite Hm1]).
  destruct (fields_run (encode_message junk d2f f2d stk (LLight (PEnv e)) GC user_function fuel) m type_name e r st tb _ _ Hens
    ops (with_script c s1) w wm) as (wm' & s' & Hrun & Hwr & Hc2 & Hm2 & Hd2); [done..|].
  exists wm', s'. split; [exact Hrun|]. split; [done|]. cbn in *. split; [done | split; congruence].
Qed.

(** A message without packed fields and sub-messages is its buffer. *)
Lemma plain_buffer wm : wm_ok wm → w_packed wm = None → w_sub wm = _pbcA_open_heap →
  pbc_wmessage_buffer junk d2f 2 [wm] 0 = Done ([wm], written wm).
Proof.
  intros Hok Hp Hs. cbn [pbc_wmessage_buffer lookup list_lookup]. rewrite Hp. cbn [obind]. rewrite Hs.
  change (array_list (Z.to_nat (pbc_array_size _pbcA_open_heap)) _pbcA_open_heap 0) with (Done (A := list (nat * _field)) []).
  cbn [obind append_subs insert list_insert lookup list_lookup]. unfold slice_of. by rewrite bytes_written.
Qed.

(** A C function that returns one value. *)
Lemma call_one (f : lua Z) args v st tb c st' tb' c' : f (LState (rev args) tb c) = Done (LState (v :: st') tb' c', inl 1) →
  call_1 f args (LState st tb c) = Done (LState st tb' c', inl v).
Proof. intros Hf. unfold call_1, lbind, call_c. cbn [l_tables l_c l_stack]. by rewrite Hf. Qed.

(** [encode] gives the bytes of the fields and frees the writer. *)
Lemma encode_bytes fuel f2d stk GC user_function m type_name t x ens ops e st tb c w :
  tb !! t = Some x → s_meta (c_script c) !! t ≠ Some MetaMessage → Forall2 (entry_ok m tb) (luaH_next x) ens → writes m (ens ≫= entry_writes) ops →
  c_envs c !! e = Some (Some w) → _pbcP_get_message (wd_env w) type_name = Done (Some m) → 0 ∉ type_name → cache_ok m type_name (c_script c) →
  zlen (concat (map op_bytes ops)) + 20 <= 2 ^ 30 →
  ∃ s', encode junk d2f f2d stk (LLight (PEnv e)) GC user_function (S fuel) type_name (LTab t) LNil [] (LState st tb c)
    = Done (LState st tb (with_script (put_env c e (World (wd_env w) (wd_wm w ++ [None]) (wd_rm w) (wd_pat w))) s'),
            inl [LStr (concat (map op_bytes ops))]) ∧ script_step m type_name (c_script c) s'.
Proof.
  intros Hx Hmt Hens Hws He Hm Hk Hcache Hmax.
  set (wm0 := Wmessage._wmessage_new junk m). set (r := length (wd_wm w)).
  set (w1 := World (wd_env w) (wd_wm w ++ [Some [wm0]]) (wd_rm w) (wd_pat w)).
  assert (_wmessage_new junk (LState [LStr type_name; LLight (PEnv e)] tb c)
    = Done (LState [LLight (PWm e r 0); LStr type_name; LLight (PEnv e)] tb (put_env c e w1), inl 1)) as Hnew.
  { unfold _wmessage_new. erewrite lbind_done by done. erewrite lbind_done by (unfold luaL_checkstring; by erewrite lbind_done by done).
    rewrite c_string_id by done. erewrite lbind_done by done. erewrite lbind_done by (by apply get_world_ok).
    unfold pbc_wmessage_new. rewrite Hm. cbn [obind]. erewrite lbind_done by done. cbv beta iota. by erewrite lbind_done by apply put_world_ok. }
  assert (has_writer (put_env c e w1) e r w1 wm0) as Hw1.
  { split; cbn; [apply list_lookup_insert_eq; by eapply lookup_lt_Some|]. by apply list_lookup_middle. }
  destruct (new_ok junk m) as [Hok0 Hw0].
  destruct (encode_message_ok fuel f2d stk GC user_function m type_name t x ens ops e r st tb (put_env c e w1) w1 wm0)
    as (wm & s' & Hrun & Hwr & Hstep); [done..|cbn [w_ptr wm0 Wmessage._wmessage_new]; lia|].
  pose proof Hwr as (Hok & Hbytes & _ & _ & Hsub & Hpk). fold wm0 in Hw0. rewrite Hw0 in Hbytes. cbn [app] in Hbytes.
  exists s'. split; [|exact Hstep]. set (c2 := with_script (put_env c e (set_writer w1 r (Some [wm]))) s').
  assert (has_writer c2 e r (set_writer w1 r (Some [wm])) wm) as Hw2.
  { pose proof (has_writer_set _ e r w1 wm0 wm Hw1) as Hw2. by rewrite put_put in Hw2. }
  rewrite put_put in Hrun. fold c2 in Hrun.
  unfold encode. erewrite lbind_done by (by eapply call_one). cbn [truthy]. erewrite lbind_done by done. erewrite lbind_done by exact Hrun.
  erewrite (lbind_done _ _ _ (LState st tb c2) (LStr (written wm))).
  2: { apply (call_one _ _ _ _ _ _ [LLight (PWm e r 0)]). cbn [rev app]. unfold _wmessage_buffer_string. erewrite lbind_done by done. erewrite lbind_done.
    2: { unfold wmessage_slice. apply (on_writer _ _ _ _ _ _ _ _ wm (written wm) Hw2). cbn [length]. by rewrite plain_buffer. }
    rewrite (put_writer_same c2 e r (set_writer w1 r (Some [wm])) wm Hw2).
    unfold lua_pushlstring. rewrite copy_mem_all. done. }
  erewrite (lbind_done _ _ _ (LState st tb (put_env c2 e (set_writer w1 r None))) ()).
  2: { eapply call_none. cbn [rev app]. unfold _wmessage_delete. erewrite lbind_done by done. erewrite lbind_done; [done|]. destruct Hw2 as [He2 Hr2].
    unfold pbc_wmessage_delete. erewrite lbind_done by (by apply get_world_ok). rewrite Hr2, put_world_ok. do 3 f_equal.
    change (World _ (<[r := None]> _) _ _) with (set_writer (set_writer w1 r (Some [wm])) r None). by rewrite set_set. }
  rewrite Hbytes. unfold lret. do 3 f_equal. unfold c2, with_script, put_env, set_writer, w1. cbn.
  rewrite list_insert_insert_eq. do 4 f_equal. unfold r. by rewrite insert_app_r_alt, Nat.sub_diag.
Qed.

End Writing.

(** ** Reading *)

(** The values of the fields called [name], in order. *)
Definition field_values (name : list Z) (fs : list (_field * lvalue)) : list lvalue :=
  (filter (λ p, f_name p.1 = name) fs).*2.

Lemma event_repeated op : 0 <= type_class (f_type (op_field op)) < 12 → ev_repeated (op_event op) = is_repeated (op_field op).
Proof.
  intros Hc. unfold ev_repeated, op_event, is_repeated. cbn [ev_type]. set (c := type_class _) in *.
  assert (c ∈ seqZ 0 12) as Hin by (apply elem_of_seqZ; lia). clearbody c. cbn in Hin.
  destruct (_ || _); repeat (apply elem_of_cons in Hin as [->|Hin]; [done|]); by apply elem_of_nil in Hin.
Qed.

(** A field is found by its name and by its number. *)
Lemma ops_consistent m ops : Forall (op_ok m) ops → consistent (map op_event ops).
Proof.
  intros Hok e1 e2 H1 H2. rewrite Forall_forall in Hok.
  apply list_elem_of_fmap in H1 as (o1 & -> & H1). apply list_elem_of_fmap in H2 as (o2 & -> & H2).
  destruct (Hok o1 H1) as (Hn1 & Hi1 & _). destruct (Hok o2 H2) as (Hn2 & Hi2 & _).
  rewrite !event_repeated by apply class_range. cbn [op_event ev_id ev_key].
  assert (f_id (op_field o1) = f_id (op_field o2) → op_field o1 = op_field o2) as Hid by (intros E; rewrite E in Hi1; congruence).
  assert (f_name (op_field o1) = f_name (op_field o2) → op_field o1 = op_field o2) as Hname by (intros E; rewrite E in Hn1; congruence).
  split; [split|].
  - intros E. by rewrite (Hid E).
  - intros [= E]. by rewrite (Hname E).
  - intros E. by rewrite (Hid E).
Qed.

Lemma writes_values m fs ops name : writes m fs ops →
  ev_val <$> field_events name (map op_event ops) = field_values name fs ∧ Forall ev_ok (map op_event ops).
Proof.
  unfold field_events, field_values. induction 1 as [|[f v] op fs ops (Hl & Hop & _) _ [IH Hok]]; [done|]. cbn [fst snd] in *. cbn [map].
  pose proof (legal_value f v op m Hl Hop) as Hv. pose proof (legal_field f v op Hl) as Hf. split.
  - rewrite !filter_cons. cbn [op_event ev_key fst]. rewrite Hf.
    destruct (decide (f_name f = name)) as [->|Hne].
    + rewrite !decide_True by done. cbn. rewrite IH. f_equal. unfold ev_val. by rewrite Hv.
    + rewrite !decide_False by congruence. done.
  - constructor; [|done]. split; [done|]. by exists v.
Qed.

Lemma filter_ext_in {A} (P Q : A → Prop) `{∀ x, Decision (P x), ∀ x, Decision (Q x)} (l : list A) :
  (∀ x, x ∈ l → P x ↔ Q x) → filter P l = filter Q l.
Proof.
  induction l as [|x l IH]; intros Hpq; [done|]. rewrite !filter_cons, IH by (intros; apply Hpq; set_solver).
  pose proof (Hpq x ltac:(set_solver)). by destruct (decide (P x)), (decide (Q x)); try tauto.
Qed.

(** The elements of a repeated field are the values under its name. *)
Lemma elements_named evs e name : consistent evs → e ∈ evs → ev_repeated e = true → ev_key e = Some name →
  elements (ev_id e) evs = ev_val <$> field_events name evs.
Proof.
  intros Hc Hin Hr Hk. unfold elements, field_events. f_equal. apply filter_ext_in. intros x Hx.
  destruct (Hc e x Hin Hx) as [Hiff Hrep]. rewrite <- Hk. split.
  - intros [E _]. symmetry. by apply Hiff.
  - intros E. assert (ev_id e = ev_id x) as E' by (by apply Hiff). split; [done|]. by rewrite <- Hrep.
Qed.

Section RoundTrip.
Context `{Lua} (junk : nat → Z) (d2f f2d : Z → Z) (stk : Z → list Z).

Lemma decode_writes env type_name m ops : _pbcP_get_message env type_name = Done (Some m) → Forall (op_ok m) ops →
  zlen (concat (map op_bytes ops)) + 20 <= 2 ^ 30 → (∀ i, stack_ok (stk i)) →
  pbc_decode f2d env type_name (concat (map op_bytes ops)) stk = Done (zlen ops, map op_event ops, None).
Proof.
  intros Hm Hok Hmax Hstk. destruct ops as [|op ops]; [|by eapply decode_ops].
  unfold pbc_decode. rewrite Hm. done.
Qed.

(** [_decode] of a string runs the callbacks on the target and a new table. *)
Lemma decode_call lua_function st tb c e w f t type_name bytes length n evs tb' :
  let i := List.length tb in
  c_envs c !! e = Some (Some w) → 0 ∉ type_name → pbc_decode f2d (wd_env w) type_name bytes stk = Done (n, evs, None) → 0 <= n →
  let args := [length; LStr bytes; LStr type_name; LTab t; LFun f; LLight (PEnv e)] in
  callbacks lua_function evs (LState (LTab i :: LTab t :: LFun f :: args) (tb ++ [∅]) c)
    = Done (LState (LTab i :: LTab t :: LFun f :: args) tb' c, inl ()) →
  call_1 (_decode f2d stk lua_function) (rev args) (LState st tb c) = Done (LState st tb' c, inl (LBool true)).
Proof.
  intros i He Hk Hd Hn args Hcb. pose proof (put_same c e w He) as Hput.
  apply (call_one _ _ _ _ _ _ (LTab i :: LTab t :: LFun f :: args)). rewrite rev_involutive.
  unfold _decode. do 5 (erewrite lbind_done by done).
  erewrite lbind_done by (unfold luaL_checkstring; by erewrite lbind_done by done). rewrite c_string_id by done.
  do 5 (erewrite lbind_done by done). erewrite lbind_done by done. cbn [l_stack l_tables l_c].
  erewrite lbind_done by (by apply get_world_ok). rewrite Hd. erewrite lbind_done by done. cbv beta iota.
  erewrite lbind_done by apply put_world_ok. cbn [note_error]. rewrite Hput. erewrite lbind_done by exact Hcb.
  rewrite (proj2 (Z.ltb_ge n 0)) by lia. done.
Qed.

(** What the tables hold, in terms of the fields that were written. *)
Lemma filled_contents (m : _message) (fs : list (_field * lvalue)) (ops : list wop) (arr : gmap Z nat) (x : ltable) (tb : list ltable) : writes m fs ops → let evs := map op_event ops in
  (∀ id a, arr !! id = Some a → tb !! a = Some (array_table (elements id evs))) →
  (∀ id, arr !! id = None → elements id evs = []) → (∀ key, x !! inl key = field_content arr ∅ key evs) →
  (∀ name, field_values name fs = [] → x !! inl name = None)
  ∧ ∀ fl, fl ∈ fs.*1 →
      let vs := field_values (f_name fl) fs in
      if is_repeated fl then ∃ a, x !! inl (f_name fl) = Some (LTab a) ∧ tb !! a = Some (array_table vs)
      else x !! inl (f_name fl) = last vs.
Proof.
  intros Hfs evs Harr Hdom Hkey. pose proof (ops_consistent m ops (writes_ok m fs ops Hfs)) as Hcons.
  assert (∀ name, ev_val <$> field_events name evs = field_values name fs) as Hvals by (intros; by apply (writes_values m)).
  split.
  { intros name Hn. rewrite Hkey. unfold field_content. rewrite <- Hvals in Hn. apply fmap_nil_inv in Hn. by rewrite Hn. }
  intros fl Hfl vs. assert (∃ op, op ∈ ops ∧ op_field op = fl) as (op & Hop & Hf).
  { apply list_elem_of_fmap in Hfl as ([f' v] & -> & Hin). apply list_elem_of_lookup in Hin as [k Hk].
    destruct (Forall2_lookup_l _ _ _ _ _ Hfs Hk) as (op & Ho & Hl & _). exists op. split; [by eapply list_elem_of_lookup_2|]. by eapply legal_field. }
  assert (op_event op ∈ evs) as Hein by (unfold evs; apply list_elem_of_fmap; eauto).
  assert (ev_key (op_event op) = Some (f_name fl)) as Hek by (cbn; by rewrite Hf).
  assert (op_event op ∈ field_events (f_name fl) evs) as Hin by (unfold field_events; by apply list_elem_of_filter).
  unfold vs. rewrite Hkey, <- Hvals. unfold field_content. destruct (last (field_events (f_name fl) evs)) as [e|] eqn:El.
  2: { apply last_None in El. rewrite El in Hin. by apply elem_of_nil in Hin. }
  pose proof (last_Some_elem_of _ _ El) as He. unfold field_events in He. apply list_elem_of_filter in He as [Hke Hin'].
  destruct (Hcons e (op_event op) Hin' Hein) as [Hiff Hrep]. assert (ev_id e = ev_id (op_event op)) as Eid by (apply Hiff; congruence).
  rewrite (Hrep Eid), event_repeated, Hf by apply class_range. destruct (is_repeated fl) eqn:Er.
  - assert (ev_repeated e = true) as Hre by (by rewrite (Hrep Eid), event_repeated, Hf by apply class_range).
    pose proof (elements_named evs e _ Hcons Hin' Hre Hke) as Hel. destruct (arr !! ev_id e) as [a|] eqn:Ea.
    + exists a. split; [done|]. rewrite <- Hel. by apply Harr.
    + apply Hdom in Ea. rewrite Hel in Ea. apply fmap_nil_inv in Ea. rewrite Ea in Hin. by apply elem_of_nil in Hin.
  - rewrite fmap_last, El. cbn. unfold ev_val. pose proof (writes_values m fs ops [] Hfs) as [_ Hok]. rewrite Forall_forall in Hok.
    destruct (Hok e Hin') as [_ [lv Hlv]]. by rewrite Hlv.
Qed.


(** The table of defaults of the type was made before, or the object [g] has room
    for the message it is made with. *)
Definition defaults_ready (g : nat) (type_name : list Z) (c : cstate) : Prop :=
  is_Some (default_cache (c_script c) !! type_name)
  ∨ ∃ obj ps, c_gc c !! g = Some obj ∧ keeps (size_msg obj) (cap_msg obj) (o_msg obj) ps ∧ size_msg obj < 2 ^ 30.

Lemma default_table_ok m type_name e w g st tb c : c_envs c !! e = Some (Some w) → _pbcP_get_message (wd_env w) type_name = Done (Some m) →
  0 ∉ type_name → defaults_ready g type_name c →
  ∃ tb' c' v, default_table f2d stk (LLight (PEnv e)) (LUdata g) type_name (LState st tb c) = Done (LState st (tb ++ tb') c', inl v)
    ∧ default_cache (c_script c') !! type_name = Some v.
Proof.
  intros He Hm Hk Hready. unfold default_table. erewrite lbind_done by apply get_script_ok.
  destruct (default_cache (c_script c) !! type_name) as [v|] eqn:Ec.
  { exists [], c, v. by rewrite app_nil_r. }
  destruct Hready as [[? Hv]|(obj & ps & Hg & Hkeep & Hsize)]; [congruence|].
  assert (∃ r, pbc_rmessage_new f2d (wd_env w) stk (c_string type_name) [] = Done (Some r, None)) as [r Hr].
  { unfold pbc_rmessage_new. rewrite c_string_id, Hm by done. eexists. vm_compute. reflexivity. }
  destruct (add_keeps _ _ _ _ (PRm e (length (wd_rm w)) 0) Hkeep Hsize) as (cap & p & p' & Hgrow & Hset & _).
  unfold decode_message_table, LuaGc.decode_message.
  erewrite lbind_done.
  2: { erewrite lbind_done.
    2: { erewrite lbind_done by (by apply (rmessage_new_call f2d stk e (LState st tb c) w type_name [] (Some r) None)).
      cbv beta iota. cbn [note_error].
      erewrite lbind_done by (eapply (add_rmessage_call g _ obj); [exact Hg | exact Hgrow | exact Hset]). done. }
    cbv beta iota. erewrite lbind_done by done. by erewrite lbind_done by apply setmetatable_ok. }
  cbn [truthy]. erewrite lbind_done by done. erewrite lbind_done by apply get_script_ok. erewrite lbind_done by apply set_script_ok.
  cbn [l_stack l_tables l_c]. rewrite <- app_assoc. eexists _, _, _. split; [done|]. cbn. by rewrite lookup_insert_eq.
Qed.

(** ** The values of an entry *)

Lemma field_values_app name fs fs' : field_values name (fs ++ fs') = field_values name fs ++ field_values name fs'.
Proof. unfold field_values. by rewrite filter_app, fmap_app. Qed.

Lemma entry_own name en : field_values name (entry_writes en) = if decide (f_name (entry_field en) = name) then (entry_writes en).*2 else [].
Proof.
  assert (∀ p, p ∈ entry_writes en → p.1 = entry_field en) as Hp.
  { destruct en as [f v|f v|f vs]; cbn [entry_writes entry_field]; intros p Hp; [by apply list_elem_of_singleton in Hp as -> | by apply elem_of_nil in Hp |].
    by apply list_elem_of_fmap in Hp as (v & -> & _). }
  unfold field_values. induction (entry_writes en) as [|p fs IH]; [by destruct (decide _)|]. rewrite filter_cons, (Hp p) by set_solver.
  specialize (IH ltac:(intros; apply Hp; set_solver)). destruct (decide (f_name (entry_field en) = name)); [cbn; by rewrite IH | done].
Qed.

Lemma no_entry name ens : name ∉ (λ en, f_name (entry_field en)) <$> ens → field_values name (ens ≫= entry_writes) = [].
Proof.
  induction ens as [|en ens IH]; intros Hn; [done|]. rewrite fmap_cons in Hn. apply not_elem_of_cons in Hn as [Hne Hn].
  rewrite bind_cons, field_values_app, entry_own, decide_False by congruence. by apply IH.
Qed.

Lemma entry_values ens en : NoDup ((λ en, f_name (entry_field en)) <$> ens) → en ∈ ens →
  field_values (f_name (entry_field en)) (ens ≫= entry_writes) = (entry_writes en).*2.
Proof.
  induction ens as [|en' ens IH]; intros Hnd Hin; [by apply elem_of_nil in Hin|]. rewrite fmap_cons in Hnd. apply NoDup_cons in Hnd as [Hn Hnd].
  rewrite bind_cons, field_values_app, entry_own. apply elem_of_cons in Hin as [->|Hin].
  - rewrite decide_True, no_entry, app_nil_r by done. done.
  - rewrite decide_False; [by apply IH|]. intros E. apply Hn. rewrite E. apply list_elem_of_fmap. by exists en.
Qed.

(** The names of the entries are the keys of the table. *)
Lemma entries_keys (m : _message) (tb : list ltable) (x : ltable) (ens : list entry) : Forall2 (entry_ok m tb) (luaH_next x) ens →
  NoDup ((λ en, f_name (entry_field en)) <$> ens)
  ∧ ∀ k, x !! k = None → match k with inl name => name ∉ (λ en, f_name (entry_field en)) <$> ens | inr _ => True end.
Proof.
  intros Hens. assert ((luaH_next x).*1 = inl <$> ((λ en, f_name (entry_field en)) <$> ens)) as Hk.
  { induction Hens as [|kv en kvs ens (Hkey & _) _ IH]; [done|]. cbn. by rewrite Hkey, IH. }
  pose proof (luaH_next_perm x) as Hperm. split.
  - apply (NoDup_fmap_1 (@inl (list Z) Z)). rewrite <- Hk, Hperm. apply NoDup_fst_map_to_list.
  - intros [name|n] Hx; [|done]. intros Hin. assert (@inl (list Z) Z name ∈ (luaH_next x).*1) as Hin' by (rewrite Hk; apply list_elem_of_fmap; eauto).
    rewrite Hperm in Hin'. apply list_elem_of_fmap in Hin' as ([k v] & Ek & Hin'). cbn in Ek. subst k. apply elem_of_map_to_list in Hin'. congruence.
Qed.

(** What the decoded table [x] has for an entry of the one that was encoded. *)
Definition decoded (tb : list ltable) (x : ltable) (en : entry) : Prop :=
  match en with
  | Kept f v => x !! inl (f_name f) = Some v
  | LeftOut f _ | Elements f [] => x !! inl (f_name f) = None
  | Elements f vs => ∃ a, x !! inl (f_name f) = Some (LTab a) ∧ tb !! a = Some (array_table vs)
  end.

Lemma decoded_entries (m : _message) (tb0 : list ltable) (x0 : ltable) (ens : list entry) (ops : list wop) (arr : gmap Z nat) (x : ltable) (tb : list ltable) : Forall2 (entry_ok m tb0) (luaH_next x0) ens →
  writes m (ens ≫= entry_writes) ops → let evs := map op_event ops in
  (∀ id a, arr !! id = Some a → tb !! a = Some (array_table (elements id evs))) →
  (∀ id, arr !! id = None → elements id evs = []) → (∀ key, x !! inl key = field_content arr ∅ key evs) →
  Forall (decoded tb x) ens ∧ ∀ name, x0 !! inl name = None → x !! inl name = None.
Proof.
  intros Hens Hws evs Harr Hdom Hkey. destruct (entries_keys _ _ _ _ Hens) as [Hnd Habs].
  destruct (filled_contents m _ ops arr x tb Hws Harr Hdom Hkey) as [Hnone Hsome]. split.
  - apply Forall_forall. intros en Hin. pose proof (entry_values ens en Hnd Hin) as Hv.
    apply list_elem_of_lookup in Hin as [i Hi]. destruct (Forall2_lookup_r _ _ _ _ _ Hens Hi) as (kv & _ & _ & _ & _ & _ & _ & Hen).
    apply list_elem_of_lookup_2 in Hi.
    assert (∀ p, p ∈ entry_writes en → entry_field en ∈ (ens ≫= entry_writes).*1) as Hfl.
    { intros p Hp. apply list_elem_of_fmap. exists p. split.
      - destruct en as [f v|f v|f vs]; cbn in *; [by apply list_elem_of_singleton in Hp as -> | by apply elem_of_nil in Hp |].
        by apply list_elem_of_fmap in Hp as (v & -> & _).
      - apply list_elem_of_bind. by exists en. }
    destruct en as [f v|f v|f vs]; cbn [entry_field entry_writes decoded] in *.
    + specialize (Hsome f (Hfl (f, v) ltac:(set_solver))). cbv zeta in Hsome. destruct Hen as [_ Hrep]. by rewrite Hrep, Hv in Hsome.
    + by apply Hnone.
    + destruct vs as [|v vs]; [by apply Hnone|]. specialize (Hsome f (Hfl (f, v) ltac:(set_solver))). cbv zeta in Hsome.
      destruct Hen as [Hrep _]. rewrite Hrep, Hv in Hsome. cbn [fmap list_fmap] in Hsome.
      assert (((f,.) <$> vs).*2 = vs) as E by (clear; induction vs; cbn; congruence). cbn in Hsome. by rewrite E in Hsome.
  - intros name Hn. apply Hnone, no_entry. by apply (Habs (inl name)).
Qed.

(** [decode] of the bytes of some writes. *)
Lemma decode_bytes m type_name (fs : list (_field * lvalue)) ops e w g uf st tb c :
  c_envs c !! e = Some (Some w) → _pbcP_get_message (wd_env w) type_name = Done (Some m) → 0 ∉ type_name →
  writes m fs ops → zlen (concat (map op_bytes ops)) + 20 <= 2 ^ 30 → (∀ i, stack_ok (stk i)) → defaults_ready g type_name c →
  ∃ tb2 c2 arr x d, let evs := map op_event ops in let t := length tb in
    decode f2d stk (LLight (PEnv e)) (LUdata g) uf type_name (LStr (concat (map op_bytes ops))) LNil (LState st tb c)
      = Done (LState st tb2 c2, inl [LTab t])
    ∧ tb2 !! t = Some x ∧ s_meta (c_script c2) !! t = Some (MetaDefault d) ∧ default_cache (c_script c2) !! type_name = Some d
    ∧ (∀ n, x !! inr n = None) ∧ (∀ id a, arr !! id = Some a → tb2 !! a = Some (array_table (elements id evs)))
    ∧ (∀ id, arr !! id = None → elements id evs = []) ∧ (∀ key, x !! inl key = field_content arr ∅ key evs).
Proof.
  intros He Hm Hk Hfs Hmax Hstk Hready. pose proof (writes_ok m fs ops Hfs) as Hops.
  set (t := length tb). set (tb0 := (tb ++ [∅]) ++ [∅]). set (evs := map op_event ops). set (f := decode_message_cb_function).
  assert (Forall ev_ok evs) as Hev by (by apply (writes_values m fs ops [])).
  assert (length tb0 = S (S t)) as Hlen0 by (unfold tb0; rewrite !length_app; cbn; lia).
  set (args := [LNil; LStr (concat (map op_bytes ops)); LStr type_name; LTab t; LFun f; LLight (PEnv e)]).
  set (lua_function := call_function uf).
  destruct (callbacks_filled lua_function tb0 (S t) t ∅ ltac:(lia) ltac:(lia) ltac:(lia) evs [] tb0 ∅ (LFun f) args c)
    as (tb' & arr & Hcb & Hfill); [| |done|by apply (ops_consistent m)|].
  { unfold tb0. constructor; try done.
    - exists ∅. split; [|done]. rewrite lookup_app_r by (rewrite length_app; cbn; lia). rewrite length_app. cbn. replace (_ - _)%nat with 0%nat by lia. done.
    - exists ∅. split; [|done]. rewrite lookup_app_l by (rewrite length_app; cbn; lia). by apply list_lookup_middle. }
  { done. }
  destruct (default_table_ok m type_name e w g st tb' c He Hm Hk Hready) as (tb3 & c3 & d & Hdef & Hd).
  destruct Hfill as [_ _ Harr _ Hdom (x & Hx & Hnum & Hkey) _]. cbn [app] in *.
  eexists (tb' ++ tb3), _, arr, x, d. cbv zeta. split.
  { unfold decode. erewrite lbind_done by done. fold t lua_function f. cbn [l_stack l_tables l_c].
    erewrite lbind_done.
    2: { apply (decode_call lua_function st (tb ++ [∅]) c e w f t type_name (concat (map op_bytes ops)) LNil (zlen ops) evs tb'); [done | done | | apply zlen_nonneg |].
      - by apply (decode_writes _ _ m).
      - rewrite length_app. cbn [length]. rewrite Nat.add_1_r. exact Hcb. }
    cbn [truthy]. erewrite lbind_done by exact Hdef. by erewrite lbind_done by apply setmetatable_ok. }
  split; [by apply lookup_app_l_Some|]. cbn. rewrite lookup_insert_eq. split; [done|]. split; [done|].
  split; [intros n; by rewrite Hnum|]. split; [intros id a Ha; by apply lookup_app_l_Some, Harr | done].
Qed.

(** C3: what a script encodes is what it decodes.  [encode] goes through a table
    with [pairs], finds the writer of each key in its cache or makes it, and writes
    the value, or the elements [ipairs] gives for a repeated field.  When each
    entry is a scalar field (not an enum, a float, a packed field or a sub-message,
    and not called [_CType]) with a value that its type can hold, and every value
    that is written can be read back ([writes]: no empty strings; numbers up to
    2^53 for the 64-bit types), it gives a string, and [decode] of the string gives
    a new table, in which every value is under its name, every array of a repeated
    field is a new table with the same elements in order, and nothing else is: the
    values that are the default of an optional field were not written and are
    absent, as are empty arrays.  The table has the defaults of its type as its
    metatable, and the stack is as before. *)
Theorem lua_roundtrip L e w g uf fuel type_name m t0 X ens ops :
  c_envs (l_c L) !! e = Some (Some w) → _pbcP_get_message (wd_env w) type_name = Done (Some m) → 0 ∉ type_name →
  l_tables L !! t0 = Some X → s_meta (c_script (l_c L)) !! t0 ≠ Some MetaMessage → Forall2 (entry_ok m (l_tables L)) (luaH_next X) ens →
  writes m (ens ≫= entry_writes) ops → zlen (concat (map op_bytes ops)) + 20 <= 2 ^ 30 → (∀ i, stack_ok (stk i)) →
  cache_ok m type_name (c_script (l_c L)) → defaults_ready g type_name (l_c L) →
  let P := LLight (PEnv e) in
  ∃ L1 s L2 t x d,
    encode junk d2f f2d stk P (LUdata g) uf (S fuel) type_name (LTab t0) LNil [] L = Done (L1, inl [LStr s])
    ∧ decode f2d stk P (LUdata g) uf type_name (LStr s) LNil L1 = Done (L2, inl [LTab t])
    ∧ l_stack L2 = l_stack L ∧ l_tables L2 !! t = Some x ∧ Forall (decoded (l_tables L2) x) ens ∧ (∀ k, X !! k = None → x !! k = None)
    ∧ s_meta (c_script (l_c L2)) !! t = Some (MetaDefault d) ∧ default_cache (c_script (l_c L2)) !! type_name = Some d.
Proof.
  intros He Hm Hk HX Hmt Hens Hws Hmax Hstk Hcache Hready P. destruct L as [st tb c]. cbn [l_stack l_tables l_c] in *.
  destruct (encode_bytes junk d2f fuel f2d stk (LUdata g) uf m type_name t0 X ens ops e st tb c w) as (s' & Henc & _ & _ & Hd); [done..|].
  set (w' := World (wd_env w) (wd_wm w ++ [None]) (wd_rm w) (wd_pat w)) in *. set (c1 := with_script (put_env c e w') s') in *.
  destruct (decode_bytes m type_name (ens ≫= entry_writes) ops e w' g uf st tb c1) as (tb2 & c2 & arr & x & d & Hdec & Hx & Hmeta & Hdef & Hnum & Harr & Hdom & Hkey);
    [cbn; apply list_lookup_insert_eq; by eapply lookup_lt_Some | done | done | exact Hws | done | done | by unfold defaults_ready, c1; cbn; rewrite Hd|].
  destruct (decoded_entries m tb X ens ops arr x tb2 Hens Hws Harr Hdom Hkey) as [Hall Hnone].
  exists (LState st tb c1), (concat (map op_bytes ops)), (LState st tb2 c2), (length tb), x, d.
  split_and!; try done. intros [name|n] HXk; [by apply Hnone | apply Hnum].
Qed.

End RoundTrip.

(** A script that encodes and decodes [{ id = 0, n = "hi!", z = { 7, -3 } }]; 0 is
    the default of [id]. *)
Definition demo_field (k : nat) : _field := default (Field 0 [] 0 0 (VInteger 0 0) (TName None)) (demo_fields !! k).

Definition demo_numbers : list lvalue := [LNum (dbl_of_Z 7); LNum (dbl_of_Z (-3))].

Definition demo_table : ltable :=
  <[inl [105; 100] := LNum (dbl_of_Z 0)]> (<[inl [110] := LStr [104; 105; 33]]> {[inl [122] := LTab 1]}).

Definition demo_entries : list entry :=
  [Elements (demo_field 2) demo_numbers; Kept (demo_field 1) (LStr [104; 105; 33]); LeftOut (demo_field 0) (LNum (dbl_of_Z 0))].

Definition demo_ops : list wop :=
  [WInt (demo_field 2) (u32 7) 0; WInt (demo_field 2) (u32 (-3)) (2 ^ 32 - 1); WStr (demo_field 1) [104; 105; 33] [0]].

(** The tables are 0 and 1; the object of [_gc] has no messages. *)
Definition demo_gc : gcobj := GcObj (PEnv 0) 0 4 (Some (replicate 4 None)) 0 4 (Some (replicate 4 None)).

Definition demo_state : lua_State cstate :=
  LState [] [demo_table; array_table demo_numbers] (CState [Some (World demo_env [] [] [])] [demo_gc] ∅ new_script).

Definition demo_function : lvalue → list lvalue → lua lvalue := λ _ _, lret LNil.

(** The conditions of a write of the demo that are decided by evaluation. *)
Ltac demo_write :=
  split; [|split; [unfold op_ok; cbn [op_field fst];
    (split; [vm_compute; reflexivity|]); (split; [vm_compute; reflexivity|]); (split; [split; vm_compute; congruence|]);
    (split; [vm_compute; discriminate|]); (split; [apply (bool_decide_unpack _); vm_compute; exact I|])
    | apply (bool_decide_unpack _); vm_compute; exact I]].

Lemma demo_writes_ok : writes demo_msg (demo_entries ≫= entry_writes) demo_ops.
Proof.
  apply Forall2_cons; split; [demo_write; [apply (LegalInt _ 7); [reflexivity | width]|]|].
  { split; [vm_compute; discriminate|]. split; [width|]. split; [width|]. intros E. discriminate E. }
  apply Forall2_cons; split; [demo_write; [apply (LegalInt _ (-3)); [reflexivity | width]|]|].
  { split; [vm_compute; discriminate|]. split; [width|]. split; [width|]. intros E. discriminate E. }
  apply Forall2_cons; split; [demo_write; [apply LegalString; [apply (bool_decide_unpack _); vm_compute; exact I | reflexivity]|]|].
  { split; [repeat (apply Forall_cons; split; [width|]); by apply Forall_nil|]. split; [discriminate|]. intros E. discriminate E. }
  by apply Forall2_nil.
Qed.

(** The same for an entry. *)
Ltac demo_entry :=
  split; [vm_compute; reflexivity|]; split; [vm_compute; discriminate|];
  split; [apply (bool_decide_unpack _); vm_compute; exact I|]; split; [apply (bool_decide_unpack _); vm_compute; exact I|];
  split; [vm_compute; reflexivity|]; cbn [entry_field snd].

Lemma demo_entries_ok : Forall2 (entry_ok demo_msg (l_tables demo_state)) (luaH_next (Lua := count_lua) demo_table) demo_entries.
Proof.
  change (luaH_next (Lua := count_lua) demo_table) with (map_to_list demo_table).
  assert (map_to_list demo_table = [(inl [122], LTab 1); (inl [110], LStr [104; 105; 33]); (inl [105; 100], LNum (dbl_of_Z 0))]) as -> by (by vm_compute).
  apply Forall2_cons; split; [demo_entry|].
  { split; [reflexivity|]. exists 1%nat, (array_table demo_numbers). split; [done|]. split; [done|].
    split; [apply (bool_decide_unpack _); vm_compute; exact I|]. intros i Hi. change (length demo_numbers) with 2%nat in Hi.
    destruct i as [|[|[|i]]]; [by vm_compute.. | lia]. }
  apply Forall2_cons; split; [demo_entry; by split|]. apply Forall2_cons; split; [demo_entry|by apply Forall2_nil].
  split; [reflexivity|]. split; [reflexivity|]. exists (WInt (demo_field 0) (u32 0) (u32 (Z.shiftr 0 32))).
  split; [apply LegalInt64; [reflexivity | lia]|]. split; reflexivity.
Qed.

Lemma lua_roundtrip_witness :
  let P := LLight (PEnv 0) in
  ∃ L1 s L2 t x d,
    encode (H := count_lua) (λ _, 170) id id (λ _, replicate 10 255) P (LUdata 0) demo_function 1 [77] (LTab 0) LNil [] demo_state = Done (L1, inl [LStr s])
    ∧ decode (H := count_lua) id (λ _, replicate 10 255) P (LUdata 0) demo_function [77] (LStr s) LNil L1 = Done (L2, inl [LTab t])
    ∧ l_stack L2 = l_stack demo_state ∧ l_tables L2 !! t = Some x ∧ Forall (decoded (l_tables L2) x) demo_entries
    ∧ (∀ k, demo_table !! k = None → x !! k = None)
    ∧ s_meta (c_script (l_c L2)) !! t = Some (MetaDefault d) ∧ default_cache (c_script (l_c L2)) !! [77] = Some d.
Proof.
  apply (lua_roundtrip (H := count_lua) (λ _, 170) id id (λ _, replicate 10 255) demo_state 0 (World demo_env [] [] []) 0 demo_function 0
           [77] demo_msg 0 demo_table demo_entries demo_ops).
  - reflexivity.
  - vm_compute. reflexivity.
  - apply (bool_decide_unpack _). vm_compute. exact I.
  - reflexivity.
  - discriminate.
  - exact demo_entries_ok.
  - exact demo_writes_ok.
  - vm_compute. discriminate.
  - intros _. split; [|reflexivity]. apply Forall_replicate. width.
  - intros f fn _ _ Hl. discriminate Hl.
  - right. exists demo_gc, []. split; [reflexivity|]. split; [|reflexivity]. split; [reflexivity|]. split; [cbn; lia|].
    exists (replicate 4 None). split; reflexivity.
Defined.
