(* ===== verification/Dump.v ===== *)
(** * The dump tool ([3rd/pbc/tool/dump.c])

    The tool reads a message, from a file or as numbers from the standard input,
    and prints its fields.  What is printed is a list of bytes; printing a real
    number is a parameter. *)

From S2P Require Import Prelude Varint Chain PMap SpMap PArray StringPool Context Proto Wmessage Decode CMem Pattern Rmessage RmessageRT Bootstrap Register Defaults.

(** ** Formats *)

Fixpoint hex_digits (fuel : nat) (n : Z) : list Z :=
  match fuel with
  | O => []
  | S fuel' =>
      let digit d := if d <? 10 then 48 + d else 87 + d in
      if n <? 16 then [digit n] else hex_digits fuel' (n / 16) ++ [digit (n mod 16)]
  end.

(** ["%x"] and ["%8x"] *)
Definition hex (n : Z) : list Z := hex_digits 8 n.
Definition hex_8 (n : Z) : list Z := replicate (8 - length (hex n)) 32 ++ hex n.

(** ["%s"] *)
Definition print_string (s : option (list Z)) : outcome (list Z) :=
  match s with None => Fault NullDeref | Some s => cstr s end.

Section Dump.
Context (printf_lf : Z → list Z) (env : pbc_env).

(** ** Printing *)

(** The text of a value; [i] is what the loop over the indentation left. *)
Definition dump_scalar (m : rmessage) (key : list Z) (type i : Z) : outcome (list Z) :=
  if type =? PBC_INT then do! (low, _) <- pbc_rmessage_integer m key i false; Done (decimal (s32 low))
  else if type =? PBC_REAL then do! real <- pbc_rmessage_real m key i; Done (printf_lf real)
  else if type =? PBC_BOOL then
    do! (low, _) <- pbc_rmessage_integer m key i false; Done (lit (if low =? 0 then "false" else "true"))
  else if type =? PBC_ENUM then
    do! (str, _) <- pbc_rmessage_string m key i; do! s <- print_string str; Done (lit "[" ++ s ++ lit "]")
  else if type =? PBC_STRING then
    do! (str, _) <- pbc_rmessage_string m key i; do! s <- print_string str; Done (lit "'" ++ s ++ lit "'")
  else if type =? PBC_FIXED64 then
    do! (low, hi) <- pbc_rmessage_integer m key i true; Done (lit "0x" ++ hex_8 (default 0 hi) ++ hex_8 low)
  else if type =? PBC_FIXED32 then
    do! (low, _) <- pbc_rmessage_integer m key i false; Done (lit "0x" ++ hex low)
  else Done (lit "unkown").

Definition indent (level : Z) : list Z := concat (replicate (Z.to_nat level) (lit "  ")).

(** [sub] is [dump_message]. *)
Definition dump_value (sub : option rmessage → Z → outcome (list Z)) (m : rmessage) (key : list Z) (type idx level : Z) : outcome (list Z) :=
  let i := Z.max 0 level in
  let repeated := negb (Z.land type PBC_REPEATED =? 0) in
  let head := indent level ++ key ++ (if repeated then lit "[" ++ decimal idx ++ lit "]" else []) ++ lit " : " in
  let type := if repeated then type - PBC_REPEATED else type in
  if type =? PBC_MESSAGE then
    do! (m, _) <- pbc_rmessage_message env m key i;
    do! rest <- sub m (level + 1);
    Done (head ++ [10] ++ rest)
  else
    do! s <- dump_scalar m key type i;
    Done (head ++ s ++ [10]).

Fixpoint dump_elements (sub : option rmessage → Z → outcome (list Z)) (m : rmessage) (key : list Z) (t : Z) (n : nat) (i level : Z) : outcome (list Z) :=
  match n with
  | O => Done []
  | S n' =>
      do! out <- dump_value sub m key t i level;
      do! rest <- dump_elements sub m key t n' (i + 1) level;
      Done (out ++ rest)
  end.

(** What one round of the loop prints. *)
Definition dump_field (sub : option rmessage → Z → outcome (list Z)) (m : rmessage) (key : list Z) (t level : Z) : outcome (list Z) :=
  if negb (Z.land t PBC_REPEATED =? 0) then
    do! n <- pbc_rmessage_size m key;
    dump_elements sub m key t (Z.to_nat n) 0 level
  else dump_value sub m key t 0 level.

(** A round per key; the keys are in the slots of the index. *)
Fixpoint dump_loop (fuel : nat) (sub : option rmessage → Z → outcome (list Z)) (m : rmessage) (key : option (list Z)) (level : Z) : outcome (list Z) :=
  match fuel with
  | O => Fault OutOfFuel
  | S fuel' =>
      do! (t, key) <- pbc_rmessage_next m key;
      match key with
      | None => Done []
      | Some k =>
          do! out <- dump_field sub m k t level;
          do! rest <- dump_loop fuel' sub m (Some k) level;
          Done (out ++ rest)
      end
  end.

Definition rounds (m : rmessage) : nat := match r_index m with Some index => S (length (sp_slots index)) | None => 1 end.

(** [fuel] bounds the nesting of messages. *)
Fixpoint dump_message (fuel : nat) (m : option rmessage) (level : Z) : outcome (list Z) :=
  match fuel, m with
  | O, _ => Fault OutOfFuel
  | _, None => Fault NullDeref
  | S fuel', Some m => dump_loop (rounds m) (dump_message fuel') m None level
  end.

End Dump.

(** ** Reading numbers *)

(** [((uint8_t * )data->buffer)[idx] = (uint8_t)byte] *)
Definition push_byte (junk : nat → Z) (byte : Z) (data : list Z * Z) (idx : Z) : outcome (list Z * Z) :=
  let '(buffer, len) := data in
  do! (buffer, len) <-
    (if len <=? idx then
       if 2 ^ 31 <=? len * 2 then Fault SignedOverflow
       else Done (buffer ++ fresh_page junk (len * 2 - len), len * 2)
     else Done (buffer, len));
  do! buffer <- write_at buffer idx [u8 byte];
  Done (buffer, len).

Fixpoint span_digits (s : list Z) (acc : Z) : Z * list Z :=
  match s with
  | c :: s' => if is_digit c then span_digits s' (10 * acc + (c - 48)) else (acc, s)
  | [] => (acc, [])
  end.

(** [scanf("%d", &byte)]: what it returns, the number, and the rest of the input;
    the end of the input was seen when nothing is left.  A number that does not
    fit is not defined. *)
Definition scanf_d (input : list Z) : outcome (Z * option Z * list Z) :=
  match skip_spaces input with
  | [] => Done (-1, None, [])
  | c :: rest =>
      let '(neg, s) := if c =? 45 then (true, rest) else if c =? 43 then (false, rest) else (false, c :: rest) in
      match s with
      | d :: _ =>
          if is_digit d then
            let '(n, rest) := span_digits s 0 in
            let v := if (neg : bool) then - n else n in
            if (- 2 ^ 31 <=? v) && (v <? 2 ^ 31) then Done (1, Some v, rest) else Fault SignedOverflow
          else Done (0, None, s)
      | [] => Done (0, None, [])
      end
  end.

(** [byte0] is what [byte] holds when nothing was read; [eof] is [feof(stdin)]. *)
Fixpoint read_numbers (fuel : nat) (junk : nat → Z) (byte0 : Z) (input : list Z) (eof : bool) (data : list Z * Z) (idx : Z) : outcome (list Z * Z) :=
  if eof then Done (data.1, idx)
  else
    match fuel with
    | O => Fault OutOfFuel
    | S fuel' =>
        do! (r, byte, rest) <- scanf_d input;
        if r =? 0 then Done (data.1, idx)
        else
          do! data <- push_byte junk (default byte0 byte) data idx;
          read_numbers fuel' junk byte0 rest (bool_decide (rest = [])) data (idx + 1)
    end.

(** The buffer and its length. *)
Definition read_stdin (junk : nat → Z) (byte0 : Z) (input : list Z) : outcome (list Z * Z) :=
  read_numbers (S (length input)) junk byte0 input false (fresh_page junk 128, 128) 0.

(** ** The program *)

Section Tool.
Context (printf_lf : Z → list Z) (junk : nat → Z) (byte0 : Z) (d2f f2d : Z → Z) (strtod : list Z → Z) (stk : Z → list Z) (hi_junk : Z)
  (pbc_descriptor : list Z).
(** The files, by name, and the standard input. *)
Context (fopen : list Z → option (list Z)) (stdin : list Z).

(** The exit status, the output and the error output. *)
Record result := Result { status : Z; stdout : list Z; stderr : list Z }.

Definition read_file (filename : list Z) : list Z + result :=
  match fopen filename with
  | None => inr (Result 1 [] (lit "Can't open file " ++ filename ++ [10]))
  | Some contents => inl contents
  end.

(** Nesting is bounded by the size of the data. *)
Definition dump (proto message : list Z) (data : list Z) : outcome result :=
  do! env <- pbc_new d2f f2d stk hi_junk pbc_descriptor;
  match read_file proto with
  | inr e => Done e
  | inl pb =>
      do! (env, r) <- pbc_register strtod junk f2d stk env pb;
      if negb (r =? 0) then Done (Result 1 [] (lit "Can't register " ++ proto ++ [10]))
      else
        do! (m, _) <- pbc_rmessage_new f2d env stk message data;
        match m with
        | None => Done (Result 1 [] (lit "Decode message " ++ message ++ lit " fail" ++ [10]))
        | Some m => do! out <- dump_message printf_lf env (S (length data)) (Some m) 0; Done (Result 0 out [])
        end
  end.

Definition usage : list Z :=
  lit "  -h help." ++ [10] ++ lit "  -p <filename.pb> protobuf file" ++ [10] ++ lit "  -m <messagename>" ++ [10]
  ++ lit "  -d <datafile>" ++ [10] ++ lit "  -D input from stdin (DEC number)" ++ [10].

(** What [getopt] returns: the letter ([?] for an unknown option) and [optarg]. *)
Fixpoint options (opts : list (Z * list Z)) (proto message datafile : option (list Z))
    : (option (list Z) * option (list Z) * option (list Z)) + result :=
  match opts with
  | [] => inl (proto, message, datafile)
  | (ch, optarg) :: rest =>
      if ch =? 104 then inr (Result 0 usage [])
      else if ch =? 112 then options rest (Some optarg) message datafile
      else if ch =? 109 then options rest proto (Some optarg) datafile
      else if ch =? 100 then options rest proto message (Some optarg)
      else if ch =? 68 then options rest proto message datafile
      else inr (Result 1 usage [])
  end.

Definition main (opts : list (Z * list Z)) : outcome result :=
  match options opts None None None with
  | inr e => Done e
  | inl (Some proto, Some message, datafile) =>
      do! data <- match datafile with
                  | None => do! (buffer, len) <- read_stdin junk byte0 stdin; do! bs <- bytes_at buffer 0 len; Done (inl bs)
                  | Some f => Done (read_file f)
                  end;
      match data with
      | inr e => Done e
      | inl data => dump proto message data
      end
  | inl _ => Done (Result 1 usage [])
  end.

End Tool.

(** ** Lemmas on reading *)

Lemma span_digits_all l rest acc : all_digits l → (∀ c r, rest = c :: r → is_digit c = false) →
  span_digits (l ++ rest) acc = (digits l acc, rest).
Proof.
  intros Hl Hr. revert acc. induction Hl as [|c l (d & -> & Hd) _ IH]; intros acc.
  - cbn [app digits]. destruct rest as [|c r]; [done|]. cbn [span_digits]. by rewrite (Hr c r eq_refl).
  - cbn [app span_digits digits]. rewrite (proj1 (digit_range d Hd)). apply IH.
Qed.

(** A number that is followed by something else than a digit. *)
Lemma scanf_decimal v rest : is_s32 v → (∀ c r, rest = c :: r → is_digit c = false) → scanf_d (decimal v ++ rest) = Done (1, Some v, rest).
Proof.
  intros Hv Hr. assert (∀ n, 0 <= n <= 2 ^ 31 → ∃ d l, dec_digits 20 n = (48 + d) :: l ∧ 0 <= d < 10
    ∧ span_digits (dec_digits 20 n ++ rest) 0 = (n, rest)) as Hd.
  { intros n Hn. destruct (dec_digits_first 19 n ltac:(lia)) as (d & l & E & Hd). exists d, l. split; [done|]. split; [done|].
    rewrite span_digits_all by (try done; apply dec_digits_all; lia). rewrite digits_dec; [done|]. change (10 ^ Z.of_nat 20) with 100000000000000000000. lia. }
  unfold is_s32 in Hv. unfold scanf_d, decimal. destruct (Z.ltb_spec v 0).
  - destruct (Hd (- v) ltac:(lia)) as (d & l & E & Hdr & Hs). cbn [app skip_spaces]. change (is_space 45) with false. cbv iota.
    change (45 =? 45) with true. cbv iota. rewrite E in Hs |- *. cbn [app] in Hs |- *. rewrite (proj1 (digit_range d Hdr)). rewrite Hs.
    rewrite Z.opp_involutive. by rewrite (proj2 (Z.leb_le _ _)), (proj2 (Z.ltb_lt _ _)) by lia.
  - destruct (Hd v ltac:(lia)) as (d & l & E & Hdr & Hs). destruct (digit_range d Hdr) as (Hdig & Hsp & H45 & H43 & _).
    rewrite E in Hs |- *. cbn [app skip_spaces] in Hs |- *. rewrite Hsp, (proj2 (Z.eqb_neq _ 45) H45), (proj2 (Z.eqb_neq _ 43) H43), Hdig, Hs.
    by rewrite (proj2 (Z.leb_le _ _)), (proj2 (Z.ltb_lt _ _)) by lia.
Qed.

(** The buffer starts with the bytes read so far. *)
Definition buffered (data : list Z * Z) (bs : list Z) : Prop :=
  128 <= data.2 < 2 ^ 31 ∧ zlen data.1 = data.2 ∧ zlen bs <= data.2 ∧ take (length bs) data.1 = bs.

Lemma push_byte_ok junk byte data bs : buffered data bs → zlen bs < 2 ^ 30 →
  ∃ data', push_byte junk byte data (zlen bs) = Done data' ∧ buffered data' (bs ++ [u8 byte]).
Proof.
  destruct data as [buffer len]. intros (Hlen & Hz & Hle & Htk) Hmax. cbn [fst snd] in *. pose proof (zlen_nonneg bs).
  assert (∀ buf n, 128 <= n < 2 ^ 31 → zlen buf = n → zlen bs < n → take (length bs) buf = bs →
    ∃ b', write_at buf (zlen bs) [u8 byte] = Done b' ∧ buffered (b', n) (bs ++ [u8 byte])) as Hw.
  { intros buf n Hn Hzb Hlt Ht. assert (∃ c tl, buf = bs ++ c :: tl) as (c & tl & ->).
    { rewrite <- (take_drop (length bs) buf), Ht. destruct (drop (length bs) buf) as [|c tl] eqn:E; [|eauto].
      apply (f_equal length) in E. rewrite length_drop in E. unfold zlen in *. cbn in E. lia. }
    rewrite (write_at_here bs [c] tl [u8 byte] eq_refl : write_at (bs ++ c :: tl) _ _ = _). eexists. split; [done|].
    unfold buffered. cbn [fst snd]. rewrite !zlen_app in *. rewrite zlen_cons in Hzb. change (zlen [u8 byte]) with 1.
    split; [done|]. split; [lia|]. split; [lia|]. rewrite app_assoc. apply take_app_length. }
  unfold push_byte. destruct (Z.leb_spec len (zlen bs)).
  - rewrite (proj2 (Z.leb_gt _ _)) by lia. cbn [obind]. destruct (Hw (buffer ++ fresh_page junk (len * 2 - len)) (len * 2)) as (b' & -> & Hb); [lia | | lia | |].
    + rewrite zlen_app. unfold fresh_page, zlen at 2. rewrite length_map, length_seq. lia.
    + rewrite take_app_le by (unfold zlen in *; lia). done.
    + by eexists.
  - cbn [obind]. destruct (Hw buffer len) as (b' & -> & Hb); [done | done | lia | done | by eexists].
Qed.

(** The text of numbers, each followed by the end of its line. *)
Definition number_lines (ns : list Z) : list Z := concat (map (λ n, decimal n ++ [10]) ns).

Lemma read_numbers_lines junk byte0 ns : ∀ fuel lead data bs, (length ns < fuel)%nat → (lead = [] ∨ lead = [10]) → Forall is_s32 ns →
  buffered data bs → zlen bs + zlen ns < 2 ^ 30 →
  ∃ buffer, read_numbers fuel junk byte0 (lead ++ number_lines ns) false data (zlen bs) = Done (buffer, zlen bs + zlen ns + 1)
    ∧ bytes_at buffer 0 (zlen bs + zlen ns + 1) = Done (bs ++ map u8 ns ++ [u8 byte0]).
Proof.
  induction ns as [|n ns IH]; intros fuel lead data bs Hf Hlead Hns Hb Hmax; (destruct fuel as [|fuel]; [cbn in Hf; lia|]); cbn [read_numbers].
  - assert (scanf_d (lead ++ number_lines []) = Done (-1, None, [])) as -> by (by destruct Hlead as [->| ->]). cbn [obind]. change (-1 =? 0) with false. cbv iota.
    change (zlen []) with 0 in Hmax. destruct (push_byte_ok junk byte0 data bs Hb ltac:(lia)) as ([buffer len] & Hp & Hb').
    change (default byte0 None) with byte0. rewrite Hp. cbn [obind]. exists buffer. change (zlen []) with 0. rewrite Z.add_0_r.
    destruct Hb' as (Hlen & Hz & Hle & Htk). cbn [fst snd] in *. rewrite zlen_app in Hle. change (zlen [u8 byte0]) with 1 in Hle.
    pose proof (zlen_nonneg bs). split; [by destruct fuel|]. unfold bytes_at. rewrite Hz, !(proj2 (Z.leb_le _ _)) by lia. cbn [andb]. f_equal.
    cbn [map app]. rewrite drop_0, <- Htk. f_equal. rewrite length_app. unfold zlen. cbn [length]. lia.
  - apply Forall_cons in Hns as [Hn Hns]. rewrite zlen_cons in *. pose proof (zlen_nonneg ns). pose proof (zlen_nonneg bs).
    assert (scanf_d (lead ++ number_lines (n :: ns)) = Done (1, Some n, [10] ++ number_lines ns)) as ->.
    { transitivity (scanf_d (number_lines (n :: ns))); [by destruct Hlead as [->| ->]|]. unfold number_lines. cbn [map concat].
      rewrite <- app_assoc. apply scanf_decimal; [done|]. by intros c r [= <- _]. }
    cbn [obind]. change (1 =? 0) with false. cbv iota. change (default byte0 (Some n)) with n.
    destruct (push_byte_ok junk n data bs Hb ltac:(lia)) as (data' & Hp & Hb'). rewrite Hp. cbn [obind]. rewrite bool_decide_eq_false_2 by done.
    assert (zlen (bs ++ [u8 n]) = zlen bs + 1) as E by (by rewrite zlen_app). rewrite <- E.
    destruct (IH fuel [10] data' (bs ++ [u8 n])) as (buffer & Hr & Hby); [cbn in Hf; lia | by right | done | done | lia |].
    exists buffer. rewrite Hr. cbn [map app]. rewrite <- app_assoc in Hby. rewrite E in *.
    replace (zlen bs + (1 + zlen ns)) with (zlen bs + 1 + zlen ns) by lia. done.
Qed.

(** the standard input gives one byte too many.  For any list of numbers, each
    on a line of its own, [read_stdin] stores them as bytes, in order, growing its
    buffer without an access outside of it, but the round that finds the end of
    the input stores the unset variable [byte] once more: the message that is
    decoded has a byte behind its end that nobody sent. *)
Theorem read_stdin_extra_byte junk byte0 ns : Forall is_s32 ns → zlen ns < 2 ^ 30 →
  ∃ buffer, read_stdin junk byte0 (number_lines ns) = Done (buffer, zlen ns + 1)
    ∧ bytes_at buffer 0 (zlen ns + 1) = Done (map u8 ns ++ [u8 byte0]).
Proof.
  intros Hns Hmax. apply (read_numbers_lines junk byte0 ns (S (length (number_lines ns))) [] (fresh_page junk 128, 128) []); [|by left|done| |done].
  - assert (length ns <= length (number_lines ns))%nat; [|lia]. unfold number_lines. clear. induction ns as [|n ns IH]; [done|].
    cbn [map concat length]. rewrite !length_app. cbn. lia.
  - split; [done|]. split; [|done]. cbn [fst]. unfold fresh_page, zlen. by rewrite length_map, length_seq.
Qed.

Lemma read_stdin_extra_byte_witness :
  ∃ buffer, read_stdin (λ _, 170) 99 (number_lines [8; 5; -3]) = Done (buffer, 3 + 1)
    ∧ bytes_at buffer 0 (3 + 1) = Done [8; 5; 253; 99].
Proof.
  apply (read_stdin_extra_byte (λ _, 170) 99 [8; 5; -3]).
  - repeat (apply Forall_cons; split; [width|]). by apply Forall_nil.
  - vm_compute. reflexivity.
Defined.

(** ** What is printed of a written message *)

(** The text of a written integer of a class, and of a written value. *)
Definition int_text (c l h : Z) : list Z :=
  if c =? PBC_INT then decimal (s32 l)
  else if c =? PBC_BOOL then lit (if l =? 0 then "false" else "true")
  else if c =? PBC_FIXED64 then lit "0x" ++ hex_8 h ++ hex_8 l
  else if c =? PBC_FIXED32 then lit "0x" ++ hex l
  else lit "unkown".

Definition op_text (printf_lf : Z → list Z) (op : wop) : list Z :=
  let c := type_class (f_type (op_field op)) in
  match op with
  | WInt f l h => int_text c l (op_hi f l h)
  | WDouble _ v => printf_lf v
  | WStr _ bs _ => if c =? PBC_STRING then lit "'" ++ c_string bs ++ lit "'" else lit "unkown"
  end.

(** The lines of a field: the index of every element, but the first one's value. *)
Definition field_lines (printf_lf : Z → list Z) (ops : list wop) (f : _field) : list Z :=
  match writes_of f ops with
  | [] => []
  | op :: _ =>
      if is_repeated f
      then concat (imap (λ idx _, f_name f ++ lit "[" ++ decimal (Z.of_nat idx) ++ lit "] : " ++ op_text printf_lf op ++ [10]) (writes_of f ops))
      else f_name f ++ lit " : " ++ op_text printf_lf op ++ [10]
  end.

Lemma integer_low rm key i l h : pbc_rmessage_integer rm key i true = Done (l, Some h) → pbc_rmessage_integer rm key i false = Done (l, None).
Proof.
  unfold pbc_rmessage_integer. destruct (rmessage_var rm key i) as [[type var]|]; [|done]. cbn [obind]. destruct (type =? PTYPE_ENUM); destruct (int_low var); cbn [obind];
    [by intros [= -> _]|done| |]; destruct (int_hi var); cbn [obind]; by intros [= -> _].
Qed.

Lemma cstr_terminated bs : ∀ p, take (length bs) p = bs → (last bs = Some 0 ∨ p !! length bs = Some 0) → cstr p = Done (c_string bs).
Proof.
  induction bs as [|b bs IH]; intros p Ht Hz.
  - destruct Hz as [Hz|Hz]; [done|]. destruct p as [|x p]; [done|]. injection Hz as ->. done.
  - destruct p as [|x p]; [done|]. cbn [length take] in Ht. injection Ht as -> Ht. cbn [cstr c_string]. destruct (Z.eqb_spec b 0); [done|].
    rewrite (IH p Ht); [done|]. destruct Hz as [Hz|Hz]; [|by right]. left. destruct bs; [by injection Hz as ->|done].
Qed.

Definition int_classes : list Z := [PBC_INT; PBC_BOOL; PBC_FIXED64; PBC_FIXED32; PBC_INT64; PBC_UINT].

Lemma int_types_classes t : t ∈ int_types → t ≠ PTYPE_ENUM → type_class t ∈ int_classes.
Proof.
  intros Ht Hne. unfold int_types in Ht. repeat (apply elem_of_cons in Ht as [->|Ht]; [first [done | apply (bool_decide_unpack _); vm_compute; exact I]|]).
  by apply elem_of_nil in Ht.
Qed.

Lemma dump_integer printf_lf rm key i c l h : c ∈ int_classes → pbc_rmessage_integer rm key i true = Done (l, Some h) →
  dump_scalar printf_lf rm key c i = Done (int_text c l h).
Proof.
  intros Hc Hr. pose proof (integer_low _ _ _ _ _ Hr) as Hlow. unfold dump_scalar, int_text. rewrite Hlow, Hr.
  cbn [obind]. change (default 0 (Some h)) with h.
  generalize (decimal (s32 l)), (hex_8 h), (hex_8 l), (hex l), (lit "0x"), (lit (if l =? 0 then "false" else "true")), (lit "unkown").
  intros. unfold int_classes in Hc. repeat (apply elem_of_cons in Hc as [->|Hc]; [reflexivity|]). by apply elem_of_nil in Hc.
Qed.

(** A value that can be read is printed as its text. *)
Lemma dump_scalar_text printf_lf m rm op i : op_ok m op → reads_op rm op i →
  dump_scalar printf_lf rm (f_name (op_field op)) (type_class (f_type (op_field op))) i = Done (op_text printf_lf op).
Proof.
  intros (_ & _ & _ & _ & Hop) Hr. destruct op as [f l h|f bs tail|f v]; cbn [op_field reads_op op_text] in *.
  - destruct Hop as (Ht & Hne & _). apply dump_integer; [by apply int_types_classes | done].
  - destruct Hop as (Ht & _). destruct Hr as (p & Hs & Htk & Hz). apply elem_of_cons in Ht as [Ht|Ht].
    + rewrite Ht in *. unfold dump_scalar. change (type_class PTYPE_STRING) with PBC_STRING.
      cbn [Z.eqb Pos.eqb PBC_INT PBC_REAL PBC_BOOL PBC_ENUM PBC_STRING]. rewrite Hs. cbn [obind print_string].
      rewrite (cstr_terminated bs p Htk (Hz eq_refl)). reflexivity.
    + apply elem_of_cons in Ht as [Ht|Ht]; [|by apply elem_of_nil in Ht]. by rewrite Ht.
  - destruct Hop as (Ht & _). rewrite Ht. unfold dump_scalar. change (type_class PTYPE_DOUBLE) with PBC_REAL.
    cbn [Z.eqb Pos.eqb PBC_INT PBC_REAL]. by rewrite Hr.
Qed.

Lemma op_class m op : op_ok m op → let c := type_class (f_type (op_field op)) in c ≠ PBC_MESSAGE ∧ c ≠ 0.
Proof.
  intros (_ & _ & _ & _ & Hop). destruct op as [f l h|f bs tail|f v]; cbn [op_field] in *.
  - destruct Hop as (Ht & Hne & _). pose proof (int_types_classes _ Ht Hne) as Hc. unfold int_classes in Hc. cbv zeta.
    repeat (apply elem_of_cons in Hc as [->|Hc]; [done|]). by apply elem_of_nil in Hc.
  - destruct Hop as (Ht & _). apply elem_of_cons in Ht as [->|Ht]; [done|]. apply elem_of_cons in Ht as [->|Ht]; [done|]. by apply elem_of_nil in Ht.
  - destruct Hop as (-> & _). done.
Qed.

(** The type the iteration gives for a field. *)
Lemma field_type f : type_class (f_type f) ≠ 0 →
  ∃ t, _pbcP_type (Some f) false = Done (t, None) ∧ Z.land t PBC_REPEATED =? 0 = negb (is_repeated f)
    ∧ (if is_repeated f then t - PBC_REPEATED else t) = type_class (f_type f).
Proof.
  intros Hn. unfold _pbcP_type, type_key, is_repeated. cbn [negb obind]. rewrite (proj2 (Z.eqb_neq _ _) Hn).
  pose proof (class_range (f_type f)) as Hc. set (c := type_class _) in *. clearbody c.
  assert (c = 1 ∨ c = 2 ∨ c = 3 ∨ c = 4 ∨ c = 5 ∨ c = 6 ∨ c = 7 ∨ c = 8 ∨ c = 9 ∨ c = 10 ∨ c = 11) as Hin by lia.
  destruct (_ || _); eexists; (split; [reflexivity|]); clear Hn Hc; destruct_or!; subst c; done.
Qed.

Section Written.
Context (printf_lf : Z → list Z) (env : pbc_env) (m : _message) (ops : list wop) (index : map_sp rvalue).
Context (sub : option rmessage → Z → outcome (list Z)).
Hypothesis Hops : Forall (op_ok m) ops.
Hypothesis Hok : sp_ok index.
Hypothesis Hidx : indexed (sp_abs index) (op_items [] ops).
Notation rm := (RMessage (Some m) (Some index)).

(** One line, on the outermost level: the value is the one with the index 0. *)
Lemma dump_value_line op t idx : op_ok m op → reads_op rm op 0 → _pbcP_type (Some (op_field op)) false = Done (t, None) →
  dump_value printf_lf env sub rm (f_name (op_field op)) t idx 0
  = Done (f_name (op_field op) ++ (if is_repeated (op_field op) then lit "[" ++ decimal idx ++ lit "]" else []) ++ lit " : " ++ op_text printf_lf op ++ [10]).
Proof.
  intros Hop Hr Ht. destruct (op_class m op Hop) as [Hne H0]. destruct (field_type _ H0) as (t' & Ht' & Hland & Hc).
  rewrite Ht in Ht'. injection Ht' as <-. unfold dump_value. cbv zeta. rewrite Hland, negb_involutive, Hc, (proj2 (Z.eqb_neq _ _) Hne).
  change (Z.max 0 0) with 0. rewrite (dump_scalar_text _ _ _ _ _ Hop Hr). cbn [obind]. change (indent 0) with (@nil Z). cbn [app].
  by rewrite <- !app_assoc.
Qed.

Lemma dump_elements_lines op t : ∀ n i, op_ok m op → reads_op rm op 0 → is_repeated (op_field op) = true →
  _pbcP_type (Some (op_field op)) false = Done (t, None) →
  dump_elements printf_lf env sub rm (f_name (op_field op)) t n (Z.of_nat i) 0
  = Done (concat ((λ idx, f_name (op_field op) ++ lit "[" ++ decimal (Z.of_nat idx) ++ lit "] : " ++ op_text printf_lf op ++ [10]) <$> seq i n)).
Proof.
  induction n as [|n IH]; intros i Hop Hr Hrep Ht; [done|]. cbn [dump_elements]. rewrite (dump_value_line op t) by done. cbn [obind].
  replace (Z.of_nat i + 1) with (Z.of_nat (S i)) by lia. rewrite IH by done. cbn [obind]. rewrite Hrep. cbn [seq fmap list_fmap concat].
  change (lit "] : ") with (lit "]" ++ lit " : "). by rewrite <- !app_assoc.
Qed.

(** The entries of the index are the fields that were written. *)
Lemma live_field k p : (k, p) ∈ sp_live (sp_slots index) →
  k = f_name (v_type p) ∧ ∃ op, writes_of (v_type p) ops !! 0%nat = Some op ∧ op ∈ ops ∧ op_field op = v_type p.
Proof.
  intros Hin. apply live_abs in Hin; [|done]. pose proof (Hidx k) as Hk. destruct (named_items k (op_items [] ops)) as [|[f v] rest] eqn:En; [congruence|].
  assert ((f, v) ∈ named_items k (op_items [] ops)) as Hfv by (rewrite En; apply elem_of_cons; by left). apply named_items_elem in Hfv as [Hfv Hn]. cbn in Hn.
  destruct Hk as (rv & Hrv & He). rewrite Hin in Hrv. injection Hrv as <-. rewrite (entry_type _ _ _ He).
  split; [done|]. assert (f ∈ map op_field ops) as Hf by (rewrite <- (op_items_fields []); apply list_elem_of_fmap; by exists (f, v)).
  apply list_elem_of_fmap in Hf as (op & -> & Hop). destruct (writes_of (op_field op) ops) as [|op0 l] eqn:Ew.
  - exfalso. assert (op ∈ writes_of (op_field op) ops) as Hbad; [|rewrite Ew in Hbad; by apply elem_of_nil in Hbad].
    apply list_elem_of_In, List.filter_In. split; [by apply list_elem_of_In | by apply bool_decide_eq_true].
  - exists op0. split; [done|]. assert (op0 ∈ writes_of (op_field op) ops) as Hin0 by (rewrite Ew; apply elem_of_cons; by left).
    apply list_elem_of_In, List.filter_In in Hin0 as [H1 H2]. apply bool_decide_eq_true in H2. split; [by apply list_elem_of_In | done].
Qed.

Lemma imap_const_seq {A B} (g : nat → B) (l : list A) : imap (λ i _, g i) l = g <$> seq 0 (length l).
Proof.
  revert g; induction l as [|x l IH]; intros g; [done|]. cbn [imap length seq fmap list_fmap]. f_equal.
  rewrite <- fmap_S_seq, <- list_fmap_compose. apply (IH (g ∘ S)).
Qed.

Lemma dump_field_lines p t k : (k, p) ∈ sp_live (sp_slots index) → _pbcP_type (Some (v_type p)) false = Done (t, None) →
  dump_field printf_lf env sub rm k t 0 = Done (field_lines printf_lf ops (v_type p)).
Proof.
  intros Hin Ht. destruct (live_field k p Hin) as (-> & op & Hw & Hop & Hf). pose proof (proj1 (Forall_forall _ _) Hops op Hop) as Hopok.
  assert (writes_of (v_type p) ops ≠ []) as Hne by (intros E; by rewrite E in Hw).
  destruct (index_reads m [] ops index (v_type p)) as (Hsize & Hreads & _); [done | done | apply Hidx | rewrite <- Hf; apply Hopok | by right |].
  pose proof (Hreads 0%nat op Hw) as Hr. change (Z.of_nat 0) with 0 in Hr. destruct (op_class m op Hopok) as [_ H0]. rewrite <- Hf in Ht.
  destruct (field_type _ H0) as (t' & Ht' & Hland & _). rewrite Ht in Ht'. injection Ht' as <-.
  unfold dump_field, field_lines. rewrite Hland, negb_involutive, Hsize. destruct (writes_of (v_type p) ops) as [|op' l] eqn:Ew; [done|]. injection Hw as ->.
  rewrite <- Hf. destruct (is_repeated (op_field op)) eqn:Hrep; cbn [obind].
  - unfold zlen. rewrite Nat2Z.id. change 0 with (Z.of_nat 0) at 1. rewrite dump_elements_lines by done. by rewrite imap_const_seq.
  - rewrite dump_value_line by done. by rewrite Hrep.
Qed.

(** The loop visits the entries in the order of the slots. *)
Lemma dump_loop_lines fuel : ∀ i key, (length (sp_slots index) - i < fuel)%nat →
  (match key with None => Done (_find_first index) | Some k => _find_next index k end) = Done (sp_scan (Z.of_nat i) (drop i (sp_slots index))) →
  dump_loop printf_lf env fuel sub rm key 0 = Done (concat (field_lines printf_lf ops ∘ v_type ∘ snd <$> sp_live (drop i (sp_slots index)))).
Proof.
  induction fuel as [|fuel IH]; intros i key Hf Hfind; [lia|]. cbn [dump_loop]. unfold pbc_rmessage_next. cbn [r_index].
  destruct (next_from index i _ key (proj1 Hok) Hfind eq_refl) as [[-> Hl]|(j & s & k & p & -> & Hs & Hk & Hp & Hl)]; rewrite Hl; [done|].
  cbn [obind]. assert ((k, p) ∈ sp_live (sp_slots index)) as Hin.
  { rewrite <- (take_drop i (sp_slots index)). unfold sp_live in *. rewrite omap_app, Hl. apply elem_of_app. right. apply elem_of_cons. by left. }
  destruct (live_field k p Hin) as (Ek & op & _ & Hop & Hfo). destruct (op_class m op (proj1 (Forall_forall _ _) Hops op Hop)) as [_ H0].
  destruct (field_type _ H0) as (t & Ht & _). rewrite Hfo in Ht. rewrite Ht. cbn [obind]. rewrite (dump_field_lines p t k Hin Ht). cbn [obind].
  pose proof (lookup_lt_Some _ _ _ Hs). rewrite (IH (S (i + j)) (Some k)); [done | lia | by eapply find_next_slot].
Qed.

End Written.


