(* ===== verification/Codec.v ===== *)
(** * Codec: the transport format of the servers (ServerLib/Codec.h)

    A protobuf message crosses a connection as a 4-byte length, a 4-byte name
    length, the NUL-terminated type name and the serialized body.  The protobuf
    library is not part of the repository's own code: it is the class
    [Protobuf], and what the codec relies on is stated by [Serializes] and
    [Parses].  [codec_roundtrip] is the round trip, [Decode_short] the
    messages [Decode] refuses although [Encode] produced them. *)

From S2P Require Import Prelude.
Local Open Scope Z_scope.

(** The operations of the protobuf library the codec calls. *)
Class Protobuf := {
  message : Type;
  descriptor : Type;
  GetTypeName : message → list Z;
  AppendToString : message → list Z → bool * list Z;
  FindMessageTypeByName : list Z → option descriptor;
  GetPrototype : descriptor → option message;
  New : message → message;
  ParseFromArray : message → list Z → option message
}.

(** [AppendToString] succeeds and appends the body [b]. *)
Definition Serializes `{Protobuf} (m : message) (b : list Z) : Prop :=
  ∀ s, AppendToString m s = (true, s ++ b).

(** The type of [m] is linked in, and a fresh message of it parses [b] to [m]. *)
Definition Parses `{Protobuf} (m : message) (b : list Z) : Prop :=
  ∃ d p, FindMessageTypeByName (GetTypeName m) = Some d ∧
         GetPrototype d = Some p ∧ ParseFromArray (New p) b = Some m.

Definition kHeaderLen : Z := 4.

(** [memcpy] of the first four bytes into an [int32]; every caller has at
    least four bytes. *)
Definition ToInt32 (buf : list Z) : Z := s32 (le_join (take 4 buf)).

(** [result.append(p, n)]: a negative [n] becomes a huge [size_t]. *)
Definition append_chars (result p : list Z) (n : Z) : outcome (list Z) :=
  if n <? 0 then Fault LengthError else Done (result ++ take (Z.to_nat n) p).

Definition Encode `{Protobuf} (m : message) : outcome (list Z) :=
  let result := replicate (Z.to_nat kHeaderLen) 0 in
  let type_name := GetTypeName m in
  let name_len := s32 (zlen type_name + 1) in
  let result := result ++ le_split 4 name_len in
  do! result <- append_chars result (type_name ++ [0]) name_len;
  let '(succeed, result) := AppendToString m result in
  if (succeed : bool) then
    let len := s32 (zlen result - kHeaderLen) in
    write_at result 0 (le_split 4 len)
  else Done [].

Definition CreateMessage `{Protobuf} (type_name : list Z) : option message :=
  match FindMessageTypeByName type_name with
  | Some d => match GetPrototype d with
              | Some prototype => Some (New prototype)
              | None => None
              end
  | None => None
  end.

Definition Decode `{Protobuf} (buf : list Z) : option message :=
  let len := s32 (zlen buf) in
  if 10 <=? len then
    let name_len := ToInt32 buf in
    if (2 <=? name_len) && (name_len <=? len - kHeaderLen) then
      let type_name := take (Z.to_nat (name_len - 1)) (drop (Z.to_nat kHeaderLen) buf) in
      match CreateMessage type_name with
      | Some m =>
          let data := drop (Z.to_nat (kHeaderLen + name_len)) buf in
          let data_len := len - name_len - kHeaderLen in
          ParseFromArray m (take (Z.to_nat data_len) data)
      | None => None
      end
    else None
  else None.

(** ** What goes over the wire *)

(** The part after the length field: what [Decode] is given. *)
Definition payload `{Protobuf} (m : message) (b : list Z) : list Z :=
  le_split 4 (zlen (GetTypeName m) + 1) ++ GetTypeName m ++ [0] ++ b.

Definition frame (p : list Z) : list Z := le_split 4 (zlen p) ++ p.

Lemma ToInt32_split z k : is_s32 z → ToInt32 (le_split 4 z ++ k) = z.
Proof.
  intros Hz. unfold ToInt32.
  rewrite take_app_length' by (by rewrite length_le_split).
  rewrite le_join_split. change (256 ^ Z.of_nat 4) with (2 ^ 32).
  fold (u32 z). rewrite s32_u32. by apply s32_id.
Qed.

Lemma zlen_le_split n z : zlen (le_split n z) = Z.of_nat n.
Proof. unfold zlen. by rewrite length_le_split. Qed.

#[export] Hint Rewrite @zlen_app @zlen_cons @zlen_nil zlen_le_split : zlen.

Lemma zlen_payload `{Protobuf} m b :
  zlen (payload m b) = 5 + zlen (GetTypeName m) + zlen b.
Proof. unfold payload. autorewrite with zlen. lia. Qed.

Lemma Encode_frame `{Protobuf} m b :
  Serializes m b → zlen (payload m b) < 2 ^ 31 →
  Encode m = Done (frame (payload m b)).
Proof.
  intros Hs Hl. rewrite zlen_payload in Hl. unfold Encode. cbv zeta.
  pose proof (zlen_nonneg (GetTypeName m)). pose proof (zlen_nonneg b).
  rewrite s32_id by (unfold is_s32; lia).
  unfold append_chars. rewrite (proj2 (Z.ltb_ge _ _)) by lia. cbn [obind].
  rewrite (take_ge (GetTypeName m ++ [0])) by (rewrite length_app; cbn [length]; unfold zlen; lia).
  rewrite Hs. change (replicate (Z.to_nat kHeaderLen) 0) with [0; 0; 0; 0].
  rewrite <- !app_assoc. fold (payload m b).
  rewrite zlen_app, zlen_payload. change (zlen [0; 0; 0; 0]) with 4. unfold kHeaderLen.
  rewrite s32_id by (unfold is_s32; lia).
  replace (4 + _ - 4) with (zlen (payload m b)) by (rewrite zlen_payload; lia).
  apply (write_at_here [] [0; 0; 0; 0]). by rewrite length_le_split.
Qed.

Lemma Decode_payload `{Protobuf} m b :
  Parses m b → 1 <= zlen (GetTypeName m) → 5 <= zlen (GetTypeName m) + zlen b →
  zlen (payload m b) < 2 ^ 31 →
  Decode (payload m b) = Some m.
Proof.
  intros (d & p & Hf & Hp & Hparse) Hn H5 Hl. unfold Decode. cbv zeta.
  pose proof (zlen_payload m b) as Hz. pose proof (zlen_nonneg b).
  rewrite (s32_id (zlen _)) by (unfold is_s32; lia).
  rewrite (proj2 (Z.leb_le 10 _)) by lia.
  assert (ToInt32 (payload m b) = zlen (GetTypeName m) + 1) as ->
    by (apply ToInt32_split; unfold is_s32; lia).
  rewrite Hz, (proj2 (Z.leb_le 2 _)), (proj2 (Z.leb_le _ (5 + _ + _ - _))) by (unfold kHeaderLen; lia).
  cbn [andb]. unfold payload.
  change (Z.to_nat kHeaderLen) with 4%nat. rewrite drop_app_length' by (by rewrite length_le_split).
  rewrite take_app_length' by (unfold zlen; lia).
  unfold CreateMessage. rewrite Hf, Hp. fold (payload m b).
  replace (take _ (drop _ (payload m b))) with b; [done|].
  unfold payload, kHeaderLen.
  replace (le_split 4 _ ++ _) with ((le_split 4 (zlen (GetTypeName m) + 1) ++ GetTypeName m ++ [0]) ++ b)
    by (by rewrite <- !app_assoc).
  rewrite drop_app_length' by (rewrite !length_app, length_le_split; unfold zlen; simpl length; lia).
  rewrite take_ge; [done|unfold zlen; lia].
Qed.

(** [Encode] followed by [Decode] is the identity on messages: a message
    whose type name is not empty and whose name and body together have at least
    five bytes (and whose packet has less than 2^31 bytes) is encoded to a
    packet whose first four bytes are the number of bytes after them, and
    [Decode] of those bytes gives the message back. *)
Theorem codec_roundtrip `{Protobuf} m b :
  Serializes m b → Parses m b →
  1 <= zlen (GetTypeName m) → 5 <= zlen (GetTypeName m) + zlen b →
  9 + zlen (GetTypeName m) + zlen b < 2 ^ 31 →
  ∃ pkt, Encode m = Done pkt ∧ ToInt32 pkt = zlen pkt - kHeaderLen ∧
         Decode (drop (Z.to_nat kHeaderLen) pkt) = Some m.
Proof.
  intros Hs Hp Hn H5 Hl. pose proof (zlen_payload m b) as Hz.
  exists (frame (payload m b)). split; [apply Encode_frame; [done|lia]|].
  unfold frame. pose proof (zlen_nonneg b).
  rewrite ToInt32_split by (unfold is_s32; lia). split.
  - autorewrite with zlen. unfold kHeaderLen. lia.
  - change (Z.to_nat kHeaderLen) with 4%nat.
    rewrite drop_app_length' by (by rewrite length_le_split). apply Decode_payload; [done|lia..].
Qed.

(** [Decode] gives up below ten bytes, so a message with a short type name and
    a short body is lost although [Encode] accepted it. *)
Lemma Decode_short `{Protobuf} m b :
  zlen (GetTypeName m) + zlen b < 5 → Decode (payload m b) = None.
Proof.
  intros Hl. unfold Decode. cbv zeta. pose proof (zlen_payload m b) as Hz.
  pose proof (zlen_nonneg b). pose proof (zlen_nonneg (GetTypeName m)).
  rewrite (s32_id (zlen _)) by (unfold is_s32; lia).
  rewrite (proj2 (Z.leb_gt 10 _)) by lia. done.
Qed.

(** ** A concrete library: one type, whose messages are their bodies *)

Definition login_name : list Z := [76; 111; 103; 105; 110].

Definition one_type : Protobuf := {|
  message := list Z;
  descriptor := unit;
  GetTypeName _ := login_name;
  AppendToString m s := (true, s ++ m);
  FindMessageTypeByName n := if decide (n = login_name) then Some tt else None;
  GetPrototype _ := Some [];
  New _ := [];
  ParseFromArray _ b := Some b
|}.

Lemma one_type_serializes m : @Serializes one_type m m.
Proof. by intros s. Qed.
Lemma one_type_parses m : @Parses one_type m m.
Proof. by exists tt, []. Qed.

Lemma codec_roundtrip_witness :
  ∃ pkt, @Encode one_type [1; 2; 3] = Done pkt ∧ ToInt32 pkt = zlen pkt - kHeaderLen ∧
         @Decode one_type (drop (Z.to_nat kHeaderLen) pkt) = Some [1; 2; 3].
Proof.
  apply (@codec_roundtrip one_type [1; 2; 3] [1; 2; 3]).
  - apply one_type_serializes.
  - apply one_type_parses.
  - vm_compute; discriminate.
  - vm_compute; discriminate.
  - vm_compute; reflexivity.
Defined.
