(* ===== verification/Framing.v ===== *)
(** * Framing: from the bytes of a connection to messages

    [HaveCompleteMessage] and [GetMessage] of ServerLib/Dispatcher.h, the
    [OnRead] callbacks of the proxy (RpcProxyServer.cpp) and of a service
    (rpc_service.h), which share one loop, and [TcpConnection::OnRead], which
    keeps the bytes of an unfinished message between two reads.

    [FrameReader] is what the connection needs of a callback: it handles the
    complete messages of the buffer in order and reports the bytes it used.
    The connection's theorem is proved against that interface, and the two
    callbacks are its instances.  [GenericServer::OnRead], the callback the
    gateway inherits, is modelled at the end; it does not satisfy it. *)

From S2P Require Import Prelude Codec.
Local Open Scope Z_scope.

Definition MAX_RECV_BUF : Z := 32 * 1024.

Definition HaveCompleteMessage (buf : list Z) (len : Z) : outcome bool :=
  if len <? kHeaderLen then Done false
  else
    let cur_len := ToInt32 buf in
    if 2 ^ 31 <=? cur_len + kHeaderLen then Fault SignedOverflow
    else if len <? cur_len + kHeaderLen then Done false
    else Done true.

(** [result.resize(cur_len)] of a negative length throws; [std::copy] reads
    [cur_len] bytes after the header. *)
Definition GetMessage (buf : list Z) (len : Z) : outcome (list Z) :=
  let cur_len := ToInt32 buf in
  if cur_len <? 0 then Fault LengthError
  else if zlen buf <? cur_len + kHeaderLen then Fault OutOfBounds
  else Done (take (Z.to_nat cur_len) (drop (Z.to_nat kHeaderLen) buf)).

Section Callbacks.
Context {S : Type} (Dispatch : S → list Z → S).

Fixpoint read_messages (fuel : nat) (st : S) (buf : list Z) (len total_len : Z) : outcome (S * Z) :=
  match fuel with
  | O => Fault OutOfFuel
  | Datatypes.S fuel' =>
      do! have <- HaveCompleteMessage buf len;
      if negb have then Done (st, total_len)
      else
        do! msg <- GetMessage buf len;
        let st := Dispatch st msg in
        let cur_size := s32 (zlen msg) + kHeaderLen in
        read_messages fuel' st (drop (Z.to_nat cur_size) buf) (len - cur_size) (total_len + cur_size)
  end.

(** A callback returns the state, the bytes it used and whether it shut the
    connection down.  Every round of the loop uses the four bytes of a header
    at least, so the length of the buffer is enough fuel. *)
Definition provider_OnRead (st : S) (buf : list Z) (len : Z) : outcome (S * Z * bool) :=
  do! r <- read_messages (Datatypes.S (length buf)) st buf len 0;
  Done (r, false).

Definition proxy_OnRead (st : S) (buf : list Z) (len : Z) : outcome (S * Z * bool) :=
  if MAX_RECV_BUF <=? len then Done (st, len, true)
  else
    do! r <- read_messages (Datatypes.S (length buf)) st buf len 0;
    Done (r, false).

End Callbacks.

(** The receiving half of a connection. *)
Record connection := { recv_buf_ : list Z; open_ : bool }.

Section Connection.
Context {S : Type} (cb_OnRead : option (S → list Z → Z → outcome (S * Z * bool)))
        (OnDisconnect : S → S).

(** [e] is the error code, [data] the bytes [async_read_some] put in the
    socket's buffer. *)
Definition conn_OnRead (e : bool) (data : list Z) (s : S * connection) : outcome (S * connection) :=
  let '(st, c) := s in
  if e then Done (OnDisconnect st, {| recv_buf_ := recv_buf_ c; open_ := false |})
  else
    match cb_OnRead with
    | None => Done (st, c)
    | Some OnRead =>
        let cur_pos := s32 (zlen (recv_buf_ c)) in
        if 2 ^ 31 <=? cur_pos + zlen data then Fault SignedOverflow
        else
          let buf := recv_buf_ c ++ data in
          do! (st, proc_len, shut) <- OnRead st buf (zlen buf);
          let is_open := open_ c && negb shut in
          if proc_len =? 0 then Done (st, {| recv_buf_ := buf; open_ := is_open |})
          else if (proc_len <? 0) || (zlen buf <? proc_len) then Fault OutOfBounds
          else Done (st, {| recv_buf_ := drop (Z.to_nat proc_len) buf; open_ := is_open |})
    end.

(** The reads of a connection, in the order the socket delivers them. *)
Fixpoint conn_reads (chunks : list (list Z)) (s : S * connection) : outcome (S * connection) :=
  match chunks with
  | [] => Done s
  | data :: chunks' =>
      do! s' <- conn_OnRead false data s;
      conn_reads chunks' s'
  end.

End Connection.

(** ** Streams of frames *)

Notation frames ms := (concat (frame <$> ms)).

(** [rest] is the beginning of the first of the frames still to come. *)
Definition unfinished (rest : list Z) (ms : list (list Z)) : Prop :=
  match ms with
  | [] => rest = []
  | m :: _ => zlen rest < zlen (frame m)
  end.

(** Frames of at most [f] bytes. *)
Definition small_frames (f : Z) (ms : list (list Z)) : Prop :=
  Forall (λ m, zlen (frame m) <= f) ms.

Lemma zlen_frame m : zlen (frame m) = 4 + zlen m.
Proof. unfold frame. autorewrite with zlen. lia. Qed.

Lemma ToInt32_app buf k : (4 <= length buf)%nat → ToInt32 (buf ++ k) = ToInt32 buf.
Proof. intros H. unfold ToInt32. by rewrite take_app_le. Qed.

Lemma ToInt32_frame m k : zlen m < 2 ^ 31 → ToInt32 (frame m ++ k) = zlen m.
Proof.
  intros H. pose proof (zlen_nonneg m). unfold frame. rewrite <- app_assoc.
  apply ToInt32_split. unfold is_s32. lia.
Qed.

Lemma have_frame m k :
  zlen (frame m) < 2 ^ 31 → HaveCompleteMessage (frame m ++ k) (zlen (frame m ++ k)) = Done true.
Proof.
  rewrite zlen_frame. intros Hm. pose proof (zlen_nonneg m). pose proof (zlen_nonneg k).
  unfold HaveCompleteMessage. rewrite ToInt32_frame, zlen_app, zlen_frame by lia. unfold kHeaderLen.
  rewrite (proj2 (Z.ltb_ge _ 4)), (proj2 (Z.leb_gt _ (zlen m + 4))), (proj2 (Z.ltb_ge _ (zlen m + 4))) by lia.
  done.
Qed.

Lemma get_frame m k :
  zlen (frame m) < 2 ^ 31 → GetMessage (frame m ++ k) (zlen (frame m ++ k)) = Done m.
Proof.
  rewrite zlen_frame. intros Hm. pose proof (zlen_nonneg m). pose proof (zlen_nonneg k).
  unfold GetMessage. rewrite ToInt32_frame, zlen_app, zlen_frame by lia. unfold kHeaderLen.
  rewrite (proj2 (Z.ltb_ge _ 0)), (proj2 (Z.ltb_ge _ (zlen m + 4))) by lia.
  unfold frame. rewrite <- app_assoc, drop_app_length' by (by rewrite length_le_split).
  by rewrite take_app_length' by (unfold zlen; lia).
Qed.

Lemma have_unfinished m buf fut more :
  zlen (frame m) < 2 ^ 31 → buf ++ fut = frame m ++ more → zlen buf < zlen (frame m) →
  HaveCompleteMessage buf (zlen buf) = Done false.
Proof.
  rewrite zlen_frame. intros Hm He Hl. unfold HaveCompleteMessage, kHeaderLen.
  destruct (Z.ltb_spec (zlen buf) 4); [done|].
  assert (ToInt32 buf = zlen m) as ->.
  { rewrite <- (ToInt32_app buf fut) by (unfold zlen in *; lia).
    rewrite He. apply ToInt32_frame. lia. }
  rewrite (proj2 (Z.leb_gt _ (zlen m + 4))), (proj2 (Z.ltb_lt _ (zlen m + 4))) by lia. done.
Qed.

(** What a callback did with a buffer: it handled the first [n] messages and
    left [rest]. *)
Definition handled {S} (Dispatch : S → list Z → S) (st : S) (ms : list (list Z)) (buf fut : list Z)
    (st' : S) (used : Z) : Prop :=
  ∃ n rest, st' = foldl Dispatch st (take n ms) ∧ buf = frames (take n ms) ++ rest ∧
    used = zlen buf - zlen rest ∧ rest ++ fut = frames (drop n ms) ∧ unfinished rest (drop n ms).

Lemma split_frame m more buf fut :
  buf ++ fut = frame m ++ more → zlen (frame m) <= zlen buf →
  ∃ buf', buf = frame m ++ buf' ∧ buf' ++ fut = more.
Proof.
  intros He Hl. exists (drop (length (frame m)) buf).
  assert (take (length (frame m)) buf = frame m) as Ht.
  { rewrite <- (take_app_le buf fut) by (unfold zlen in Hl; lia). by rewrite He, take_app_length. }
  split; [by rewrite <- Ht at 1; rewrite take_drop|].
  rewrite <- drop_app_le by (unfold zlen in Hl; lia). by rewrite He, drop_app_length.
Qed.

(** The loop handles exactly the complete messages of the buffer. *)
Lemma read_messages_handled {S} (Dispatch : S → list Z → S) ms fuel st buf fut total :
  small_frames (2 ^ 31 - 1) ms → buf ++ fut = frames ms → (length buf < fuel)%nat →
  ∃ st' used, read_messages Dispatch fuel st buf (zlen buf) total = Done (st', total + used) ∧
              handled Dispatch st ms buf fut st' used.
Proof.
  revert fuel st buf total. induction ms as [|m ms IH]; intros fuel st buf total Hs He Hf.
  - destruct fuel as [|fuel]; [lia|]. simpl in He. apply app_eq_nil in He as [-> ->].
    exists st, 0. split; [by rewrite Z.add_0_r|]. by exists 0%nat, [].
  - destruct fuel as [|fuel]; [lia|]. simpl in He. cbn [read_messages].
    apply Forall_cons in Hs as [Hm Hs].
    destruct (Z.lt_ge_cases (zlen buf) (zlen (frame m))) as [Hlt|Hge].
    + rewrite (have_unfinished m buf fut _ ltac:(lia) He Hlt). cbn [obind negb].
      exists st, 0. split; [by rewrite Z.add_0_r|].
      exists 0%nat, buf. repeat split; [lia|done|done].
    + destruct (split_frame m _ buf fut He Hge) as (buf' & -> & He').
      rewrite have_frame, get_frame by lia. cbn [obind negb].
      rewrite zlen_frame in Hm. pose proof (zlen_nonneg m).
      rewrite s32_id by (unfold is_s32; lia).
      replace (zlen m + kHeaderLen) with (zlen (frame m)) by (rewrite zlen_frame; unfold kHeaderLen; lia).
      replace (drop _ _) with buf' by (unfold zlen; by rewrite Nat2Z.id, drop_app_length).
      replace (zlen (frame m ++ buf') - _) with (zlen buf') by (rewrite zlen_app; lia).
      destruct (IH fuel (Dispatch st m) buf' (total + zlen (frame m)) Hs He') as (st' & used & Hr & n & rest & Hh).
      { rewrite length_app in Hf. unfold frame in Hf. rewrite length_app, length_le_split in Hf. lia. }
      exists st', (zlen (frame m) + used). rewrite Hr. split; [f_equal; f_equal; lia|].
      destruct Hh as (-> & -> & -> & Hrest & Hu). exists (Datatypes.S n), rest.
      cbn [take drop fmap list_fmap concat foldl].
      split_and!; [done|by rewrite <- app_assoc|rewrite !zlen_app; lia|done|done].
Qed.

(** ** The interface between a connection and its callback *)

Class FrameReader {S} (Dispatch : S → list Z → S) (limit : Z)
    (OnRead : S → list Z → Z → outcome (S * Z * bool)) : Prop := {
  limit_int32 : limit <= 2 ^ 31;
  frame_reader : ∀ st ms buf fut,
    small_frames (limit - 1) ms → zlen buf < limit → buf ++ fut = frames ms →
    ∃ st' used, OnRead st buf (zlen buf) = Done (st', used, false) ∧
                handled Dispatch st ms buf fut st' used
}.

Lemma small_frames_weaken f g ms : f <= g → small_frames f ms → small_frames g ms.
Proof. intros Hfg Hf. eapply Forall_impl; [exact Hf|]. intros m Hm. simpl in Hm |- *. lia. Qed.

#[export] Instance provider_reader {S} (Dispatch : S → list Z → S) :
  FrameReader Dispatch (2 ^ 31) (provider_OnRead Dispatch).
Proof.
  split; [done|]. intros st ms buf fut Hs Hl He. unfold provider_OnRead.
  destruct (read_messages_handled Dispatch ms (Datatypes.S (length buf)) st buf fut 0 Hs He)
    as (st' & used & -> & Hh); [lia|]. by exists st', used.
Qed.

#[export] Instance proxy_reader {S} (Dispatch : S → list Z → S) :
  FrameReader Dispatch MAX_RECV_BUF (proxy_OnRead Dispatch).
Proof.
  split; [done|]. intros st ms buf fut Hs Hl He. unfold proxy_OnRead.
  rewrite (proj2 (Z.leb_gt _ _)) by done.
  destruct (read_messages_handled Dispatch ms (Datatypes.S (length buf)) st buf fut 0)
    as (st' & used & -> & Hh); [|done|lia|by exists st', used].
  eapply small_frames_weaken; [|done]. by vm_compute.
Qed.

Section Receive.
Context {S : Type} (Dispatch : S → list Z → S) (limit : Z)
        (OnRead : S → list Z → Z → outcome (S * Z * bool)) (OnDisconnect : S → S).
Context `{!FrameReader Dispatch limit OnRead}.

Definition listening (rest : list Z) : connection := {| recv_buf_ := rest; open_ := true |}.

Lemma small_rest f rest ms : small_frames f ms → 0 < f → unfinished rest ms → zlen rest < f.
Proof.
  intros Hs Hf. destruct ms as [|m ms]; simpl; [intros ->; by rewrite zlen_nil|].
  apply Forall_cons in Hs as [? _]. lia.
Qed.

(** One read keeps the unfinished tail, whatever the bytes delivered. *)
Lemma conn_OnRead_handled f st rest data ms fut :
  small_frames f ms → 0 < f < limit → f + zlen data <= limit → unfinished rest ms →
  rest ++ data ++ fut = frames ms →
  ∃ n rest', conn_OnRead (Some OnRead) OnDisconnect false data (st, listening rest)
             = Done (foldl Dispatch st (take n ms), listening rest') ∧
    rest' ++ fut = frames (drop n ms) ∧ unfinished rest' (drop n ms).
Proof.
  intros Hs Hf Hl Hu He. pose proof (small_rest f rest ms Hs ltac:(lia) Hu).
  pose proof (zlen_nonneg rest). pose proof (zlen_nonneg data). pose proof limit_int32.
  unfold conn_OnRead. cbn [recv_buf_ open_ listening]. rewrite s32_id by (unfold is_s32; lia).
  rewrite (proj2 (Z.leb_gt _ _)) by lia.
  destruct (frame_reader st ms (rest ++ data) fut) as (st' & used & -> & n & rest' & Hh).
  { eapply small_frames_weaken; [|done]. lia. }
  { rewrite zlen_app. lia. }
  { by rewrite <- app_assoc. }
  destruct Hh as (-> & -> & -> & Hrest & Hu'). cbn [obind andb negb].
  exists n, rest'. split; [|done].
  rewrite zlen_app. replace (_ + zlen rest' - zlen rest') with (zlen (frames (take n ms))) by lia.
  pose proof (zlen_nonneg (frames (take n ms))). pose proof (zlen_nonneg rest').
  rewrite (proj2 (Z.ltb_ge _ 0)), (proj2 (Z.ltb_ge _ (zlen _))) by lia. cbn [orb].
  destruct (Z.eqb_spec (zlen (frames (take n ms))) 0) as [Hz|Hz].
  - destruct (frames (take n ms)) as [|z l]; [done|]. rewrite zlen_cons in Hz. pose proof (zlen_nonneg l). lia.
  - unfold zlen at 1. by rewrite Nat2Z.id, drop_app_length.
Qed.

Lemma conn_reads_handled f chunks st rest ms fut :
  small_frames f ms → 0 < f < limit → Forall (λ d, f + zlen d <= limit) chunks → unfinished rest ms →
  rest ++ concat chunks ++ fut = frames ms →
  ∃ n rest', conn_reads (Some OnRead) OnDisconnect chunks (st, listening rest)
             = Done (foldl Dispatch st (take n ms), listening rest') ∧
    rest' ++ fut = frames (drop n ms) ∧ unfinished rest' (drop n ms).
Proof.
  revert st rest ms. induction chunks as [|data chunks IH]; intros st rest ms Hs Hf Hc Hu He.
  - by exists 0%nat, rest.
  - apply Forall_cons in Hc as [Hd Hc]. cbn [concat conn_reads] in He |- *. rewrite <- app_assoc in He.
    destruct (conn_OnRead_handled f st rest data ms (concat chunks ++ fut) Hs Hf Hd Hu He)
      as (n & rest1 & -> & He1 & Hu1). cbn [obind].
    destruct (IH (foldl Dispatch st (take n ms)) rest1 (drop n ms)) as (k & rest2 & -> & He2 & Hu2);
      [by apply Forall_drop|done..|].
    exists (n + k)%nat, rest2. rewrite <- foldl_app, drop_drop in *. split; [|done].
    do 3 f_equal. by rewrite take_take_drop.
Qed.

End Receive.

Lemma unfinished_done rest ms : rest = frames ms → unfinished rest ms → ms = [] ∧ rest = [].
Proof.
  intros -> Hu. destruct ms as [|m ms]; [done|]. change (zlen (frame m ++ frames ms) < zlen (frame m)) in Hu. rewrite zlen_app in Hu.
  pose proof (zlen_nonneg (frames ms)). lia.
Qed.

(** Once a whole stream of frames has arrived, every message was dispatched. *)
Lemma receives_stream {S} (Dispatch : S → list Z → S) limit OnRead
    `{!FrameReader Dispatch limit OnRead} OnDisconnect f ms chunks st :
  small_frames f ms → 0 < f < limit → Forall (λ d, f + zlen d <= limit) chunks →
  concat chunks = frames ms →
  conn_reads (Some OnRead) OnDisconnect chunks (st, listening [])
  = Done (foldl Dispatch st ms, listening []).
Proof.
  intros Hs Hf Hc He.
  destruct (conn_reads_handled Dispatch limit OnRead OnDisconnect f chunks st [] ms [])
    as (n & rest & -> & Hr & Hu); [done..| |by rewrite app_nil_r|].
  { destruct ms as [|m ms]; [done|]. simpl. rewrite zlen_frame, zlen_nil. pose proof (zlen_nonneg m). lia. }
  rewrite app_nil_r in Hr. apply unfinished_done in Hu as [Hd ->]; [|done].
  rewrite <- (take_drop n ms) at 2. by rewrite Hd, app_nil_r.
Qed.

(** The connection of a service, which has no limit but that of [int32]. *)
Lemma service_receives_stream {S} (Dispatch : S → list Z → S) OnDisconnect f ms chunks st :
  small_frames f ms → 0 < f < 2 ^ 31 → Forall (λ d, f + zlen d <= 2 ^ 31) chunks →
  concat chunks = frames ms →
  conn_reads (Some (provider_OnRead Dispatch)) OnDisconnect chunks (st, listening [])
  = Done (foldl Dispatch st ms, listening []).
Proof. apply receives_stream. apply _. Qed.

(** However the network cuts a stream of frames into reads, the proxy's
    connection dispatches exactly the messages of the stream, each once and in
    order, and keeps no byte: for frames of at most [f] bytes and reads of at
    most [MAX_RECV_BUF - f] bytes the receive buffer never reaches the limit at
    which the proxy shuts a connection down. *)
Theorem proxy_receives_stream {S} (Dispatch : S → list Z → S) OnDisconnect f ms chunks st :
  small_frames f ms → 0 < f < MAX_RECV_BUF → Forall (λ d, f + zlen d <= MAX_RECV_BUF) chunks →
  concat chunks = frames ms →
  conn_reads (Some (proxy_OnRead Dispatch)) OnDisconnect chunks (st, listening [])
  = Done (foldl Dispatch st ms, listening []).
Proof. apply receives_stream. apply _. Qed.

Lemma proxy_receives_stream_witness :
  conn_reads (Some (proxy_OnRead (λ st m, st ++ [m]))) id [[2; 0; 0]; [0; 7; 8; 1; 0; 0; 0]; [9]]
    ([], listening []) = Done ([[7; 8]; [9]], listening []).
Proof.
  apply (proxy_receives_stream (λ st m, st ++ [m]) id 10 [[7; 8]; [9]]).
  - unfold small_frames. repeat constructor; vm_compute; discriminate.
  - by vm_compute.
  - repeat constructor; vm_compute; discriminate.
  - reflexivity.
Defined.

(** A header whose length is negative passes [HaveCompleteMessage], and
    [GetMessage] then asks for a string of that length: the callback of the
    proxy (and of a service) ends in the exception of [std::string::resize]
    whatever follows the header, instead of dropping the connection. *)
Theorem negative_length_throws {S} (Dispatch : S → list Z → S) st buf :
  4 <= zlen buf < MAX_RECV_BUF → ToInt32 buf < 0 →
  proxy_OnRead Dispatch st buf (zlen buf) = Fault LengthError ∧
  provider_OnRead Dispatch st buf (zlen buf) = Fault LengthError.
Proof.
  intros Hl Hneg. unfold proxy_OnRead, provider_OnRead. rewrite (proj2 (Z.leb_gt _ _)) by lia.
  cbn [read_messages]. unfold HaveCompleteMessage, GetMessage, kHeaderLen.
  rewrite (proj2 (Z.ltb_ge _ 4)), (proj2 (Z.leb_gt _ (_ + 4))), (proj2 (Z.ltb_ge _ (_ + 4))) by lia.
  cbn [obind negb]. by rewrite (proj2 (Z.ltb_lt _ 0)).
Qed.

Lemma negative_length_throws_witness :
  proxy_OnRead (λ (st : nat) _, st) 0%nat [255; 255; 255; 255] 4 = Fault LengthError ∧
  provider_OnRead (λ (st : nat) _, st) 0%nat [255; 255; 255; 255] 4 = Fault LengthError.
Proof.
  apply (negative_length_throws (λ st _, st) 0%nat [255; 255; 255; 255]).
  - vm_compute. split; [discriminate|reflexivity].
  - reflexivity.
Defined.

(** ** The callback of the gateway (ServerLib/GenericServer.cpp)

    [buf] is the memory from the read position to the end of the receive
    buffer; a read past it has no meaning.  [Dispatch] is given the memory after
    the header and the length field. *)

Section Generic.
Context {S : Type} (Dispatch : S → list Z → Z → outcome S).

Fixpoint generic_loop (fuel : nat) (st : S) (buf : list Z) (len total_len : Z) : outcome (S * Z) :=
  match fuel with
  | O => Fault OutOfFuel
  | Datatypes.S fuel' =>
      (* [len] is converted to [size_t] for the comparison *)
      if negb (4 <? u64 len) then Done (st, total_len)
      else if zlen buf <? 4 then Fault OutOfBounds
      else
        let p_len := ToInt32 buf in
        let cur_len := s32 (u64 (p_len + 4)) in
        if len <? p_len then Done (st, total_len)
        else
          do! st <- Dispatch st (drop 4 buf) p_len;
          if (cur_len <? 0) || (zlen buf <? cur_len) then Fault OutOfBounds
          else generic_loop fuel' st (drop (Z.to_nat cur_len) buf) (len - cur_len) (total_len + cur_len)
  end.

Definition generic_OnRead (fuel : nat) (st : S) (buf : list Z) (len : Z) : outcome (S * Z * bool) :=
  if MAX_RECV_BUF <=? len then Done (st, len, true)
  else
    do! r <- generic_loop fuel st buf len 0;
    Done (r, false).

End Generic.

(** Gateway::Dispatch: [ParseFromArray] of the [len] bytes at [buf], then
    [HandlePacket], which is empty. *)
Definition gateway_Dispatch {S} (ParseFromArray : list Z → Z → bool) (HandlePacket : S → S)
    (st : S) (buf : list Z) (len : Z) : outcome S :=
  if zlen buf <? len then Fault OutOfBounds
  else if negb (ParseFromArray (take (Z.to_nat len) buf) len) then Done st
  else Done (HandlePacket st).

(** C39: The gateway's callback compares the bytes it has with the length field
    alone, without the header: when the last one to four bytes of a frame have
    not arrived yet, it hands the whole length to the parser, which reads past
    the end of the receive buffer. *)
Theorem gateway_overread {S} Parse (Handle : S → S) fuel st p missing :
  zlen (frame p) < MAX_RECV_BUF → 1 <= missing <= 4 → missing < zlen p →
  generic_OnRead (gateway_Dispatch Parse Handle) (Datatypes.S fuel) st
    (take (Z.to_nat (zlen (frame p) - missing)) (frame p)) (zlen (frame p) - missing) = Fault OutOfBounds.
Proof.
  rewrite zlen_frame. intros Hmax Hk Hp. unfold generic_OnRead.
  assert (MAX_RECV_BUF = 32768) as HM by done. rewrite (proj2 (Z.leb_gt _ _)) by lia.
  set (buf := take _ _).
  assert (zlen buf = 4 + zlen p - missing) as Hb.
  { unfold buf, zlen. rewrite length_take, Nat.min_l.
    - pose proof (zlen_nonneg p). unfold zlen in *. lia.
    - pose proof (zlen_frame p). unfold zlen in *. lia. }
  assert (ToInt32 buf = zlen p) as Ht.
  { rewrite <- (ToInt32_app buf (drop (Z.to_nat (4 + zlen p - missing)) (frame p))).
    - unfold buf. rewrite take_drop. rewrite <- (app_nil_r (frame p)). apply ToInt32_frame. lia.
    - unfold zlen in *. lia. }
  cbn [generic_loop]. rewrite Ht, <- Hb.
  rewrite u64_id by (unfold is_u64; lia).
  rewrite (proj2 (Z.ltb_lt 4 _)), (proj2 (Z.ltb_ge _ 4)), (proj2 (Z.ltb_ge _ (zlen p))) by lia.
  cbn [negb]. unfold gateway_Dispatch.
  rewrite (proj2 (Z.ltb_lt (zlen (drop _ _)) _)); [done|].
  unfold zlen in *. rewrite length_drop. lia.
Qed.

Lemma gateway_overread_witness :
  generic_OnRead (gateway_Dispatch (λ _ _, true) id) 1 0%nat [5; 0; 0; 0; 1] 5 = Fault OutOfBounds.
Proof.
  apply (gateway_overread (λ _ _, true) id 0 0%nat [1; 2; 3; 4; 5] 4).
  - reflexivity.
  - lia.
  - reflexivity.
Defined.

(** A length field of -4 makes no progress: five bytes keep the callback busy
    for ever. *)
Lemma gateway_hangs {S} (Dispatch : S → list Z → Z → outcome S) fuel st b :
  (∀ st' buf, Dispatch st' buf (-4) = Done st') →
  generic_OnRead Dispatch fuel st [252; 255; 255; 255; b] 5 = Fault OutOfFuel.
Proof.
  intros Hd. unfold generic_OnRead. change (MAX_RECV_BUF <=? 5) with false. cbv iota.
  enough (∀ total, generic_loop Dispatch fuel st [252; 255; 255; 255; b] 5 total = Fault OutOfFuel) as ->; [done|].
  induction fuel as [|fuel IH]; intros total; [done|]. cbn [generic_loop].
  change (zlen [252; 255; 255; 255; b]) with 5. change (ToInt32 [252; 255; 255; 255; b]) with (-4).
  change (negb (4 <? u64 5)) with false. change (5 <? 4) with false. change (5 <? -4) with false. cbv iota.
  rewrite Hd. cbn [obind]. change (s32 (u64 (-4 + 4))) with 0.
  change ((0 <? 0) || (5 <? 0)) with false. cbv iota. apply IH.
Qed.
