(* ===== verification/Sender.v ===== *)
(** * Sender: the sending half of a connection

    [TcpConnection::Send], [RealSend] and [OnWrite] (ServerLib/TcpConnection.cpp)
    with [Socket::Send] (ServerLib/Socket.cpp), as a state machine.  [Send] is
    called from any thread and posts [RealSend] to the connection's io_service,
    which runs one handler at a time in the order posted; [async_write] writes
    a whole buffer or fails, and must not be started while another write of the
    socket is under way.  [tx_step] interleaves the calls, the posted handlers,
    the completions and a shutdown in every order. *)

From S2P Require Import Prelude.
Local Open Scope Z_scope.

(** [posted] are the buffers of the posted [RealSend] handlers, [inflight] the
    buffer of the running [async_write], [wire] what the peer was sent, and
    [asked] all buffers given to [Send]. *)
Record tx := {
  writting_msg_ : bool;
  send_buf_ : list (list Z);
  posted : list (list Z);
  inflight : option (list Z);
  wire : list Z;
  asked : list (list Z);
  socket_open : bool
}.

Definition tx_init : tx :=
  {| writting_msg_ := false; send_buf_ := []; posted := []; inflight := None;
     wire := []; asked := []; socket_open := true |}.

Definition set_writting (b : bool) (s : tx) : tx :=
  {| writting_msg_ := b; send_buf_ := send_buf_ s; posted := posted s; inflight := inflight s;
     wire := wire s; asked := asked s; socket_open := socket_open s |}.
Definition set_send_buf (l : list (list Z)) (s : tx) : tx :=
  {| writting_msg_ := writting_msg_ s; send_buf_ := l; posted := posted s; inflight := inflight s;
     wire := wire s; asked := asked s; socket_open := socket_open s |}.
Definition set_posted (l : list (list Z)) (s : tx) : tx :=
  {| writting_msg_ := writting_msg_ s; send_buf_ := send_buf_ s; posted := l; inflight := inflight s;
     wire := wire s; asked := asked s; socket_open := socket_open s |}.
Definition set_inflight (o : option (list Z)) (s : tx) : tx :=
  {| writting_msg_ := writting_msg_ s; send_buf_ := send_buf_ s; posted := posted s; inflight := o;
     wire := wire s; asked := asked s; socket_open := socket_open s |}.

(** [socket_.Shutdown()] *)
Definition Shutdown (s : tx) : tx :=
  {| writting_msg_ := writting_msg_ s; send_buf_ := send_buf_ s; posted := posted s;
     inflight := inflight s; wire := wire s; asked := asked s; socket_open := false |}.

Definition Send (b : list Z) (s : tx) : tx :=
  {| writting_msg_ := writting_msg_ s; send_buf_ := send_buf_ s; posted := posted s ++ [b];
     inflight := inflight s; wire := wire s; asked := asked s ++ [b]; socket_open := socket_open s |}.

(** [Socket::Send]: an empty buffer is dropped without a callback. *)
Definition Socket_Send (data : list Z) (s : tx) : outcome tx :=
  if (length data =? 0)%nat then Done s
  else match inflight s with
       | Some _ => Fault AssertFailed
       | None => Done (set_inflight (Some data) s)
       end.

Definition RealSend (b : list Z) (s : tx) : outcome tx :=
  let s := set_send_buf (send_buf_ s ++ [b]) s in
  if writting_msg_ s then Done s
  else Socket_Send b (set_writting true s).

Definition OnWrite (e : bool) (s : tx) : outcome tx :=
  let s := set_writting false s in
  if e then Done (Shutdown s)
  else match send_buf_ s with
       | [] => Fault OutOfBounds
       | _ :: rest =>
           let s := set_send_buf rest s in
           match rest with
           | [] => Done s
           | b :: _ => Socket_Send b (set_writting true s)
           end
       end.

(** The bytes a completed write put on the wire, before its callback runs. *)
Definition written (data : list Z) (s : tx) : tx :=
  {| writting_msg_ := writting_msg_ s; send_buf_ := send_buf_ s; posted := posted s;
     inflight := None; wire := wire s ++ data; asked := asked s; socket_open := socket_open s |}.

(** [allowed] are the buffers the users of the connection may pass to [Send]. *)
Inductive tx_step (allowed : list Z → Prop) : tx → tx → Prop :=
  | step_send b s : allowed b → tx_step allowed s (Send b s)
  | step_post b q s s' :
      posted s = b :: q → RealSend b (set_posted q s) = Done s' → tx_step allowed s s'
  | step_written data s s' :
      inflight s = Some data → socket_open s = true →
      OnWrite false (written data s) = Done s' → tx_step allowed s s'
  | step_failed data k s s' :
      inflight s = Some data → (socket_open s = false → k = 0%nat) →
      OnWrite true (written (take k data) s) = Done s' → tx_step allowed s s'
  | step_shutdown s : tx_step allowed s (Shutdown s).

Notation nonempty := (λ b : list Z, b ≠ []).

(** ** The invariant

    A write is under way exactly when [writting_msg_] says so.  While the
    socket is open, the buffers asked for are those written, those queued and
    those posted, in this order, and the write under way is that of the head of
    the queue; what was written stays the beginning of what was asked for after
    the socket is closed. *)
Definition tx_ok (s : tx) : Prop :=
  Forall nonempty (send_buf_ s ++ posted s) ∧
  writting_msg_ s = bool_decide (is_Some (inflight s)) ∧
  (if socket_open s
   then inflight s = head (send_buf_ s) ∧
        ∃ sent, asked s = sent ++ send_buf_ s ++ posted s ∧ wire s = concat sent
   else ∃ future, concat (asked s) = wire s ++ future).

Lemma Socket_Send_nonempty b s :
  b ≠ [] → inflight s = None → Socket_Send b s = Done (set_inflight (Some b) s).
Proof. intros Hb Hi. unfold Socket_Send. rewrite Hi. by destruct b. Qed.

Lemma tx_ok_future s : tx_ok s → ∃ future, concat (asked s) = wire s ++ future.
Proof.
  intros (_ & _ & H). destruct (socket_open s); [|done].
  destruct H as (_ & sent & -> & ->). rewrite concat_app. eauto.
Qed.

Lemma Shutdown_ok s : tx_ok s → tx_ok (Shutdown s).
Proof. intros H. pose proof (tx_ok_future s H). destruct H as (? & ? & _). by repeat split. Qed.

Lemma Send_ok b s : b ≠ [] → tx_ok s → tx_ok (Send b s).
Proof.
  intros Hb (Hn & Hw & Ho). unfold tx_ok. simpl. rewrite app_assoc. split_and!; [|done|].
  - apply Forall_app. by repeat constructor.
  - destruct (socket_open s).
    + destruct Ho as (Hi & sent & -> & Hwire). split; [done|]. exists sent. by rewrite <- !app_assoc.
    + destruct Ho as (fut & Hf). exists (fut ++ b). rewrite concat_app, Hf. simpl. by rewrite app_nil_r, <- app_assoc.
Qed.

(** [RealSend] starts a write only when none is under way. *)
Lemma RealSend_ok b q s :
  tx_ok s → posted s = b :: q → ∃ s', RealSend b (set_posted q s) = Done s' ∧ tx_ok s'.
Proof.
  intros (Hn & Hw & Ho) Hp. rewrite Hp in Hn, Ho.
  assert (b ≠ []) as Hb by (apply Forall_app in Hn as [_ Hn]; by apply Forall_cons in Hn as [? _]).
  assert (Forall nonempty ((send_buf_ s ++ [b]) ++ q)) as Hn' by (by rewrite <- app_assoc).
  unfold RealSend. simpl. destruct (writting_msg_ s) eqn:Hm.
  - eexists. split; [done|]. split_and!; [done|by simpl; rewrite Hm|].
    simpl. destruct (socket_open s); [|done]. destruct Ho as (Hi & sent & Ha & Hwire).
    rewrite <- app_assoc. split; [|by exists sent].
    symmetry in Hw. apply bool_decide_eq_true in Hw as [d Hd]. rewrite Hi in Hd |- *.
    by destruct (send_buf_ s).
  - symmetry in Hw. apply bool_decide_eq_false in Hw. apply eq_None_not_Some in Hw.
    rewrite Socket_Send_nonempty by done. eexists. split; [done|].
    split_and!; [done|done|]. simpl. destruct (socket_open s); [|done].
    destruct Ho as (Hi & sent & Ha & Hwire). rewrite <- app_assoc. split; [|by exists sent].
    rewrite Hw in Hi. by destruct (send_buf_ s).
Qed.

Lemma OnWrite_failed_ok data k s :
  tx_ok s → inflight s = Some data → (socket_open s = false → k = 0%nat) →
  ∃ s', OnWrite true (written (take k data) s) = Done s' ∧ tx_ok s'.
Proof.
  intros (Hn & Hw & Ho) Hi Hk. eexists. split; [done|]. split_and!; [done|done|]. simpl.
  destruct (socket_open s).
  - destruct Ho as (Hh & sent & -> & ->). rewrite Hi in Hh.
    destruct (send_buf_ s) as [|d l]; [done|]. simpl in Hh. simplify_eq.
    exists (drop k d ++ concat (l ++ posted s)).
    rewrite <- app_assoc, (app_assoc (take k d)), take_drop, concat_app. done.
  - destruct Ho as (fut & Hf). exists fut. rewrite (Hk eq_refl). simpl. by rewrite app_nil_r.
Qed.

Lemma OnWrite_written_ok data s :
  tx_ok s → inflight s = Some data → socket_open s = true →
  ∃ s', OnWrite false (written data s) = Done s' ∧ tx_ok s'.
Proof.
  intros (Hn & Hw & Ho) Hi Hopen. rewrite Hopen in Ho. destruct Ho as (Hh & sent & Ha & Hwire).
  rewrite Hi in Hh. unfold OnWrite. simpl.
  destruct (send_buf_ s) as [|d l] eqn:Hs; [done|]. simpl in Hh. simplify_eq.
  apply Forall_cons in Hn as [Hd Hn].
  assert (∃ sent', asked s = sent' ++ l ++ posted s ∧ wire s ++ d = concat sent') as Hsent.
  { exists (sent ++ [d]). split; [by rewrite Ha, <- app_assoc|].
    rewrite concat_app, Hwire. simpl. by rewrite app_nil_r. }
  destruct l as [|b l].
  - eexists. split; [done|]. split_and!; [done|done|]. simpl. by rewrite Hopen.
  - apply Forall_cons in Hn as [Hb Hn]. rewrite Socket_Send_nonempty by done.
    eexists. split; [done|]. split_and!; [by constructor|done|]. simpl. by rewrite Hopen.
Qed.

Lemma tx_step_ok s s' : tx_step nonempty s s' → tx_ok s → tx_ok s'.
Proof.
  intros [b s0 Hb|b q s0 s1 Hp Hr|d s0 s1 Hi Ho Hr|d k s0 s1 Hi Hk Hr|s0] Hok.
  - by apply Send_ok.
  - destruct (RealSend_ok b q s0 Hok Hp) as (? & ? & ?). congruence.
  - destruct (OnWrite_written_ok d s0 Hok Hi Ho) as (? & ? & ?). congruence.
  - destruct (OnWrite_failed_ok d k s0 Hok Hi Hk) as (? & ? & ?). congruence.
  - by apply Shutdown_ok.
Qed.

Lemma tx_reachable_ok s : rtc (tx_step nonempty) tx_init s → tx_ok s.
Proof.
  intros H. assert (tx_ok tx_init) as H0 by (split_and!; [constructor|done|split; [done|by exists []]]).
  revert H0. induction H as [s|s s1 s2 Hs _ IH]; eauto using tx_step_ok.
Qed.

Lemma tx_step_weaken (P Q : list Z → Prop) s s' : (∀ b, P b → Q b) → tx_step P s s' → tx_step Q s s'.
Proof. intros HPQ []; [apply step_send; auto|eapply step_post|eapply step_written|eapply step_failed|apply step_shutdown]; eauto. Qed.

(** What was written grows. *)
Lemma tx_step_wire P s s' : tx_step P s s' → wire s `prefix_of` wire s'.
Proof.
  intros [b s0 Hb|b q s0 s1 Hp Hr|d s0 s1 Hi Ho Hr|d k s0 s1 Hi Hk Hr|s0]; [done|..|done];
    unfold RealSend, OnWrite, Socket_Send in Hr; simpl in Hr; repeat case_match; simplify_eq; simpl;
    done || by apply prefix_app_r.
Qed.

(** Without further calls of [Send], what was asked for stays. *)
Lemma tx_step_asked s s' : tx_step (λ _, False) s s' → asked s' = asked s.
Proof.
  intros [b s0 Hb|b q s0 s1 Hp Hr|d s0 s1 Hi Ho Hr|d k s0 s1 Hi Hk Hr|s0]; [done|..|done];
    unfold RealSend, OnWrite, Socket_Send in Hr; simpl in Hr; by repeat case_match; simplify_eq.
Qed.

(** In every interleaving of calls of [Send] with buffers that are not
    empty, posted handlers, completed or failed writes and shutdowns: what the
    peer was sent is a beginning of the buffers given to [Send], in the order of
    the calls; and when the socket is open and no handler is posted and no write
    is under way, all of them were sent. *)
Theorem send_in_order s :
  rtc (tx_step nonempty) tx_init s →
  (∃ future, concat (asked s) = wire s ++ future) ∧
  (socket_open s = true → posted s = [] → inflight s = None → wire s = concat (asked s)).
Proof.
  intros Hr. pose proof (tx_reachable_ok s Hr) as Hok. split; [by apply tx_ok_future|].
  intros Ho Hp Hi. destruct Hok as (_ & _ & Hs). rewrite Ho, Hi, Hp in Hs.
  destruct Hs as (Hh & sent & Ha & ->). destruct (send_buf_ s); [|done].
  simpl in Ha. by rewrite Ha, app_nil_r.
Qed.

(** The run of two sends, the second of which waits for the first. *)
Definition tx_two : tx :=
  {| writting_msg_ := false; send_buf_ := []; posted := []; inflight := None;
     wire := [1; 2; 3]; asked := [[1; 2]; [3]]; socket_open := true |}.

Lemma tx_two_reachable : rtc (tx_step nonempty) tx_init tx_two.
Proof.
  eapply rtc_l; [by apply (step_send _ [1; 2])|].
  eapply rtc_l; [by apply (step_send _ [3])|].
  eapply rtc_l; [eapply step_post; reflexivity|].
  eapply rtc_l; [eapply step_post; reflexivity|].
  eapply rtc_l; [eapply step_written; reflexivity|].
  eapply rtc_l; [eapply step_written; reflexivity|]. apply rtc_refl.
Qed.

Lemma send_in_order_witness :
  (∃ future, concat (asked tx_two) = wire tx_two ++ future) ∧
  (socket_open tx_two = true → posted tx_two = [] → inflight tx_two = None →
   wire tx_two = concat (asked tx_two)).
Proof. apply (send_in_order tx_two). apply tx_two_reachable. Defined.

(** No handler of the sending half meets a state it cannot handle: a posted
    [RealSend] and the completion of a write, successful or not, always finish,
    in particular no second write is started while one is under way and
    [OnWrite] never pops an empty queue. *)
Theorem send_never_faults s :
  rtc (tx_step nonempty) tx_init s →
  (∀ b q, posted s = b :: q → ∃ s', RealSend b (set_posted q s) = Done s') ∧
  (∀ data, inflight s = Some data → socket_open s = true → ∃ s', OnWrite false (written data s) = Done s') ∧
  (∀ data k, inflight s = Some data → (socket_open s = false → k = 0%nat) →
     ∃ s', OnWrite true (written (take k data) s) = Done s').
Proof.
  intros Hr. pose proof (tx_reachable_ok s Hr) as Hok. split_and!.
  - intros b q Hp. destruct (RealSend_ok b q s Hok Hp) as (? & ? & _). eauto.
  - intros d Hi Ho. destruct (OnWrite_written_ok d s Hok Hi Ho) as (? & ? & _). eauto.
  - intros d k Hi Hk. destruct (OnWrite_failed_ok d k s Hok Hi Hk) as (? & ? & _). eauto.
Qed.

(** The same run while the first buffer is being written and the second is
    still posted. *)
Definition tx_mid : tx :=
  {| writting_msg_ := true; send_buf_ := [[1; 2]]; posted := [[3]]; inflight := Some [1; 2];
     wire := []; asked := [[1; 2]; [3]]; socket_open := true |}.

Lemma tx_mid_reachable : rtc (tx_step nonempty) tx_init tx_mid.
Proof.
  eapply rtc_l; [by apply (step_send _ [1; 2])|].
  eapply rtc_l; [by apply (step_send _ [3])|].
  eapply rtc_l; [eapply step_post; reflexivity|]. apply rtc_refl.
Qed.

Lemma send_never_faults_witness :
  (∃ s', RealSend [3] (set_posted [] tx_mid) = Done s') ∧
  (∃ s', OnWrite false (written [1; 2] tx_mid) = Done s') ∧
  (∃ s', OnWrite true (written [1] tx_mid) = Done s').
Proof.
  destruct (send_never_faults tx_mid tx_mid_reachable) as (Hp & Hw & Hf). split_and!.
  - by apply Hp.
  - by apply Hw.
  - by apply (Hf [1; 2] 1%nat).
Defined.

(** ** An empty buffer

    [Socket::Send] drops it without calling back, so [writting_msg_] stays set
    and nothing the connection is asked to send is ever written again. *)
Definition stalled (w : list Z) (s : tx) : Prop :=
  writting_msg_ s = true ∧ inflight s = None ∧ wire s = w.

Lemma stalled_step allowed w s s' : tx_step allowed s s' → stalled w s → stalled w s'.
Proof.
  intros [b s0 Hb|b q s0 s1 Hp Hr|d s0 s1 Hi Ho Hr|d k s0 s1 Hi Hk Hr|s0] (Hw & Hn & Hwire).
  - done.
  - unfold RealSend in Hr. simpl in Hr. rewrite Hw in Hr. by injection Hr as <-.
  - congruence.
  - congruence.
  - done.
Qed.

Lemma empty_send_stalls allowed s s1 s2 :
  inflight s = None → writting_msg_ s = false → RealSend [] s = Done s1 →
  rtc (tx_step allowed) s1 s2 → wire s2 = wire s.
Proof.
  intros Hi Hw Hr Hs. unfold RealSend in Hr. simpl in Hr. rewrite Hw in Hr.
  unfold Socket_Send in Hr. simpl in Hr. injection Hr as <-.
  match type of Hs with rtc _ ?x _ => assert (stalled (wire s) x) as Hst by done end.
  revert Hst. induction Hs as [x|x y z Hxy _ IH]; [by intros (_ & _ & ->)|].
  intros Hst. apply IH. eauto using stalled_step.
Qed.

(** ** Progress

    Runs without failure, labelled by what happens: a call of [Send], a posted
    handler, the completion of a write, or nothing of this connection. *)
Inductive tx_label := LSend (b : list Z) | LPost | LWritten | LIdle.

#[export] Instance tx_label_eq_dec : EqDecision tx_label.
Proof. solve_decision. Defined.

Inductive tx_good : tx_label → tx → tx → Prop :=
  | good_send b s : b ≠ [] → tx_good (LSend b) s (Send b s)
  | good_post b q s s' : posted s = b :: q → RealSend b (set_posted q s) = Done s' → tx_good LPost s s'
  | good_written data s s' :
      inflight s = Some data → socket_open s = true → OnWrite false (written data s) = Done s' → tx_good LWritten s s'
  | good_idle s : tx_good LIdle s s.

(** A fair run: the io_service runs what is posted to it, and a write that was
    started completes. *)
Record fair_run (run : nat → tx) (lab : nat → tx_label) : Prop := {
  run_starts : run 0%nat = tx_init;
  run_steps n : tx_good (lab n) (run n) (run (S n));
  run_handlers n : posted (run n) ≠ [] → ∃ m, (n <= m)%nat ∧ lab m = LPost;
  run_writes n : is_Some (inflight (run n)) → ∃ m, (n <= m)%nat ∧ lab m = LWritten
}.

(** How many of the buffers asked for have been written. *)
Definition sent_count (s : tx) : nat := (length (asked s) - length (posted s) - length (send_buf_ s))%nat.

Lemma tx_good_step l s s' : tx_good l s s' → s' = s ∨ tx_step nonempty s s'.
Proof.
  intros [b s0 Hb|b q s0 s1 Hp Hr|d s0 s1 Hi Ho Hr|s0]; [right; by constructor|right..|by left].
  - by eapply step_post.
  - by eapply step_written.
Qed.

Lemma RealSend_frame b q s s' : RealSend b (set_posted q s) = Done s' →
  send_buf_ s' = send_buf_ s ++ [b] ∧ posted s' = q ∧ asked s' = asked s ∧ socket_open s' = socket_open s.
Proof.
  unfold RealSend, Socket_Send. simpl. intros H. repeat case_match; simplify_eq; done.
Qed.

Lemma OnWrite_frame data s s' : OnWrite false (written data s) = Done s' →
  send_buf_ s' = tail (send_buf_ s) ∧ send_buf_ s ≠ [] ∧ posted s' = posted s ∧ asked s' = asked s ∧
  socket_open s' = socket_open s.
Proof.
  unfold OnWrite, Socket_Send. simpl. intros H. repeat case_match; simplify_eq; done.
Qed.

Section FairRun.
Context (run : nat → tx) (lab : nat → tx_label) (Hfair : fair_run run lab).

Lemma run_ok n : tx_ok (run n) ∧ socket_open (run n) = true.
Proof.
  induction n as [|n [IH Ho]].
  - rewrite (run_starts _ _ Hfair). split; [|done]. apply tx_reachable_ok. apply rtc_refl.
  - pose proof (run_steps _ _ Hfair n) as Hs. split.
    + apply tx_good_step in Hs as [->|Hs]; eauto using tx_step_ok.
    + inversion Hs as [b s0 Hb|b q s0 s1 Hp Hr|d s0 s1 Hi Ho' Hr|s0]; simplify_eq; [done|..|congruence].
      * apply RealSend_frame in Hr as (_ & _ & _ & ->). done.
      * apply OnWrite_frame in Hr as (_ & _ & _ & _ & ->). done.
Qed.

Lemma run_split n : ∃ sent, asked (run n) = sent ++ send_buf_ (run n) ++ posted (run n) ∧
  wire (run n) = concat sent ∧ sent_count (run n) = length sent ∧ inflight (run n) = head (send_buf_ (run n)).
Proof.
  destruct (run_ok n) as [(_ & _ & H) Ho]. rewrite Ho in H. destruct H as (Hi & sent & Ha & Hw).
  exists sent. split_and!; [done..| |done]. unfold sent_count. rewrite Ha, !length_app. lia.
Qed.

Lemma run_step_frame n :
  sent_count (run (S n)) = (sent_count (run n) + if decide (lab n = LWritten) then 1 else 0)%nat ∧
  asked (run n) `prefix_of` asked (run (S n)) ∧ (lab n = LPost → send_buf_ (run (S n)) ≠ []).
Proof.
  pose proof (run_steps _ _ Hfair n) as Hs. destruct (run_split n) as (sent & Ha & _ & Hc & _).
  apply (f_equal length) in Ha. rewrite !length_app in Ha. unfold sent_count.
  inversion Hs as [b s0 Hb Hl|b q s0 s1 Hp Hr Hl|d s0 s1 Hi Ho Hr Hl|s0 Hl]; simplify_eq; simpl.
  - rewrite !length_app. simpl. split_and!; [lia|by apply prefix_app_r|done].
  - apply RealSend_frame in Hr as (-> & -> & -> & _). rewrite Hp, length_app in *. simpl in *.
    split_and!; [lia|done|]. by destruct (send_buf_ (run n)).
  - apply OnWrite_frame in Hr as (-> & Hn & -> & -> & _). destruct (send_buf_ (run n)); [done|].
    simpl in *. split_and!; [lia|done|done].
  - split_and!; [lia|done|done].
Qed.

Lemma run_monotone n m : (n <= m)%nat →
  (sent_count (run n) <= sent_count (run m))%nat ∧ asked (run n) `prefix_of` asked (run m).
Proof.
  intros H. induction H as [|m H [IH1 IH2]]; [done|].
  destruct (run_step_frame m) as (Hc & Hp & _). split; [lia|by etrans].
Qed.

Lemma progress_queued n : send_buf_ (run n) ≠ [] → ∃ m, (n <= m)%nat ∧ (sent_count (run n) < sent_count (run m))%nat.
Proof.
  intros Hq. destruct (run_split n) as (sent & _ & _ & _ & Hi).
  assert (is_Some (inflight (run n))) as Hs by (rewrite Hi; by destruct (send_buf_ (run n))).
  destruct (run_writes _ _ Hfair n Hs) as (m & Hm & Hl). exists (S m). split; [lia|].
  destruct (run_step_frame m) as (Hc & _ & _). rewrite decide_True in Hc by done.
  destruct (run_monotone n m Hm) as [? _]. lia.
Qed.

Lemma progress n : (sent_count (run n) < length (asked (run n)))%nat →
  ∃ m, (n <= m)%nat ∧ (sent_count (run n) < sent_count (run m))%nat.
Proof.
  intros Hlt. destruct (send_buf_ (run n)) as [|b l] eqn:Hq; [|apply progress_queued; congruence].
  destruct (run_split n) as (sent & Ha & _ & Hc & _). rewrite Hq in Ha. simpl in Ha.
  assert (posted (run n) ≠ []) as Hp.
  { intros Hp. rewrite Hp, app_nil_r in Ha. rewrite Ha in Hlt. lia. }
  destruct (run_handlers _ _ Hfair n Hp) as (m & Hm & Hl).
  destruct (run_step_frame m) as (_ & _ & Hs).
  destruct (progress_queued (S m) (Hs Hl)) as (k & Hk & Hlt').
  exists k. split; [lia|]. destruct (run_monotone n (S m)) as [? _]; lia.
Qed.

Lemma eventually_count n w : (w <= length (asked (run n)))%nat →
  ∃ m, (n <= m)%nat ∧ (w <= sent_count (run m))%nat.
Proof.
  induction w as [|w IH]; intros Hw; [exists n; lia|].
  destruct IH as (m & Hm & Hc); [lia|].
  destruct (decide (S w <= sent_count (run m))%nat); [by exists m|].
  destruct (run_monotone n m Hm) as [_ Hpre%prefix_length].
  destruct (progress m) as (k & Hk & Hlt); [lia|]. exists k. lia.
Qed.
End FairRun.

(** Every buffer given to [Send] is eventually written: in a fair run
    without failures, in which further calls of [Send] may come at any time, at
    some later moment the peer has been sent everything asked for by now. *)
Theorem send_eventually_written run lab n :
  fair_run run lab →
  ∃ m, (n <= m)%nat ∧ concat (asked (run n)) `prefix_of` wire (run m).
Proof.
  intros Hf. destruct (eventually_count run lab Hf n (length (asked (run n)))) as (m & Hm & Hc); [done|].
  exists m. split; [done|]. destruct (run_split run lab Hf m) as (sent & Ha & -> & Hs & _).
  destruct (run_monotone run lab Hf n m Hm) as [_ [more Hmore]]. rewrite Hs in Hc. rewrite Ha in Hmore.
  apply (f_equal (take (length (asked (run n))))) in Hmore.
  rewrite take_app_length, take_app_le in Hmore by done. rewrite <- Hmore.
  exists (concat (drop (length (asked (run n))) sent)). by rewrite <- concat_app, take_drop.
Qed.

(** Two buffers, the second asked for while the first is being written. *)
Definition demo_labels (n : nat) : tx_label :=
  match n with
  | 0%nat => LSend [1; 2] | 1%nat => LPost | 2%nat => LSend [3] | 3%nat => LPost
  | 4%nat => LWritten | 5%nat => LWritten | _ => LIdle
  end.

Definition tx_apply (l : tx_label) (s : tx) : tx :=
  let ok (o : outcome tx) := match o with Done s' => s' | _ => s end in
  match l with
  | LSend b => Send b s
  | LPost => match posted s with b :: q => ok (RealSend b (set_posted q s)) | [] => s end
  | LWritten => match inflight s with Some d => ok (OnWrite false (written d s)) | None => s end
  | LIdle => s
  end.

Definition demo_states : list tx := Eval vm_compute in
  foldl (λ l k, l ++ [tx_apply (demo_labels k) (List.last l tx_init)]) [tx_init] (seq 0 6).

Definition demo_run (n : nat) : tx := nth n demo_states tx_two.

Lemma demo_fair : fair_run demo_run demo_labels.
Proof.
  split.
  - done.
  - intros n. do 6 (destruct n as [|n]; [unfold demo_run; simpl; econstructor; reflexivity || done|]).
    unfold demo_run. simpl. destruct n as [|[|n]]; constructor.
  - intros n Hp. destruct (decide (n <= 1)%nat); [exists 1%nat; split; [lia|done]|].
    destruct (decide (n <= 3)%nat); [exists 3%nat; split; [lia|done]|].
    do 7 (destruct n as [|n]; [first [lia | done]|]). unfold demo_run in Hp. simpl in Hp. by destruct n.
  - intros n Hp. destruct (decide (n <= 5)%nat); [exists 5%nat; split; [lia|done]|].
    do 7 (destruct n as [|n]; [first [lia | by destruct Hp]|]). unfold demo_run in Hp. simpl in Hp.
    by destruct n; destruct Hp.
Qed.

Lemma send_eventually_written_witness :
  ∃ m, (3 <= m)%nat ∧ concat (asked (demo_run 3)) `prefix_of` wire (demo_run m).
Proof. exact (send_eventually_written demo_run demo_labels 3 demo_fair). Defined.
