(* ===== verification/Channel.v ===== *)
(** * Channel: messages from one end of a connection to the other

    [RpcServiceProvider::Send] (rpc_service.h) encodes a message (Codec) and gives
    it to the sending half of its connection (Sender); the bytes cross the network
    in pieces; [TcpConnection::OnRead] of the other end collects them (Framing)
    and its callback hands each frame to [Dispatch], which decodes it and calls the
    handler.  The receiving end is anything that implements [FrameReader], so both
    the proxy and a service. *)

From S2P Require Import Prelude Codec Framing Sender.
Local Open Scope Z_scope.

Section Channel.
Context `{Protobuf} {S : Type} (OnMessage : S → message → S) (OnDisconnect : S → S).

(** [RpcServiceProvider::Dispatch] *)
Definition Dispatch (st : S) (pkt : list Z) : S :=
  match Decode pkt with
  | None => st
  | Some msg => OnMessage st msg
  end.

(** [RpcServiceProvider::Send] *)
Definition provider_Send (pkt : message) (s : tx) : outcome tx :=
  do! b <- Encode pkt;
  if (length b =? 0)%nat then Done s else Done (Send b s).

Context (limit f : Z) (OnRead : S → list Z → Z → outcome (S * Z * bool)).
Context `{!FrameReader Dispatch limit OnRead} (Hf : 0 < f < limit).

(** Both ends: [rx] is the receiver and its connection, [arrived] counts the bytes
    that it has read, and [messages] are the messages given to [provider_Send]. *)
Record channel := { tx_half : tx; rx : S * connection; arrived : nat; messages : list message }.

Definition channel_new (st : S) : channel :=
  {| tx_half := tx_init; rx := (st, listening []); arrived := 0; messages := [] |}.

(** A message that the codec carries and whose frame has at most [f] bytes. *)
Definition carried (m : message) (b : list Z) : Prop :=
  Serializes m b ∧ Parses m b ∧ 1 <= zlen (GetTypeName m) ∧ 5 <= zlen (GetTypeName m) + zlen b ∧ zlen (frame (payload m b)) <= f.

(** A message is sent; the sender works, fails or is shut down; some of the bytes
    on their way arrive, as many as a read takes; the receiver's read fails. *)
Inductive channel_step : channel → channel → Prop :=
  | ch_send m b t ch : carried m b → provider_Send m (tx_half ch) = Done t →
      channel_step ch {| tx_half := t; rx := rx ch; arrived := arrived ch; messages := messages ch ++ [m] |}
  | ch_tx t ch : tx_step (λ _, False) (tx_half ch) t →
      channel_step ch {| tx_half := t; rx := rx ch; arrived := arrived ch; messages := messages ch |}
  | ch_read data rest r ch : drop (arrived ch) (wire (tx_half ch)) = data ++ rest → f + zlen data <= limit →
      open_ (rx ch).2 = true → conn_OnRead (Some OnRead) OnDisconnect false data (rx ch) = Done r →
      channel_step ch {| tx_half := tx_half ch; rx := r; arrived := arrived ch + length data; messages := messages ch |}
  | ch_closed r ch : open_ (rx ch).2 = true → conn_OnRead (Some OnRead) OnDisconnect true [] (rx ch) = Done r →
      channel_step ch {| tx_half := tx_half ch; rx := r; arrived := arrived ch; messages := messages ch |}.

(** ** The invariant *)

(** [ps] are the frames asked for; of these the receiver has handled [n] and has
    [rest] of the next one. *)
Definition received (st0 : S) (ps : list (list Z)) (n : nat) (ch : channel) : Prop :=
  (n <= length ps)%nat ∧ (arrived ch <= length (wire (tx_half ch)))%nat ∧
  if open_ (rx ch).2
  then ∃ rest, rx ch = (foldl Dispatch st0 (take n ps), listening rest) ∧
         rest ++ drop (arrived ch) (frames ps) = frames (drop n ps) ∧ unfinished rest (drop n ps)
  else (rx ch).1 = OnDisconnect (foldl Dispatch st0 (take n ps)).

(** The frames of the messages. *)
Definition framed (ms : list message) (ps : list (list Z)) : Prop :=
  Forall2 (λ m p, zlen (frame p) <= f ∧ Decode p = Some m) ms ps.

Definition channel_ok (st0 : S) (ch : channel) : Prop :=
  ∃ ps n, framed (messages ch) ps ∧ asked (tx_half ch) = frame <$> ps ∧ tx_ok (tx_half ch) ∧ received st0 ps n ch.

Lemma framed_dispatch st ms ps : framed ms ps → foldl Dispatch st ps = foldl OnMessage st ms.
Proof.
  intros Hfr. revert st. induction Hfr as [|m p ms ps [_ Hd] _ IH]; intros st; [done|]. cbn. rewrite <- IH. unfold Dispatch at 2. by rewrite Hd.
Qed.

Lemma framed_small ms ps : framed ms ps → small_frames f ps.
Proof. induction 1 as [|m p ms ps [? _] _ IH]; constructor; done. Qed.

Lemma frame_nonempty p : frame p ≠ [].
Proof. intros E. apply (f_equal zlen) in E. rewrite zlen_frame, zlen_nil in E. pose proof (zlen_nonneg p). lia. Qed.

Lemma unfinished_snoc rest ps p : unfinished rest ps → unfinished rest (ps ++ [p]).
Proof.
  destruct ps as [|q ps]; [|done]. intros ->. change (zlen (@nil Z) < zlen (frame p)). rewrite zlen_frame, zlen_nil. pose proof (zlen_nonneg p). lia.
Qed.

Lemma frames_snoc ps p : frames (ps ++ [p]) = frames ps ++ frame p.
Proof. rewrite fmap_app, concat_app. cbn. by rewrite app_nil_r. Qed.

(** What was written is the beginning of the frames. *)
Lemma wire_prefix ps s : tx_ok s → asked s = frame <$> ps → ∃ fut, frames ps = wire s ++ fut.
Proof. intros Hok Ha. apply tx_ok_future in Hok as [fut Hfut]. exists fut. by rewrite <- Hfut, Ha. Qed.

Lemma carried_frame m b : carried m b → Encode m = Done (frame (payload m b)) ∧ Decode (payload m b) = Some m ∧ zlen (frame (payload m b)) <= f.
Proof using Hf FrameReader0.
  intros (Hs & Hp & Hn & H5 & Hl). pose proof limit_int32. pose proof Hl as Hl'. rewrite zlen_frame in Hl'.
  split; [apply Encode_frame; [done|lia]|]. split; [apply Decode_payload; [done..|lia]|done].
Qed.

Lemma send_step_ok st0 ch m b t : channel_ok st0 ch → carried m b → provider_Send m (tx_half ch) = Done t →
  channel_ok st0 {| tx_half := t; rx := rx ch; arrived := arrived ch; messages := messages ch ++ [m] |}.
Proof using Hf FrameReader0.
  intros (ps & n & Hfr & Ha & Hok & Hn & Harr & Hrx) Hc Hs. apply carried_frame in Hc as (He & Hd & Hl). unfold provider_Send in Hs. rewrite He in Hs. cbn [obind] in Hs.
  rewrite (proj2 (Nat.eqb_neq _ _)) in Hs by (intros E; apply length_zero_iff_nil in E; by apply frame_nonempty in E). injection Hs as <-.
  destruct (wire_prefix ps _ Hok Ha) as [fut Hw]. exists (ps ++ [payload m b]), n. split_and!; cbn.
  - apply Forall2_app; [done|]. by repeat constructor.
  - by rewrite Ha, fmap_app.
  - apply Send_ok; [apply frame_nonempty|done].
  - split; [rewrite length_app; lia|]. split; [done|]. cbn. rewrite take_app_le by lia. destruct (open_ (rx ch).2); [|done].
    destruct Hrx as (rest & -> & Hrest & Hu). exists rest. split; [done|]. rewrite drop_app_le by lia. rewrite !frames_snoc.
    rewrite drop_app_le by (rewrite Hw, length_app; lia). rewrite app_assoc, Hrest. split; [done|by apply unfinished_snoc].
Qed.

Lemma tx_step_keeps st0 ch t : channel_ok st0 ch → tx_step (λ _, False) (tx_half ch) t →
  channel_ok st0 {| tx_half := t; rx := rx ch; arrived := arrived ch; messages := messages ch |}.
Proof.
  intros (ps & n & Hfr & Ha & Hok & Hn & Harr & Hrx) Hs. pose proof (tx_step_asked _ _ Hs) as Ha'. pose proof (prefix_length _ _ (tx_step_wire _ _ _ Hs)) as Hw.
  exists ps, n. split_and!; cbn; [done|by rewrite Ha'| |split_and!; [done|cbn; lia|done]].
  eapply tx_step_ok; [|done]. eapply (tx_step_weaken (λ _, False)); [by intros|done].
Qed.

Lemma take_drop_min {A} k (l : list A) : take k l = take (Nat.min k (length l)) l ∧ drop k l = drop (Nat.min k (length l)) l.
Proof.
  destruct (Nat.min_spec k (length l)) as [[_ ->]|[? ->]]; [done|]. by rewrite !take_ge, !drop_ge by lia.
Qed.

(** Bytes that arrive are taken in without a fault. *)
Lemma read_ok st0 ch data rest : channel_ok st0 ch → drop (arrived ch) (wire (tx_half ch)) = data ++ rest → f + zlen data <= limit →
  open_ (rx ch).2 = true → ∃ r, conn_OnRead (Some OnRead) OnDisconnect false data (rx ch) = Done r ∧ open_ r.2 = true ∧
    channel_ok st0 {| tx_half := tx_half ch; rx := r; arrived := arrived ch + length data; messages := messages ch |}.
Proof using Hf FrameReader0.
  intros (ps & n & Hfr & Ha & Hok & Hn & Harr & Hrx) Hd Hl Ho. rewrite Ho in Hrx. destruct Hrx as (rest0 & Hrx & Hrest & Hu).
  destruct (wire_prefix ps _ Hok Ha) as [fut Hw]. pose proof Hrest as Hrest'. rewrite Hw, drop_app_le, Hd, <- app_assoc in Hrest by done.
  destruct (conn_OnRead_handled Dispatch limit OnRead OnDisconnect f (foldl Dispatch st0 (take n ps)) rest0 data (drop n ps) (rest ++ fut))
    as (k & rest1 & Hr & Hrest1 & Hu1); [apply Forall_drop; by eapply framed_small|done|done|done|done|].
  rewrite Hrx. eexists. split; [exact Hr|]. split; [done|]. assert (length data + length rest = length (wire (tx_half ch)) - arrived ch)%nat as Hlen
    by (rewrite <- length_drop, Hd, length_app; lia).
  destruct (take_drop_min k (drop n ps)) as [Htk Hdk]. rewrite Htk, Hdk, length_drop in *. set (j := Nat.min k (length ps - n)) in *.
  exists ps, (n + j)%nat. split_and!; cbn; [done..|]. split; [lia|]. split; [cbn; lia|]. cbn.
  exists rest1. rewrite <- foldl_app, take_take_drop. split; [done|]. rewrite <- (drop_drop ps).
  assert (drop (arrived ch + length data) (frames ps) = rest ++ fut) as ->; [|done].
  rewrite <- (drop_drop (frames ps)), Hw, drop_app_le, Hd, <- app_assoc, drop_app_length by done. done.
Qed.

Lemma closed_ok st0 ch r : channel_ok st0 ch → open_ (rx ch).2 = true → conn_OnRead (Some OnRead) OnDisconnect true [] (rx ch) = Done r →
  channel_ok st0 {| tx_half := tx_half ch; rx := r; arrived := arrived ch; messages := messages ch |}.
Proof.
  intros (ps & n & Hfr & Ha & Hok & Hn & Harr & Hrx) Ho Hr. rewrite Ho in Hrx. destruct Hrx as (rest & Hrx & _). rewrite Hrx in Hr. injection Hr as <-.
  by exists ps, n.
Qed.

Lemma channel_step_ok st0 ch ch' : channel_step ch ch' → channel_ok st0 ch → channel_ok st0 ch'.
Proof using Hf FrameReader0.
  intros [m b t c Hc Hs|t c Hs|data rest r c Hd Hl Ho Hr|r c Ho Hr] Hok; [by eapply send_step_ok|by apply tx_step_keeps| |by apply closed_ok].
  destruct (read_ok st0 c data rest Hok Hd Hl Ho) as (r' & Hr' & _ & Hok'). congruence.
Qed.

Lemma channel_new_ok st0 : channel_ok st0 (channel_new st0).
Proof.
  exists [], 0%nat. split_and!; [constructor|done|apply tx_reachable_ok, rtc_refl|]. split; [done|]. split; [done|]. cbn. by exists [].
Qed.

Lemma channel_reachable_ok st0 ch : rtc channel_step (channel_new st0) ch → channel_ok st0 ch.
Proof using Hf FrameReader0.
  intros Hr. pose proof (channel_new_ok st0) as H0. revert H0. induction Hr as [|c c1 c2 Hs _ IH]; eauto using channel_step_ok.
Qed.

(** Frames whose bytes have all arrived have been handled. *)
Lemma arrived_handled st0 ps n k ch : received st0 ps n ch → open_ (rx ch).2 = true → (k <= length ps)%nat →
  (length (frames (take k ps)) <= arrived ch)%nat → (arrived ch <= length (frames ps))%nat → (k <= n)%nat.
Proof.
  intros (Hn & _ & Hrx) Ho Hk Harr Hle. rewrite Ho in Hrx. destruct Hrx as (rest & _ & Hrest & Hu).
  destruct (decide (k <= n)%nat) as [?|Hlt]; [done|exfalso].
  assert (frames ps = frames (take n ps) ++ frames (drop n ps)) as Hsplit by (by rewrite <- concat_app, <- fmap_app, take_drop).
  apply (f_equal length) in Hrest. rewrite length_app, length_drop, Hsplit, length_app in Hrest. rewrite Hsplit, length_app in Hle.
  destruct (drop n ps) as [|p qs] eqn:Ed; [apply (f_equal length) in Ed; rewrite length_drop in Ed; cbn in Ed; lia|].
  assert (take k ps = take n ps ++ p :: take (k - n - 1)%nat qs) as Htk.
  { rewrite <- (take_drop n ps), Ed at 1. rewrite take_app_ge, length_take by (rewrite length_take; lia).
    replace (k - n `min` length ps)%nat with (Datatypes.S (k - n - 1)) by lia. done. }
  rewrite Htk, fmap_app, concat_app, length_app in Harr. change (zlen rest < zlen (frame p)) in Hu. unfold zlen in Hu.
  cbn [fmap list_fmap concat] in *. rewrite !length_app in *. lia.
Qed.

Lemma concat_take_le {A} k (l : list (list A)) : (length (concat (take k l)) <= length (concat l))%nat.
Proof. rewrite <- (take_drop k l) at 2. rewrite concat_app, length_app. lia. Qed.

Lemma channel_handled st0 ch : channel_ok st0 ch → open_ (rx ch).2 = true →
  length (asked (tx_half ch)) = length (messages ch) ∧
  ∃ n, (n <= length (messages ch))%nat ∧ (rx ch).1 = foldl OnMessage st0 (take n (messages ch)) ∧
    ∀ k, (k <= length (messages ch))%nat → (length (concat (take k (asked (tx_half ch)))) <= arrived ch)%nat → (k <= n)%nat.
Proof.
  intros (ps & n & Hfr & Ha & Hok & Hrec) Ho. pose proof Hrec as (Hn & Harr & Hrx). rewrite Ho in Hrx. destruct Hrx as (rest & -> & _).
  pose proof (Forall2_length _ _ _ Hfr) as Hlen. split; [by rewrite Ha, length_fmap|]. exists n. split; [lia|]. split.
  - cbn. apply framed_dispatch. by apply Forall2_take.
  - intros k Hk Hl. destruct (wire_prefix ps _ Hok Ha) as [fut Hw]. rewrite Ha, <- fmap_take in Hl.
    apply (arrived_handled st0 ps n k ch Hrec Ho); [lia|done|]. rewrite Hw, length_app. lia.
Qed.

(** ** Runs without failures *)

Inductive channel_label := ChSend (m : message) (b : list Z) | ChTx (l : tx_label) | ChRead.

(** [tx_of] is what the step is for the sending half. *)
Definition tx_of (l : channel_label) : tx_label :=
  match l with ChSend m b => LSend (frame (payload m b)) | ChTx l => l | ChRead => LIdle end.

Inductive channel_good : channel_label → channel → channel → Prop :=
  | good_message m b t ch : carried m b → provider_Send m (tx_half ch) = Done t →
      channel_good (ChSend m b) ch {| tx_half := t; rx := rx ch; arrived := arrived ch; messages := messages ch ++ [m] |}
  | good_tx l t ch : (∀ b, l ≠ LSend b) → tx_good l (tx_half ch) t →
      channel_good (ChTx l) ch {| tx_half := t; rx := rx ch; arrived := arrived ch; messages := messages ch |}
  | good_read data rest r ch : data ≠ [] → drop (arrived ch) (wire (tx_half ch)) = data ++ rest → f + zlen data <= limit →
      open_ (rx ch).2 = true → conn_OnRead (Some OnRead) OnDisconnect false data (rx ch) = Done r →
      channel_good ChRead ch {| tx_half := tx_half ch; rx := r; arrived := arrived ch + length data; messages := messages ch |}.

(** Both io_services run what they are given, writes complete, and bytes that were
    written arrive. *)
Record fair_channel (st0 : S) (run : nat → channel) (lab : nat → channel_label) : Prop := {
  fc_start : run 0%nat = channel_new st0;
  fc_step n : channel_good (lab n) (run n) (run (Datatypes.S n));
  fc_handlers n : posted (tx_half (run n)) ≠ [] → ∃ m, (n <= m)%nat ∧ lab m = ChTx LPost;
  fc_writes n : is_Some (inflight (tx_half (run n))) → ∃ m, (n <= m)%nat ∧ lab m = ChTx LWritten;
  fc_reads n : (arrived (run n) < length (wire (tx_half (run n))))%nat → ∃ m, (n <= m)%nat ∧ lab m = ChRead
}.

Lemma good_step l ch ch' : channel_good l ch ch' → ch' = ch ∨ channel_step ch ch'.
Proof.
  intros [m b t c Hc Hs|l0 t c Hl Hs|data rest r c Hne Hd Hlim Ho Hr]; [right; by eapply ch_send| |right; by eapply ch_read].
  assert (t = tx_half c ∨ tx_step (λ _, False) (tx_half c) t) as [->|Hstep]; [|left; by destruct c|right; by apply ch_tx].
  destruct Hs as [b s Hb|b q s s' Hp Hr|d s s' Hi Ho Hr|s]; [by destruct (Hl b)|right; by eapply step_post|right; by eapply step_written|by left].
Qed.

Section FairChannel.
Context (st0 : S) (run : nat → channel) (lab : nat → channel_label) (Hfair : fair_channel st0 run lab).

Lemma fair_ok n : channel_ok st0 (run n) ∧ open_ (rx (run n)).2 = true.
Proof using Hfair Hf FrameReader0.
  induction n as [|n [IH Ho]]; [rewrite (fc_start _ _ _ Hfair); split; [apply channel_new_ok|done]|].
  pose proof (fc_step _ _ _ Hfair n) as Hs. assert (channel_ok st0 (run (Datatypes.S n))) as Hok.
  { apply good_step in Hs as [->|Hs]; eauto using channel_step_ok. }
  split; [done|]. destruct Hs as [m b t c Hc Hse|l t c Hl Ht|data rest r c Hne Hd Hlim Ho' Hr]; [done..|].
  destruct (read_ok st0 c data rest IH Hd Hlim Ho') as (r' & Hr' & Ho1 & _). cbn. congruence.
Qed.

(** The sending half has a fair run of its own. *)
Lemma fair_tx : fair_run (λ n, tx_half (run n)) (λ n, tx_of (lab n)).
Proof using Hfair Hf FrameReader0.
  split; [by rewrite (fc_start _ _ _ Hfair)|..]; intros n.
  - destruct (fc_step _ _ _ Hfair n) as [m b t c Hc Hs|l t c Hl Ht|data rest r c Hne Hd Hlim Ho' Hr]; cbn; [|done|constructor].
    apply carried_frame in Hc as (He & _). unfold provider_Send in Hs. rewrite He in Hs. cbn [obind] in Hs.
    rewrite (proj2 (Nat.eqb_neq _ _)) in Hs by (intros E; apply length_zero_iff_nil in E; by apply frame_nonempty in E). injection Hs as <-.
    apply good_send, frame_nonempty.
  - intros Hp. destruct (fc_handlers _ _ _ Hfair n Hp) as (m & Hm & Hl). exists m. by rewrite Hl.
  - intros Hi. destruct (fc_writes _ _ _ Hfair n Hi) as (m & Hm & Hl). exists m. by rewrite Hl.
Qed.

Lemma messages_grow n m : (n <= m)%nat → messages (run n) `prefix_of` messages (run m) ∧ (arrived (run n) <= arrived (run m))%nat.
Proof using Hfair.
  intros Hm. induction Hm as [|m Hm [IH1 IH2]]; [done|].
  destruct (fc_step _ _ _ Hfair m) as [msg b t c Hc Hs|l t c Hl Ht|data rest r c Hne Hd Hlim Ho' Hr]; cbn; [|done|split; [done|lia]].
  split; [|done]. etrans; [exact IH1|by apply prefix_app_r].
Qed.

(** Bytes that were written arrive. *)
Lemma eventually_arrives n w : (w <= length (wire (tx_half (run n))))%nat → ∃ m, (n <= m)%nat ∧ (w <= arrived (run m))%nat.
Proof using Hfair Hf FrameReader0.
  induction w as [|w IH]; intros Hw; [exists n; split; [done|lia]|]. destruct IH as (m & Hm & Ha); [lia|].
  destruct (decide (Datatypes.S w <= arrived (run m))%nat) as [?|Hlt]; [eauto|].
  assert (∀ k, (n <= k)%nat → (length (wire (tx_half (run n))) <= length (wire (tx_half (run k))))%nat) as Hwire.
  { intros k Hk. induction Hk as [|k Hk IH]; [done|]. etrans; [exact IH|].
    destruct (tx_good_step _ _ _ (run_steps _ _ fair_tx k)) as [->|Hs]; [done|]. by apply prefix_length, (tx_step_wire nonempty). }
  destruct (fc_reads _ _ _ Hfair m) as (k & Hk & Hl); [specialize (Hwire m Hm); lia|]. exists (Datatypes.S k). split; [lia|].
  destruct (messages_grow m k Hk) as [_ Hmk]. pose proof (fc_step _ _ _ Hfair k) as Hs. rewrite Hl in Hs.
  inversion Hs as [| |data rest r c Hne Hd Hlim Ho' Hr E1 E2 E3]. cbn. destruct data; [done|]. cbn. lia.
Qed.
End FairChannel.
End Channel.

(** C12: Over one connection, with the frames of the messages and the reads small
    enough for the limit of the receiver: in every interleaving of calls of
    [Send], of the handlers and writes of the sender, of failures and shutdowns
    at either end, and however the bytes are cut on their way: no read faults;
    the receiver was handed the first messages that were sent, each once, in
    order and unchanged; and it has been handed all of them once all bytes that
    were asked for have arrived. *)
Theorem channel_delivers `{Protobuf} {S} (OnMessage : S → message → S) OnDisconnect limit f OnRead
    `{!FrameReader (Dispatch OnMessage) limit OnRead} st0 ch :
  0 < f < limit → rtc (channel_step OnDisconnect limit f OnRead) (channel_new st0) ch → open_ (rx ch).2 = true →
  (∀ data rest, drop (arrived ch) (wire (tx_half ch)) = data ++ rest → f + zlen data <= limit →
     ∃ r, conn_OnRead (Some OnRead) OnDisconnect false data (rx ch) = Done r) ∧
  ∃ n, (rx ch).1 = foldl OnMessage st0 (take n (messages ch)) ∧
    (arrived ch = length (concat (asked (tx_half ch))) → n = length (messages ch)).
Proof.
  intros Hf Hr Ho. pose proof (channel_reachable_ok OnMessage OnDisconnect limit f OnRead Hf st0 ch Hr) as Hok. split.
  - intros data rest Hd Hl. destruct (read_ok OnMessage OnDisconnect limit f OnRead Hf st0 ch data rest Hok Hd Hl Ho) as (r & ? & _). eauto.
  - destruct (channel_handled _ _ _ st0 ch Hok Ho) as (_ & n & Hn & Hst & Hall). exists n. split; [done|].
    intros Ha. specialize (Hall (length (messages ch)) (le_n _)). rewrite Ha in Hall.
    pose proof (concat_take_le (length (messages ch)) (asked (tx_half ch))). specialize (Hall ltac:(lia)). lia.
Qed.

(** C13: In a fair run of both ends without failures, in which messages may be sent
    at any time: every message that was sent is eventually handed to the receiver,
    after those sent before it. *)
Theorem channel_eventually_delivers `{Protobuf} {S} (OnMessage : S → message → S) OnDisconnect limit f OnRead
    `{!FrameReader (Dispatch OnMessage) limit OnRead} st0 run lab n :
  0 < f < limit → fair_channel OnDisconnect limit f OnRead st0 run lab →
  ∃ m k, (n <= m)%nat ∧ (length (messages (run n)) <= k)%nat ∧ messages (run n) `prefix_of` messages (run m) ∧
    (rx (run m)).1 = foldl OnMessage st0 (take k (messages (run m))).
Proof.
  intros Hf Hfair. pose proof (fair_tx OnMessage OnDisconnect limit f OnRead Hf st0 run lab Hfair) as Htx.
  destruct (send_eventually_written _ _ n Htx) as (m1 & Hm1 & Hw%prefix_length).
  destruct (eventually_arrives OnMessage OnDisconnect limit f OnRead Hf st0 run lab Hfair m1 _ Hw) as (m & Hm & Harr).
  destruct (fair_ok OnMessage OnDisconnect limit f OnRead Hf st0 run lab Hfair n) as [Hokn Hon].
  destruct (fair_ok OnMessage OnDisconnect limit f OnRead Hf st0 run lab Hfair m) as [Hokm Hom].
  destruct (channel_handled _ _ _ st0 _ Hokn Hon) as (Hlen & _).
  destruct (channel_handled _ _ _ st0 _ Hokm Hom) as (_ & k & _ & Hst & Hall).
  destruct (messages_grow _ _ _ _ st0 run lab Hfair n m) as [Hpre _]; [lia|].
  exists m, k. split; [lia|]. split; [|done]. apply Hall; [by apply prefix_length|].
  destruct (run_monotone _ _ Htx n m) as [_ [more Hmore]]; [lia|]. cbn in Hmore. by rewrite Hmore, <- Hlen, take_app_length.
Qed.

(** ** A run: a message reaches the proxy in two pieces *)

#[local] Existing Instance one_type.

Definition collect (st : list (list Z)) (m : list Z) : list (list Z) := st ++ [m].
Definition demo_reader := proxy_OnRead (Dispatch (H := one_type) collect).

Definition demo_frame : list Z := Eval vm_compute in match Encode (H := one_type) [1; 2; 3] with Done b => b | Fault _ => [] end.

Definition demo_tx (w : bool) (queue post : list (list Z)) (fl : option (list Z)) (out : list Z) : tx :=
  {| writting_msg_ := w; send_buf_ := queue; posted := post; inflight := fl; wire := out; asked := [demo_frame]; socket_open := true |}.

Definition demo_channel (t : tx) (st : list (list Z)) (rest : list Z) (k : nat) : channel :=
  {| tx_half := t; rx := (st, listening rest); arrived := k; messages := [[1; 2; 3]] |}.

Definition demo_states : list channel :=
  [channel_new [];
   demo_channel (demo_tx false [] [demo_frame] None []) [] [] 0;
   demo_channel (demo_tx true [demo_frame] [] (Some demo_frame) []) [] [] 0;
   demo_channel (demo_tx false [] [] None demo_frame) [] [] 0;
   demo_channel (demo_tx false [] [] None demo_frame) [] (take 5 demo_frame) 5].
Definition demo_last : channel := demo_channel (demo_tx false [] [] None demo_frame) [[1; 2; 3]] [] (length demo_frame).

Definition demo_labels : list channel_label := [ChSend (H := one_type) [1; 2; 3] [1; 2; 3]; ChTx LPost; ChTx LWritten; ChRead; ChRead].

Definition demo_run (n : nat) : channel := default demo_last (demo_states !! n).
Definition demo_lab (n : nat) : channel_label := default (ChTx LIdle) (demo_labels !! n).

Lemma demo_carried : carried (H := one_type) 100 [1; 2; 3] [1; 2; 3].
Proof. split; [apply one_type_serializes|]. split; [apply one_type_parses|]. vm_compute. done. Qed.

Notation demo_step := (channel_good (H := one_type) id MAX_RECV_BUF 100 demo_reader).

Lemma demo_good n : demo_step (demo_lab n) (demo_run n) (demo_run (S n)).
Proof.
  destruct n as [|[|[|[|[|n]]]]].
  - refine (good_message (H := one_type) id _ _ _ _ _ (tx_half (demo_run 1)) (demo_run 0) demo_carried _). by vm_compute.
  - refine (good_tx (H := one_type) id _ _ _ LPost (tx_half (demo_run 2)) (demo_run 1) _ _); [done|]. eapply good_post; by vm_compute.
  - refine (good_tx (H := one_type) id _ _ _ LWritten (tx_half (demo_run 3)) (demo_run 2) _ _); [done|]. eapply good_written; by vm_compute.
  - refine (good_read (H := one_type) id _ _ _ (take 5 demo_frame) (drop 5 demo_frame) (rx (demo_run 4)) (demo_run 3) _ _ _ _ _); by vm_compute.
  - refine (good_read (H := one_type) id _ _ _ (drop 5 demo_frame) [] (rx (demo_run 5)) (demo_run 4) _ _ _ _ _); by vm_compute.
  - refine (good_tx (H := one_type) id _ _ _ LIdle (tx_half demo_last) demo_last _ _); [done|constructor].
Qed.

Lemma demo_channel_fair : fair_channel (H := one_type) id MAX_RECV_BUF 100 demo_reader [] demo_run demo_lab.
Proof.
  split; [done|apply demo_good|..]; intros n Hp.
  - destruct (decide (n <= 1)%nat); [exists 1%nat; split; [lia|done]|]. do 5 (destruct n as [|n]; [by (lia || destruct Hp)|]). by destruct Hp.
  - destruct (decide (n <= 2)%nat); [exists 2%nat; split; [lia|done]|]. do 5 (destruct n as [|n]; [by (lia || destruct Hp)|]). by destruct Hp.
  - destruct (decide (n <= 4)%nat); [exists 4%nat; split; [lia|done]|]. do 5 (destruct n as [|n]; [by (lia || (vm_compute in Hp; lia))|]).
    change (demo_run _) with demo_last in Hp. vm_compute in Hp. lia.
Qed.

Lemma demo_reached n : rtc (channel_step (H := one_type) id MAX_RECV_BUF 100 demo_reader) (channel_new []) (demo_run n).
Proof.
  induction n as [|n IH]; [apply rtc_refl|]. destruct (good_step id MAX_RECV_BUF 100 demo_reader _ _ _ (demo_good n)) as [->|Hs]; [done|].
  by eapply rtc_r.
Qed.

Lemma channel_delivers_witness :
  (∀ data rest, drop 5 demo_frame = data ++ rest → 100 + zlen data <= MAX_RECV_BUF →
     ∃ r, conn_OnRead (Some demo_reader) id false data ([], listening (take 5 demo_frame)) = Done r) ∧
  ∃ n, [] = foldl collect [] (take n [[1; 2; 3]]) ∧ (5%nat = length (concat [demo_frame]) → n = 1%nat).
Proof. apply (channel_delivers (H := one_type) collect id MAX_RECV_BUF 100 demo_reader [] (demo_run 4)); [by vm_compute|apply demo_reached|reflexivity]. Defined.

Lemma channel_eventually_delivers_witness :
  ∃ m k, (1 <= m)%nat ∧ (1 <= k)%nat ∧ [[1; 2; 3]] `prefix_of` messages (demo_run m) ∧
    (rx (demo_run m)).1 = foldl collect [] (take k (messages (demo_run m))).
Proof. apply (channel_eventually_delivers (H := one_type) collect id MAX_RECV_BUF 100 demo_reader [] demo_run demo_lab 1); [by vm_compute|apply demo_channel_fair]. Defined.
