(* ===== verification/Client.v ===== *)
(** * Client: a connection that is opened from this side

    [TcpClient] (ServerLib/TcpClient.cpp): the connection of a service to the proxy.
    It is a [TcpConnection], with the sending half of Sender and the receiving half
    of Framing, that starts without a socket; [TcpClient_Connect] opens one, and
    [handle_connected] starts to read and calls [OnConnected] of the service
    (rpc_service.h), which sends the login.  A [session] is a client with the
    connection at the other end. *)

From S2P Require Import Prelude Codec Framing Sender Channel.
Local Open Scope Z_scope.

(** [async_connect]: not called, under way, or under way on a socket that was
    closed in the meantime. *)
Inductive attempt := NoAttempt | Connecting | Cancelled.

Section Client.
Context `{Protobuf} (login : message).
Context {U : Type} (own_OnRead : option (U → list Z → Z → outcome (U * Z * bool))) (own_OnDisconnect : U → U).

(** [half] is the sending half of the connection, [own] the state of its user with
    the receiving half. *)
Record TcpClient := { half : tx; own : U * connection; connected_ : bool; connecting : attempt }.

(** A socket that is not open. *)
Definition TcpClient_new (u : U) : TcpClient :=
  {| half := Shutdown tx_init; own := (u, {| recv_buf_ := []; open_ := false |}); connected_ := false; connecting := NoAttempt |}.

Definition Connected (c : TcpClient) : bool := connected_ c.

Definition set_half (t : tx) (c : TcpClient) : TcpClient :=
  {| half := t; own := own c; connected_ := connected_ c; connecting := connecting c |}.

(** [async_connect] closes the socket and opens it again for the attempt: there is
    no peer until it is [established]. *)
Definition TcpClient_Connect (c : TcpClient) : TcpClient :=
  {| half := Shutdown (half c); own := own c; connected_ := connected_ c; connecting := Connecting |}.

(** [TcpConnection::Recv]: the next read is started; what [recv_buf_] holds stays. *)
Definition Recv (c : TcpClient) : TcpClient :=
  {| half := half c; own := ((own c).1, {| recv_buf_ := recv_buf_ (own c).2; open_ := true |});
     connected_ := connected_ c; connecting := connecting c |}.

(** [RpcServiceProvider::OnConnected] *)
Definition provider_OnConnected (success : bool) (s : tx) : outcome tx :=
  if success then provider_Send login s else Done s.

(** The handler of [async_connect]; [e] is the error code. *)
Definition handle_connected (e : bool) (c : TcpClient) : outcome TcpClient :=
  let c := if e then c
           else Recv {| half := half c; own := own c; connected_ := true; connecting := connecting c |} in
  do! t <- provider_OnConnected (negb e) (half c);
  Done (set_half t c).

(** The socket has a peer, which was sent nothing so far. *)
Definition fresh_socket (t : tx) : tx :=
  {| writting_msg_ := writting_msg_ t; send_buf_ := send_buf_ t; posted := posted t; inflight := inflight t;
     wire := []; asked := asked t; socket_open := true |}.

Definition established (c : TcpClient) : TcpClient :=
  {| half := fresh_socket (half c); own := own c; connected_ := connected_ c; connecting := NoAttempt |}.

(** The attempt failed. *)
Definition refused (c : TcpClient) : TcpClient :=
  {| half := Shutdown (half c); own := own c; connected_ := connected_ c; connecting := NoAttempt |}.

(** The socket was closed, which ends an attempt that is under way. *)
Definition closed (t : tx) (c : TcpClient) : TcpClient :=
  {| half := t; own := own c; connected_ := connected_ c;
     connecting := match connecting c with Connecting => Cancelled | a => a end |}.

Definition set_own (o : U * connection) (c : TcpClient) : TcpClient :=
  {| half := half c; own := o; connected_ := connected_ c; connecting := connecting c |}.

(** ** A session *)

Context {S : Type} (OnMessage : S → message → S) (OnDisconnect : S → S).
Context (limit f : Z) (OnRead : S → list Z → Z → outcome (S * Z * bool)).

(** [peer] is the receiver at the other end, once there is one, [come] the number of
    bytes it has read, and [given] are the messages given to the client. *)
Record session := { client : TcpClient; peer : S * connection; come : nat; given : list message }.

Definition session_link (s : session) : channel :=
  {| tx_half := half (client s); rx := peer s; arrived := come s; messages := given s |}.

Definition session_new (u : U) (st : S) : session :=
  {| client := TcpClient_new u; peer := (st, {| recv_buf_ := []; open_ := false |}); come := 0; given := [] |}.

Definition put_client (c : TcpClient) (s : session) : session :=
  {| client := c; peer := peer s; come := come s; given := given s |}.

(** [may_call] and [may_connect] say when the user calls [Send] and [Connect]. *)
Context (may_call may_connect : TcpClient → Prop).

Inductive session_step : session → session → Prop :=
  | ss_connect s : may_connect (client s) → connecting (client s) = NoAttempt →
      session_step s (put_client (TcpClient_Connect (client s)) s)
  | ss_established c s : connecting (client s) = Connecting → handle_connected false (established (client s)) = Done c →
      session_step s {| client := c; peer := ((peer s).1, listening []); come := 0; given := given s ++ [login] |}
  | ss_refused c s : connecting (client s) ≠ NoAttempt → handle_connected true (refused (client s)) = Done c →
      session_step s (put_client c s)
  | ss_call m b t s : may_call (client s) → carried f m b → provider_Send m (half (client s)) = Done t →
      session_step s {| client := set_half t (client s); peer := peer s; come := come s; given := given s ++ [m] |}
  | ss_post b q t s : posted (half (client s)) = b :: q → RealSend b (set_posted q (half (client s))) = Done t →
      session_step s (put_client (set_half t (client s)) s)
  | ss_written data t s : inflight (half (client s)) = Some data → socket_open (half (client s)) = true →
      OnWrite false (written data (half (client s))) = Done t → session_step s (put_client (set_half t (client s)) s)
  | ss_failed data k t s : inflight (half (client s)) = Some data → (socket_open (half (client s)) = false → k = 0%nat) →
      OnWrite true (written (take k data) (half (client s))) = Done t → session_step s (put_client (closed t (client s)) s)
  | ss_shutdown s : session_step s (put_client (closed (Shutdown (half (client s))) (client s)) s)
  | ss_own data o s : open_ (own (client s)).2 = true → conn_OnRead own_OnRead own_OnDisconnect false data (own (client s)) = Done o →
      session_step s (put_client (set_own o (client s)) s)
  | ss_own_failed o s : open_ (own (client s)).2 = true → conn_OnRead own_OnRead own_OnDisconnect true [] (own (client s)) = Done o →
      session_step s (put_client (closed (Shutdown (half (client s))) (set_own o (client s))) s)
  | ss_arrive data rest r s : drop (come s) (wire (half (client s))) = data ++ rest → f + zlen data <= limit →
      open_ (peer s).2 = true → conn_OnRead (Some OnRead) OnDisconnect false data (peer s) = Done r →
      session_step s {| client := client s; peer := r; come := come s + length data; given := given s |}
  | ss_peer_failed r s : open_ (peer s).2 = true → conn_OnRead (Some OnRead) OnDisconnect true [] (peer s) = Done r →
      session_step s {| client := client s; peer := r; come := come s; given := given s |}.
End Client.

(** ** The first message

    Until the connection stands nothing is sent, and then it is not opened again. *)
Section FirstMessage.
Context `{Protobuf} (login : message) {U : Type} (own_OnRead : option (U → list Z → Z → outcome (U * Z * bool))) (own_OnDisconnect : U → U).
Context {S : Type} (OnMessage : S → message → S) (OnDisconnect : S → S).
Context (limit f : Z) (OnRead : S → list Z → Z → outcome (S * Z * bool)).
Context `{!FrameReader (Dispatch OnMessage) limit OnRead} (Hf : 0 < f < limit) (lb : list Z) (Hlogin : carried f login lb).

Notation step := (session_step login own_OnRead own_OnDisconnect OnDisconnect limit f OnRead (λ c, Connected c = true) (λ c, Connected c = false)).

Definition session_ok (st0 : S) (s : session (U := U) (S := S)) : Prop :=
  if Connected (client s)
  then connecting (client s) = NoAttempt ∧ channel_ok OnMessage OnDisconnect f st0 (session_link s) ∧ ∃ ms, given s = login :: ms
  else half (client s) = Shutdown tx_init ∧ peer s = (st0, {| recv_buf_ := []; open_ := false |}) ∧ given s = [].

Lemma handle_connected_established (c c' : TcpClient (U := U)) : handle_connected login false (established c) = Done c' →
  ∃ t, provider_Send login (fresh_socket (half c)) = Done t ∧
    c' = {| half := t; own := ((own c).1, {| recv_buf_ := recv_buf_ (own c).2; open_ := true |}); connected_ := true; connecting := NoAttempt |}.
Proof.
  unfold handle_connected. cbn. intros Hh. destruct (provider_Send login (fresh_socket (half c))) as [t|]; [|done]. injection Hh as <-. by exists t.
Qed.

(** Once the connection stands the session is the channel. *)
Lemma standing_step s s' : step s s' → Connected (client s) = true → connecting (client s) = NoAttempt →
  Connected (client s') = true ∧ connecting (client s') = NoAttempt ∧ (session_link s' = session_link s ∨ channel_step OnDisconnect limit f OnRead (session_link s) (session_link s')) ∧
  given s `prefix_of` given s'.
Proof using.
  intros [s0 Hm Hc|c s0 Hc Hh|c s0 Hc Hh|m b t s0 Hm Hc Hs|b q t s0 Hp Hr|data t s0 Hi Ho Hr|data k t s0 Hi Hk Hr|s0|data o s0 Ho Hr|o s0 Ho Hr|data rest r s0 Hd Hl Ho Hr|r s0 Ho Hr] Hcon Hatt;
    try congruence; cbn; unfold closed, set_half, set_own, Connected in *; cbn; rewrite ?Hatt; (split; [done|]; split; [done|]; split; [|by try apply prefix_app_r]).
  - right. by eapply (ch_send _ _ _ _ m b t (session_link s0)).
  - right. apply (ch_tx _ _ _ _ t (session_link s0)). by eapply step_post.
  - right. apply (ch_tx _ _ _ _ t (session_link s0)). by eapply step_written.
  - right. apply (ch_tx _ _ _ _ t (session_link s0)). by eapply step_failed.
  - right. apply (ch_tx _ _ _ _ (Shutdown (half (client s0))) (session_link s0)). apply step_shutdown.
  - by left.
  - right. apply (ch_tx _ _ _ _ (Shutdown (half (client s0))) (session_link s0)). apply step_shutdown.
  - right. by eapply (ch_read _ _ _ _ data rest r (session_link s0)).
  - right. by eapply (ch_closed _ _ _ _ r (session_link s0)).
Qed.

Lemma session_step_ok st0 s s' : step s s' → session_ok st0 s → session_ok st0 s'.
Proof using Hf Hlogin FrameReader0.
  intros Hs Hok. unfold session_ok in Hok. destruct (Connected (client s)) eqn:Hcon.
  - destruct Hok as (Hatt & Hch & ms & Hms). destruct (standing_step s s' Hs Hcon Hatt) as (Hcon' & Hatt' & Hlink & [more Hmore]).
    unfold session_ok. rewrite Hcon'. split; [done|]. split; [|exists (ms ++ more); by rewrite Hmore, Hms].
    destruct Hlink as [->|Hlink]; [done|]. by eapply (channel_step_ok OnMessage OnDisconnect limit f OnRead).
  - destruct Hok as (Hh & Hp & Hg). unfold session_ok.
    destruct Hs as [s0 Hm Hc|c s0 Hc Hhc|c s0 Hc Hhc|m b t s0 Hm Hc Hse|b q t s0 Hpo Hr|data t s0 Hi Ho Hr|data k t s0 Hi Hk Hr|s0|data o s0 Ho Hr|o s0 Ho Hr|data rest r s0 Hd Hl Ho Hr|r s0 Ho Hr];
      unfold Connected in *; cbn in *; rewrite ?Hcon, ?Hh, ?Hp in *; try done.
    + apply handle_connected_established in Hhc as (t & Ht & ->). rewrite Hh in Ht. cbn. split; [done|]. rewrite Hg. split; [|by exists []].
      apply (channel_step_ok OnMessage OnDisconnect limit f OnRead Hf st0 (channel_new st0)); [|apply channel_new_ok].
      by eapply (ch_send _ _ _ _ login lb t (channel_new st0)).
    + injection Hhc as <-. cbn. by rewrite Hcon, ?Hh.
Qed.
End FirstMessage.

(** ** Buffers that were left over

    A write that fails leaves its buffer at the head of [send_buf_], and so does
    every buffer that was waiting for it.  When a connection is opened after that,
    [RealSend] writes the buffer it is given, and [OnWrite] drops the oldest one:
    the queue is behind by what was left over. *)
Section Leftover.
Context (old : list Z) (older : list (list Z)) (before : list (list Z)).

(** What the peer is sent when [new] are the buffers given to [Send] since then. *)
Definition shifted (new : list (list Z)) : list (list Z) :=
  match new with [] => [] | b :: _ => b :: older ++ new end.

Notation nonempty := (λ b : list Z, b ≠ []).

Definition leftover_ok (t : tx) : Prop :=
  ∃ new, asked t = before ++ new ∧ Forall nonempty (send_buf_ t ++ posted t) ∧
    writting_msg_ t = bool_decide (is_Some (inflight t)) ∧
    if socket_open t
    then (new = posted t ∧ send_buf_ t = old :: older ∧ wire t = [] ∧ inflight t = None) ∨
         ∃ sent, new ≠ [] ∧ shifted new = sent ++ option_list (inflight t) ++ tail (send_buf_ t) ++ posted t ∧
           wire t = concat sent ∧ (inflight t = None ↔ send_buf_ t = [])
    else ∃ fut, concat (shifted new) = wire t ++ fut.

Lemma shifted_snoc new b : new ≠ [] → shifted (new ++ [b]) = shifted new ++ [b].
Proof. destruct new as [|c new]; [done|]. intros _. cbn. by rewrite <- app_assoc. Qed.

Lemma shifted_grows new b w fut : concat (shifted new) = w ++ fut → ∃ fut', concat (shifted (new ++ [b])) = w ++ fut'.
Proof.
  intros Hw. destruct (decide (new = [])) as [->|Hn].
  - symmetry in Hw. apply app_eq_nil in Hw as [-> _]. by eexists.
  - rewrite shifted_snoc, concat_app, Hw by done. rewrite <- app_assoc. by eexists.
Qed.

Lemma leftover_future t : leftover_ok t → ∃ new fut, asked t = before ++ new ∧ concat (shifted new) = wire t ++ fut.
Proof.
  intros (new & Ha & _ & _ & Ho). exists new. destruct (socket_open t).
  - destruct Ho as [(-> & _ & -> & _)|(sent & _ & -> & -> & _)]; [by eexists|]. rewrite concat_app. by eexists.
  - destruct Ho as [fut ?]. by exists fut.
Qed.

Lemma leftover_shutdown t : leftover_ok t → leftover_ok (Shutdown t).
Proof.
  intros Hok. destruct (leftover_future t Hok) as (new & fut & Ha & Hw). destruct Hok as (new' & Ha' & Hn & Hwr & _).
  exists new. split_and!; [done..|]. cbn. by exists fut.
Qed.

Lemma leftover_send b t : b ≠ [] → leftover_ok t → leftover_ok (Send b t).
Proof.
  intros Hb (new & Ha & Hn & Hwr & Ho). exists (new ++ [b]). split_and!; cbn.
  - by rewrite Ha, app_assoc.
  - rewrite app_assoc. apply Forall_app. by repeat constructor.
  - done.
  - destruct (socket_open t).
    + destruct Ho as [(-> & Hs & Hw & Hi)|(sent & Hne & He & Hw & Hi)]; [left; done|right]. exists sent. split_and!; [by destruct new| |done..].
      rewrite shifted_snoc, He, <- !app_assoc by done. done.
    + destruct Ho as [fut Hw]. by eapply shifted_grows.
Qed.

Lemma leftover_post b q t t' : leftover_ok t → posted t = b :: q → RealSend b (set_posted q t) = Done t' → leftover_ok t'.
Proof.
  intros (new & Ha & Hn & Hwr & Ho) Hp Hr. rewrite Hp in Hn. pose proof (RealSend_frame _ _ _ _ Hr) as (Hs' & Hp' & Ha' & Ho').
  assert (b ≠ []) as Hb by (apply Forall_app in Hn as [_ Hn]; by apply Forall_cons in Hn as [? _]).
  exists new. rewrite Ha', Hs', Hp', Ho'. split; [done|]. split; [by rewrite <- app_assoc|].
  unfold RealSend in Hr. cbn in Hr. destruct (writting_msg_ t) eqn:Hm; symmetry in Hwr.
  - injection Hr as <-. cbn. split; [by rewrite Hm|]. apply bool_decide_eq_true in Hwr as [d Hd]. destruct (socket_open t); [|done].
    destruct Ho as [(_ & _ & _ & Hi)|(sent & Hne & He & Hw & Hi)]; [congruence|]. right. exists sent. split; [done|].
    destruct (send_buf_ t) as [|x tl] eqn:Es; [by rewrite (proj2 Hi) in Hd|]. split; [|split; [done|by rewrite Hd]].
    rewrite He, Hd, Hp. cbn. by rewrite <- app_assoc.
  - apply bool_decide_eq_false in Hwr. apply eq_None_not_Some in Hwr. rewrite Socket_Send_nonempty in Hr by done. injection Hr as <-. cbn.
    split; [done|]. destruct (socket_open t); [|done]. right. destruct Ho as [(-> & Hs & Hw & _)|(sent & Hne & He & Hw & Hi)].
    + exists []. rewrite Hs, Hp. cbn. split_and!; [done| |done|done]. by rewrite <- app_assoc.
    + exists sent. rewrite (proj1 Hi Hwr) in *. split_and!; [done| |done|done]. by rewrite He, Hwr, Hp.
Qed.

Lemma leftover_written data t t' : leftover_ok t → inflight t = Some data → socket_open t = true →
  OnWrite false (written data t) = Done t' → leftover_ok t'.
Proof.
  intros (new & Ha & Hn & Hwr & Ho) Hi Hopen Hr. rewrite Hopen in Ho. destruct Ho as [(_ & _ & _ & ?)|(sent & Hne & He & Hw & Hiff)]; [congruence|].
  rewrite Hi in He. unfold OnWrite in Hr. cbn in Hr. destruct (send_buf_ t) as [|x tl]; [done|]. cbn in He.
  apply Forall_cons in Hn as [_ Hn]. exists new. destruct tl as [|y tl].
  - injection Hr as <-. cbn. split_and!; [done..|]. rewrite Hopen. right. exists (sent ++ [data]). split_and!; [done| | |done].
    + by rewrite He, <- app_assoc.
    + rewrite Hw, concat_app. cbn. by rewrite app_nil_r.
  - apply Forall_cons in Hn as [Hy Hn]. rewrite Socket_Send_nonempty in Hr by done. injection Hr as <-. cbn.
    split_and!; [done|by constructor|done|]. rewrite Hopen. right. exists (sent ++ [data]). split_and!; [done| | |done].
    + by rewrite He, <- app_assoc.
    + rewrite Hw, concat_app. cbn. by rewrite app_nil_r.
Qed.

Lemma leftover_failed data k t t' : leftover_ok t → inflight t = Some data → (socket_open t = false → k = 0%nat) →
  OnWrite true (written (take k data) t) = Done t' → leftover_ok t'.
Proof.
  intros (new & Ha & Hn & Hwr & Ho) Hi Hk Hr. injection Hr as <-. exists new. split_and!; [done..|]. cbn. destruct (socket_open t).
  - destruct Ho as [(_ & _ & _ & ?)|(sent & Hne & He & Hw & _)]; [congruence|]. rewrite He, Hi, Hw, !concat_app. cbn.
    exists (drop k data ++ concat (tail (send_buf_ t)) ++ concat (posted t)). by rewrite <- (take_drop k data) at 1; rewrite <- !app_assoc.
  - destruct Ho as [fut Hw]. rewrite (Hk eq_refl). cbn. rewrite app_nil_r. by exists fut.
Qed.

Lemma leftover_step t t' : tx_step nonempty t t' → leftover_ok t → leftover_ok t'.
Proof.
  intros [b s0 Hb|b q s0 s1 Hp Hr|d s0 s1 Hi Ho Hr|d k s0 s1 Hi Hk Hr|s0] Hok;
    eauto using leftover_send, leftover_post, leftover_written, leftover_failed, leftover_shutdown.
Qed.

Lemma leftover_steps t t' : rtc (tx_step nonempty) t t' → leftover_ok t → leftover_ok t'.
Proof. induction 1; eauto using leftover_step. Qed.
End Leftover.

(** ** The properties *)

(** C14: A client that is used the way its service means it, with nothing sent before
    the connection stands and no second [Connect] then: however often the attempts
    to connect fail before, and whatever fails afterwards, the first message that
    the other end is handed is the login, followed by the messages given to the
    client in their order, each once; and it was handed all of them once every
    byte has arrived. *)
Theorem login_first `{Protobuf} login {U S} own_OnRead (own_OnDisconnect : U → U) (OnMessage : S → message → S) OnDisconnect limit f OnRead
    `{!FrameReader (Dispatch OnMessage) limit OnRead} lb u st0 s :
  0 < f < limit → carried f login lb →
  rtc (session_step login own_OnRead own_OnDisconnect OnDisconnect limit f OnRead (λ c, Connected c = true) (λ c, Connected c = false))
    (session_new u st0) s → open_ (peer s).2 = true →
  ∃ n ms, given s = login :: ms ∧ (peer s).1 = foldl OnMessage st0 (take n (given s)) ∧
    (come s = length (concat (asked (half (client s)))) → n = length (given s)).
Proof.
  intros Hf Hl Hr Ho. assert (session_ok login OnMessage OnDisconnect f st0 s) as Hok.
  { assert (session_ok login OnMessage OnDisconnect f st0 (session_new u st0)) as H0 by done. revert H0.
    clear Ho. induction Hr as [|s1 s2 s3 Hs _ IH]; eauto using session_step_ok. }
  unfold session_ok in Hok. destruct (Connected (client s)); [|destruct Hok as (_ & Hp & _); by rewrite Hp in Ho].
  destruct Hok as (_ & Hch & ms & Hms). destruct (channel_handled _ _ _ st0 (session_link s) Hch Ho) as (_ & n & Hn & Hst & Hall).
  exists n, ms. split; [done|]. split; [done|]. intros Hc. specialize (Hall (length (given s)) (le_n _)). cbn in Hall, Hn. rewrite Hc in Hall.
  pose proof (concat_take_le (length (given s)) (asked (half (client s)))). specialize (Hall ltac:(lia)). lia.
Qed.

(** C15: When a client connects while its queue holds buffers of writes that failed,
    because a message was sent before the connection stood or because an earlier
    connection was lost: the oldest of them is never sent, the login is sent twice,
    before the others and after them, and then what was given to [Send] since. *)
Theorem leftover_repeats_login `{Protobuf} login {U} (c c' : TcpClient (U := U)) old older first t :
  Encode login = Done first → first ≠ [] → Forall (λ b : list Z, b ≠ []) (old :: older) →
  send_buf_ (half c) = old :: older → writting_msg_ (half c) = false → inflight (half c) = None → posted (half c) = [] →
  handle_connected login false (established c) = Done c' → rtc (tx_step (λ b, b ≠ [])) (half c') t →
  ∃ later, asked t = asked (half c) ++ first :: later ∧
    wire t `prefix_of` concat (first :: older ++ first :: later) ∧
    (socket_open t = true → posted t = [] → inflight t = None → wire t = concat (first :: older ++ first :: later)).
Proof.
  intros He Hne Hold Hs Hw Hi Hp Hh Hr. apply handle_connected_established in Hh as (t0 & Ht0 & ->). cbn in Hr.
  unfold provider_Send in Ht0. rewrite He in Ht0. cbn [obind] in Ht0. rewrite (proj2 (Nat.eqb_neq _ _)) in Ht0 by (by destruct first). injection Ht0 as <-.
  assert (leftover_ok old older (asked (half c)) (Send first (fresh_socket (half c)))) as Hok.
  { apply leftover_send; [done|]. exists []. cbn. rewrite Hs, Hw, Hi, Hp, !app_nil_r. split_and!; [done..|]. by left. }
  apply (leftover_steps _ _ _ _ t Hr) in Hok.
  assert (∃ later, asked t = asked (half c) ++ first :: later) as [later Hl].
  { clear Hok. remember (Send first (fresh_socket (half c))) as t1 eqn:E1.
    assert (∃ later, asked t1 = asked (half c) ++ first :: later) as H1 by (subst t1; by exists []). clear E1. revert H1.
    induction Hr as [|x y z Hxy _ IH]; [done|]. intros [later Hl]. apply IH. destruct Hxy as [b s0 Hb|b q s0 s1 Hpo Hr|d s0 s1 Hin Ho Hr|d k s0 s1 Hin Hk Hr|s0].
    - exists (later ++ [b]). cbn. by rewrite Hl, <- app_assoc.
    - apply RealSend_frame in Hr as (_ & _ & -> & _). by exists later.
    - apply OnWrite_frame in Hr as (_ & _ & _ & -> & _). by exists later.
    - injection Hr as <-. by exists later.
    - by exists later. }
  exists later. split; [done|]. split.
  - destruct (leftover_future _ _ _ t Hok) as (new & fut & Ha & Hwire). rewrite Hl in Ha. apply app_inv_head in Ha as <-. by exists fut.
  - intros Hopen Hpo Hin. destruct Hok as (new & Ha & _ & _ & Ho). rewrite Hl in Ha. apply app_inv_head in Ha as <-. rewrite Hopen in Ho.
    destruct Ho as [(Hx & _)|(sent & _ & Hsh & Hwi & Hiff)]; [congruence|]. rewrite (proj1 Hiff Hin), Hin, Hpo in Hsh. cbn in Hsh. rewrite app_nil_r in Hsh. by rewrite Hwi, <- Hsh.
Qed.

(** ** Two sessions with the proxy *)

#[local] Existing Instance one_type.

Notation collect := (λ (st : list (list Z)) (m : list Z), st ++ [m]).
Notation demo_step P Q := (session_step (H := one_type) [7; 7; 7] (@None (unit → list Z → Z → outcome (unit * Z * bool))) id id MAX_RECV_BUF 100
  (proxy_OnRead (Channel.Dispatch (H := one_type) collect)) P Q).

Definition frame_of (m : list Z) : list Z := match Encode (H := one_type) m with Done b => b | Fault _ => [] end.

Definition demo_half (w : bool) (queue post : list (list Z)) (fl : option (list Z)) (out : list Z) (all : list (list Z)) : tx :=
  {| writting_msg_ := w; send_buf_ := queue; posted := post; inflight := fl; wire := out; asked := all; socket_open := true |}.

Definition demo_client (t : tx) : TcpClient (U := unit) :=
  {| half := t; own := (tt, {| recv_buf_ := []; open_ := true |}); connected_ := true; connecting := NoAttempt |}.

Definition demo_session (t : tx) (st : list (list Z)) (k : nat) (ms : list (list Z)) : session (H := one_type) (U := unit) (S := list (list Z)) :=
  {| client := demo_client t; peer := (st, listening []); come := k; given := ms |}.

Lemma demo_login_carried : carried (H := one_type) 100 [7; 7; 7] [7; 7; 7].
Proof. split; [apply one_type_serializes|]. split; [apply one_type_parses|]. vm_compute. done. Qed.

(** The login is written and arrives. *)
Definition logged_in : session := demo_session (demo_half false [] [] None (frame_of [7; 7; 7]) [frame_of [7; 7; 7]]) [[7; 7; 7]] (length (frame_of [7; 7; 7])) [[7; 7; 7]].

Lemma logged_in_reached : rtc (demo_step (λ c, Connected c = true) (λ c, Connected c = false)) (session_new tt []) logged_in.
Proof.
  eapply rtc_l; [by apply ss_connect|]. eapply rtc_l; [by eapply ss_established; vm_compute|].
  eapply rtc_l; [by eapply ss_post; vm_compute|]. eapply rtc_l; [by eapply ss_written; vm_compute|].
  eapply rtc_l; [by eapply (ss_arrive _ _ _ _ _ _ _ _ _ (frame_of [7; 7; 7]) []); vm_compute|]. apply rtc_refl.
Qed.

Lemma login_first_witness : ∃ n ms, [[7; 7; 7]] = [7; 7; 7] :: ms ∧ [[7; 7; 7]] = foldl collect [] (take n [[7; 7; 7]]) ∧
  (length (frame_of [7; 7; 7]) = length (concat [frame_of [7; 7; 7]]) → n = 1%nat).
Proof.
  apply (login_first (H := one_type) [7; 7; 7] None id collect id MAX_RECV_BUF 100 (proxy_OnRead (Channel.Dispatch (H := one_type) collect)) [7; 7; 7] tt [] logged_in);
    [by vm_compute|apply demo_login_carried|apply logged_in_reached|reflexivity].
Defined.

(** A message is sent first and the client connects then: the proxy gets the login
    twice and never the message. *)
Definition early : session := demo_session
  (demo_half false [] [] None (frame_of [7; 7; 7] ++ frame_of [7; 7; 7]) [frame_of [1; 2; 3]; frame_of [7; 7; 7]])
  [[7; 7; 7]; [7; 7; 7]] (length (frame_of [7; 7; 7] ++ frame_of [7; 7; 7])) [[1; 2; 3]; [7; 7; 7]].

Lemma early_message_lost : rtc (demo_step (λ _, True) (λ _, True)) (session_new tt []) early.
Proof.
  eapply rtc_l; [eapply (ss_call (H := one_type) _ _ _ _ _ _ _ _ _ [1; 2; 3] [1; 2; 3]); [done|apply demo_carried|by vm_compute]|].
  eapply rtc_l; [by eapply ss_post; vm_compute|]. eapply rtc_l; [by eapply (ss_failed _ _ _ _ _ _ _ _ _ _ 0); vm_compute|].
  eapply rtc_l; [by apply ss_connect|]. eapply rtc_l; [by eapply ss_established; vm_compute|].
  eapply rtc_l; [by eapply ss_post; vm_compute|]. do 2 (eapply rtc_l; [by eapply ss_written; vm_compute|]).
  eapply rtc_l; [by eapply (ss_arrive _ _ _ _ _ _ _ _ _ (frame_of [7; 7; 7] ++ frame_of [7; 7; 7]) []); vm_compute|]. apply rtc_refl.
Qed.

(** The same client when its queue holds the message. *)
Definition failed_once : TcpClient (U := unit) :=
  {| half := {| writting_msg_ := false; send_buf_ := [frame_of [1; 2; 3]]; posted := []; inflight := None; wire := []; asked := [frame_of [1; 2; 3]]; socket_open := false |};
     own := (tt, {| recv_buf_ := []; open_ := false |}); connected_ := false; connecting := Connecting |}.

Lemma leftover_repeats_login_witness : ∃ later,
  [frame_of [1; 2; 3]; frame_of [7; 7; 7]] = [frame_of [1; 2; 3]] ++ frame_of [7; 7; 7] :: later ∧
  (frame_of [7; 7; 7] ++ frame_of [7; 7; 7]) `prefix_of` concat (frame_of [7; 7; 7] :: [] ++ frame_of [7; 7; 7] :: later) ∧
  (true = true → @nil (list Z) = [] → @None (list Z) = None →
   frame_of [7; 7; 7] ++ frame_of [7; 7; 7] = concat (frame_of [7; 7; 7] :: [] ++ frame_of [7; 7; 7] :: later)).
Proof.
  apply (leftover_repeats_login (H := one_type) [7; 7; 7] failed_once
           (demo_client (demo_half false [frame_of [1; 2; 3]] [frame_of [7; 7; 7]] None [] [frame_of [1; 2; 3]; frame_of [7; 7; 7]]))
           (frame_of [1; 2; 3]) [] (frame_of [7; 7; 7]) (half (client early))).
  - by vm_compute.
  - done.
  - by repeat constructor.
  - done.
  - done.
  - done.
  - done.
  - by vm_compute.
  - eapply rtc_l; [by eapply step_post; vm_compute|]. do 2 (eapply rtc_l; [by eapply step_written; vm_compute|]). apply rtc_refl.
Defined.
