(* ===== verification/IndexMgr.v ===== *)
(** * IndexMgr: the numbers of connections

    [IndexMgr<uint32>] (ServerLib/IndexMgr.h) hands out the numbers
    [TcpServer::StartAccept] gives to connections and takes back those of
    [TcpServer::ConnectionDown].  [GetId] is a loop over 32-bit numbers that
    wrap around; it stops because fewer numbers than 2^32 are in use. *)

From S2P Require Import Prelude.
Local Open Scope Z_scope.

Record IndexMgr := { id_ : Z; id_set_ : gset Z }.

Definition IndexMgr_new : IndexMgr := {| id_ := 0; id_set_ := ∅ |}.

Definition IdExist (m : IndexMgr) (id : Z) : bool := bool_decide (id ∈ id_set_ m).

(** [while (IdExist(id_)) id_++;] *)
Fixpoint skip_used (fuel : nat) (m : IndexMgr) : outcome IndexMgr :=
  match fuel with
  | O => Fault OutOfFuel
  | S fuel' =>
      if IdExist m (id_ m)
      then skip_used fuel' {| id_ := u32 (id_ m + 1); id_set_ := id_set_ m |}
      else Done m
  end.

(** One more round than numbers in use is enough. *)
Definition GetId (m : IndexMgr) : outcome (Z * IndexMgr) :=
  do! m <- skip_used (S (size (id_set_ m))) m;
  Done (id_ m, {| id_ := u32 (id_ m + 1); id_set_ := {[id_ m]} ∪ id_set_ m |}).

Definition PutId (id : Z) (m : IndexMgr) : IndexMgr :=
  if bool_decide (id ∈ id_set_ m)
  then {| id_ := id_ m; id_set_ := id_set_ m ∖ {[id]} |}
  else m.

(** The server's connections: those accepted and not yet down. *)
Record TcpServer := { conn_id_mgr_ : IndexMgr; live : list Z }.

Definition StartAccept (s : TcpServer) : outcome TcpServer :=
  do! (id, m) <- GetId (conn_id_mgr_ s);
  Done {| conn_id_mgr_ := m; live := id :: live s |}.

Definition ConnectionDown (id : Z) (s : TcpServer) : TcpServer :=
  {| conn_id_mgr_ := PutId id (conn_id_mgr_ s); live := filter (λ i, i ≠ id) (live s) |}.

(** ** The loop of [GetId] stops *)

Lemma u32_consecutive id j k :
  0 <= j < 2 ^ 32 → 0 <= k < 2 ^ 32 → u32 (id + j) = u32 (id + k) → j = k.
Proof. unfold u32. intros Hj Hk He. Z.div_mod_to_equations. lia. Qed.

Lemma consecutive_NoDup id n :
  Z.of_nat n <= 2 ^ 32 → NoDup ((λ k, u32 (id + Z.of_nat k)) <$> seq 0 n).
Proof.
  intros Hn. apply NoDup_fmap_2_strong; [|apply NoDup_seq].
  intros j k Hj Hk He. apply elem_of_seq in Hj, Hk.
  apply u32_consecutive in He; lia.
Qed.

(** Among [size X + 1] consecutive numbers one is not in [X]. *)
Lemma free_number (X : gset Z) id :
  Z.of_nat (size X) < 2 ^ 32 → ∃ k, (k <= size X)%nat ∧ u32 (id + Z.of_nat k) ∉ X.
Proof.
  intros HX. set (l := (λ k, u32 (id + Z.of_nat k)) <$> seq 0 (S (size X))).
  destruct (decide (Exists (λ z, z ∉ X) l)) as [He|Hne].
  - apply Exists_exists in He as (z & Hz & Hn). apply list_elem_of_fmap in Hz as (k & -> & Hk).
    apply elem_of_seq in Hk. exists k. split; [lia|done].
  - exfalso. assert (list_to_set l ⊆ X) as Hsub.
    { intros z Hz. apply elem_of_list_to_set in Hz.
      destruct (decide (z ∈ X)) as [|Hn]; [done|]. destruct Hne. apply Exists_exists. eauto. }
    apply subseteq_size in Hsub. rewrite size_list_to_set in Hsub by (apply consecutive_NoDup; lia).
    unfold l in Hsub. rewrite length_fmap, length_seq in Hsub. lia.
Qed.

Lemma skip_used_stops k fuel m :
  (k < fuel)%nat → is_u32 (id_ m) → u32 (id_ m + Z.of_nat k) ∉ id_set_ m →
  ∃ i, skip_used fuel m = Done {| id_ := i; id_set_ := id_set_ m |} ∧ is_u32 i ∧ i ∉ id_set_ m.
Proof.
  revert fuel m. induction k as [|k IH]; intros fuel [id X] Hf Hr Hfree; (destruct fuel as [|fuel]; [lia|]);
    cbn [skip_used id_ id_set_] in *; unfold IdExist; cbn [id_set_]; (case_bool_decide as Hin; [|by exists id]).
  - destruct Hfree. by rewrite Z.add_0_r, u32_id.
  - destruct (IH fuel {| id_ := u32 (id + 1); id_set_ := X |}) as (i & Hi & Hr' & Hn); [lia|apply u32_range| |eauto].
    cbn [id_ id_set_]. replace (u32 (u32 (id + 1) + Z.of_nat k)) with (u32 (id + Z.of_nat (S k))); [done|].
    unfold u32. Z.div_mod_to_equations. lia.
Qed.

Lemma GetId_spec m :
  is_u32 (id_ m) → Z.of_nat (size (id_set_ m)) < 2 ^ 32 →
  ∃ i, GetId m = Done (i, {| id_ := u32 (i + 1); id_set_ := {[i]} ∪ id_set_ m |}) ∧
       is_u32 i ∧ i ∉ id_set_ m.
Proof.
  intros Hr Hs. destruct (free_number (id_set_ m) (id_ m) Hs) as (k & Hk & Hfree).
  destruct (skip_used_stops k (S (size (id_set_ m))) m) as (i & Hi & Hr' & Hn); [lia|done..|].
  exists i. unfold GetId. rewrite Hi. done.
Qed.

(** ** Connections *)

Inductive server_step : TcpServer → TcpServer → Prop :=
  | step_accept s s' :
      Z.of_nat (length (live s)) < 2 ^ 32 → StartAccept s = Done s' → server_step s s'
  | step_down id s : server_step s (ConnectionDown id s).

Definition server_init : TcpServer := {| conn_id_mgr_ := IndexMgr_new; live := [] |}.

Definition server_ok (s : TcpServer) : Prop :=
  NoDup (live s) ∧ Forall is_u32 (live s) ∧ is_u32 (id_ (conn_id_mgr_ s)) ∧
  id_set_ (conn_id_mgr_ s) = list_to_set (live s).

Lemma StartAccept_ok s :
  server_ok s → Z.of_nat (length (live s)) < 2 ^ 32 →
  ∃ id s', StartAccept s = Done s' ∧ live s' = id :: live s ∧ id ∉ live s ∧ server_ok s'.
Proof.
  intros (Hnd & Hu & Hr & Hset) Hl.
  destruct (GetId_spec (conn_id_mgr_ s)) as (i & Hi & Hri & Hn); [done| |].
  { rewrite Hset, size_list_to_set by done. done. }
  assert (i ∉ live s) as Hfresh by (rewrite Hset, elem_of_list_to_set in Hn; done).
  unfold StartAccept. rewrite Hi. exists i. eexists. split; [done|]. split_and!; [done|done|].
  split_and!; cbn [live conn_id_mgr_ id_ id_set_];
    [by constructor|by constructor|apply u32_range|by rewrite Hset].
Qed.

Lemma ConnectionDown_ok id s : server_ok s → server_ok (ConnectionDown id s).
Proof.
  intros (Hnd & Hu & Hr & Hset). unfold ConnectionDown, PutId. split_and!; cbn [live].
  - by apply NoDup_filter.
  - apply Forall_forall. intros i Hi. apply list_elem_of_filter in Hi as [_ Hi].
    by eapply Forall_forall in Hu.
  - by case_bool_decide.
  - case_bool_decide as Hin; cbn [conn_id_mgr_ id_set_]; rewrite Hset in *; apply set_eq; intros i;
      rewrite ?elem_of_difference, !elem_of_list_to_set, list_elem_of_filter, ?elem_of_singleton.
    + tauto.
    + rewrite elem_of_list_to_set in Hin. split; [|tauto]. intros Hi. split; [|done]. by intros ->.
Qed.

(** In every sequence of accepted and dropped connections with fewer than
    2^32 connections at a time, also after the counter has wrapped around:
    [GetId] comes to an end, the number of the new connection is none of those
    in use, and the connections alive have different numbers. *)
Theorem connection_ids_distinct s :
  rtc server_step server_init s →
  NoDup (live s) ∧
  (Z.of_nat (length (live s)) < 2 ^ 32 →
   ∃ id s', StartAccept s = Done s' ∧ live s' = id :: live s ∧ id ∉ live s).
Proof.
  intros Hr. assert (server_ok s) as Hok.
  { assert (server_ok server_init) as H0 by (split_and!; [constructor|constructor|done|done]).
    revert H0. induction Hr as [x|x y z Hxy _ IH]; [done|]. intros Hx. apply IH.
    destruct Hxy as [x y Hl Ha|id x]; [|by apply ConnectionDown_ok].
    destruct (StartAccept_ok x Hx Hl) as (? & ? & ? & _ & _ & ?). congruence. }
  split; [apply Hok|]. intros Hl. destruct (StartAccept_ok s Hok Hl) as (i & s' & ? & ? & ? & _). eauto.
Qed.

Lemma connection_ids_distinct_witness :
  let s := {| conn_id_mgr_ := {| id_ := 2; id_set_ := {[1]} |}; live := [1] |} in
  NoDup (live s) ∧
  (Z.of_nat (length (live s)) < 2 ^ 32 →
   ∃ id s', StartAccept s = Done s' ∧ live s' = id :: live s ∧ id ∉ live s).
Proof.
  intros s. apply (connection_ids_distinct s).
  eapply rtc_l; [eapply step_accept; [reflexivity|reflexivity]|].
  eapply rtc_l; [eapply step_accept; [reflexivity|reflexivity]|].
  eapply rtc_l; [apply (step_down 0)|]. apply rtc_refl.
Defined.
