(* ===== verification/Sessions.v ===== *)
(** * Sessions: the connections a server knows

    The round-robin pool of io_services (ServerLib/io_service_pool.cpp), the two
    tables of connections by number, [SessionMgr] (ServerLib/SessionMgr.cpp) and
    [GateUserManager] (Gateway/GateUserMgr.cpp, GateUser.cpp), and the server
    that fills them: [TcpServer::StartAccept] with its [handle_accept],
    [OnAccept] and [OnDisconnect] of Gateway.cpp and IoDispatcher.cpp, and
    [TcpConnection::OnDisconnect], which the code calls for every failed read or
    write and which may thus run more than once for one connection.

    [ConnTable] is what the server needs of a table; both tables implement it,
    and the theorems on the server hold for either. *)

From S2P Require Import Prelude IndexMgr.
Local Open Scope Z_scope.

(** ** The pool *)

(** The services are numbered; [next_io_service_] is an index into them. *)
Record io_service_pool := { io_services_ : list nat; next_io_service_ : nat }.

Definition io_service_pool_new (pool_size : nat) : outcome io_service_pool :=
  if (pool_size =? 0)%nat then Fault AssertFailed
  else Done {| io_services_ := seq 0 pool_size; next_io_service_ := 0 |}.

Definition get_io_service (p : io_service_pool) : outcome (nat * io_service_pool) :=
  match io_services_ p !! next_io_service_ p with
  | None => Fault OutOfBounds
  | Some io_service =>
      let next := S (next_io_service_ p) in
      Done (io_service, {| io_services_ := io_services_ p;
                           next_io_service_ := if (next =? length (io_services_ p))%nat then 0%nat else next |})
  end.

(** ** The tables *)

(** Connections are numbered by the order of their creation; the table maps the
    number a connection was given by [IndexMgr] to the connection. *)
Class ConnTable (T : Type) := {
  t_empty : T;
  t_add : Z → nat → T → T;
  t_del : Z → T → T;
  t_get : Z → T → option nat;
  t_get_empty i : t_get i t_empty = None;
  t_get_add i j c t : is_u32 i → is_u32 j → t_get j (t_add i c t) = if decide (i = j) then Some c else t_get j t;
  t_get_del i j t : is_u32 i → is_u32 j → t_get j (t_del i t) = if decide (i = j) then None else t_get j t
}.

(** [SessionMgr]: its map is keyed by [int32], so that numbers are converted. *)
Record SessionMgr := { connections_ : gmap Z nat }.

Definition SessionMgr_Add (id : Z) (conn : nat) (m : SessionMgr) : SessionMgr :=
  {| connections_ := <[s32 id := conn]> (connections_ m) |}.
Definition SessionMgr_Del (id : Z) (m : SessionMgr) : SessionMgr := {| connections_ := delete (s32 id) (connections_ m) |}.
Definition SessionMgr_Get (id : Z) (m : SessionMgr) : option nat := connections_ m !! s32 id.

Lemma s32_inj i j : is_u32 i → is_u32 j → s32 i = s32 j → i = j.
Proof. unfold is_u32, s32. intros. zmod. Qed.

#[export] Instance SessionMgr_table : ConnTable SessionMgr.
Proof.
  refine {| t_empty := {| connections_ := ∅ |}; t_add := SessionMgr_Add; t_del := SessionMgr_Del; t_get := SessionMgr_Get |};
    unfold SessionMgr_Add, SessionMgr_Del, SessionMgr_Get; simpl.
  - intros i. apply lookup_empty.
  - intros i j c t Hi Hj. case_decide as H; [subst; apply lookup_insert_eq|].
    apply lookup_insert_ne. intros He. by apply H, s32_inj.
  - intros i j t Hi Hj. case_decide as H; [subst; apply lookup_delete_eq|].
    apply lookup_delete_ne. intros He. by apply H, s32_inj.
Defined.

(** [GateUser] and [GateUserManager] *)
Inductive GateUserStatus := GU_STATUS_INIT | GU_STATUS_IDLE | GU_STATUS_GAMING.

Record GateUser := { status_ : GateUserStatus; conn_ : nat; uid_ : list Z }.

Definition GateUser_new (conn : nat) : GateUser := {| status_ := GU_STATUS_INIT; conn_ := conn; uid_ := [] |}.

Record GateUserManager := { game_users_ : gmap Z GateUser }.

Definition AddUser (id : Z) (conn : nat) (m : GateUserManager) : GateUserManager :=
  {| game_users_ := <[id := GateUser_new conn]> (game_users_ m) |}.

Definition RemoveUser (conn_id : Z) (m : GateUserManager) : GateUserManager :=
  match game_users_ m !! conn_id with
  | Some _ => {| game_users_ := delete conn_id (game_users_ m) |}
  | None => m
  end.

Definition GetUser (conn_id : Z) (m : GateUserManager) : option GateUser := game_users_ m !! conn_id.

Definition GetUserId (conn_id : Z) (m : GateUserManager) : list Z :=
  match GetUser conn_id m with None => [] | Some user => uid_ user end.

#[export] Instance GateUserManager_table : ConnTable GateUserManager.
Proof.
  refine {| t_empty := {| game_users_ := ∅ |}; t_add := AddUser; t_del := RemoveUser;
            t_get i m := conn_ <$> GetUser i m |}; unfold AddUser, RemoveUser, GetUser; simpl.
  - intros i. by rewrite lookup_empty.
  - intros i j c t _ _. case_decide as H; [subst; by rewrite lookup_insert_eq|by rewrite lookup_insert_ne].
  - intros i j t _ _. destruct (game_users_ t !! i) eqn:E; simpl.
    + case_decide as H; [subst; by rewrite lookup_delete_eq|by rewrite lookup_delete_ne].
    + case_decide as H; [subst; by rewrite E|done].
Defined.

(** ** The server

    [Waiting]: given to the acceptor; [Open]: accepted and being read; [Leaving]:
    inside [TcpConnection::OnDisconnect], between the callback and
    [disconnect_func_]; [Gone]: after it; [Refused]: the accept failed. *)
Inductive phase := Waiting | Open | Leaving | Gone | Refused.

#[export] Instance phase_eq_dec : EqDecision phase.
Proof. solve_decision. Defined.

Record Conn := { conn_id_ : Z; io_service_ : nat; ph : phase }.

Definition set_phase (p : phase) (c : Conn) : Conn := {| conn_id_ := conn_id_ c; io_service_ := io_service_ c; ph := p |}.

Section Server.
Context {T : Type} `{!ConnTable T}.

(** [conns] are all connections ever created, [accepting] tells whether one is
    with the acceptor. *)
Record Server := {
  id_mgr : IndexMgr;
  pool : io_service_pool;
  table : T;
  conns : list Conn;
  accepting : bool
}.

(** [TcpServer::StartAccept], up to [async_accept] *)
Definition Server_StartAccept (s : Server) : outcome Server :=
  do! (io_service, p) <- get_io_service (pool s);
  do! (id, m) <- GetId (id_mgr s);
  Done {| id_mgr := m; pool := p; table := table s;
          conns := conns s ++ [{| conn_id_ := id; io_service_ := io_service; ph := Waiting |}]; accepting := true |}.

(** [handle_accept], before its [StartAccept]: with an error the connection is
    dropped; otherwise [OnAccept] enters it into the table. *)
Definition handle_accept (e : bool) (k : nat) (c : Conn) (s : Server) : Server :=
  {| id_mgr := id_mgr s; pool := pool s;
     table := if e then table s else t_add (conn_id_ c) k (table s);
     conns := <[k := set_phase (if e then Refused else Open) c]> (conns s); accepting := false |}.

(** [TcpConnection::OnDisconnect]: the callback [OnDisconnect] of the server,
    then [disconnect_func_], which is [TcpServer::ConnectionDown]. *)
Definition OnDisconnect_callback (k : nat) (c : Conn) (s : Server) : Server :=
  {| id_mgr := id_mgr s; pool := pool s; table := t_del (conn_id_ c) (table s);
     conns := <[k := set_phase Leaving c]> (conns s); accepting := accepting s |}.

Definition OnDisconnect_down (k : nat) (c : Conn) (s : Server) : Server :=
  {| id_mgr := PutId (conn_id_ c) (id_mgr s); pool := pool s; table := table s;
     conns := <[k := set_phase Gone c]> (conns s); accepting := accepting s |}.

(** The constructor of [TcpServer] takes a service for the signals, one for the
    acceptor and one for the logger. *)
Definition Server_new (pool_size : nat) : outcome Server :=
  do! p <- io_service_pool_new pool_size;
  do! (_, p) <- get_io_service p;
  do! (_, p) <- get_io_service p;
  do! (_, p) <- get_io_service p;
  Server_StartAccept {| id_mgr := IndexMgr_new; pool := p; table := t_empty; conns := []; accepting := false |}.

(** The acceptor and the connections run on different threads: their steps
    interleave in any order. *)
Inductive conn_step : Server → Server → Prop :=
  | st_accept e k c s : conns s !! k = Some c → ph c = Waiting → conn_step s (handle_accept e k c s)
  | st_again s s' : accepting s = false → Z.of_nat (length (conns s)) < 2 ^ 32 →
      Server_StartAccept s = Done s' → conn_step s s'
  | st_disconnect k c s : conns s !! k = Some c → ph c = Open ∨ ph c = Gone → conn_step s (OnDisconnect_callback k c s)
  | st_down k c s : conns s !! k = Some c → ph c = Leaving → conn_step s (OnDisconnect_down k c s).

(** ** The invariant

    With fewer than 2^32 connections in all, connection [k] has the number [k];
    it sits on the service [k + 3] steps into the round; the table has the open
    connections. *)
Definition srv_ok (n : nat) (s : Server) : Prop :=
  (0 < n)%nat ∧ io_services_ (pool s) = seq 0 n ∧ next_io_service_ (pool s) = ((length (conns s) + 3) `mod` n)%nat ∧
  (Z.of_nat (length (conns s)) <= 2 ^ 32) ∧
  id_ (id_mgr s) = u32 (Z.of_nat (length (conns s))) ∧
  (∀ i, i ∈ id_set_ (id_mgr s) → 0 <= i < Z.of_nat (length (conns s))) ∧
  (∀ k c, conns s !! k = Some c →
     conn_id_ c = Z.of_nat k ∧ io_service_ c = ((k + 3) `mod` n)%nat) ∧
  (∀ i k, is_u32 i → t_get i (table s) = Some k ↔ ∃ c, conns s !! k = Some c ∧ conn_id_ c = i ∧ ph c = Open).

Lemma succ_mod x n : (0 < n)%nat →
  (if (S (x `mod` n) =? n)%nat then 0%nat else S (x `mod` n)) = (S x `mod` n)%nat.
Proof.
  intros Hn. pose proof (Nat.div_mod_eq x n) as Hx. pose proof (Nat.mod_upper_bound x n ltac:(lia)) as Hr.
  case_if; bprop.
  - apply (Nat.mod_unique _ _ (S (x / n))); [lia|]. rewrite Nat.mul_succ_r. lia.
  - apply (Nat.mod_unique _ _ (x / n)); lia.
Qed.

Lemma get_io_service_spec p n x : (0 < n)%nat → io_services_ p = seq 0 n → next_io_service_ p = (x `mod` n)%nat →
  get_io_service p = Done ((x `mod` n)%nat, {| io_services_ := seq 0 n; next_io_service_ := (S x `mod` n)%nat |}).
Proof.
  intros Hn Hs Hx. unfold get_io_service. rewrite Hs, Hx, length_seq.
  rewrite lookup_seq_lt by (apply Nat.mod_upper_bound; lia). cbn [Nat.add]. by rewrite succ_mod.
Qed.

Lemma StartAccept_srv n s : srv_ok n s → Z.of_nat (length (conns s)) < 2 ^ 32 →
  ∃ s', Server_StartAccept s = Done s' ∧ srv_ok n s'.
Proof.
  intros (Hn & Hio & Hnx & Hle & Hid & Hset & Hc & Ht) Hlt. unfold Server_StartAccept.
  rewrite (get_io_service_spec _ n _ Hn Hio Hnx). cbn [obind].
  rewrite u32_id in Hid by (unfold is_u32; lia).
  unfold GetId. cbn [skip_used]. unfold IdExist. rewrite bool_decide_eq_false_2 by (intros H; apply Hset in H; lia).
  cbn [obind id_ id_set_]. eexists. split; [done|].
  split_and!; cbn [pool conns id_mgr table io_services_ next_io_service_ id_ id_set_]; rewrite ?length_app; simpl length; try done; try lia.
  - f_equal. lia.
  - rewrite Hid. f_equal. lia.
  - intros i [->%elem_of_singleton|Hi]%elem_of_union; [lia|]. apply Hset in Hi. lia.
  - intros k c [[_ Hk]|[-> <-]]%lookup_snoc_Some; [by apply Hc|]. simpl. by rewrite Hid.
  - intros i k Hi. rewrite (Ht i k Hi). split; intros (c & Hk & ? & ?); exists c; (split_and!; [|done..]).
    + apply lookup_app_l_Some. done.
    + apply lookup_snoc_Some in Hk as [[_ ?]|[_ <-]]; done.
Qed.

(** What the steps of one connection keep: they change its phase, and the entry
    of its number in the table. *)
Lemma srv_ok_update n s k c q m t' acc :
  srv_ok n s → conns s !! k = Some c →
  id_ m = id_ (id_mgr s) → id_set_ m ⊆ id_set_ (id_mgr s) →
  (∀ i, is_u32 i → t_get i t' = if decide (conn_id_ c = i) then (if decide (q = Open) then Some k else None) else t_get i (table s)) →
  srv_ok n {| id_mgr := m; pool := pool s; table := t'; conns := <[k := set_phase q c]> (conns s); accepting := acc |}.
Proof.
  intros (Hn & Hio & Hnx & Hle & Hid & Hset & Hc & Ht) Hk Hm Hsub Ht'.
  pose proof (lookup_lt_Some _ _ _ Hk) as Hlt. destruct (Hc k c Hk) as [Hck _].
  split_and!; cbn [pool conns id_mgr table]; rewrite ?length_insert; try done.
  - by rewrite Hm.
  - intros i Hi. by apply Hset, Hsub.
  - intros j d [(-> & <- & _)|[_ Hd]]%list_lookup_insert_Some; [apply (Hc j c Hk)|by apply Hc].
  - intros i j Hi. rewrite (Ht' i Hi). destruct (decide (conn_id_ c = i)) as [Heq|Heq].
    + transitivity (q = Open ∧ j = k).
      { destruct (decide (q = Open)) as [Hq|Hq]; split.
        - intros H. split; [exact Hq|congruence].
        - intros [_ H]. congruence.
        - intros H. discriminate H.
        - by intros [? _]. }
      split.
      * intros [-> ->]. exists (set_phase Open c). by rewrite list_lookup_insert_eq.
      * intros (d & [(-> & <- & _)|[Hne Hd]]%list_lookup_insert_Some & Hdi & Hop); [done|].
        destruct (Hc j d Hd) as [Hdj _]. lia.
    + rewrite (Ht i j Hi). split; intros (d & Hd & Hdi & Hop); exists d; (split_and!; [|done..]).
      * rewrite list_lookup_insert_ne; [done|]. intros ->. congruence.
      * apply list_lookup_insert_Some in Hd as [(-> & <- & _)|[_ ?]]; done.
Qed.

Lemma conn_u32 n s k c : srv_ok n s → conns s !! k = Some c → is_u32 (conn_id_ c).
Proof.
  intros (_ & _ & _ & Hle & _ & _ & Hc & _) Hk. destruct (Hc k c Hk) as [-> _].
  apply lookup_lt_Some in Hk. unfold is_u32. lia.
Qed.

Lemma not_open n s k c : srv_ok n s → conns s !! k = Some c → ph c ≠ Open → t_get (conn_id_ c) (table s) = None.
Proof.
  intros Hok Hk Hp. pose proof (conn_u32 n s k c Hok Hk) as Hu.
  destruct Hok as (_ & _ & _ & _ & _ & _ & Hc & Ht).
  destruct (t_get (conn_id_ c) (table s)) as [j|] eqn:E; [|done]. exfalso.
  apply (Ht _ _ Hu) in E as (d & Hd & Hdi & Hop). destruct (Hc j d Hd), (Hc k c Hk).
  assert (j = k) as -> by lia. congruence.
Qed.

Lemma conn_step_ok n s s' : conn_step s s' → srv_ok n s → srv_ok n s'.
Proof.
  intros [e k c s0 Hk Hp|s0 s1 Ha Hl Hs|k c s0 Hk Hp|k c s0 Hk Hp] Hok.
  - pose proof (conn_u32 n s0 k c Hok Hk) as Hu. apply (srv_ok_update n s0 k c); [done..|]. intros i Hi.
    destruct e; [|by rewrite t_get_add].
    case_decide as Heq; [|done]. rewrite decide_False by done. subst i. apply (not_open n s0 k c); [done..|congruence].
  - destruct (StartAccept_srv n s0 Hok Hl) as (? & ? & ?). congruence.
  - pose proof (conn_u32 n s0 k c Hok Hk) as Hu. apply (srv_ok_update n s0 k c); [done..|]. intros i Hi.
    rewrite t_get_del by done. by case_decide.
  - apply (srv_ok_update n s0 k c); [done|done|by unfold PutId; case_bool_decide| |].
    + unfold PutId. case_bool_decide; simpl; set_solver.
    + intros i Hi. case_decide as Heq; [|done]. rewrite decide_False by done. subst i.
      apply (not_open n s0 k c); [done..|congruence].
Qed.

Lemma Server_new_ok n : (0 < n)%nat → ∃ s, Server_new n = Done s ∧ srv_ok n s.
Proof.
  intros Hn. unfold Server_new, io_service_pool_new. replace (n =? 0)%nat with false by (symmetry; apply Nat.eqb_neq; lia).
  cbn [obind]. rewrite (get_io_service_spec _ n 0) by (done || (simpl; by rewrite Nat.Div0.mod_0_l)). cbn [obind].
  rewrite (get_io_service_spec _ n 1) by done. cbn [obind].
  rewrite (get_io_service_spec _ n 2) by done. cbn [obind].
  apply StartAccept_srv; [|done]. split_and!; cbn; try done; try lia.
  intros i k Hi. rewrite t_get_empty. split; [done|]. by intros (c & Hc & _).
Qed.
End Server.
Arguments Server : clear implicits.

(** C26: For either table: as long as fewer than 2^32 connections have been
    accepted in all, in every interleaving of accepts, failed accepts and
    disconnects, a disconnect being reported any number of times, the table maps
    a number to a connection exactly when that connection is open and has that
    number; and connection [k] runs on the service that is [k + 3] steps into
    the round, so that the load of the services is even. *)
Theorem table_has_open_connections {T} `{!ConnTable T} n s0 s :
  (0 < n)%nat → Server_new n = Done s0 → rtc conn_step s0 s →
  (∀ i k, is_u32 i → t_get i (table (T := T) s) = Some k ↔ ∃ c, conns s !! k = Some c ∧ conn_id_ c = i ∧ ph c = Open) ∧
  (∀ k c, conns s !! k = Some c → io_service_ c = ((k + 3) `mod` n)%nat).
Proof.
  intros Hn H0 Hr. assert (srv_ok n s) as (_ & _ & _ & _ & _ & _ & Hc & Ht).
  { destruct (Server_new_ok n Hn) as (s1 & H1 & Hok). rewrite H0 in H1. injection H1 as <-. clear H0. revert Hok.
    induction Hr as [|x y z Hxy _ IH]; [done|]. intros Hx. eauto using conn_step_ok. }
  split; [done|]. intros k c Hk. by destruct (Hc k c Hk).
Qed.

(** Two connections to a gateway with two services; the first one has reported
    two errors. *)
Definition demo_server : Server GateUserManager :=
  {| id_mgr := {| id_ := 2; id_set_ := {[1]} |};
     pool := {| io_services_ := [0%nat; 1%nat]; next_io_service_ := 1 |};
     table := {| game_users_ := {[1 := GateUser_new 1]} |};
     conns := [{| conn_id_ := 0; io_service_ := 1; ph := Gone |}; {| conn_id_ := 1; io_service_ := 0; ph := Open |}];
     accepting := false |}.

Definition demo_server0 : Server GateUserManager := Eval vm_compute in
  match Server_new 2 with Done s => s | Fault _ => demo_server end.

Lemma demo_server_reached : rtc conn_step demo_server0 demo_server.
Proof.
  eapply rtc_l; [by apply (st_accept false 0)|].
  eapply rtc_l; [by apply st_again|].
  eapply rtc_l; [by apply (st_disconnect 0); [|left]|].
  eapply rtc_l; [by apply (st_down 0)|].
  eapply rtc_l; [by apply (st_accept false 1)|].
  eapply rtc_l; [by apply (st_disconnect 0); [|right]|].
  eapply rtc_l; [by apply (st_down 0)|]. 
  match goal with |- rtc _ ?x _ => replace x with demo_server by (by vm_compute) end. apply rtc_refl.
Qed.

Lemma table_has_open_connections_witness :
  (∀ i k, is_u32 i → t_get i (table demo_server) = Some k ↔ ∃ c, conns demo_server !! k = Some c ∧ conn_id_ c = i ∧ ph c = Open) ∧
  (∀ k c, conns demo_server !! k = Some c → io_service_ c = ((k + 3) `mod` 2)%nat).
Proof.
  apply (table_has_open_connections 2 demo_server0 demo_server).
  - lia.
  - vm_compute. reflexivity.
  - apply demo_server_reached.
Defined.
