(* ===== verification/Tasks.v ===== *)
(** * Tasks: the task queue of a service and its threads

    RpcLib/rpc_task.h: [RpcTaskMgr], a queue that the network thread of a service
    fills with [Push] and that the thread [task_runner_] of the service empties
    with [Run] ([Pop] in a loop), until somebody calls [Stop].

    First the three operations as they are seen from outside of the mutex, then
    the threads: every access to the mutex, to the members and to the condition
    variable is a step of its own.  A thread in [cv_.wait] sleeps without the
    mutex; [notify_all] wakes it, and it may also wake for no reason; then it has
    to take the mutex again.  [clients] are the threads that are inside of a call
    of [Push] or [Stop], any number of them.  [pushed] and [ran] record the tasks
    put into the queue and those that were run. *)

From S2P Require Import Prelude.

Section Tasks.
Context {T : Type}.

(** ** The operations *)

Record RpcTaskMgr := { tasks_ : list T; running_ : bool }.

Definition RpcTaskMgr_new : RpcTaskMgr := {| tasks_ := []; running_ := true |}.

Definition Push (t : T) (q : RpcTaskMgr) : RpcTaskMgr :=
  {| tasks_ := tasks_ q ++ [t]; running_ := running_ q |}.

Definition Stop (q : RpcTaskMgr) : RpcTaskMgr := {| tasks_ := []; running_ := false |}.

(** What [Pop] does when it gets the lock: wait, give up, or take a task and
    say whether it is to be run. *)
Inductive pop_result :=
  | Wait
  | GiveUp
  | Popped (t : T) (run : bool) (q : RpcTaskMgr).

Definition Pop (q : RpcTaskMgr) : pop_result :=
  match tasks_ q with
  | [] => if running_ q then Wait else GiveUp
  | t :: rest => Popped t (running_ q) {| tasks_ := rest; running_ := running_ q |}
  end.

(** ** The threads *)

(** Where a thread is in a call of [Push] or [Stop]. *)
Inductive client_pc :=
  | PushLock (t : T)   (** before [Lock l(mutex_)] *)
  | PushBody (t : T)   (** before [tasks_.push] *)
  | StopLock
  | StopSet            (** before [running_ = false] *)
  | StopLoop           (** at the test of the loop *)
  | NotifyAll          (** before [cv_.notify_all()] *)
  | Unlock.            (** before the mutex is released *)

(** Where the thread of [Run] is. *)
Inductive worker_pc :=
  | PopLock                      (** before the lock of [Pop] *)
  | PopTest                      (** at the test of the loop of [Pop] *)
  | Asleep                       (** in [cv_.wait] *)
  | Woken                        (** in [cv_.wait], taking the mutex again *)
  | PopTake                      (** before [t = tasks_.front()] *)
  | PopReturn (r : option T)     (** before the mutex is released: the task to be run, if any *)
  | RunTask (t : T)              (** before [t.Run()] *)
  | Ended.                       (** [Run] has returned *)

Inductive thread := Worker | Client (c : nat).

#[export] Instance thread_eq_dec : EqDecision thread.
Proof. solve_decision. Defined.

Record threads := {
  mgr : RpcTaskMgr;
  mutex_ : option thread;
  worker : worker_pc;
  clients : gmap nat client_pc;
  pushed : list T;
  ran : list T
}.

Definition threads_new : threads :=
  {| mgr := RpcTaskMgr_new; mutex_ := None; worker := PopLock; clients := ∅; pushed := []; ran := [] |}.

Definition set_mgr (q : RpcTaskMgr) (s : threads) : threads :=
  {| mgr := q; mutex_ := mutex_ s; worker := worker s; clients := clients s; pushed := pushed s; ran := ran s |}.
Definition set_mutex (o : option thread) (s : threads) : threads :=
  {| mgr := mgr s; mutex_ := o; worker := worker s; clients := clients s; pushed := pushed s; ran := ran s |}.
Definition set_worker (w : worker_pc) (s : threads) : threads :=
  {| mgr := mgr s; mutex_ := mutex_ s; worker := w; clients := clients s; pushed := pushed s; ran := ran s |}.
Definition set_client (c : nat) (pc : client_pc) (s : threads) : threads :=
  {| mgr := mgr s; mutex_ := mutex_ s; worker := worker s; clients := <[c := pc]> (clients s); pushed := pushed s; ran := ran s |}.

(** The call returns. *)
Definition leave (c : nat) (s : threads) : threads :=
  {| mgr := mgr s; mutex_ := mutex_ s; worker := worker s; clients := delete c (clients s); pushed := pushed s; ran := ran s |}.

Definition note_pushed (t : T) (s : threads) : threads :=
  {| mgr := mgr s; mutex_ := mutex_ s; worker := worker s; clients := clients s; pushed := pushed s ++ [t]; ran := ran s |}.
Definition note_ran (t : T) (s : threads) : threads :=
  {| mgr := mgr s; mutex_ := mutex_ s; worker := worker s; clients := clients s; pushed := pushed s; ran := ran s ++ [t] |}.

(** Taking the mutex, when it is free. *)
Definition lock (th : thread) (s : threads) : option threads :=
  match mutex_ s with None => Some (set_mutex (Some th) s) | Some _ => None end.

Definition wake (w : worker_pc) : worker_pc := match w with Asleep => Woken | _ => w end.

(** The next step of a thread in [Push] or [Stop]; [None] when it has to wait. *)
Definition client_step (c : nat) (s : threads) : option threads :=
  match clients s !! c with
  | None => None
  | Some (PushLock t) => set_client c (PushBody t) <$> lock (Client c) s
  | Some (PushBody t) =>
      Some (set_client c NotifyAll (note_pushed t (set_mgr {| tasks_ := tasks_ (mgr s) ++ [t]; running_ := running_ (mgr s) |} s)))
  | Some StopLock => set_client c StopSet <$> lock (Client c) s
  | Some StopSet => Some (set_client c StopLoop (set_mgr {| tasks_ := tasks_ (mgr s); running_ := false |} s))
  | Some StopLoop =>
      match tasks_ (mgr s) with
      | [] => Some (set_client c NotifyAll s)
      | _ :: rest => Some (set_mgr {| tasks_ := rest; running_ := running_ (mgr s) |} s)
      end
  | Some NotifyAll => Some (set_client c Unlock (set_worker (wake (worker s)) s))
  | Some Unlock => Some (leave c (set_mutex None s))
  end.

(** The next step of [Run]. *)
Definition worker_step (s : threads) : option threads :=
  match worker s with
  | PopLock => set_worker PopTest <$> lock Worker s
  | PopTest =>
      match tasks_ (mgr s) with
      | [] => if running_ (mgr s) then Some (set_worker Asleep (set_mutex None s)) else Some (set_worker (PopReturn None) s)
      | _ :: _ => Some (set_worker PopTake s)
      end
  | Asleep => None
  | Woken => set_worker PopTest <$> lock Worker s
  | PopTake =>
      match tasks_ (mgr s) with
      | [] => None
      | t :: rest =>
          Some (set_worker (PopReturn (if running_ (mgr s) then Some t else None))
                  (set_mgr {| tasks_ := rest; running_ := running_ (mgr s) |} s))
      end
  | PopReturn (Some t) => Some (set_worker (RunTask t) (set_mutex None s))
  | PopReturn None => Some (set_worker Ended (set_mutex None s))
  | RunTask t => Some (set_worker PopLock (note_ran t s))
  | Ended => None
  end.

(** What happens next: a step of a thread, the start of a call, a wake-up for no
    reason, or something else. *)
Inductive tlabel := Step (th : thread) | CallPush (c : nat) (t : T) | CallStop (c : nat) | Spurious | Idle.

Definition call (c : nat) (pc : client_pc) (s : threads) : option threads :=
  match clients s !! c with None => Some (set_client c pc s) | Some _ => None end.

Definition threads_step (l : tlabel) (s : threads) : option threads :=
  match l with
  | Step Worker => worker_step s
  | Step (Client c) => client_step c s
  | CallPush c t => call c (PushLock t) s
  | CallStop c => call c StopLock s
  | Spurious => Some (set_worker (wake (worker s)) s)
  | Idle => Some s
  end.

Inductive reachable : threads → Prop :=
  | reach_new : reachable threads_new
  | reach_step l s s' : reachable s → threads_step l s = Some s' → reachable s'.

(** ** The invariant *)

Definition holds_lock (pc : client_pc) : bool := match pc with PushLock _ | StopLock => false | _ => true end.
Definition worker_holds (w : worker_pc) : bool := match w with PopTest | PopTake | PopReturn _ => true | _ => false end.

(** The task taken from the queue and not yet run. *)
Definition in_hand (w : worker_pc) : list T := match w with PopReturn (Some t) | RunTask t => [t] | _ => [] end.

(** [th] is between [lock] and [unlock]. *)
Definition inside (s : threads) (th : thread) : bool :=
  match th with
  | Worker => worker_holds (worker s)
  | Client c => match clients s !! c with Some pc => holds_lock pc | None => false end
  end.

Record threads_ok (s : threads) : Prop := {
  owner_ok th : mutex_ s = Some th ↔ inside s th = true;
  sleep_ok : worker s = Asleep → tasks_ (mgr s) = [] ∧ running_ (mgr s) = true ∨
               ∃ c pc, clients s !! c = Some pc ∧ (pc = NotifyAll ∨ pc = StopLoop);
  take_ok : worker s = PopTake → tasks_ (mgr s) ≠ [];
  loop_ok c : clients s !! c = Some StopLoop → running_ (mgr s) = false;
  fifo_ok : if running_ (mgr s) then pushed s = ran s ++ in_hand (worker s) ++ tasks_ (mgr s)
            else ∃ rest, pushed s = ran s ++ in_hand (worker s) ++ rest;
  ended_ok : worker s = Ended ∨ worker s = PopReturn None → running_ (mgr s) = false
}.

Lemma owner_unique s th : threads_ok s → inside s th = true → ∀ th', inside s th' = true → th' = th.
Proof. intros Hok H th' H'. apply (owner_ok s Hok) in H, H'. congruence. Qed.

Lemma free_inside s th : threads_ok s → mutex_ s = None → inside s th = false.
Proof. intros Hok H. destruct (inside s th) eqn:E; [|done]. apply (owner_ok s Hok) in E. congruence. Qed.

Lemma inside_client s c pc : threads_ok s → clients s !! c = Some pc → holds_lock pc = true →
  mutex_ s = Some (Client c) ∧ worker_holds (worker s) = false ∧
  ∀ c' pc', clients s !! c' = Some pc' → holds_lock pc' = true → c' = c.
Proof.
  intros Hok Hc Hh. assert (inside s (Client c) = true) as Hi by (cbn; by rewrite Hc).
  split; [by apply (owner_ok s Hok)|]. split.
  - destruct (worker_holds (worker s)) eqn:E; [|done]. by pose proof (owner_unique s (Client c) Hok Hi Worker E).
  - intros c' pc' Hc' Hh'. pose proof (owner_unique s (Client c) Hok Hi (Client c')) as H. cbn in H. rewrite Hc' in H. specialize (H Hh'). congruence.
Qed.

(** A step of [th] within or at the ends of its critical section leaves the other
    threads where they are. *)
Lemma owner_update s s' th : threads_ok s → (mutex_ s = None ∨ mutex_ s = Some th) →
  (∀ th', th' ≠ th → inside s' th' = inside s th') → mutex_ s' = (if inside s' th then Some th else None) →
  ∀ th', mutex_ s' = Some th' ↔ inside s' th' = true.
Proof.
  intros Hok Hm Ho -> th'. destruct (decide (th' = th)) as [->|Hne]; [destruct (inside s' th); split; congruence|].
  rewrite (Ho th') by done. assert (inside s th' = false) as ->.
  { destruct (inside s th') eqn:E; [|done]. apply (owner_ok s Hok) in E. destruct Hm; congruence. }
  destruct (inside s' th); split; congruence.
Qed.

(** A thread on its way to wake the sleeper. *)
Definition waking (s : threads) : Prop := ∃ c pc, clients s !! c = Some pc ∧ (pc = NotifyAll ∨ pc = StopLoop).

Lemma waking_other c pc s : waking s → clients s !! c = Some pc → holds_lock pc = false → ∀ pc', waking (set_client c pc' s).
Proof.
  intros (c0 & pc0 & Hc0 & Hpc0) Hc Hh pc'. exists c0, pc0. cbn. rewrite lookup_insert_ne; [done|].
  intros ->. rewrite Hc in Hc0. injection Hc0 as <-. destruct Hpc0; by subst.
Qed.

Lemma waking_inside c pc s : threads_ok s → clients s !! c = Some pc → holds_lock pc = true → waking s → pc = NotifyAll ∨ pc = StopLoop.
Proof.
  intros Hok Hc Hh (c0 & pc0 & Hc0 & Hpc0). destruct (inside_client s c pc Hok Hc Hh) as (_ & _ & Hu).
  assert (c0 = c) as -> by (eapply Hu; [exact Hc0|]; destruct Hpc0; by subst). congruence.
Qed.

Lemma inside_other c pc s1 s th : clients s1 = <[c := pc]> (clients s) ∨ clients s1 = delete c (clients s) →
  worker_holds (worker s1) = worker_holds (worker s) → th ≠ Client c → inside s1 th = inside s th.
Proof.
  intros Hs1 Hw Hne. destruct th as [|c']; cbn; [done|]. destruct Hs1 as [->| ->].
  - by rewrite lookup_insert_ne by congruence.
  - by rewrite lookup_delete_ne by congruence.
Qed.

(** A thread takes the mutex. *)
Lemma client_lock_ok c pc pc' s : threads_ok s → clients s !! c = Some pc → holds_lock pc = false → holds_lock pc' = true →
  pc' ≠ StopLoop → mutex_ s = None → threads_ok (set_client c pc' (set_mutex (Some (Client c)) s)).
Proof.
  intros Hok Hc Hh Hh' Hl Hm. split; [|cbn..].
  - eapply (owner_update s _ (Client c)); [done|by left| |].
    + intros th' Hne. eapply inside_other; [by left|done|done].
    + cbn. rewrite lookup_insert_eq. by rewrite Hh'.
  - intros Hs. destruct (sleep_ok s Hok Hs) as [?|Hw]; [by left|right]. by eapply (waking_other c pc s).
  - apply Hok.
  - intros c0 Hc0. apply lookup_insert_Some in Hc0 as [[<- ->]|[_ Hc0]]; [done|]. by eapply (loop_ok s Hok).
  - apply Hok.
  - apply Hok.
Qed.

(** A thread that has the mutex changes the queue; [rest] was pushed and is
    neither run nor about to be. *)
Lemma client_body_ok c pc pc' s q ps : threads_ok s → clients s !! c = Some pc → holds_lock pc = true →
  pc' = NotifyAll ∨ pc' = StopLoop → (pc' = StopLoop → running_ q = false) → (running_ (mgr s) = false → running_ q = false) →
  (if running_ q then ps = ran s ++ in_hand (worker s) ++ tasks_ q else ∃ rest, ps = ran s ++ in_hand (worker s) ++ rest) →
  threads_ok {| mgr := q; mutex_ := mutex_ s; worker := worker s; clients := <[c := pc']> (clients s); pushed := ps; ran := ran s |}.
Proof.
  intros Hok Hc Hh Hpc' Hl Hr Hf. destruct (inside_client s c pc Hok Hc Hh) as (Hm & Hw & Hu). split; [|cbn..].
  - eapply (owner_update s _ (Client c)); [done|by right| |].
    + intros th' Hne. eapply inside_other; [by left|done|done].
    + cbn. rewrite lookup_insert_eq. destruct Hpc'; by subst.
  - intros _. right. exists c, pc'. by rewrite lookup_insert_eq.
  - intros E. by rewrite E in Hw.
  - intros c0 Hc0. apply lookup_insert_Some in Hc0 as [[<- ->]|[_ Hc0]]; [by apply Hl|]. apply Hr. by eapply (loop_ok s Hok).
  - done.
  - intros E. apply Hr. by apply (ended_ok s Hok).
Qed.

Lemma client_notify_ok c s : threads_ok s → clients s !! c = Some NotifyAll → threads_ok (set_client c Unlock (set_worker (wake (worker s)) s)).
Proof.
  intros Hok Hc. destruct (inside_client s c _ Hok Hc eq_refl) as (Hm & Hw & Hu). split; [|cbn..].
  - eapply (owner_update s _ (Client c)); [done|by right| |].
    + intros th' Hne. eapply inside_other; [by left| |done]. cbn. by destruct (worker s).
    + cbn. by rewrite lookup_insert_eq.
  - intros E. by destruct (worker s).
  - intros E. by destruct (worker s).
  - intros c0 Hc0. apply lookup_insert_Some in Hc0 as [[<- ?]|[_ Hc0]]; [done|]. by eapply (loop_ok s Hok).
  - assert (in_hand (wake (worker s)) = in_hand (worker s)) as -> by (by destruct (worker s)). apply Hok.
  - intros E. apply (ended_ok s Hok). destruct (worker s); try done. by destruct E.
Qed.

Lemma client_leave_ok c s : threads_ok s → clients s !! c = Some Unlock → threads_ok (leave c (set_mutex None s)).
Proof.
  intros Hok Hc. destruct (inside_client s c _ Hok Hc eq_refl) as (Hm & Hw & Hu). split; [|cbn..].
  - eapply (owner_update s _ (Client c)); [done|by right| |].
    + intros th' Hne. eapply (inside_other c Unlock); [by right|done|done].
    + cbn. by rewrite lookup_delete_eq.
  - intros Hs. destruct (sleep_ok s Hok Hs) as [?|Hk]; [by left|]. by destruct (waking_inside c Unlock s Hok Hc eq_refl Hk).
  - apply Hok.
  - intros c0 Hc0. apply lookup_delete_Some in Hc0 as [_ Hc0]. by eapply (loop_ok s Hok).
  - apply Hok.
  - apply Hok.
Qed.

Lemma client_step_ok c s s' : threads_ok s → client_step c s = Some s' → threads_ok s'.
Proof.
  intros Hok. unfold client_step, lock. destruct (clients s !! c) as [pc|] eqn:Hc; [|done]. pose proof (fifo_ok s Hok) as Hf.
  destruct pc as [t|t| | | | |]; intros H.
  - destruct (mutex_ s) eqn:Em; [done|]. injection H as <-. by eapply client_lock_ok.
  - injection H as <-. apply (client_body_ok c (PushBody t) NotifyAll s); try done; [by left|]. cbn. destruct (running_ (mgr s)).
    + rewrite Hf, <- !app_assoc. done.
    + destruct Hf as [rest ->]. exists (rest ++ [t]). by rewrite <- !app_assoc.
  - destruct (mutex_ s) eqn:Em; [done|]. injection H as <-. by eapply client_lock_ok.
  - injection H as <-. apply (client_body_ok c StopSet StopLoop s); try done; [by right|]. cbn. destruct (running_ (mgr s)); eauto.
  - pose proof (loop_ok s Hok c Hc) as Hr. rewrite Hr in Hf. destruct (tasks_ (mgr s)) as [|t rest] eqn:Et; injection H as <-.
    + apply (client_body_ok c StopLoop NotifyAll s (mgr s) (pushed s)); cbn; try done; [by left|]. by rewrite Hr.
    + replace (set_mgr _ s) with (set_client c StopLoop (set_mgr {| tasks_ := rest; running_ := running_ (mgr s) |} s))
        by (unfold set_client, set_mgr; cbn; by rewrite insert_id).
      apply (client_body_ok c StopLoop StopLoop s); cbn; try done; [by right|]. by rewrite Hr.
  - injection H as <-. by apply client_notify_ok.
  - injection H as <-. by apply client_leave_ok.
Qed.

(** The worker moves to [w], with or without the mutex. *)
Lemma worker_update_ok s q w rs : threads_ok s → mutex_ s = None ∨ mutex_ s = Some Worker →
  running_ q = running_ (mgr s) → (w = Asleep → tasks_ q = [] ∧ running_ q = true) → (w = PopTake → tasks_ q ≠ []) →
  (w = Ended ∨ w = PopReturn None → running_ q = false) →
  (if running_ q then pushed s = rs ++ in_hand w ++ tasks_ q else ∃ rest, pushed s = rs ++ in_hand w ++ rest) →
  threads_ok {| mgr := q; mutex_ := if worker_holds w then Some Worker else None; worker := w; clients := clients s; pushed := pushed s; ran := rs |}.
Proof.
  intros Hok Hm Hr Ha Ht He Hf. split; [|cbn..].
  - eapply (owner_update s _ Worker); [done|done| |done]. by intros [|c] Hne.
  - intros E. left. by apply Ha.
  - done.
  - rewrite Hr. apply (loop_ok s Hok).
  - done.
  - done.
Qed.

Lemma worker_inside s : threads_ok s → worker_holds (worker s) = true → mutex_ s = Some Worker.
Proof. intros Hok H. by apply (owner_ok s Hok). Qed.

Lemma worker_step_ok s s' : threads_ok s → worker_step s = Some s' → threads_ok s'.
Proof.
  intros Hok. pose proof (fifo_ok s Hok) as Hf. pose proof (worker_inside s Hok) as Hin. unfold worker_step, lock.
  destruct s as [q m w cl ps rs]. cbn in *. destruct w as [| | | | |[t|]|t|]; cbn in *; intros H; try (rewrite Hin in * by done).
  - destruct m; [done|]. injection H as <-. apply (worker_update_ok _ _ PopTest rs Hok); try done; [by left|by intros []].
  - destruct (tasks_ q) as [|t rest] eqn:Et; [destruct (running_ q) eqn:Er|]; injection H as <-.
    + apply (worker_update_ok _ q Asleep rs Hok); cbn; try done; [by right|by intros []|by rewrite Er, Et].
    + apply (worker_update_ok _ q (PopReturn None) rs Hok); cbn; try done; [by right|by rewrite Er].
    + apply (worker_update_ok _ q PopTake rs Hok); cbn; try done; [by right|by rewrite Et|by intros []|by rewrite Et].
  - done.
  - destruct m; [done|]. injection H as <-. apply (worker_update_ok _ _ PopTest rs Hok); try done; [by left|by intros []].
  - destruct (tasks_ q) as [|t rest] eqn:Et; [done|]. injection H as <-.
    apply (worker_update_ok _ _ (PopReturn (if running_ q then Some t else None)) rs Hok); cbn; try done; [by right| |by destruct (running_ q)].
    destruct (running_ q); by intros [].
  - injection H as <-. apply (worker_update_ok _ q (RunTask t) rs Hok); cbn; try done; [by right|by intros []].
  - injection H as <-. apply (worker_update_ok _ q Ended rs Hok); cbn; try done; [by right|]. intros _. apply (ended_ok _ Hok). by right.
  - injection H as <-. split; cbn; [apply Hok|done|done|apply (loop_ok _ Hok)| |by intros []].
    destruct (running_ q); [|destruct Hf as [rest Hf]; exists rest]; rewrite Hf, <- !app_assoc; done.
  - done.
Qed.

Lemma step_ok l s s' : threads_ok s → threads_step l s = Some s' → threads_ok s'.
Proof.
  intros Hok. assert (∀ c pc, holds_lock pc = false → call c pc s = Some s' → threads_ok s') as Hcall.
  { unfold call. intros c pc Hpc H. destruct (clients s !! c) eqn:Hc; [done|]. injection H as <-. split; [|cbn..]; try apply Hok.
    - intros th. rewrite (owner_ok s Hok). cbn. destruct th as [|c']; [done|]. cbn. destruct (decide (c' = c)) as [->|Hne].
      + by rewrite lookup_insert_eq, Hc, Hpc.
      + by rewrite lookup_insert_ne.
    - intros Hs. destruct (sleep_ok s Hok Hs) as [?|(c0 & pc0 & Hc0 & ?)]; [by left|right]. exists c0, pc0. rewrite lookup_insert_ne; [done|congruence].
    - intros c0 Hc0. apply lookup_insert_Some in Hc0 as [[<- ->]|[_ Hc0]]; [done|]. by eapply (loop_ok s Hok). }
  destruct l as [[|c]|c t|c| |]; cbn.
  - by apply worker_step_ok.
  - by apply client_step_ok.
  - by apply Hcall.
  - by apply Hcall.
  - intros [= <-]. destruct s as [q m w cl ps rs]. destruct w; try apply Hok. cbn in *.
    split; try apply Hok; try done. by intros [].
  - by intros [= <-].
Qed.

Lemma reachable_ok s : reachable s → threads_ok s.
Proof.
  induction 1 as [|l s s' _ IH Hs]; [|by eapply step_ok]. split; cbn; try done.
  - intros [|c]; cbn; [done|]. by rewrite lookup_empty.
  - by intros [].
Qed.

(** ** The threads implement the operations *)

(** The queue as it is seen from outside of the mutex: a [Stop] that has begun
    to empty it has emptied it. *)
Definition stopping (s : threads) : bool :=
  match mutex_ s with
  | Some (Client c) => match clients s !! c with Some StopLoop => true | _ => false end
  | _ => false
  end.

Definition view (s : threads) : RpcTaskMgr := if stopping s then Stop (mgr s) else mgr s.

(** What a step did to it. *)
Definition implements (s s' : threads) : Prop :=
  (view s' = view s ∧ pushed s' = pushed s ∧ (worker s ≠ Asleep → worker s' = Asleep → Pop (view s) = Wait) ∧
   (worker s ≠ PopReturn None → worker s' = PopReturn None → Pop (view s) = GiveUp)) ∨
  (∃ t, view s' = Push t (view s) ∧ pushed s' = pushed s ++ [t] ∧ worker s' = worker s) ∨
  (view s' = Stop (view s) ∧ pushed s' = pushed s ∧ worker s' = worker s) ∨
  (∃ t run, Pop (view s) = Popped t run (view s') ∧ pushed s' = pushed s ∧ worker s' = PopReturn (if run : bool then Some t else None)).

Lemma view_client s c pc : threads_ok s → clients s !! c = Some pc → holds_lock pc = true → pc ≠ StopLoop → view s = mgr s.
Proof.
  intros Hok Hc Hh Hne. destruct (inside_client s c pc Hok Hc Hh) as (Hm & _). unfold view, stopping. rewrite Hm, Hc. by destruct pc.
Qed.

Lemma view_other s : (∀ c, mutex_ s ≠ Some (Client c)) → view s = mgr s.
Proof. unfold view, stopping. destruct (mutex_ s) as [[|c]|]; [done| |done]. intros H. by destruct (H c). Qed.

Lemma view_worker s : threads_ok s → worker_holds (worker s) = true → view s = mgr s.
Proof. intros Hok H. apply view_other. rewrite (worker_inside s Hok H). done. Qed.

Lemma stopped_mgr (q : RpcTaskMgr) : tasks_ q = [] → running_ q = false → Stop q = q.
Proof. by destruct q as [ts r]; cbn; intros -> ->. Qed.

Lemma client_implements c s s' : threads_ok s → client_step c s = Some s' → implements s s'.
Proof.
  intros Hok H. pose proof (client_step_ok c s s' Hok H) as Hok'. unfold client_step, lock in H.
  destruct (clients s !! c) as [pc|] eqn:Hc; [|done]. destruct pc as [t|t| | | | |].
  - destruct (mutex_ s) eqn:Em; [done|]. injection H as <-. left. split; [|done].
    rewrite (view_client _ c (PushBody t) Hok'), view_other; cbn; try done; [by rewrite Em|by rewrite lookup_insert_eq].
  - injection H as <-. right; left. exists t. split; [|done].
    rewrite (view_client _ c NotifyAll Hok'), (view_client s c (PushBody t) Hok); cbn; try done. by rewrite lookup_insert_eq.
  - destruct (mutex_ s) eqn:Em; [done|]. injection H as <-. left. split; [|done].
    rewrite (view_client _ c StopSet Hok'), view_other; cbn; try done; [by rewrite Em|by rewrite lookup_insert_eq].
  - injection H as <-. right; right; left. split; [|done]. destruct (inside_client s c _ Hok Hc eq_refl) as (Hm & _).
    unfold view, stopping. cbn. rewrite Hm, Hc, lookup_insert_eq. done.
  - destruct (inside_client s c _ Hok Hc eq_refl) as (Hm & _). pose proof (loop_ok s Hok c Hc) as Hr.
    left. destruct (tasks_ (mgr s)) as [|t rest] eqn:Et; injection H as <-; (split; [|done]).
    + rewrite (view_client _ c NotifyAll Hok'); [|cbn; by rewrite lookup_insert_eq|done|done].
      unfold view, stopping. rewrite Hm, Hc. cbn. by rewrite stopped_mgr.
    + unfold view, stopping. cbn. rewrite Hm, Hc. done.
  - injection H as <-. left. split; [|by destruct (worker s)].
    rewrite (view_client _ c Unlock Hok'), (view_client s c NotifyAll Hok); cbn; try done. by rewrite lookup_insert_eq.
  - injection H as <-. left. split; [|done]. rewrite (view_client s c Unlock Hok), view_other; done.
Qed.

Lemma worker_implements s s' : threads_ok s → worker_step s = Some s' → implements s s'.
Proof.
  intros Hok H. pose proof (worker_step_ok s s' Hok H) as Hok'. pose proof (view_worker s Hok) as Hv. pose proof (worker_inside s Hok) as Hin.
  unfold worker_step, lock in H. destruct (worker s) as [| | | | |[t|]|t|] eqn:Ew; try (specialize (Hv eq_refl); specialize (Hin eq_refl)).
  - destruct (mutex_ s) eqn:Em; [done|]. injection H as <-. left. split; [|done]. rewrite !view_other; cbn; try done. by rewrite Em.
  - left. unfold Pop. rewrite Hv. destruct (tasks_ (mgr s)) as [|t rest] eqn:Et; [destruct (running_ (mgr s))|]; injection H as <-;
      (split; [rewrite view_other; cbn; [done|]; by rewrite ?Hin|]); done.
  - done.
  - destruct (mutex_ s) eqn:Em; [done|]. injection H as <-. left. split; [|done]. rewrite !view_other; cbn; try done. by rewrite Em.
  - do 3 right. unfold Pop. rewrite Hv. destruct (tasks_ (mgr s)) as [|t rest] eqn:Et; [done|]. injection H as <-. exists t, (running_ (mgr s)).
    split; [|done]. rewrite view_other; [done|]. cbn. by rewrite Hin.
  - injection H as <-. left. split; [|done]. by rewrite Hv, view_other.
  - injection H as <-. left. split; [|done]. by rewrite Hv, view_other.
  - injection H as <-. by left.
  - done.
Qed.

Lemma call_implements c pc s s' : threads_ok s → call c pc s = Some s' → implements s s'.
Proof.
  unfold call. intros Hok H. destruct (clients s !! c) eqn:Hc; [done|]. injection H as <-. left. split; [|done].
  unfold view, stopping. cbn. destruct (mutex_ s) as [[|c']|] eqn:Em; [done| |done]. rewrite lookup_insert_ne; [done|]. intros ->.
  apply (owner_ok s Hok) in Em. cbn in Em. by rewrite Hc in Em.
Qed.

(** ** Progress *)

Definition client_rank (pc : client_pc) (q : RpcTaskMgr) : nat :=
  match pc with
  | PushLock _ | StopLock => 0
  | PushBody _ => 3
  | StopSet => 4 + length (tasks_ q)
  | StopLoop => 3 + length (tasks_ q)
  | NotifyAll => 2
  | Unlock => 1
  end.

(** How far the worker is from running the next task, when it is to go on, and
    from its end, when it is to stop. *)
Definition rank (s : threads) : nat :=
  if running_ (mgr s) then
    10 + match worker s with
         | PopLock | Asleep => 7 | Woken => 6 | PopTest => 5 | PopTake => 4 | PopReturn _ => 3 | RunTask _ => 2 | Ended => 0
         end
  else match worker s with
       | PopReturn (Some _) => 9 | RunTask _ => 8 | PopLock | Asleep => 7 | Woken => 6 | PopTest => 5 | PopTake => 4
       | PopReturn None => 1 | Ended => 0
       end.

(** There is something for the worker to do. *)
Definition pressing (s : threads) : Prop := tasks_ (mgr s) ≠ [] ∨ running_ (mgr s) = false ∨ in_hand (worker s) ≠ [].

(** A task was run by a worker that goes on. *)
Definition advanced (s s' : threads) : Prop := running_ (mgr s') = true ∧ (length (ran s) < length (ran s'))%nat.

(** The worker is closer, or where it was. *)
Definition closer (s s' : threads) : Prop :=
  pressing s' ∧ (length (ran s) <= length (ran s'))%nat ∧ ((rank s' < rank s)%nat ∨ worker s' = worker s ∧ (rank s' <= rank s)%nat).

Lemma worker_closer s s' : threads_ok s → worker_step s = Some s' → pressing s → advanced s s' ∨ closer s s' ∧ (rank s' < rank s)%nat.
Proof.
  intros Hok H Hp. pose proof (ended_ok s Hok) as He. unfold worker_step, lock in H. destruct s as [q m w cl ps rs]. unfold pressing, advanced, closer, pressing, rank in *. cbn in *.
  destruct w as [| | | | |[t|]|t|]; cbn in *; try done.
  - destruct m; [done|]. injection H as <-. cbn. right. destruct (running_ q); (split; [split; [done|]|]); lia.
  - destruct (tasks_ q) as [|t rest] eqn:Et; [destruct (running_ q) eqn:Er|]; injection H as <-; cbn.
    + by destruct Hp as [?|[?|?]].
    + right. rewrite Er. split; [split; [by right; left|]|]; lia.
    + right. rewrite Et. destruct (running_ q); (split; [split; [by left|]|]); lia.
  - destruct m; [done|]. injection H as <-. cbn. right. destruct (running_ q); (split; [split; [done|]|]); lia.
  - destruct (tasks_ q) as [|t rest] eqn:Et; [done|]. injection H as <-; cbn. right.
    destruct (running_ q); (split; [split; [by right; (left + right)|]|]); lia.
  - injection H as <-. cbn. right. destruct (running_ q); (split; [split; [done|]|]); lia.
  - injection H as <-. cbn. right. rewrite (He (or_intror eq_refl)) in *. split; [split; [by right; left|]|]; lia.
  - injection H as <-. cbn. rewrite length_app. cbn. destruct (running_ q); [left; split; [done|lia]|]. right.
    split; [split; [by right; left|]|]; lia.
Qed.

Lemma wake_rank s s' : worker s' = wake (worker s) → mgr s' = mgr s → ran s' = ran s → pressing s → closer s s'.
Proof.
  intros Hw Hq Hr Hp. unfold closer, pressing, rank in *. rewrite Hw, Hq, Hr. destruct (worker s) eqn:Ew; cbn in *; (split; [done|]); (split; [done|]);
    destruct (running_ (mgr s)); auto with lia.
Qed.

Lemma client_closer c s s' : threads_ok s → client_step c s = Some s' → pressing s → closer s s'.
Proof.
  intros Hok H Hp. unfold client_step, lock in H. destruct (clients s !! c) as [pc|] eqn:Hc; [|done].
  assert (∀ q, (tasks_ (mgr s) ≠ [] → tasks_ q ≠ [] ∨ running_ q = false) → (running_ (mgr s) = false → running_ q = false) →
    worker s' = worker s → mgr s' = q → ran s' = ran s → closer s s') as Hq.
  { intros q H1 H2 Hw Hq Hr. unfold closer, pressing, rank in *. rewrite Hw, Hq, Hr. split; [destruct Hp as [Hp|[Hp|Hp]]; [destruct (H1 Hp)|..]; auto|]. split; [done|].
    destruct (running_ (mgr s)), (running_ q); destruct (worker s) as [| | | | |[]| |]; first [by auto with lia | by specialize (H2 eq_refl)]. }
  destruct pc as [t|t| | | | |].
  - destruct (mutex_ s); [done|]. injection H as <-. by apply (Hq (mgr s)); auto.
  - injection H as <-. eapply Hq; [..|done|done|done]; cbn; [|done]. intros _. left. by destruct (tasks_ (mgr s)).
  - destruct (mutex_ s); [done|]. injection H as <-. by apply (Hq (mgr s)); auto.
  - injection H as <-. eapply Hq; [..|done|done|done]; cbn; auto.
  - pose proof (loop_ok s Hok c Hc) as Hr. destruct (tasks_ (mgr s)) as [|t rest] eqn:Et; injection H as <-.
    + apply (Hq (mgr s)); auto.
    + eapply Hq; [..|done|done|done]; cbn; auto.
  - injection H as <-. by apply wake_rank.
  - injection H as <-. apply (Hq (mgr s)); auto.
Qed.

Lemma step_closer l s s' : threads_ok s → threads_step l s = Some s' → pressing s → advanced s s' ∨ closer s s'.
Proof.
  intros Hok H Hp. assert (∀ c pc, call c pc s = Some s' → closer s s') as Hcall.
  { unfold call. intros c pc E. destruct (clients s !! c); [done|]. injection E as <-. split; [done|]. split; [done|]. by right. }
  destruct l as [[|c]|c t|c| |]; cbn in H.
  - destruct (worker_closer s s' Hok H Hp) as [?|[? _]]; auto.
  - right. by eapply client_closer.
  - right. by eapply Hcall.
  - right. by eapply Hcall.
  - injection H as <-. right. by apply wake_rank.
  - injection H as <-. right. split; [done|]. split; [done|]. by right.
Qed.

(** A thread that has the mutex is alone with the queue. *)
Lemma inside_stable c pc l s s' : threads_ok s → clients s !! c = Some pc → holds_lock pc = true →
  threads_step l s = Some s' → l ≠ Step (Client c) →
  clients s' !! c = Some pc ∧ mgr s' = mgr s ∧ (worker s ≠ Asleep → worker s' ≠ Asleep).
Proof.
  intros Hok Hc Hh H Hl. destruct (inside_client s c pc Hok Hc Hh) as (Hm & Hw & Hu).
  assert (∀ c' pc', call c' pc' s = Some s' → clients s' !! c = Some pc ∧ mgr s' = mgr s ∧ (worker s ≠ Asleep → worker s' ≠ Asleep)) as Hcall.
  { unfold call. intros c' pc' E. destruct (clients s !! c') eqn:Hc'; [done|]. injection E as <-. cbn. rewrite lookup_insert_ne; [done|congruence]. }
  destruct l as [[|c']|c' t|c'| |]; cbn in H.
  - unfold worker_step, lock in H. rewrite Hm in H. destruct (worker s) as [| | | | |[]| |]; try done. by injection H as <-.
  - unfold client_step, lock in H. rewrite Hm in H. destruct (clients s !! c') as [pc'|] eqn:Hc'; [|done]. destruct (holds_lock pc') eqn:Hh'.
    + destruct Hl. by rewrite (Hu c' pc' Hc' Hh').
    + by destruct pc'.
  - by eapply Hcall.
  - by eapply Hcall.
  - injection H as <-. cbn. split; [done|]. split; [done|]. by destruct (worker s).
  - by injection H as <-.
Qed.

(** Only the worker moves the worker, but for the end of its sleep. *)
Lemma worker_stable l s s' : threads_step l s = Some s' → l ≠ Step Worker → worker s' = worker s ∨ worker s = Asleep.
Proof.
  intros H Hl. destruct l as [[|c]|c t|c| |]; cbn in H.
  - done.
  - unfold client_step, lock in H. destruct (clients s !! c) as [[]|]; try done.
    all: repeat case_match; try done; injection H as <-; cbn; auto. by destruct (worker s); auto.
  - unfold call in H. destruct (clients s !! c); [done|]. injection H as <-. by left.
  - unfold call in H. destruct (clients s !! c); [done|]. injection H as <-. by left.
  - injection H as <-. cbn. destruct (worker s); auto.
  - injection H as <-. by left.
Qed.

(** Tasks are only added to [pushed], and a queue that was stopped stays so. *)
Lemma step_grows l s s' : threads_step l s = Some s' →
  pushed s `prefix_of` pushed s' ∧ (running_ (mgr s) = false → running_ (mgr s') = false).
Proof.
  intros H. destruct l as [[|c]|c t|c| |]; cbn in H.
  - unfold worker_step, lock in H. repeat case_match; try done; by injection H as <-.
  - unfold client_step, lock in H. repeat case_match; try done; injection H as <-; cbn; try done. split; [|done]. by apply prefix_app_r.
  - unfold call in H. by case_match; [|injection H as <-].
  - unfold call in H. by case_match; [|injection H as <-].
  - by injection H as <-.
  - by injection H as <-.
Qed.

(** A run in which every thread that can go on again and again does so: a thread
    takes a step, or there is a moment after which it never can. *)
Record fair_threads (run : nat → threads) (lab : nat → tlabel) : Prop := {
  ft_start : run 0%nat = threads_new;
  ft_step n : threads_step (lab n) (run n) = Some (run (S n));
  ft_fair th n : ∃ m, (n <= m)%nat ∧ (lab m = Step th ∨ ∀ k, (m <= k)%nat → threads_step (Step th) (run k) = None)
}.

Section Fair.
Context (run : nat → threads) (lab : nat → tlabel) (Hrun : fair_threads run lab).

Lemma task_run_ok n : threads_ok (run n).
Proof.
  apply reachable_ok. induction n as [|n IH]; [rewrite (ft_start _ _ Hrun); constructor|]. econstructor; [exact IH|]. apply (ft_step _ _ Hrun).
Qed.

Lemma run_grows n m : (n <= m)%nat → pushed (run n) `prefix_of` pushed (run m) ∧ (running_ (mgr (run n)) = false → running_ (mgr (run m)) = false).
Proof using Hrun.
  intros Hm. induction Hm as [|m Hm [IH1 IH2]]; [done|]. destruct (step_grows _ _ _ (ft_step _ _ Hrun m)) as [H1 H2].
  split; [by etrans|auto].
Qed.

(** What holds until a thread moves holds when it moves first. *)
Lemma until (P : threads → Prop) th n m : (n <= m)%nat → P (run n) →
  (∀ k, P (run k) → lab k ≠ Step th → P (run (S k))) →
  (∃ k, (n <= k < m)%nat ∧ P (run k) ∧ lab k = Step th) ∨ P (run m).
Proof.
  intros Hm Hn Hs. induction Hm as [|m Hm [(k & Hk & H)|IH]]; [by right|left; exists k; split; [lia|done]|].
  assert (Decision (lab m = Step th)) as [He|He].
  { destruct (lab m) as [th'|c t|c| |]; try (right; done). destruct (decide (th' = th)) as [->|]; [by left|right; congruence]. }
  - left. exists m. split; [lia|done].
  - right. by apply Hs.
Qed.

Lemma moves (P : threads → Prop) th n : P (run n) →
  (∀ k, P (run k) → lab k ≠ Step th → P (run (S k))) →
  (∀ k, P (run k) → (∀ j, (k <= j)%nat → lab j ≠ Step th) → ∃ m, (k <= m)%nat ∧ threads_step (Step th) (run m) ≠ None) →
  ∃ m, (n <= m)%nat ∧ P (run m) ∧ lab m = Step th.
Proof.
  intros Hn Hs He. destruct (ft_fair _ _ Hrun th n) as (m & Hm & [Hl|Hd]).
  - destruct (until P th n m Hm Hn Hs) as [(k & Hk & H)|H]; [exists k; split; [lia|done]|eauto].
  - destruct (until P th n m Hm Hn Hs) as [(k & Hk & H)|H]; [exists k; split; [lia|done]|].
    destruct (He m H) as (k & Hk & Hne); [|by destruct Hne; apply Hd].
    intros j Hj El. pose proof (ft_step _ _ Hrun j) as Hst. rewrite El, Hd in Hst by done. done.
Qed.

(** A thread in [Push] or [Stop] leaves the mutex, and it has woken the worker
    unless it was past that. *)
Lemma client_through r : ∀ n c pc, clients (run n) !! c = Some pc → holds_lock pc = true → (client_rank pc (mgr (run n)) <= r)%nat →
  ∃ m, (n <= m)%nat ∧ mutex_ (run m) = None ∧ (pc ≠ Unlock ∨ worker (run n) ≠ Asleep → worker (run m) ≠ Asleep).
Proof using Hrun.
  induction r as [|r IH]; intros n c pc Hc Hh Hr; [by destruct pc; cbn in *; try done; lia|].
  destruct (moves (λ s, clients s !! c = Some pc ∧ mgr s = mgr (run n) ∧ (worker (run n) ≠ Asleep → worker s ≠ Asleep)) (Client c) n)
    as (m & Hm & (Hcm & Hq & Hw) & Hl); [done|..].
  { intros k (Hck & Hqk & Hwk) Hlk. destruct (inside_stable c pc _ _ _ (task_run_ok k) Hck Hh (ft_step _ _ Hrun k) Hlk) as (? & Hq' & Hw').
    split; [done|]. split; [congruence|auto]. }
  { intros k (Hck & Hqk & Hwk) _. exists k. split; [done|]. cbn. unfold client_step. rewrite Hck. destruct pc; try done. by case_match. }
  pose proof (ft_step _ _ Hrun m) as Hs. rewrite Hl in Hs. cbn in Hs. unfold client_step in Hs. rewrite Hcm in Hs.
  assert (∀ pc', clients (run (S m)) !! c = Some pc' → holds_lock pc' = true → (client_rank pc' (mgr (run (S m))) <= r)%nat →
    pc' ≠ Unlock ∨ worker (run (S m)) ≠ Asleep →
    ∃ m', (n <= m')%nat ∧ mutex_ (run m') = None ∧ (pc ≠ Unlock ∨ worker (run n) ≠ Asleep → worker (run m') ≠ Asleep)) as Hnext.
  { intros pc' H1 H2 H3 H4. destruct (IH (S m) c pc' H1 H2 H3) as (m' & ? & ? & H5). exists m'. split; [lia|auto]. }
  destruct pc as [t|t| | | | |]; try done; rewrite ?Hq in *; cbn in Hr.
  - injection Hs as Hs. apply (Hnext NotifyAll); rewrite <- ?Hs; cbn; [by rewrite lookup_insert_eq|done|lia|by left].
  - injection Hs as Hs. apply (Hnext StopLoop); rewrite <- ?Hs; cbn; [by rewrite lookup_insert_eq|done|lia|by left].
  - destruct (tasks_ (mgr (run n))) as [|t rest] eqn:Et; cbn in Hr; injection Hs as Hs.
    + apply (Hnext NotifyAll); rewrite <- ?Hs; cbn; [by rewrite lookup_insert_eq|done|lia|by left].
    + apply (Hnext StopLoop); rewrite <- ?Hs; cbn; [done|done|lia|by left].
  - injection Hs as Hs. apply (Hnext Unlock); rewrite <- ?Hs; cbn; [by rewrite lookup_insert_eq|done|lia|right; by destruct (worker (run m))].
  - injection Hs as Hs. exists (S m). split; [lia|]. rewrite <- Hs. cbn. split; [done|]. intros [?|?]; [done|auto].
Qed.

Lemma mutex_freed n : worker_holds (worker (run n)) = false → ∃ m, (n <= m)%nat ∧ mutex_ (run m) = None.
Proof using Hrun.
  intros Hw. destruct (mutex_ (run n)) as [th|] eqn:Em; [|by exists n].
  apply (owner_ok _ (task_run_ok n)) in Em. destruct th as [|c]; cbn in Em; [congruence|].
  destruct (clients (run n) !! c) as [pc|] eqn:Hc; [|done]. destruct (client_through _ n c pc Hc Em (le_n _)) as (m & ? & ? & _). eauto.
Qed.

Lemma worker_moves n : worker (run n) ≠ Asleep → worker (run n) ≠ Ended →
  ∃ m, (n <= m)%nat ∧ lab m = Step Worker ∧ worker (run m) = worker (run n).
Proof using Hrun.
  intros Ha He. assert (∀ k, worker (run k) = worker (run n) → lab k ≠ Step Worker → worker (run (S k)) = worker (run n)) as Hstay.
  { intros k Hk Hl. destruct (worker_stable _ _ _ (ft_step _ _ Hrun k) Hl); congruence. }
  destruct (moves (λ s, worker s = worker (run n)) Worker n) as (m & ? & ? & ?); [done|done| |eauto].
  intros k Hk Hno. assert (∀ m, (k <= m)%nat → worker (run m) = worker (run n)) as Hall.
  { intros m Hm. induction Hm as [|m Hm IH]; [done|]. apply Hstay; [done|]. by apply Hno. }
  assert ((worker (run k) = PopLock ∨ worker (run k) = Woken) → ∃ m, (k <= m)%nat ∧ threads_step (Step Worker) (run m) ≠ None) as Hlock.
  { intros Hw. destruct (mutex_freed k) as (m & Hm & Hf); [by destruct Hw as [->| ->]|]. exists m. split; [done|].
    cbn. unfold worker_step, lock. rewrite Hf, (Hall m Hm), <- Hk. by destruct Hw as [->| ->]. }
  destruct (worker (run k)) as [| | | | |[t|]|t|] eqn:Ew; try (apply Hlock; by auto); try congruence; exists k; (split; [done|]);
    cbn; unfold worker_step; rewrite Ew; try done.
  - by repeat case_match.
  - pose proof (take_ok _ (task_run_ok k) Ew). by case_match.
Qed.

Lemma sleeper_wakes n : worker (run n) = Asleep → pressing (run n) → ∃ m, (n <= m)%nat ∧ worker (run m) ≠ Asleep.
Proof using Hrun.
  intros Hs Hp. destruct (sleep_ok _ (task_run_ok n) Hs) as [[Ht Hr]|(c & pc & Hc & Hpc)].
  - unfold pressing in Hp. rewrite Hs, Ht, Hr in Hp. by destruct Hp as [?|[?|?]].
  - destruct (client_through _ n c pc Hc ltac:(by destruct Hpc; subst) (le_n _)) as (m & ? & _ & Hw). exists m. split; [done|].
    apply Hw. left. destruct Hpc; by subst.
Qed.

(** Up to [m], a task was run or the worker came closer. *)
Lemma run_closer n m : (n <= m)%nat → pressing (run n) → (∃ k, (n <= k <= m)%nat ∧ advanced (run n) (run k)) ∨ closer (run n) (run m).
Proof using Hrun.
  intros Hm Hp. induction Hm as [|m Hm [(k & Hk & H)|(Hpm & Hr & Hc)]]; [right; split; [done|]; split; [done|by right]|left; exists k; split; [lia|done]|].
  destruct (step_closer _ _ _ (task_run_ok m) (ft_step _ _ Hrun m) Hpm) as [[Ha Hl]|(Hp' & Hr' & Hc')].
  - left. exists (S m). split; [lia|]. split; [done|lia].
  - right. split; [done|]. split; [lia|]. destruct Hc as [?|[<- ?]], Hc' as [?|[-> ?]]; (left; lia) || (right; split; [done|lia]).
Qed.

Lemma task_progress r : ∀ n, (rank (run n) < r)%nat → pressing (run n) → ∃ m, (n <= m)%nat ∧ (worker (run m) = Ended ∨ advanced (run n) (run m)).
Proof using Hrun.
  induction r as [|r IH]; intros n Hr Hp; [lia|].
  assert (∀ m, (n <= m)%nat → closer (run n) (run m) → (rank (run m) < rank (run n))%nat →
    ∃ m', (n <= m')%nat ∧ (worker (run m') = Ended ∨ advanced (run n) (run m'))) as Hnext.
  { intros m Hm (Hpm & Hl & _) Hlt. destruct (IH m ltac:(lia) Hpm) as (m' & Hm' & [?|[Hr' ?]]); exists m'; (split; [lia|]); [by left|].
    right. split; [done|lia]. }
  destruct (worker (run n)) eqn:Ew; try (by exists n; split; [done|left]).
  3: { destruct (sleeper_wakes n Ew Hp) as (m & Hm & Hne). destruct (run_closer n m Hm Hp) as [(k & Hk & Ha)|Hc].
       - exists k. split; [lia|by right].
       - apply (Hnext m Hm Hc). destruct Hc as (_ & _ & [?|[? _]]); congruence || done. }
  all: destruct (worker_moves n) as (m & Hm & Hl & Hwm); [congruence|congruence|];
    destruct (run_closer n m Hm Hp) as [(k & Hk & Ha)|Hc]; [exists k; split; [lia|by right]|];
    pose proof (ft_step _ _ Hrun m) as Hs; rewrite Hl in Hs;
    destruct (worker_closer _ _ (task_run_ok m) Hs (proj1 Hc)) as [[Hrm Ha]|[(Hp' & Hr' & _) Hlt]];
    destruct Hc as (_ & Hrn & Hcc);
    [exists (S m); split; [lia|right; split; [done|lia]]
    |apply (Hnext (S m)); [lia|split; [done|split; [lia|left; lia]]|lia]].
Qed.
End Fair.
End Tasks.
Arguments RpcTaskMgr : clear implicits.
Arguments threads : clear implicits.
Arguments tlabel : clear implicits.
Arguments client_pc : clear implicits.
Arguments worker_pc : clear implicits.

(** C16: Whatever the threads do and in whatever order: seen from outside of the
    mutex each step leaves the queue alone or is one whole [Push], [Stop] or [Pop];
    the worker goes to sleep only when [Pop] has to wait, and it gives up only when
    [Pop] finds that the queue was stopped; and the tasks that were run are the
    first ones that were pushed, in that order, each once. *)
Theorem tasks_atomic {T} l (s s' : threads T) : reachable s → threads_step l s = Some s' → implements s s' ∧ ran s' `prefix_of` pushed s'.
Proof.
  intros Hr H. pose proof (reachable_ok s Hr) as Hok. split.
  - destruct l as [[|c]|c t|c| |]; cbn in H; eauto using worker_implements, client_implements, call_implements.
    + injection H as <-. left. split; [done|]. by destruct (worker s).
    + injection H as <-. by left.
  - pose proof (fifo_ok s' (step_ok l s s' Hok H)) as Hf. destruct (running_ (mgr s')); [|destruct Hf as [rest Hf]]; rewrite Hf; by apply prefix_app_r.
Qed.

(** C17: In every fair run of the threads of a service: a task that was pushed is
    eventually run, unless the queue is stopped; and once it is stopped, [Run]
    returns, so that the thread can be joined.  No wake-up is lost, whenever the
    worker falls asleep. *)
Theorem tasks_eventually_run {T} (run : nat → threads T) lab n : fair_threads run lab →
  (∀ k t, pushed (run n) !! k = Some t → ∃ m, (n <= m)%nat ∧ (ran (run m) !! k = Some t ∨ running_ (mgr (run m)) = false)) ∧
  (running_ (mgr (run n)) = false → ∃ m, (n <= m)%nat ∧ worker (run m) = Ended).
Proof.
  intros Hrun. split.
  - intros k t Hk. remember (S k - length (ran (run n)))%nat as d eqn:Hd. revert n Hk Hd.
    induction d as [d IH] using lt_wf_ind. intros n Hk ->. destruct (running_ (mgr (run n))) eqn:Er; [|by exists n; auto].
    pose proof (fifo_ok _ (task_run_ok run lab Hrun n)) as Hf. rewrite Er in Hf. destruct (decide (k < length (ran (run n)))%nat) as [Hlt|Hge].
    + exists n. split; [done|]. left. by rewrite Hf, lookup_app_l in Hk.
    + destruct (task_progress run lab Hrun _ n (le_n _)) as (m & Hm & [He|[Hr Hl]]).
      { rewrite Hf, lookup_app_r in Hk by lia. unfold pressing. destruct (in_hand (worker (run n))); [|auto]. left. intros E. by rewrite E in Hk. }
      * exists m. split; [done|]. right. apply (ended_ok _ (task_run_ok run lab Hrun m)). by left.
      * destruct (IH (S k - length (ran (run m)))%nat) with (n := m) as (m' & ? & ?); [lia| |done|exists m'; split; [lia|done]].
        eapply prefix_lookup_Some; [exact Hk|]. by apply (run_grows run lab Hrun).
  - intros Hr. destruct (task_progress run lab Hrun _ n (le_n _)) as (m & Hm & [He|[Hr' _]]); [by right; left|eauto|].
    apply (run_grows run lab Hrun n m Hm) in Hr. congruence.
Qed.

(** A run of finitely many steps, after which no thread can go on. *)
Definition script_run {T} (script : list (tlabel T)) (n : nat) : threads T :=
  foldl (λ s l, default s (threads_step l s)) threads_new (take n script).
Definition script_lab {T} (script : list (tlabel T)) (n : nat) : tlabel T := nth n script Idle.

Lemma script_fair {T} (script : list (tlabel T)) :
  forallb (λ n, bool_decide (is_Some (threads_step (script_lab script n) (script_run script n)))) (seq 0 (length script)) = true →
  clients (script_run script (length script)) = ∅ → worker_step (script_run script (length script)) = None →
  fair_threads (script_run script) (script_lab script).
Proof.
  intros Hs Hc Hw. assert (∀ n, (length script <= n)%nat → script_run script n = script_run script (length script)) as Hend.
  { intros n Hn. unfold script_run. by rewrite !take_ge by lia. }
  split; [done|..].
  - intros n. destruct (decide (n < length script)%nat) as [Hn|Hn].
    + rewrite forallb_forall in Hs. specialize (Hs n ltac:(apply in_seq; lia)). apply bool_decide_eq_true in Hs as [s' Hs']. rewrite Hs'. f_equal.
      destruct (lookup_lt_is_Some_2 script n Hn) as [l Hl]. unfold script_lab in Hs'. rewrite (nth_lookup_Some _ _ _ _ Hl) in Hs'.
      unfold script_run at 1. rewrite (take_S_r _ _ _ Hl), foldl_app. cbn. fold (script_run script n). by rewrite Hs'.
    + unfold script_lab. rewrite nth_overflow by lia. rewrite (Hend n), (Hend (S n)) by lia. done.
  - intros th n. exists (Nat.max n (length script)). split; [lia|]. right. intros k Hk. rewrite Hend by lia.
    destruct th as [|c]; cbn; [done|]. unfold client_step. by rewrite Hc, lookup_empty.
Qed.

(** The worker falls asleep, a task is pushed, run, and the worker sleeps again;
    then the queue is stopped. *)
Definition demo_push : list (tlabel Z) :=
  [Step Worker; CallPush 0%nat 7; Step Worker; Step (Client 0%nat); Step (Client 0%nat); Step (Client 0%nat); Step (Client 0%nat);
   Step Worker; Step Worker; Step Worker; Step Worker; Step Worker; Step Worker; Step Worker].
Definition demo_stop : list (tlabel Z) :=
  demo_push ++ [CallStop 1%nat] ++ replicate 5%nat (Step (Client 1%nat)) ++ [Step Worker; Step Worker; Step Worker].

Lemma demo_push_fair : fair_threads (script_run demo_push) (script_lab demo_push).
Proof. by apply script_fair. Qed.

Lemma demo_stop_fair : fair_threads (script_run demo_stop) (script_lab demo_stop).
Proof. by apply script_fair. Qed.

Lemma tasks_eventually_run_witness :
  (∃ m, (5 <= m)%nat ∧ (ran (script_run demo_push m) !! 0%nat = Some 7%Z ∨ running_ (mgr (script_run demo_push m)) = false)) ∧
  (∃ m, (17 <= m)%nat ∧ worker (script_run demo_stop m) = Ended).
Proof.
  split.
  - apply (proj1 (tasks_eventually_run (script_run demo_push) (script_lab demo_push) 5%nat demo_push_fair)). reflexivity.
  - apply (proj2 (tasks_eventually_run (script_run demo_stop) (script_lab demo_stop) 17%nat demo_stop_fair)). reflexivity.
Defined.

Lemma tasks_atomic_witness :
  implements (script_run demo_push 4%nat) (script_run demo_push 5%nat) ∧ ran (script_run demo_push 5%nat) `prefix_of` pushed (script_run demo_push 5%nat).
Proof.
  apply (tasks_atomic (Step (Client 0%nat))); [|reflexivity].
  apply (reach_step (Step (Client 0%nat)) (script_run demo_push 3%nat)); [|reflexivity]. apply (reach_step (Step Worker) (script_run demo_push 2%nat)); [|reflexivity].
  apply (reach_step (CallPush 0%nat 7) (script_run demo_push 1%nat)); [|reflexivity]. apply (reach_step (Step Worker) (script_run demo_push 0%nat)); [apply reach_new|reflexivity].
Defined.
