(* ===== verification/Rpc.v ===== *)
(** * Rpc: calls between services through the proxy

    The proxy of RpcProxyServer/ (its [ConnMgr] and its handlers), the service
    of RpcLib/ (rpc_service.h, rpc_stubs.h) and the system they form.  Packets are
    the messages of RpcServer.proto after the codec; what a packet's bytes are and
    how they arrive is the business of Codec, Framing and Channel, and the task
    queue of a service that of Tasks.  The system moves packets in any order and may lose
    them, so its theorem holds for every schedule of the threads. *)

From S2P Require Import Prelude.
Local Open Scope string_scope.
Local Open Scope list_scope.

(** ** Packets (RpcServer.proto) *)

Record LoginRequest := { login_service_name : string; secure_key : string }.
Record RpcRequest := {
  req_service_name : string; req_requestor : string; req_callback_id : Z;
  request_name : string; request_body : string }.
Record RpcResponse := {
  rsp_service_name : string; rsp_requestor : string; rsp_callback_id : Z;
  response_name : string; response_body : string }.

(** A decoded message; [Other] is a message of another linked-in type. *)
Inductive packet :=
  | Login (r : LoginRequest)
  | Request (r : RpcRequest)
  | Response (r : RpcResponse)
  | Other (type_name : string).

(** rpc_stubs.h *)
Record RpcResult := { res_name : string; res_body : string }.

(** ** ConnMgr (RpcProxyServer/ConnMgr.h)

    A connection is its number: connections alive have different numbers. *)
Record ConnMgr := { name_map_ : gmap Z string; conn_map_ : gmap string Z }.

Definition ConnMgr_new : ConnMgr := {| name_map_ := ∅; conn_map_ := ∅ |}.

Definition ConnMgr_Add (name : string) (conn : Z) (m : ConnMgr) : ConnMgr :=
  {| name_map_ := <[conn := name]> (name_map_ m); conn_map_ := <[name := conn]> (conn_map_ m) |}.

Definition GetName (conn : Z) (m : ConnMgr) : string :=
  match name_map_ m !! conn with
  | Some name => name
  | None => ""
  end.

Definition GetConn (name : string) (m : ConnMgr) : option Z := conn_map_ m !! name.

Definition ConnMgr_Del (conn : Z) (m : ConnMgr) : ConnMgr :=
  let name := GetName conn m in
  if negb (bool_decide (name = ""))
  then {| name_map_ := delete conn (name_map_ m); conn_map_ := delete name (conn_map_ m) |}
  else m.

(** ** The proxy (RpcProxyServer.cpp)

    A handler returns the packets it sends, with their connections.
    [SerializeError] is the serialization of an [RpcError] message. *)
Section Handlers.
Context {M : Type} (SerializeError : string → string) (ParseMessage : string → string → option M).

Definition error_result (text : string) : RpcResult :=
  {| res_name := "RpcServer.RpcError"; res_body := SerializeError text |}.

Definition respond (r : RpcRequest) (res : RpcResult) : RpcResponse :=
  {| rsp_service_name := req_service_name r; rsp_requestor := req_requestor r;
     rsp_callback_id := req_callback_id r; response_name := res_name res; response_body := res_body res |}.

Definition proxy_HandleLoginRequest (conn : Z) (r : LoginRequest) (m : ConnMgr) : ConnMgr * list (Z * packet) :=
  (ConnMgr_Add (login_service_name r) conn m, []).

Definition proxy_HandleRpcRequest (conn : Z) (r : RpcRequest) (m : ConnMgr) : ConnMgr * list (Z * packet) :=
  match GetConn (req_service_name r) m with
  | None => (m, [(conn, Response (respond r (error_result (req_service_name r +:+ " is not online now"))))])
  | Some dst => (m, [(dst, Request r)])
  end.

Definition proxy_HandleRpcResponse (conn : Z) (r : RpcResponse) (m : ConnMgr) : ConnMgr * list (Z * packet) :=
  match GetConn (rsp_requestor r) m with
  | None => (m, [])
  | Some dst => (m, [(dst, Response r)])
  end.

(** The callbacks the constructor registers; other messages go to the empty
    default handler. *)
Definition proxy_OnMessage (conn : Z) (p : packet) (m : ConnMgr) : ConnMgr * list (Z * packet) :=
  match p with
  | Login r => proxy_HandleLoginRequest conn r m
  | Request r => proxy_HandleRpcRequest conn r m
  | Response r => proxy_HandleRpcResponse conn r m
  | Other _ => (m, [])
  end.

Definition proxy_OnDisconnect (conn : Z) (m : ConnMgr) : ConnMgr := ConnMgr_Del conn m.

(** ** A service (rpc_service.h)

    [function_map_] holds the functions registered with [Register];
    [callback_map_] the callbacks of the calls under way, here by number. *)
Record RpcServiceProvider := {
  name_ : string;
  function_map_ : gmap string (M → RpcResult);
  callback_map_ : gmap Z nat
}.

Definition set_callbacks (cbs : gmap Z nat) (p : RpcServiceProvider) : RpcServiceProvider :=
  {| name_ := name_ p; function_map_ := function_map_ p; callback_map_ := cbs |}.

Definition Register (type_name : string) (func : M → RpcResult) (p : RpcServiceProvider) : RpcServiceProvider :=
  {| name_ := name_ p; function_map_ := <[type_name := func]> (function_map_ p);
     callback_map_ := callback_map_ p |}.

Definition OnConnected (p : RpcServiceProvider) (success : bool) : list packet :=
  if success then [Login {| login_service_name := name_ p; secure_key := "test key" |}] else [].

(** [Call]: [ptr] is the address of the new callback object, [cb] its number,
    and the request is [req.GetTypeName()] and [req.SerializeAsString()]. *)
Definition Call (service type_name body : string) (ptr : Z) (cb : nat) (p : RpcServiceProvider)
    : RpcServiceProvider * packet :=
  (set_callbacks (<[ptr := cb]> (callback_map_ p)) p,
   Request {| req_service_name := service; req_requestor := name_ p; req_callback_id := ptr;
              request_name := type_name; request_body := body |}).

(** rpc_stubs.h, [Callback::Execute] *)
Definition Execute (func : M → RpcResult) (r : RpcRequest) : RpcResult :=
  match ParseMessage (request_name r) (request_body r) with
  | Some m => func m
  | None => {| res_name := ""; res_body := "" |}
  end.

(** The handler's guard and the task it pushes. *)
Definition HandleRpcRequest (r : RpcRequest) (p : RpcServiceProvider) : option RpcRequest :=
  if bool_decide (req_service_name r = name_ p) then Some r else None.

Definition run_request (r : RpcRequest) (p : RpcServiceProvider) : RpcResult :=
  match function_map_ p !! request_name r with
  | None => error_result (req_service_name r +:+ " does not provide the `" +:+ request_name r +:+ "' service")
  | Some func => Execute func r
  end.

(** The body of the task. *)
Definition run_task (r : RpcRequest) (p : RpcServiceProvider) : packet :=
  Response (respond r (run_request r p)).

(** The callback is removed and then called. *)
Definition HandleRpcResponse (r : RpcResponse) (p : RpcServiceProvider)
    : RpcServiceProvider * option (nat * RpcResult) :=
  match callback_map_ p !! rsp_callback_id r with
  | None => (p, None)
  | Some cb =>
      (set_callbacks (delete (rsp_callback_id r) (callback_map_ p)) p,
       Some (cb, {| res_name := response_name r; res_body := response_body r |}))
  end.

End Handlers.
Arguments RpcServiceProvider : clear implicits.

(** ** The system

    [soup] holds what is under way: packets of a service on their way to the
    proxy, packets of the proxy on their way to a service, and the requests in a
    service's task queue.  [calls] records every call made and [log] every
    callback called, with the number of its call. *)

Inductive location := ToProxy (conn : Z) | ToService (conn : Z) | Task (conn : Z).

Record call := { caller : Z; c_service : string; c_name : string; c_body : string }.

Section System.
Context {M : Type} (SerializeError : string → string) (ParseMessage : string → string → option M).
Notation provider := (RpcServiceProvider M).

Record system := {
  conn_mgr : ConnMgr;
  services : gmap Z provider;
  soup : list (location * packet);
  calls : list call;
  log : list (Z * nat * RpcResult)
}.

Definition set_soup (l : list (location * packet)) (s : system) : system :=
  {| conn_mgr := conn_mgr s; services := services s; soup := l; calls := calls s; log := log s |}.

Inductive system_step : system → system → Prop :=
  | step_connected i p success s :
      services s !! i = Some p →
      system_step s (set_soup (((λ k, (ToProxy i, k)) <$> OnConnected p success) ++ soup s) s)
  | step_call i p service type_name body ptr p' k s :
      services s !! i = Some p → callback_map_ p !! ptr = None →
      Call service type_name body ptr (length (calls s)) p = (p', k) →
      system_step s
        {| conn_mgr := conn_mgr s; services := <[i := p']> (services s); soup := (ToProxy i, k) :: soup s;
           calls := calls s ++ [{| caller := i; c_service := service; c_name := type_name; c_body := body |}];
           log := log s |}
  | step_proxy i k l1 l2 m outs s :
      soup s = l1 ++ (ToProxy i, k) :: l2 →
      proxy_OnMessage SerializeError i k (conn_mgr s) = (m, outs) →
      system_step s
        {| conn_mgr := m; services := services s;
           soup := ((λ o, (ToService o.1, o.2)) <$> outs) ++ l1 ++ l2; calls := calls s; log := log s |}
  | step_request j r p l1 l2 s :
      soup s = l1 ++ (ToService j, Request r) :: l2 → services s !! j = Some p →
      system_step s
        (set_soup (match HandleRpcRequest r p with Some t => [(Task j, Request t)] | None => [] end ++ l1 ++ l2) s)
  | step_task j r p l1 l2 s :
      soup s = l1 ++ (Task j, Request r) :: l2 → services s !! j = Some p →
      system_step s (set_soup ((ToProxy j, run_task SerializeError ParseMessage r p) :: l1 ++ l2) s)
  | step_response j r p p' called l1 l2 s :
      soup s = l1 ++ (ToService j, Response r) :: l2 → services s !! j = Some p →
      HandleRpcResponse r p = (p', called) →
      system_step s
        {| conn_mgr := conn_mgr s; services := <[j := p']> (services s); soup := l1 ++ l2; calls := calls s;
           log := match called with Some (cb, res) => log s ++ [(j, cb, res)] | None => log s end |}
  | step_lost x l1 l2 s :
      soup s = l1 ++ x :: l2 → system_step s (set_soup (l1 ++ l2) s)
  | step_disconnect i s :
      system_step s
        {| conn_mgr := proxy_OnDisconnect i (conn_mgr s); services := services s; soup := soup s;
           calls := calls s; log := log s |}.

(** The services of a start state have different names and no call under way. *)
Definition start (s : system) : Prop :=
  conn_mgr s = ConnMgr_new ∧ soup s = [] ∧ calls s = [] ∧ log s = [] ∧
  (∀ i p, services s !! i = Some p → callback_map_ p = ∅) ∧
  (∀ i j p q, services s !! i = Some p → services s !! j = Some q → name_ p = name_ q → i = j).

(** The answers a call may get: the proxy says that the service is not online,
    or a service of the name asked for runs the request. *)
Definition answers (svs : gmap Z provider) (c : call) (res : RpcResult) : Prop :=
  res = error_result SerializeError (c_service c +:+ " is not online now") ∨
  ∃ j q r, svs !! j = Some q ∧ name_ q = c_service c ∧
           req_service_name r = c_service c ∧ request_name r = c_name c ∧ request_body r = c_body c ∧
           res = run_request SerializeError ParseMessage r q.

(** ** The invariant *)

(** The call a packet belongs to: the caller's name and callback id. *)
Definition token (x : location * packet) : option (string * Z) :=
  match x.2 with
  | Request r => Some (req_requestor r, req_callback_id r)
  | Response r => Some (rsp_requestor r, rsp_callback_id r)
  | _ => None
  end.

(** [i] is waiting, under callback id [k], for the answer to call [cb]. *)
Definition waits (s : system) (i : Z) (n : string) (k : Z) (cb : nat) (c : call) : Prop :=
  ∃ p, services s !! i = Some p ∧ name_ p = n ∧ callback_map_ p !! k = Some cb ∧
       calls s !! cb = Some c ∧ caller c = i.

Definition packet_ok (s : system) (x : location * packet) : Prop :=
  match x with
  | (pl, Login r) => ∃ i p, pl = ToProxy i ∧ services s !! i = Some p ∧ name_ p = login_service_name r
  | (pl, Request r) =>
      ∃ i cb c, waits s i (req_requestor r) (req_callback_id r) cb c ∧
        req_service_name r = c_service c ∧ request_name r = c_name c ∧ request_body r = c_body c ∧
        match pl with
        | ToProxy j => j = i
        | ToService _ => True
        | Task j => ∃ q, services s !! j = Some q ∧ name_ q = c_service c
        end
  | (pl, Response r) =>
      ∃ i cb c, waits s i (rsp_requestor r) (rsp_callback_id r) cb c ∧
        answers (services s) c {| res_name := response_name r; res_body := response_body r |} ∧
        match pl with ToService j => j = i | _ => True end
  | (_, Other _) => True
  end.

(** The services as the calls see them: their names and functions. *)
Definition same_services (svs svs' : gmap Z provider) : Prop :=
  ∀ j q, svs !! j = Some q →
    ∃ q', svs' !! j = Some q' ∧ name_ q' = name_ q ∧ function_map_ q' = function_map_ q.

Record system_ok (s : system) : Prop := {
  names_distinct : ∀ i j p q, services s !! i = Some p → services s !! j = Some q → name_ p = name_ q → i = j;
  routes_ok : ∀ n i, conn_map_ (conn_mgr s) !! n = Some i → ∃ p, services s !! i = Some p ∧ name_ p = n;
  packets_ok : Forall (packet_ok s) (soup s);
  tokens_once : NoDup (omap token (soup s));
  pending_ok : ∀ i p k cb, services s !! i = Some p → callback_map_ p !! k = Some cb →
    ∃ c, calls s !! cb = Some c ∧ caller c = i;
  pending_once : ∀ i p k k' cb, services s !! i = Some p →
    callback_map_ p !! k = Some cb → callback_map_ p !! k' = Some cb → k = k';
  pending_unlogged : ∀ i p k cb, services s !! i = Some p → callback_map_ p !! k = Some cb →
    cb ∉ (λ e, e.1.2) <$> log s;
  log_once : NoDup ((λ e, e.1.2) <$> log s);
  log_ok : ∀ i cb res, (i, cb, res) ∈ log s →
    ∃ c, calls s !! cb = Some c ∧ caller c = i ∧ answers (services s) c res
}.

(** ** Shared lemmas *)

Lemma answers_mono svs svs' c res : same_services svs svs' → answers svs c res → answers svs' c res.
Proof.
  intros Hsame [->|(j & q & r & Hj & Hn & H1 & H2 & H3 & ->)]; [by left|right].
  destruct (Hsame j q Hj) as (q' & Hj' & Hn' & Hf). exists j, q', r.
  unfold run_request. rewrite Hf. split_and!; congruence.
Qed.

Lemma packet_ok_mono s s' x :
  same_services (services s) (services s') →
  (∀ i n k cb c, token x = Some (n, k) → waits s i n k cb c → waits s' i n k cb c) →
  packet_ok s x → packet_ok s' x.
Proof.
  intros Hsame Hw. destruct x as [pl [r|r|r|n]]; simpl.
  - intros (i & p & -> & Hi & Hn). destruct (Hsame i p Hi) as (p' & Hi' & Hn' & _).
    exists i, p'. split_and!; congruence.
  - intros (i & cb & c & Hwait & H1 & H2 & H3 & Hpl). exists i, cb, c. split_and!; [by apply Hw|done..|].
    destruct pl as [j|j|j]; [done..|]. destruct Hpl as (q & Hq & Hn).
    destruct (Hsame j q Hq) as (q' & Hq' & Hn' & _). exists q'. split; congruence.
  - intros (i & cb & c & Hwait & Ha & Hpl). exists i, cb, c. split_and!; [by apply Hw| |done].
    by eapply answers_mono.
  - done.
Qed.

(** Replacing the callbacks of one service. *)
Lemma same_services_set i p cbs (svs : gmap Z provider) :
  svs !! i = Some p → same_services svs (<[i := set_callbacks cbs p]> svs).
Proof.
  intros Hi j q Hj. destruct (decide (i = j)) as [->|Hne].
  - rewrite lookup_insert_eq. eexists. split; [done|]. simplify_eq. done.
  - rewrite lookup_insert_ne by done. by exists q.
Qed.

Lemma lookup_set i p cbs (svs : gmap Z provider) j q :
  <[i := set_callbacks cbs p]> svs !! j = Some q →
  (j = i ∧ q = set_callbacks cbs p) ∨ (j ≠ i ∧ svs !! j = Some q).
Proof. intros H. apply lookup_insert_Some in H as [[-> <-]|[? ?]]; auto. Qed.

Lemma names_distinct_set i p cbs (svs : gmap Z provider) :
  svs !! i = Some p →
  (∀ a b q r, svs !! a = Some q → svs !! b = Some r → name_ q = name_ r → a = b) →
  ∀ a b q r, <[i := set_callbacks cbs p]> svs !! a = Some q → <[i := set_callbacks cbs p]> svs !! b = Some r →
    name_ q = name_ r → a = b.
Proof.
  intros Hi Hd a b q r Ha Hb He.
  apply lookup_set in Ha as [[-> ->]|[_ Ha]]; apply lookup_set in Hb as [[-> ->]|[_ Hb]]; eauto.
Qed.

Lemma routes_set i p cbs (svs : gmap Z provider) (cm : gmap string Z) :
  svs !! i = Some p →
  (∀ n j, cm !! n = Some j → ∃ q, svs !! j = Some q ∧ name_ q = n) →
  ∀ n j, cm !! n = Some j → ∃ q, <[i := set_callbacks cbs p]> svs !! j = Some q ∧ name_ q = n.
Proof.
  intros Hi Hr n j Hj. destruct (Hr n j Hj) as (q & Hq & Hn).
  destruct (same_services_set i p cbs svs Hi j q Hq) as (q' & ? & ? & _). exists q'. split; congruence.
Qed.

Lemma tokens_replace l1 x l2 outs :
  NoDup (omap token (l1 ++ x :: l2)) →
  omap token outs = [] ∨ omap token outs = omap token [x] →
  NoDup (omap token (outs ++ l1 ++ l2)).
Proof.
  intros Hn Ho. assert (NoDup (omap token [x] ++ omap token (l1 ++ l2))) as Hn'.
  { rewrite <- omap_app. eapply NoDup_Permutation_proper; [|exact Hn].
    apply omap_Permutation. simpl. by rewrite Permutation_middle. }
  rewrite omap_app. destruct Ho as [->| ->]; [|done]. by apply NoDup_app in Hn' as (_ & _ & ?).
Qed.

Lemma packets_rest s l1 x l2 :
  Forall (packet_ok s) (l1 ++ x :: l2) → packet_ok s x ∧ Forall (packet_ok s) (l1 ++ l2).
Proof. rewrite !Forall_app, Forall_cons. tauto. Qed.

(** A step that touches neither services nor calls nor the log. *)
Lemma soup_step_ok s m l :
  system_ok s →
  (∀ n i, conn_map_ m !! n = Some i → ∃ p, services s !! i = Some p ∧ name_ p = n) →
  Forall (packet_ok s) l → NoDup (omap token l) →
  system_ok {| conn_mgr := m; services := services s; soup := l; calls := calls s; log := log s |}.
Proof. intros [] Hr Hp Ht. by split. Qed.

(** The packet [x] of the soup is replaced by [outs]. *)
Lemma replace_step_ok s m l1 x l2 outs :
  system_ok s → soup s = l1 ++ x :: l2 →
  (∀ n i, conn_map_ m !! n = Some i → ∃ p, services s !! i = Some p ∧ name_ p = n) →
  (packet_ok s x → Forall (packet_ok s) outs) →
  omap token outs = [] ∨ omap token outs = omap token [x] →
  system_ok {| conn_mgr := m; services := services s; soup := outs ++ l1 ++ l2; calls := calls s; log := log s |}.
Proof.
  intros Hok Hs Hr Hp Ht. pose proof (packets_ok s Hok) as Hall. pose proof (tokens_once s Hok) as Hnd.
  rewrite Hs in Hall, Hnd. apply packets_rest in Hall as [Hx Hall].
  apply soup_step_ok; [done|done| |by eapply tokens_replace]. apply Forall_app. auto.
Qed.

(** ** Every step keeps the invariant *)

Lemma connected_ok i p success s :
  system_ok s → services s !! i = Some p →
  system_ok (set_soup (((λ k, (ToProxy i, k)) <$> OnConnected p success) ++ soup s) s).
Proof.
  intros Hok Hi. apply soup_step_ok; [done|apply Hok| |].
  - apply Forall_app. split; [|apply Hok]. destruct success; [|constructor].
    constructor; [|constructor]. by exists i, p.
  - destruct success; apply Hok.
Qed.

Lemma Del_routes i m n j : conn_map_ (ConnMgr_Del i m) !! n = Some j → conn_map_ m !! n = Some j.
Proof.
  unfold ConnMgr_Del. destruct (negb _); [|done]. intros H. simpl in H. by apply lookup_delete_Some in H as [_ H].
Qed.

Lemma disconnect_ok i s :
  system_ok s →
  system_ok {| conn_mgr := proxy_OnDisconnect i (conn_mgr s); services := services s; soup := soup s;
               calls := calls s; log := log s |}.
Proof.
  intros Hok. apply soup_step_ok; [done| |apply Hok..].
  intros n j Hj. apply Del_routes in Hj. by apply Hok.
Qed.

(** The proxy's handlers keep the routes and move a packet to where it belongs. *)
Lemma proxy_ok i k l1 l2 m outs s :
  system_ok s → soup s = l1 ++ (ToProxy i, k) :: l2 →
  proxy_OnMessage SerializeError i k (conn_mgr s) = (m, outs) →
  system_ok {| conn_mgr := m; services := services s;
    soup := ((λ o, (ToService o.1, o.2)) <$> outs) ++ l1 ++ l2; calls := calls s; log := log s |}.
Proof.
  intros Hok Hs Hp. pose proof (packets_ok s Hok) as Hall. rewrite Hs in Hall.
  apply packets_rest in Hall as [Hx _].
  destruct k as [r|r|r|n]; simpl in Hp.
  - destruct Hx as (i' & p & [= <-] & Hi & Hn). unfold proxy_HandleLoginRequest in Hp. simplify_eq.
    eapply replace_step_ok; [done..| | |by left]; [|by constructor].
    intros n j Hj. simpl in Hj. apply lookup_insert_Some in Hj as [[<- <-]|[_ Hj]]; [by exists p|by apply Hok].
  - unfold proxy_HandleRpcRequest, GetConn in Hp.
    destruct (conn_map_ (conn_mgr s) !! req_service_name r) as [dst|] eqn:Hc; simplify_eq.
    + eapply replace_step_ok; [done..|apply Hok| |by right]. intros _. constructor; [|constructor].
      destruct Hx as (i' & cb & c & Hw & H1 & H2 & H3 & _). by exists i', cb, c.
    + eapply replace_step_ok; [done..|apply Hok| |by right]. intros _. constructor; [|constructor].
      destruct Hx as (i' & cb & c & Hw & H1 & H2 & H3 & Hpl). exists i', cb, c. split_and!; [done| |done].
      left. simpl. by rewrite H1.
  - unfold proxy_HandleRpcResponse, GetConn in Hp.
    destruct (conn_map_ (conn_mgr s) !! rsp_requestor r) as [dst|] eqn:Hc; simplify_eq.
    + eapply replace_step_ok; [done..|apply Hok| |by right]. intros _. constructor; [|constructor].
      destruct Hx as (i' & cb & c & Hw & Ha & _). exists i', cb, c. split_and!; [done..|]. simpl.
      destruct Hw as (p & Hi & Hn & _). destruct (routes_ok s Hok _ _ Hc) as (q & Hq & Hnq).
      eapply (names_distinct s Hok); [done..|congruence].
    + eapply replace_step_ok; [done..|apply Hok| |by left]. by constructor.
  - simplify_eq. eapply replace_step_ok; [done..|apply Hok| |by left]. by constructor.
Qed.

Lemma request_ok j r p l1 l2 s :
  system_ok s → soup s = l1 ++ (ToService j, Request r) :: l2 → services s !! j = Some p →
  system_ok (set_soup (match HandleRpcRequest r p with Some t => [(Task j, Request t)] | None => [] end ++ l1 ++ l2) s).
Proof.
  intros Hok Hs Hj. eapply replace_step_ok; [done..|apply Hok| |].
  - intros (i & cb & c & Hw & H1 & H2 & H3 & _). unfold HandleRpcRequest. case_bool_decide as Hn; [|constructor].
    constructor; [|constructor]. exists i, cb, c. split_and!; [done..|]. exists p. split; congruence.
  - unfold HandleRpcRequest. case_bool_decide; [by right|by left].
Qed.

Lemma task_ok j r p l1 l2 s :
  system_ok s → soup s = l1 ++ (Task j, Request r) :: l2 → services s !! j = Some p →
  system_ok (set_soup ((ToProxy j, run_task SerializeError ParseMessage r p) :: l1 ++ l2) s).
Proof.
  intros Hok Hs Hj. change (?x :: l1 ++ l2) with ([x] ++ l1 ++ l2).
  eapply replace_step_ok; [done..|apply Hok| |by right].
  intros (i & cb & c & Hw & H1 & H2 & H3 & q & Hq & Hn). constructor; [|constructor].
  exists i, cb, c. split_and!; [done| |done]. right. exists j, q, r. simplify_eq. split_and!; try done.
  simpl. by destruct (run_request _ _ _ _).
Qed.

Lemma lost_ok x l1 l2 s : system_ok s → soup s = l1 ++ x :: l2 → system_ok (set_soup (l1 ++ l2) s).
Proof.
  intros Hok Hs. apply (replace_step_ok s (conn_mgr s) l1 x l2 []); [done..|apply Hok| |by left]. by constructor.
Qed.

Lemma token_waits s x n k : packet_ok s x → token x = Some (n, k) → ∃ i cb c, waits s i n k cb c.
Proof.
  destruct x as [pl [r|r|r|m]]; simpl; [done| | |done].
  - intros (i & cb & c & Hw & _) [= <- <-]. eauto.
  - intros (i & cb & c & Hw & _) [= <- <-]. eauto.
Qed.

(** A callback id that is not in use has no packet under way. *)
Lemma fresh_token i p ptr s :
  system_ok s → services s !! i = Some p → callback_map_ p !! ptr = None →
  (name_ p, ptr) ∉ omap token (soup s).
Proof.
  intros Hok Hi Hptr Hin. apply list_elem_of_omap in Hin as (x & Hx & Htok).
  pose proof (packets_ok s Hok) as Hall. rewrite Forall_forall in Hall.
  destruct (token_waits s x _ _ (Hall x Hx) Htok) as (j & cb & c & q & Hq & Hn & Hcb & _).
  assert (j = i) as -> by (eapply (names_distinct s Hok); [done..|congruence]). congruence.
Qed.

Lemma waits_call i p ptr c0 s j n k cb c l :
  services s !! i = Some p → callback_map_ p !! ptr = None → waits s j n k cb c →
  waits {| conn_mgr := conn_mgr s;
           services := <[i := set_callbacks (<[ptr := length (calls s)]> (callback_map_ p)) p]> (services s);
           soup := l; calls := calls s ++ [c0]; log := log s |} j n k cb c.
Proof.
  intros Hi Hptr (q & Hq & Hn & Hcb & Hc & Hca). simpl.
  assert ((calls s ++ [c0]) !! cb = Some c) as Hc' by (by apply lookup_app_l_Some).
  destruct (decide (j = i)) as [->|Hne].
  - simplify_eq. exists (set_callbacks (<[ptr := length (calls s)]> (callback_map_ p)) p).
    simpl. rewrite lookup_insert_eq. split_and!; [done..| |done|done].
    rewrite lookup_insert_ne; [done|]. intros ->. congruence.
  - exists q. simpl. by rewrite lookup_insert_ne.
Qed.

Lemma call_ok i p service type_name body ptr p' k s :
  system_ok s → services s !! i = Some p → callback_map_ p !! ptr = None →
  Call service type_name body ptr (length (calls s)) p = (p', k) →
  system_ok
    {| conn_mgr := conn_mgr s; services := <[i := p']> (services s); soup := (ToProxy i, k) :: soup s;
       calls := calls s ++ [{| caller := i; c_service := service; c_name := type_name; c_body := body |}];
       log := log s |}.
Proof.
  intros Hok Hi Hptr [= <- <-].
  assert (∀ cb c, calls s !! cb = Some c → cb < length (calls s))%nat as Hlt
    by (intros cb c Hc; by eapply lookup_lt_Some).
  pose proof (same_services_set i p (<[ptr := length (calls s)]> (callback_map_ p)) (services s) Hi) as Hsame.
  split; cbn [services conn_mgr soup calls log].
  - eapply names_distinct_set; [done|apply Hok].
  - eapply routes_set; [done|apply Hok].
  - constructor.
    + exists i, (length (calls s)), {| caller := i; c_service := service; c_name := type_name; c_body := body |}.
      split_and!; [|done..].
      eexists. cbn [services calls]. rewrite lookup_insert_eq. split; [done|]. split; [done|].
      split; [by simpl; rewrite lookup_insert_eq|]. by rewrite lookup_app_r, Nat.sub_diag by done.
    + eapply Forall_impl; [apply Hok|]. intros x Hx. eapply packet_ok_mono; [done| |exact Hx].
      intros j n k cb c _ Hw. by apply waits_call.
  - simpl. constructor; [by apply (fresh_token i p)|apply Hok].
  - intros j q k cb Hq Hk. apply lookup_set in Hq as [[-> ->]|[_ Hq]].
    + simpl in Hk. apply lookup_insert_Some in Hk as [[<- <-]|[_ Hk]].
      * eexists. by rewrite lookup_app_r, Nat.sub_diag by done.
      * destruct (pending_ok s Hok _ _ _ _ Hi Hk) as (c & ? & ?). exists c. split; [by apply lookup_app_l_Some|done].
    + destruct (pending_ok s Hok _ _ _ _ Hq Hk) as (c & ? & ?). exists c. split; [by apply lookup_app_l_Some|done].
  - intros j q k k' cb Hq Hk Hk'. apply lookup_set in Hq as [[-> ->]|[_ Hq]]; [|by eapply (pending_once s Hok)].
    simpl in Hk, Hk'.
    apply lookup_insert_Some in Hk as [[<- <-]|[_ Hk]]; apply lookup_insert_Some in Hk' as [[<- Hcb]|[_ Hk']].
    + done.
    + destruct (pending_ok s Hok _ _ _ _ Hi Hk') as (c & Hc & _). apply Hlt in Hc. lia.
    + destruct (pending_ok s Hok _ _ _ _ Hi Hk) as (c & Hc & _). apply Hlt in Hc. lia.
    + by eapply (pending_once s Hok).
  - intros j q k cb Hq Hk. apply lookup_set in Hq as [[-> ->]|[_ Hq]]; [|by eapply (pending_unlogged s Hok)].
    simpl in Hk. apply lookup_insert_Some in Hk as [[<- <-]|[_ Hk]]; [|by eapply (pending_unlogged s Hok)].
    intros Hin. apply list_elem_of_fmap in Hin as ([[a b] res] & He & Hin). simpl in He.
    destruct (log_ok s Hok _ _ _ Hin) as (c & Hc & _). apply Hlt in Hc. lia.
  - apply Hok.
  - intros j cb res Hin. destruct (log_ok s Hok _ _ _ Hin) as (c & Hc & Hj & Ha). exists c.
    split_and!; [by apply lookup_app_l_Some|done|]. by eapply answers_mono.
Qed.

(** Removing a callback leaves the other calls waiting. *)
Lemma waits_delete i p k0 s lg l j n k cb c :
  services s !! i = Some p → (n, k) ≠ (name_ p, k0) → waits s j n k cb c →
  waits {| conn_mgr := conn_mgr s; services := <[i := set_callbacks (delete k0 (callback_map_ p)) p]> (services s);
           soup := l; calls := calls s; log := lg |} j n k cb c.
Proof.
  intros Hi Hne (q & Hq & Hn & Hcb & Hc & Hca). destruct (decide (j = i)) as [->|Hij].
  - simplify_eq. exists (set_callbacks (delete k0 (callback_map_ p)) p). cbn [services calls].
    rewrite lookup_insert_eq. split_and!; [done..| |done|done].
    simpl. rewrite lookup_delete_ne; [done|]. intros ->. by apply Hne.
  - exists q. cbn [services calls]. by rewrite lookup_insert_ne.
Qed.

Lemma other_tokens l1 x l2 t y :
  NoDup (omap token (l1 ++ x :: l2)) → token x = Some t → y ∈ l1 ++ l2 → token y ≠ Some t.
Proof.
  intros Hn Hx Hy Ht. assert (t ∈ omap token (l1 ++ l2)) as Hin by (apply list_elem_of_omap; eauto).
  rewrite omap_app in Hn, Hin. simpl in Hn. rewrite Hx in Hn.
  apply NoDup_app in Hn as (_ & Hd & Hn). apply elem_of_app in Hin as [Hin|Hin].
  - apply (Hd t Hin). by left.
  - by apply NoDup_cons in Hn as [? _].
Qed.

Lemma response_ok j r p p' called l1 l2 s :
  system_ok s → soup s = l1 ++ (ToService j, Response r) :: l2 → services s !! j = Some p →
  HandleRpcResponse r p = (p', called) →
  system_ok
    {| conn_mgr := conn_mgr s; services := <[j := p']> (services s); soup := l1 ++ l2; calls := calls s;
       log := match called with Some (cb, res) => log s ++ [(j, cb, res)] | None => log s end |}.
Proof.
  intros Hok Hs Hj Hh. pose proof (packets_ok s Hok) as Hall. pose proof (tokens_once s Hok) as Hnd.
  rewrite Hs in Hall, Hnd. apply packets_rest in Hall as [(i & cb & c & Hw & Ha & ->) Hall].
  destruct Hw as (q & Hq & Hn & Hcb & Hc & Hca). assert (q = p) as -> by congruence.
  unfold HandleRpcResponse in Hh. rewrite Hcb in Hh. injection Hh as <- <-.
  pose proof (same_services_set i p (delete (rsp_callback_id r) (callback_map_ p)) (services s) Hj) as Hsame.
  assert (∀ a b k e, <[i:=set_callbacks (delete (rsp_callback_id r) (callback_map_ p)) p]> (services s) !! a = Some b →
    callback_map_ b !! k = Some e → ∃ b', services s !! a = Some b' ∧ callback_map_ b' !! k = Some e ∧ e ≠ cb) as Hold.
  { intros a b k e Hb Hk. apply lookup_set in Hb as [[-> ->]|[Hne Hb]].
    - simpl in Hk. apply lookup_delete_Some in Hk as [Hne Hk]. exists p. split_and!; [done..|].
      intros ->. apply Hne. by eapply (pending_once s Hok).
    - exists b. split_and!; [done..|]. intros ->. destruct (pending_ok s Hok _ _ _ _ Hb Hk) as (c' & ? & ?).
      apply Hne. congruence. }
  split; cbn [services conn_mgr soup calls log].
  - eapply names_distinct_set; [done|apply Hok].
  - eapply routes_set; [done|apply Hok].
  - rewrite Forall_forall in Hall |- *. intros x Hx. eapply packet_ok_mono; [done| |by apply Hall].
    intros a n k e c' Htok Hwa. apply waits_delete; [done| |done]. intros [= -> ->].
    eapply other_tokens; [exact Hnd|reflexivity|exact Hx|]. by rewrite Htok, Hn.
  - eapply (tokens_replace l1 _ l2 []); [exact Hnd|by left].
  - intros a b k e Hb Hk. destruct (Hold a b k e Hb Hk) as (b' & Hb' & Hk' & _). by eapply (pending_ok s Hok).
  - intros a b k k' e Hb Hk Hk'. destruct (Hold a b k e Hb Hk) as (b1 & Hb1 & Hk1 & _).
    destruct (Hold a b k' e Hb Hk') as (b2 & Hb2 & Hk2 & _). simplify_eq. by eapply (pending_once s Hok).
  - intros a b k e Hb Hk. destruct (Hold a b k e Hb Hk) as (b' & Hb' & Hk' & Hne).
    rewrite fmap_app, not_elem_of_app. split; [by eapply (pending_unlogged s Hok)|]. set_solver.
  - rewrite fmap_app. apply NoDup_app. split_and!; [apply Hok| |apply NoDup_singleton].
    intros e He1 He2. apply list_elem_of_singleton in He2 as ->. by eapply (pending_unlogged s Hok).
  - intros a e res Hin. apply elem_of_app in Hin as [Hin|Hin].
    + destruct (log_ok s Hok _ _ _ Hin) as (c' & ? & ? & ?). exists c'. split_and!; [done..|]. by eapply answers_mono.
    + apply list_elem_of_singleton in Hin as [= -> -> ->]. exists c. split_and!; [done..|]. by eapply answers_mono.
Qed.

Lemma system_step_ok s s' : system_step s s' → system_ok s → system_ok s'.
Proof.
  intros Hstep Hok. destruct Hstep; eauto using connected_ok, call_ok, proxy_ok, request_ok, task_ok, response_ok, lost_ok, disconnect_ok.
Qed.

Lemma start_ok s : start s → system_ok s.
Proof.
  intros (Hm & Hs & Hc & Hl & Hcb & Hn). split; rewrite ?Hm, ?Hs, ?Hc, ?Hl; try done; try constructor.
  - intros i p k cb Hi Hk. rewrite (Hcb i p Hi) in Hk. by rewrite lookup_empty in Hk.
  - intros i p k k' cb Hi Hk. rewrite (Hcb i p Hi) in Hk. by rewrite lookup_empty in Hk.
  - intros i p k cb Hi Hk. rewrite (Hcb i p Hi) in Hk. by rewrite lookup_empty in Hk.
  - intros i cb res Hin. by apply elem_of_nil in Hin.
Qed.

(** C10: In every run of services with different names and a proxy, whatever the
    order of the packets and tasks, with packets lost and connections dropped:
    a callback is called at most once for each call; it is called at the
    service that made the call; and its argument is the error that the service
    asked for is not online, or what the service of that name computed from the
    request of this very call (its registered function, or its error). *)
Theorem rpc_answers_calls s0 s :
  start s0 → rtc system_step s0 s →
  NoDup ((λ e, e.1.2) <$> log s) ∧
  ∀ i cb res, (i, cb, res) ∈ log s →
    ∃ c, calls s !! cb = Some c ∧ caller c = i ∧ answers (services s) c res.
Proof.
  intros H0 Hr. assert (system_ok s) as Hok.
  { apply start_ok in H0. revert H0. induction Hr; eauto using system_step_ok. }
  split; apply Hok.
Qed.

End System.

(** ** A run: service 1 ("shop") calls service 2 ("bank") *)

Definition demo_error (text : string) : string := text.
Definition demo_parse (n body : string) : option string :=
  if bool_decide (n = "Pay") then Some body else None.
Definition demo_pay (m : string) : RpcResult := {| res_name := "Paid"; res_body := m |}.

Definition demo_services : gmap Z (RpcServiceProvider string) :=
  {[ 1%Z := {| name_ := "shop"; function_map_ := ∅; callback_map_ := ∅ |};
     2%Z := Register "Pay" demo_pay {| name_ := "bank"; function_map_ := ∅; callback_map_ := ∅ |} ]}.

Definition demo : system :=
  {| conn_mgr := ConnMgr_new; services := demo_services; soup := []; calls := []; log := [] |}.

Lemma demo_start : start demo.
Proof.
  repeat split.
  - intros i p Hi. unfold demo, demo_services in Hi. simpl in Hi. apply lookup_insert_Some in Hi as [[_ <-]|[_ Hi]]; [done|].
    by apply lookup_singleton_Some in Hi as [_ <-].
  - intros i j p q Hi Hj. unfold demo, demo_services in Hi, Hj. simpl in Hi, Hj.
    apply lookup_insert_Some in Hi as [[<- <-]|[_ Hi]]; [|apply lookup_singleton_Some in Hi as [<- <-]];
    (apply lookup_insert_Some in Hj as [[<- <-]|[_ Hj]]; [|apply lookup_singleton_Some in Hj as [<- <-]]); done.
Qed.

Lemma demo_run :
  ∃ s, rtc (system_step demo_error demo_parse) demo s ∧
       log s = [(1%Z, 0%nat, {| res_name := "Paid"; res_body := "ten" |})].
Proof.
  eexists. split; [|shelve].
  eapply rtc_l; [eapply (step_connected _ _ 1 _ true); reflexivity|].
  eapply rtc_l; [eapply (step_proxy _ _ 1 _ [] []); reflexivity|].
  eapply rtc_l; [eapply (step_connected _ _ 2 _ true); reflexivity|].
  eapply rtc_l; [eapply (step_proxy _ _ 2 _ [] []); reflexivity|].
  eapply rtc_l; [eapply (step_call _ _ 1 _ "bank" "Pay" "ten" 4096); reflexivity|].
  eapply rtc_l; [eapply (step_proxy _ _ 1 _ [] []); reflexivity|].
  eapply rtc_l; [eapply (step_request _ _ 2 _ _ [] []); reflexivity|].
  eapply rtc_l; [eapply (step_task _ _ 2 _ _ [] []); reflexivity|].
  eapply rtc_l; [eapply (step_proxy _ _ 2 _ [] []); reflexivity|].
  eapply rtc_l; [eapply (step_response _ _ 1 _ _ _ _ [] []); reflexivity|].
  apply rtc_refl.
  Unshelve. reflexivity.
Qed.

Lemma rpc_answers_calls_witness :
  ∃ s, log s = [(1%Z, 0%nat, {| res_name := "Paid"; res_body := "ten" |})] ∧
  NoDup ((λ e, e.1.2) <$> log s) ∧
  ∀ i cb res, (i, cb, res) ∈ log s →
    ∃ c, calls s !! cb = Some c ∧ caller c = i ∧ answers demo_error demo_parse (services s) c res.
Proof.
  destruct demo_run as (s & Hr & Hl). exists s. split; [exact Hl|].
  exact (rpc_answers_calls demo_error demo_parse demo s demo_start Hr).
Defined.

(** [ConnMgr::Add] lets a second connection take a name that is in use,
    and [Del] of the first one then removes the name: the service whose
    connection is still alive can no longer be reached. *)
Theorem duplicate_login_unreachable name c1 c2 m :
  name ≠ "" → c1 ≠ c2 →
  let m' := ConnMgr_Add name c2 (ConnMgr_Add name c1 m) in
  GetConn name m' = Some c2 ∧
  GetConn name (ConnMgr_Del c1 m') = None ∧ GetName c2 (ConnMgr_Del c1 m') = name.
Proof.
  intros Hn Hc m'. unfold GetConn. split; [apply lookup_insert_eq|].
  unfold ConnMgr_Del. assert (GetName c1 m' = name) as ->.
  { unfold GetName, m'. simpl. by rewrite lookup_insert_ne, lookup_insert_eq by done. }
  rewrite bool_decide_eq_false_2 by done. simpl. split; [apply lookup_delete_eq|].
  unfold GetName. simpl. by rewrite lookup_delete_ne, lookup_insert_eq by done.
Qed.

Lemma duplicate_login_unreachable_witness :
  let m' := ConnMgr_Add "bank" 2 (ConnMgr_Add "bank" 1 ConnMgr_new) in
  GetConn "bank" m' = Some 2%Z ∧
  GetConn "bank" (ConnMgr_Del 1 m') = None ∧ GetName 2 (ConnMgr_Del 1 m') = "bank".
Proof. apply (duplicate_login_unreachable "bank" 1 2 ConnMgr_new); done. Defined.
