(* ===== verification/RpcLive.v ===== *)
(** * RpcLive: every call between services is answered

    The system of Rpc without losses and disconnections, and with a schedule that
    handles every packet and every task some time.  That a schedule does so is what
    [Channel] and [Tasks] show of the connections and of the task queues. *)

From S2P Require Import Prelude Rpc.
Local Open Scope string_scope.
Local Open Scope list_scope.

#[export] Instance login_eq_dec : EqDecision LoginRequest.
Proof. solve_decision. Defined.
#[export] Instance request_eq_dec : EqDecision RpcRequest.
Proof. solve_decision. Defined.
#[export] Instance response_eq_dec : EqDecision RpcResponse.
Proof. solve_decision. Defined.
#[export] Instance packet_eq_dec : EqDecision packet.
Proof. solve_decision. Defined.
#[export] Instance location_eq_dec : EqDecision location.
Proof. solve_decision. Defined.

Section Live.
Context {M : Type} (SerializeError : string → string) (ParseMessage : string → string → option M).
Notation provider := (RpcServiceProvider M).
Notation system := (Rpc.system (M := M)).
Notation system_step := (system_step SerializeError ParseMessage).
Notation parcel := (location * packet)%type.

(** ** Runs *)

(** The packet or task [x] is taken out of the soup and handled. *)
Inductive handled : parcel → system → system → Prop :=
  | handled_proxy i k l1 l2 m outs s :
      soup s = l1 ++ (ToProxy i, k) :: l2 → proxy_OnMessage SerializeError i k (conn_mgr s) = (m, outs) →
      handled (ToProxy i, k) s
        {| conn_mgr := m; services := services s; soup := ((λ o, (ToService o.1, o.2)) <$> outs) ++ l1 ++ l2; calls := calls s; log := log s |}
  | handled_request j r p l1 l2 s :
      soup s = l1 ++ (ToService j, Request r) :: l2 → services s !! j = Some p →
      handled (ToService j, Request r) s
        (set_soup (match HandleRpcRequest r p with Some t => [(Rpc.Task j, Request t)] | None => [] end ++ l1 ++ l2) s)
  | handled_task j r p l1 l2 s :
      soup s = l1 ++ (Rpc.Task j, Request r) :: l2 → services s !! j = Some p →
      handled (Rpc.Task j, Request r) s (set_soup ((ToProxy j, run_task SerializeError ParseMessage r p) :: l1 ++ l2) s)
  | handled_response j r p p' called l1 l2 s :
      soup s = l1 ++ (ToService j, Response r) :: l2 → services s !! j = Some p → HandleRpcResponse r p = (p', called) →
      handled (ToService j, Response r) s
        {| conn_mgr := conn_mgr s; services := <[j := p']> (services s); soup := l1 ++ l2; calls := calls s;
           log := match called with Some (cb, res) => log s ++ [(j, cb, res)] | None => log s end |}.

(** What happens next: a packet is handled, a service is connected or makes a
    call, or something else. *)
Inductive rpc_label := LHandle (x : parcel) | LConnected (i : Z) | LCall (i : Z) | LOther.

Inductive rpc_good : rpc_label → system → system → Prop :=
  | good_handle x s s' : handled x s s' → rpc_good (LHandle x) s s'
  | good_connected i p success s :
      services s !! i = Some p → rpc_good (LConnected i) s (set_soup (((λ k, (ToProxy i, k)) <$> OnConnected p success) ++ soup s) s)
  | good_call i p service type_name body ptr p' k s :
      services s !! i = Some p → callback_map_ p !! ptr = None → Call service type_name body ptr (length (calls s)) p = (p', k) →
      rpc_good (LCall i) s
        {| conn_mgr := conn_mgr s; services := <[i := p']> (services s); soup := (ToProxy i, k) :: soup s;
           calls := calls s ++ [{| caller := i; c_service := service; c_name := type_name; c_body := body |}]; log := log s |}
  | good_other s : rpc_good LOther s s.

Record fair_rpc (run : nat → system) (lab : nat → rpc_label) : Prop := {
  fr_start : start (run 0%nat);
  fr_step n : rpc_good (lab n) (run n) (run (S n));
  fr_handled n x : x ∈ soup (run n) → ∃ m, (n <= m)%nat ∧ lab m = LHandle x
}.

Lemma rpc_good_step l s s' : rpc_good l s s' → s' = s ∨ system_step s s'.
Proof.
  intros [x s1 s2 []|i p success s1 Hi|i p service type_name body ptr p' k s1 Hi Hp Hc|s1]; [right..|by left].
  - by eapply step_proxy.
  - by eapply step_request.
  - by eapply step_task.
  - by eapply step_response.
  - by eapply step_connected.
  - by eapply step_call.
Qed.

Lemma rpc_good_ok l s s' : rpc_good l s s' → system_ok SerializeError ParseMessage s → system_ok SerializeError ParseMessage s'.
Proof. intros Hg Hok. destruct (rpc_good_step l s s' Hg) as [->|Hs]; [done|]. by eapply system_step_ok. Qed.

(** ** Following one call *)

(** The stages of the packet of a call, and how many are left. *)
Definition stage (s : system) (i : Z) (x : parcel) : Prop :=
  match x with
  | (ToProxy j, Request _) => j = i
  | (ToService j, Request r) => ∃ q, services s !! j = Some q ∧ name_ q = req_service_name r
  | (Rpc.Task _, Request _) | (ToProxy _, Response _) => True
  | (ToService j, Response _) => j = i
  | _ => False
  end.

Definition stages_left (x : parcel) : nat :=
  match x with
  | (ToProxy _, Request _) => 4
  | (ToService _, Request _) => 3
  | (Rpc.Task _, Request _) => 2
  | (ToProxy _, Response _) => 1
  | _ => 0
  end.

(** [x] belongs to the call [cb] of service [i], which waits under [n] and [k] and
    whose login the proxy has handled. *)
Record follows (i : Z) (n : string) (k : Z) (cb : nat) (c : call) (s : system) (x : parcel) : Prop := {
  fo_ok : system_ok SerializeError ParseMessage s;
  fo_in : x ∈ soup s;
  fo_token : token x = Some (n, k);
  fo_waits : waits s i n k cb c;
  fo_route : GetConn n (conn_mgr s) = Some i;
  fo_stage : stage s i x
}.

Lemma handled_parts x s s' : handled x s s' → ∃ l1 l2 outs, soup s = l1 ++ x :: l2 ∧ soup s' = outs ++ l1 ++ l2.
Proof.
  intros [i k l1 l2 m outs s1 E Hp|j r p l1 l2 s1 E Hj|j r p l1 l2 s1 E Hj|j r p p' called l1 l2 s1 E Hj Hr]; exists l1, l2.
  - by eexists.
  - by eexists.
  - by exists [(ToProxy j, run_task SerializeError ParseMessage r p)].
  - by exists [].
Qed.

Lemma soup_stays l s s' x : rpc_good l s s' → l ≠ LHandle x → x ∈ soup s → x ∈ soup s'.
Proof.
  intros [y s1 s2 Hh|i p success s1 Hi|i p service type_name body ptr p' k s1 Hi Hp Hc|s1] Hl Hx; [|apply elem_of_app; by right|by right|done].
  destruct (handled_parts _ _ _ Hh) as (l1 & l2 & outs & E & ->). rewrite E in Hx. apply elem_of_app. right.
  apply elem_of_app in Hx as [Hx|Hx]; apply elem_of_app; [by left|]. apply elem_of_cons in Hx as [->|Hx]; [done|by right].
Qed.

(** The names of the services stay. *)
Lemma names_stay l s s' j q : rpc_good l s s' → services s !! j = Some q → ∃ q', services s' !! j = Some q' ∧ name_ q' = name_ q.
Proof.
  assert (∀ i p p' (svs : gmap Z provider), svs !! i = Some p → name_ p' = name_ p → svs !! j = Some q → ∃ q', <[i := p']> svs !! j = Some q' ∧ name_ q' = name_ q) as Hset.
  { intros i p p' svs Hi Hn Hj. destruct (decide (i = j)) as [->|Hne]; [rewrite lookup_insert_eq; exists p'; split; congruence|]. rewrite lookup_insert_ne by done. by exists q. }
  intros [x s1 s2 [| | |j' r p p' called l1 l2 s3 Hs Hj' Hr]|i p success s1 Hi|i p service type_name body ptr p' k s1 Hi Hp Hc|s1] Hj; try by exists q.
  - unfold HandleRpcResponse in Hr. destruct (callback_map_ p !! rsp_callback_id r); injection Hr as <- <-; by eapply Hset.
  - injection Hc as <- <-. by eapply Hset.
Qed.

(** Packets of the same call are the same. *)
Lemma token_once s x y t : system_ok SerializeError ParseMessage s → x ∈ soup s → y ∈ soup s → token x = Some t → token y = Some t → x = y.
Proof.
  intros Hok Hx Hy Htx Hty. apply list_elem_of_split in Hx as (l1 & l2 & E). rewrite E in Hy. pose proof (tokens_once _ _ _ Hok) as Hnd. rewrite E in Hnd.
  apply elem_of_app in Hy as [Hy|Hy]; [|apply elem_of_cons in Hy as [->|Hy]; [done|]]; exfalso;
    (eapply (other_tokens l1 x l2 t y Hnd Htx); [|done]); apply elem_of_app; auto.
Qed.

Lemma waits_stay l s s' x i n k cb c : rpc_good l s s' → l ≠ LHandle x → system_ok SerializeError ParseMessage s → x ∈ soup s → token x = Some (n, k) →
  waits s i n k cb c → waits s' i n k cb c.
Proof.
  intros [y s1 s2 Hh|i' p success s1 Hi|i' p service type_name body ptr p' k' s1 Hi Hp Hc|s1] Hl Hok Hx Ht Hw; try done.
  - destruct Hh as [| | |j r p p' called l1 l2 s3 Hs Hj Hr]; try done. unfold HandleRpcResponse in Hr.
    destruct (callback_map_ p !! rsp_callback_id r) as [cb'|] eqn:Ec; injection Hr as <- <-.
    + apply waits_delete; [done| |done]. intros [= En Ek]. apply Hl. f_equal. symmetry.
      assert ((ToService j, Response r) ∈ soup s3) as Hy by (rewrite Hs; apply elem_of_app; right; by left).
      apply (token_once s3 x (ToService j, Response r) (n, k) Hok Hx Hy Ht). pose proof (packets_ok _ _ _ Hok) as Hall. rewrite Forall_forall in Hall.
      destruct (Hall _ Hy) as (i0 & cb0 & c0 & (p0 & Hp0 & Hn0 & _) & _ & Hpl). cbn in Hpl. subst i0. cbn. congruence.
    + destruct Hw as (q & Hq & Hrest). exists q. cbn. rewrite insert_id by done. done.
  - injection Hc as <- <-. by apply waits_call.
Qed.

Lemma route_stays l s s' i n k cb c : rpc_good l s s' → system_ok SerializeError ParseMessage s → waits s i n k cb c →
  GetConn n (conn_mgr s) = Some i → GetConn n (conn_mgr s') = Some i.
Proof.
  intros [y s1 s2 Hh|i' p success s1 Hi|i' p service type_name body ptr p' k' s1 Hi Hp Hc|s1] Hok (q & Hq & Hn & _) Hr; try done.
  destruct Hh as [i' kk l1 l2 m outs s3 Hs Hp| | |]; try done. cbn. destruct kk as [r|r|r|nm]; cbn in Hp.
  - injection Hp as <- <-. unfold GetConn, ConnMgr_Add. cbn. destruct (decide (login_service_name r = n)) as [E|Hne]; [|by rewrite lookup_insert_ne].
    rewrite E, lookup_insert_eq. f_equal. pose proof (packets_ok _ _ _ Hok) as Hall. rewrite Hs in Hall. apply packets_rest in Hall as [(j & p & [= <-] & Hj & Hnj) _].
    eapply (names_distinct _ _ _ Hok); [done..|congruence].
  - unfold proxy_HandleRpcRequest in Hp. by case_match; injection Hp as <- <-.
  - unfold proxy_HandleRpcResponse in Hp. by case_match; injection Hp as <- <-.
  - by injection Hp as <- <-.
Qed.

Lemma follows_stays l s s' i n k cb c x : rpc_good l s s' → l ≠ LHandle x → follows i n k cb c s x → follows i n k cb c s' x.
Proof.
  intros Hg Hl [Hok Hin Ht Hw Hr Hst]. split; [by eapply rpc_good_ok|by eapply soup_stays|done|by eapply waits_stay|by eapply route_stays|].
  destruct x as [[j|j|j] [r|r|r|nm]]; cbn in *; try done. destruct Hst as (q & Hq & Hn). destruct (names_stay l s s' j q Hg Hq) as (q' & ? & ?). exists q'. split; congruence.
Qed.

(** Handling the packet of a call brings the next packet of it, or the answer. *)
Lemma follows_handled x s s' i n k cb c : handled x s s' → follows i n k cb c s x →
  (∃ x', follows i n k cb c s' x' ∧ (stages_left x' < stages_left x)%nat) ∨ ∃ res, (i, cb, res) ∈ log s'.
Proof.
  intros Hh [Hok Hin Ht Hw Hr Hst]. pose proof (rpc_good_ok _ _ _ (good_handle _ _ _ Hh) Hok) as Hok'.
  destruct Hh as [i' kk l1 l2 m outs s E Hp|j r p l1 l2 s E Hj|j r p l1 l2 s E Hj|j r p p' called l1 l2 s E Hj Hcall].
  - destruct kk as [r|r|r|nm]; cbn in Ht; try done.
    + cbn in Hst. subst i'. cbn in Hp. unfold proxy_HandleRpcRequest in Hp. destruct (GetConn (req_service_name r) (conn_mgr s)) as [dst|] eqn:Hd; injection Hp as <- <-; left.
      * destruct (routes_ok _ _ _ Hok _ _ Hd) as (q & Hq & Hnq). exists (ToService dst, Request r). split; [|cbn; lia]. split; try done; [apply elem_of_app; left; by left|by exists q].
      * exists (ToService i, Response (respond r (error_result SerializeError (req_service_name r +:+ " is not online now")))). split; [|cbn; lia]. split; try done. apply elem_of_app. left. by left.
    + cbn in Hp. unfold proxy_HandleRpcResponse in Hp. assert (rsp_requestor r = n) as En by congruence. rewrite En, Hr in Hp. injection Hp as <- <-. left.
      exists (ToService i, Response r). split; [|cbn; lia]. split; try done. apply elem_of_app. left. by left.
  - left. destruct Hst as (q & Hq & Hnq). assert (q = p) as -> by congruence. exists (Rpc.Task j, Request r). split; [|cbn; lia].
    unfold HandleRpcRequest in *. rewrite bool_decide_eq_true_2 in * by done. split; try done. by left.
  - left. exists (ToProxy j, run_task SerializeError ParseMessage r p). split; [split; try done; by left|cbn; lia].
  - right. cbn in Hst. subst j. destruct Hw as (q & Hq & Hnq & Hcb & _). assert (q = p) as -> by congruence. assert (rsp_callback_id r = k) as Ek by (cbn in Ht; congruence).
    unfold HandleRpcResponse in Hcall. rewrite Ek, Hcb in Hcall. injection Hcall as <- <-. eexists. cbn. apply elem_of_app. right. by left.
Qed.

Section Run.
Context (run : nat → system) (lab : nat → rpc_label) (Hfair : fair_rpc run lab).

Lemma live_ok n : system_ok SerializeError ParseMessage (run n).
Proof using Hfair. induction n as [|n IH]; [apply start_ok, (fr_start _ _ Hfair)|]. by eapply rpc_good_ok, IH; apply (fr_step _ _ Hfair). Qed.

(** A packet stays until it is handled. *)
Lemma follows_until i nm k cb c x n d : follows i nm k cb c (run n) x →
  follows i nm k cb c (run (n + d)) x ∨ ∃ e, (e < d)%nat ∧ lab (n + e)%nat = LHandle x ∧ follows i nm k cb c (run (n + e)) x.
Proof using Hfair.
  intros Hf. induction d as [|d [IH|(e & He & Hl & Hfe)]]; [left; by rewrite Nat.add_0_r| |right; exists e; split; [lia|done]].
  pose proof (fr_step _ _ Hfair (n + d)) as Hs. rewrite <- Nat.add_succ_r in Hs.
  destruct (lab (n + d)%nat) as [y| | |] eqn:El; try (left; eapply follows_stays; [exact Hs|done|exact IH]).
  destruct (decide (x = y)) as [->|Hne]; [right; exists d; split; [lia|done]|left; eapply follows_stays; [exact Hs|congruence|exact IH]].
Qed.

Lemma follows_answered i nm k cb c w : ∀ n x, (stages_left x < w)%nat → follows i nm k cb c (run n) x →
  ∃ m res, (n < m)%nat ∧ (i, cb, res) ∈ log (run m).
Proof using Hfair.
  induction w as [|w IH]; intros n x Hlt Hf; [lia|]. destruct (fr_handled _ _ Hfair n x (fo_in _ _ _ _ _ _ _ Hf)) as (m & Hm & Hl).
  assert (∃ m, (n <= m)%nat ∧ lab m = LHandle x ∧ follows i nm k cb c (run m) x) as (m' & Hm' & Hl' & Hf').
  { replace m with (n + (m - n))%nat in * by lia. destruct (follows_until i nm k cb c x n (m - n) Hf) as [Hf'|(e & _ & Hle & Hfe)]; eexists; (split; [|split; [eassumption|done]]); lia. }
  pose proof (fr_step _ _ Hfair m') as Hs. rewrite Hl' in Hs. inversion Hs as [x' s1 s2 Hh| | |]; subst.
  destruct (follows_handled _ _ _ _ _ _ _ _ Hh Hf') as [(x' & Hfx & Hsx)|(res & Hres)]; [|exists (S m'), res; split; [lia|done]].
  destruct (IH (S m') x' ltac:(lia) Hfx) as (m2 & res & ? & ?). exists m2, res. split; [lia|done].
Qed.
End Run.
End Live.

(** ** The property *)

(** C11: In a run of services with different names and the proxy in which every
    packet and every task is handled some time and no connection is dropped: each
    call that a service makes after the proxy has handled its login is answered,
    its callback being called with the error that the service asked for is not
    online, or with what the service of that name computed from this request. *)
Theorem rpc_eventually_answered {M} SerializeError (ParseMessage : string → string → option M) run lab n i p :
  fair_rpc SerializeError ParseMessage run lab → lab n = LCall i →
  services (run n) !! i = Some p → GetConn (name_ p) (conn_mgr (run n)) = Some i →
  ∃ m res, (n < m)%nat ∧ (i, length (calls (run n)), res) ∈ log (run m) ∧
    ∃ c, calls (run m) !! length (calls (run n)) = Some c ∧ caller c = i ∧ answers SerializeError ParseMessage (services (run m)) c res.
Proof.
  intros Hfair Hl Hi Hr. pose proof (fr_step _ _ _ _ Hfair n) as Hs. rewrite Hl in Hs.
  inversion Hs as [| |i' p0 service type_name body ptr p' k s1 Hi0 Hptr Hcall E1 E2 E3|]; subst i' s1. assert (p0 = p) as -> by congruence.
  pose proof (live_ok _ _ run lab Hfair (S n)) as Hok. injection Hcall as <- <-.
  set (c := {| caller := i; c_service := service; c_name := type_name; c_body := body |}) in *.
  destruct (follows_answered SerializeError ParseMessage run lab Hfair i (name_ p) ptr (length (calls (run n))) c 5 (S n)
    (ToProxy i, Request {| req_service_name := service; req_requestor := name_ p; req_callback_id := ptr; request_name := type_name; request_body := body |}))
    as (m & res & Hm & Hres); [cbn; lia| |].
  - split; [done|rewrite <- E3; by left|done| |by rewrite <- E3|done]. rewrite <- E3. eexists. cbn. rewrite lookup_insert_eq. split; [done|]. split; [done|].
    cbn. rewrite lookup_insert_eq. split; [done|]. split; [|done]. by rewrite lookup_app_r, Nat.sub_diag.
  - exists m, res. split; [lia|]. split; [done|]. by eapply (log_ok _ _ _ (live_ok _ _ run lab Hfair m)).
Qed.

(** ** A run *)

(** The first packet of the soup is handled. *)
Definition handle_first (s : system (M := string)) : system (M := string) :=
  match soup s with
  | (ToProxy i, k) :: rest =>
      let '(m, outs) := proxy_OnMessage demo_error i k (conn_mgr s) in
      {| conn_mgr := m; services := services s; soup := ((λ o, (ToService o.1, o.2)) <$> outs) ++ [] ++ rest; calls := calls s; log := log s |}
  | (ToService j, Request r) :: rest =>
      match services s !! j with
      | Some p => set_soup (match HandleRpcRequest r p with Some t => [(Rpc.Task j, Request t)] | None => [] end ++ [] ++ rest) s
      | None => s
      end
  | (Rpc.Task j, Request r) :: rest =>
      match services s !! j with
      | Some p => set_soup ((ToProxy j, run_task demo_error demo_parse r p) :: [] ++ rest) s
      | None => s
      end
  | (ToService j, Response r) :: rest =>
      match services s !! j with
      | Some p =>
          let '(p', called) := HandleRpcResponse r p in
          {| conn_mgr := conn_mgr s; services := <[j := p']> (services s); soup := [] ++ rest; calls := calls s;
             log := match called with Some (cb, res) => log s ++ [(j, cb, res)] | None => log s end |}
      | None => s
      end
  | _ => s
  end.

Definition connect (i : Z) (s : system (M := string)) : system (M := string) :=
  match services s !! i with
  | Some p => set_soup (((λ k, (ToProxy i, k)) <$> OnConnected p true) ++ soup s) s
  | None => s
  end.

Definition pay (s : system (M := string)) : system (M := string) :=
  match services s !! 1%Z with
  | Some p =>
      let '(p', k) := Call "bank" "Pay" "ten" 4096 (length (calls s)) p in
      {| conn_mgr := conn_mgr s; services := <[1%Z := p']> (services s); soup := (ToProxy 1, k) :: soup s;
         calls := calls s ++ [{| caller := 1; c_service := "bank"; c_name := "Pay"; c_body := "ten" |}]; log := log s |}
  | None => s
  end.

Definition live_script : list (system (M := string) → system (M := string)) :=
  [connect 1; handle_first; connect 2; handle_first; pay; handle_first; handle_first; handle_first; handle_first; handle_first].

Definition live_run (n : nat) : system (M := string) := foldl (λ s a, a s) demo (take n live_script).

(** What there is to handle. *)
Definition next_label (s : system (M := string)) : rpc_label := match soup s with x :: _ => LHandle x | [] => LOther end.

Definition live_lab (n : nat) : rpc_label :=
  match n with
  | 0%nat => LConnected 1
  | 2%nat => LConnected 2
  | 4%nat => LCall 1
  | _ => next_label (live_run n)
  end.

Definition ready (s : system (M := string)) : bool :=
  match soup s with
  | (ToProxy _, _) :: _ => true
  | (ToService j, Request _) :: _ | (Rpc.Task j, Request _) :: _ | (ToService j, Response _) :: _ => bool_decide (is_Some (services s !! j))
  | _ => false
  end.

Lemma handle_first_good s : ready s = true → rpc_good demo_error demo_parse (next_label s) s (handle_first s).
Proof.
  unfold ready, next_label. destruct (soup s) as [|x rest] eqn:E; [done|]. intros Hx. apply good_handle. unfold handle_first. rewrite E.
  destruct x as [[j|j|j] [r|r|r|nm]]; try done; try (apply bool_decide_eq_true in Hx as [p Hp]; rewrite Hp).
  1,2,3,4: destruct (proxy_OnMessage _ _ _ _) as [m outs] eqn:Ep; by apply (handled_proxy _ _ j _ [] rest).
  - by apply (handled_request _ _ j r p [] rest).
  - destruct (HandleRpcResponse r p) as [p' called] eqn:Er. by apply (handled_response _ _ j r p p' called [] rest).
  - by apply (handled_task _ _ j r p [] rest).
Qed.

Lemma connect_good i s : bool_decide (is_Some (services s !! i)) = true → rpc_good demo_error demo_parse (LConnected i) s (connect i s).
Proof. intros [p Hp]%bool_decide_eq_true. unfold connect. rewrite Hp. by apply good_connected. Qed.

Lemma pay_good s : match services s !! 1%Z with Some p => bool_decide (callback_map_ p !! 4096%Z = None) | None => false end = true →
  rpc_good demo_error demo_parse (LCall 1) s (pay s).
Proof. unfold pay. destruct (services s !! 1%Z) as [p|] eqn:Hp; [|done]. intros Hb%bool_decide_eq_true. by eapply good_call. Qed.

Lemma live_done n : (10 <= n)%nat → live_run n = live_run 10.
Proof. intros Hn. unfold live_run. by rewrite (take_ge live_script n) by exact Hn. Qed.

Lemma live_S n a : live_script !! n = Some a → live_run (S n) = a (live_run n).
Proof. intros Ha. unfold live_run. by rewrite (take_S_r _ _ _ Ha), foldl_app. Qed.

Lemma live_soup n : soup (live_run n) = [] ∨ ∃ x, soup (live_run n) = [x] ∧ live_lab n = LHandle x.
Proof.
  destruct (decide (10 <= n)%nat) as [Hn|Hn]; [left; rewrite live_done by done; by vm_compute|].
  do 10 (destruct n as [|n]; [first [left; vm_compute; reflexivity | right; eexists; split; vm_compute; reflexivity]|]). lia.
Qed.

Lemma live_good n : rpc_good demo_error demo_parse (live_lab n) (live_run n) (live_run (S n)).
Proof.
  destruct (decide (10 <= n)%nat) as [Hn|Hn].
  { rewrite (live_done (S n)) by lia. rewrite <- (live_done n) by done.
    assert (live_lab n = LOther) as ->; [|constructor]. do 10 (destruct n as [|n]; [lia|]). cbn [live_lab]. by rewrite live_done. }
  destruct (live_script !! n) as [a|] eqn:Ea; [|by apply lookup_ge_None in Ea]. rewrite (live_S n a Ea).
  do 10 (destruct n as [|n]; [injection Ea as <-; first [apply connect_good | apply pay_good | apply handle_first_good]; vm_compute; reflexivity|]). lia.
Qed.

Lemma live_fair : fair_rpc demo_error demo_parse live_run live_lab.
Proof.
  split; [apply demo_start|apply live_good|]. intros n x Hx. exists n. split; [done|].
  destruct (live_soup n) as [E|(y & E & Hl)]; rewrite E in Hx; [by apply elem_of_nil in Hx|]. apply list_elem_of_singleton in Hx as ->. done.
Qed.

Lemma rpc_eventually_answered_witness :
  ∃ m res, (4 < m)%nat ∧ (1%Z, 0%nat, res) ∈ log (live_run m) ∧
    ∃ c, calls (live_run m) !! 0%nat = Some c ∧ caller c = 1%Z ∧ answers demo_error demo_parse (services (live_run m)) c res.
Proof.
  apply (rpc_eventually_answered demo_error demo_parse live_run live_lab 4 1 {| name_ := "shop"; function_map_ := ∅; callback_map_ := ∅ |} live_fair).
  - reflexivity.
  - vm_compute. reflexivity.
  - vm_compute. reflexivity.
Defined.
