(* ===== verification/Strop.v ===== *)
(** * Strop: string utilities

    ServerLib/strop.h for [std::string]: trimming, splitting, quoted splitting,
    replacing and cutting out.  A string is the list of its characters; positions
    are [nat] and [npos] is [None] (the code keeps positions in [int], which is
    enough for the strings of fewer than 2^31 characters it is used on).
    [substr] throws when it starts past the end, [c_str] ends in a zero, and
    reading past that zero leaves the string. *)

From S2P Require Import Prelude.
Local Open Scope Z_scope.

(** ** The operations of [std::string] *)

(** [s.find(c, pos)] *)
Definition find_char (c : Z) (s : list Z) (pos : nat) : option nat :=
  match list_find (λ x, x = c) (drop pos s) with
  | Some (i, _) => Some (pos + i)%nat
  | None => None
  end.

(** The position of the first occurrence of [p] in [s]. *)
Fixpoint first_occurrence (p s : list Z) : option nat :=
  if bool_decide (p `prefix_of` s) then Some 0%nat
  else match s with
       | [] => None
       | _ :: s' => match first_occurrence p s' with Some i => Some (S i) | None => None end
       end.

(** [s.find(p, pos)] *)
Definition find_str (p s : list Z) (pos : nat) : option nat :=
  if (length s <? pos)%nat then None
  else match first_occurrence p (drop pos s) with Some i => Some (pos + i)%nat | None => None end.

(** [s.substr(pos, n)] and [s.substr(pos)] *)
Definition substr (s : list Z) (pos n : nat) : outcome (list Z) :=
  if (length s <? pos)%nat then Fault OutOfBounds else Done (take n (drop pos s)).
Definition substr_from (s : list Z) (pos : nat) : outcome (list Z) := substr s pos (length s).

(** [s.replace(pos, n, r.c_str())]: the text of [r] up to its first zero. *)
Definition until_zero (s : list Z) : list Z :=
  match list_find (λ x, x = 0) s with Some (i, _) => take i s | None => s end.

Definition replace_at (s : list Z) (pos n : nat) (r : list Z) : outcome (list Z) :=
  if (length s <? pos)%nat then Fault OutOfBounds
  else Done (take pos s ++ until_zero r ++ drop (pos + n) s).

(** ** Trimming *)

Definition blank_str : list Z := [32; 9; 13; 10].
Definition quote : Z := 34.

Definition is_blank (c : Z) : bool := bool_decide (c ∈ blank_str).

Fixpoint trim_left_index (rest : list Z) (index : nat) : nat :=
  match rest with
  | [] => index
  | c :: rest => if is_blank c then trim_left_index rest (S index) else index
  end.

Definition TrimLeft (str : list Z) : outcome (list Z) :=
  let index := trim_left_index str 0 in
  substr str index (length str - index).

(** [trim_right_index str n] is [index + 1] when the loop ends, [n - 1] being
    where it starts. *)
Fixpoint trim_right_index (str : list Z) (n : nat) : nat :=
  match n with
  | O => O
  | S index => if is_blank (nth index str 0) then trim_right_index str index else n
  end.

Definition TrimRight (str : list Z) : outcome (list Z) :=
  substr str 0 (trim_right_index str (length str)).

Definition TrimString (str : list Z) : outcome (list Z) :=
  do! s <- TrimRight str;
  TrimLeft s.

(** ** Splitting *)

(** The lambda [add_to_vec] of [SplitString]. *)
Definition add_to_vec (need_null_str need_trim : bool) (tmp : list (list Z)) (tmp_str : list Z)
  : outcome (list (list Z)) :=
  do! str <- (if need_trim then TrimString tmp_str else Done tmp_str);
  Done (if negb (length str =? 0)%nat || need_null_str then tmp ++ [str] else tmp).

(** The loop and what follows it. *)
Fixpoint split_loop (fuel : nat) (input : list Z) (splitter : Z) (null trim : bool) (start : nat)
    (tmp : list (list Z)) : outcome (list (list Z)) :=
  match fuel with
  | O => Fault OutOfFuel
  | S fuel =>
      match find_char splitter input start with
      | Some pos =>
          do! tmp_str <- substr input start (pos - start);
          do! tmp <- add_to_vec null trim tmp tmp_str;
          split_loop fuel input splitter null trim (pos + 1) tmp
      | None =>
          if negb (start =? length input)%nat
          then do! tmp_str <- substr_from input start; add_to_vec null trim tmp tmp_str
          else add_to_vec null trim tmp []
      end
  end.

Definition SplitString (input : list Z) (splitter : Z) (need_null_str need_trim : bool) : outcome (list (list Z)) :=
  split_loop (S (length input)) input splitter need_null_str need_trim 0 [].

(** [SplitCsvString] walks over [input.c_str()]; [inside] is true in the inner
    loop, after a quote. *)
Fixpoint csv_loop (inside : bool) (str : list Z) (splitter : Z) (value : list Z) (tmp : list (list Z))
  : outcome (list (list Z)) :=
  match str with
  | [] => Fault OutOfBounds
  | ch :: str =>
      if inside then
        if (ch =? quote) || (ch =? 0) then csv_loop false str splitter value tmp
        else csv_loop true str splitter (value ++ [ch]) tmp
      else if ch =? 0 then do! v <- TrimString value; Done (tmp ++ [v])
      else if ch =? quote then csv_loop true str splitter value tmp
      else if ch =? splitter then
        do! v <- TrimString value;
        csv_loop false str splitter [] (tmp ++ [v])
      else csv_loop false str splitter (value ++ [ch]) tmp
  end.

Definition SplitCsvString (input : list Z) (splitter : Z) : outcome (list (list Z)) :=
  csv_loop false (input ++ [0]) splitter [] [].

(** ** Replacing and cutting out *)

Fixpoint replace_loop (fuel : nat) (from to tmp : list Z) (start : nat) : outcome (list Z) :=
  match fuel with
  | O => Fault OutOfFuel
  | S fuel =>
      match find_str from tmp start with
      | None => Done tmp
      | Some pos =>
          do! tmp <- replace_at tmp pos (length from) to;
          replace_loop fuel from to tmp (pos + length to)
      end
  end.

Definition ReplaceString (input from to : list Z) : outcome (list Z) :=
  if (length from =? 0)%nat || bool_decide (from = to) then Done input
  else replace_loop (S (length input)) from to input 0.

Definition GetSubString (input start end_ : list Z) : outcome (list Z) :=
  if (length start =? 0)%nat || (length end_ =? 0)%nat then Done []
  else match find_str start input 0 with
       | None => Done []
       | Some st =>
           let ed_from := (st + length start)%nat in
           match find_str end_ input ed_from with
           | None => Done []
           | Some ed => substr input (st + length start) (ed - ed_from)
           end
       end.

(** ** Trimming removes the blanks at both ends *)

Fixpoint drop_blanks (s : list Z) : list Z :=
  match s with
  | [] => []
  | c :: s' => if is_blank c then drop_blanks s' else s
  end.

Definition trim (s : list Z) : list Z := drop_blanks (reverse (drop_blanks (reverse s))).

(** Text with no blank at either end. *)
Definition tight (s : list Z) : Prop :=
  (∀ c, head s = Some c → is_blank c = false) ∧ (∀ c, last s = Some c → is_blank c = false).

Lemma trim_left_index_shift s i : trim_left_index s i = (i + trim_left_index s 0)%nat.
Proof.
  revert i. induction s as [|c s IH]; intros i; simpl; [lia|]. case_if; [|lia].
  rewrite (IH (S i)), (IH 1%nat). lia.
Qed.

Lemma trim_left_index_spec s : drop (trim_left_index s 0) s = drop_blanks s ∧ (trim_left_index s 0 <= length s)%nat.
Proof.
  induction s as [|c s [IH1 IH2]]; simpl; [done|]. case_if; [|simpl; split; [done|lia]].
  rewrite trim_left_index_shift. simpl. split; [done|lia].
Qed.

Lemma TrimLeft_spec s : TrimLeft s = Done (drop_blanks s).
Proof.
  unfold TrimLeft, substr. destruct (trim_left_index_spec s) as [H1 H2].
  case_if; bprop; [lia|]. rewrite H1. f_equal. apply take_ge. rewrite <- H1, length_drop. lia.
Qed.

Lemma trim_right_index_app s t n : (n <= length s)%nat → trim_right_index (s ++ t) n = trim_right_index s n.
Proof.
  induction n as [|n IH]; intros H; simpl; [done|]. rewrite app_nth1 by lia. case_if; [|done]. apply IH. lia.
Qed.

Lemma trim_right_index_spec s : take (trim_right_index s (length s)) s = reverse (drop_blanks (reverse s)).
Proof.
  induction s as [|c s IH] using rev_ind; [done|].
  rewrite length_app, reverse_app, Nat.add_comm. simpl. rewrite app_nth2, Nat.sub_diag by lia. simpl.
  destruct (is_blank c) eqn:Hb.
  - rewrite trim_right_index_app by done. rewrite take_app_le; [done|].
    clear. induction (length s) as [|n IH]; simpl; [lia|]. case_if; lia.
  - change (S (length s)) with (1 + length s)%nat. rewrite Nat.add_comm.
    rewrite take_ge by (rewrite length_app; simpl; lia).
    by rewrite reverse_cons, reverse_involutive.
Qed.

Lemma TrimString_spec s : TrimString s = Done (trim s).
Proof.
  unfold TrimString, TrimRight, substr. simpl. rewrite drop_0, trim_right_index_spec. simpl. apply TrimLeft_spec.
Qed.

Lemma drop_blanks_split s : ∃ a, s = a ++ drop_blanks s ∧ Forall (λ c, is_blank c = true) a.
Proof.
  induction s as [|c s (a & Ha & Hb)]; simpl; [by exists []|]. destruct (is_blank c) eqn:Hc.
  - exists (c :: a). split; [by simpl; f_equal|by constructor].
  - by exists [].
Qed.

Lemma drop_blanks_head s c : head (drop_blanks s) = Some c → is_blank c = false.
Proof.
  induction s as [|x s IH]; simpl; [done|]. destruct (is_blank x) eqn:Hx; [done|]. simpl. by intros [= <-].
Qed.

Lemma drop_blanks_last s c : last (drop_blanks s) = Some c → last s = Some c.
Proof.
  destruct (drop_blanks_split s) as (a & Ha & _). intros H. rewrite Ha.
  destruct (drop_blanks s) as [|y l] eqn:E; [done|].
  rewrite last_app. by rewrite H.
Qed.

Lemma trim_split s : ∃ a b, s = a ++ trim s ++ b ∧
  Forall (λ c, is_blank c = true) a ∧ Forall (λ c, is_blank c = true) b ∧ tight (trim s).
Proof.
  destruct (drop_blanks_split (reverse s)) as (b & Hb & Hbl). apply (f_equal reverse) in Hb.
  rewrite reverse_involutive, reverse_app in Hb.
  destruct (drop_blanks_split (reverse (drop_blanks (reverse s)))) as (a & Ha & Hal). fold (trim s) in Ha.
  exists a, (reverse b). split_and!; [|done|by apply Forall_reverse|].
  - rewrite Hb at 1. rewrite Ha at 1. by rewrite <- app_assoc.
  - split; intros c; [apply drop_blanks_head|]. intros H%drop_blanks_last.
    rewrite last_reverse in H. by apply drop_blanks_head in H.
Qed.

Lemma drop_blanks_tight s : (∀ c, head s = Some c → is_blank c = false) → drop_blanks s = s.
Proof. destruct s as [|c s]; simpl; [done|]. intros H. by rewrite H. Qed.

Lemma trim_tight s : tight s → trim s = s.
Proof.
  intros [Hh Hl]. unfold trim. rewrite (drop_blanks_tight (reverse s)), reverse_involutive.
  - by apply drop_blanks_tight.
  - intros c. rewrite head_reverse. apply Hl.
Qed.

Lemma trim_subset s c : c ∈ trim s → c ∈ s.
Proof. destruct (trim_split s) as (a & b & Hs & _). rewrite Hs at 2. set_solver. Qed.

Lemma drop_blanks_all a s : Forall (λ c, is_blank c = true) a → drop_blanks (a ++ s) = drop_blanks s.
Proof. induction 1 as [|c a Hc _ IH]; simpl; [done|]. by rewrite Hc. Qed.

(** Blanks around a tight text are exactly what [trim] removes. *)
Lemma trim_around a t b : Forall (λ c, is_blank c = true) a → Forall (λ c, is_blank c = true) b → tight t →
  trim (a ++ t ++ b) = t.
Proof.
  intros Ha Hb Ht. unfold trim. rewrite !reverse_app, <- app_assoc.
  rewrite (drop_blanks_all (reverse b)) by (by apply Forall_reverse).
  destruct (decide (t = [])) as [->|Hn].
  - rewrite reverse_nil. simpl. rewrite <- (app_nil_r (reverse a)), drop_blanks_all by (by apply Forall_reverse). done.
  - rewrite (drop_blanks_tight (reverse t ++ reverse a)).
    + rewrite reverse_app, !reverse_involutive, drop_blanks_all by done. apply drop_blanks_tight, Ht.
    + intros c Hc. apply (proj2 Ht). rewrite <- head_reverse.
      destruct (reverse t) as [|x r] eqn:E; [|done].
      apply (f_equal reverse) in E. by rewrite reverse_involutive in E.
Qed.

(** ** Splitting undoes joining *)

Fixpoint join (c : Z) (fs : list (list Z)) : list Z :=
  match fs with
  | [] => []
  | f :: fs' => match fs' with [] => f | _ => f ++ c :: join c fs' end
  end.

(** What [add_to_vec] makes of a piece. *)
Definition kept (null trimmed : bool) (f : list Z) : option (list Z) :=
  let t := if trimmed then trim f else f in
  if negb (length t =? 0)%nat || null then Some t else None.

Lemma add_to_vec_spec null trimmed tmp f :
  add_to_vec null trimmed tmp f = Done (tmp ++ option_list (kept null trimmed f)).
Proof.
  unfold add_to_vec, kept. destruct trimmed; [rewrite TrimString_spec|]; simpl; case_if; simpl; [done|by rewrite app_nil_r|done|by rewrite app_nil_r].
Qed.

Lemma list_find_here (c : Z) p q : c ∉ p → list_find (λ x, x = c) (p ++ c :: q) = Some (length p, c).
Proof.
  intros Hp. apply list_find_Some. split_and!; [by rewrite list_lookup_middle|done|].
  intros j y Hj Hlt ->. rewrite lookup_app_l in Hj by done. apply Hp. by eapply list_elem_of_lookup_2.
Qed.

Lemma find_char_here c pre p q : c ∉ p →
  find_char c (pre ++ p ++ c :: q) (length pre) = Some (length pre + length p)%nat.
Proof. intros Hp. unfold find_char. by rewrite drop_app_length, list_find_here. Qed.

Lemma find_char_none c pre p : c ∉ p → find_char c (pre ++ p) (length pre) = None.
Proof.
  intros Hp. unfold find_char. rewrite drop_app_length.
  replace (list_find (λ x, x = c) p) with (@None (nat * Z)); [done|]. symmetry.
  apply list_find_None, Forall_forall. by intros x Hx ->.
Qed.

Lemma substr_here pre p q : substr (pre ++ p ++ q) (length pre) (length p) = Done p.
Proof.
  unfold substr. rewrite !length_app. case_if; bprop; [lia|]. by rewrite drop_app_length, take_app_length.
Qed.

Lemma substr_rest pre p : substr_from (pre ++ p) (length pre) = Done p.
Proof.
  unfold substr_from, substr. rewrite length_app. case_if; bprop; [lia|].
  rewrite drop_app_length, take_ge by lia. done.
Qed.

Lemma split_loop_join c null trimmed fs : fs ≠ [] → Forall (λ f, c ∉ f) fs → ∀ pre fuel tmp,
  (length fs <= fuel)%nat →
  split_loop fuel (pre ++ join c fs) c null trimmed (length pre) tmp = Done (tmp ++ omap (kept null trimmed) fs).
Proof.
  intros Hn Hf. induction Hf as [|f fs Hc Hfs IH]; [done|]. intros pre fuel tmp Hfuel.
  destruct fuel as [|fuel]; simpl in Hfuel; [lia|].
  assert (∀ l, omap (kept null trimmed) (f :: l) = option_list (kept null trimmed f) ++ omap (kept null trimmed) l) as Hom
    by (intros l; simpl; by destruct (kept null trimmed f)).
  destruct fs as [|g fs].
  - change (join c [f]) with f. rewrite Hom. simpl split_loop. rewrite find_char_none by done.
    rewrite length_app. simpl (omap _ []). rewrite app_nil_r.
    case_if; bprop.
    + rewrite substr_rest. apply add_to_vec_spec.
    + destruct f; [|simpl in *; lia]. apply add_to_vec_spec.
  - change (join c (f :: g :: fs)) with (f ++ c :: join c (g :: fs)). simpl split_loop.
    rewrite find_char_here by done.
    replace (length pre + length f - length pre)%nat with (length f) by lia.
    rewrite substr_here. cbn [obind]. rewrite add_to_vec_spec. cbn [obind].
    specialize (IH ltac:(done) (pre ++ f ++ [c]) fuel (tmp ++ option_list (kept null trimmed f)) ltac:(lia)).
    rewrite !length_app in IH. simpl length in IH. rewrite <- !app_assoc in IH. simpl app in IH.
    rewrite <- Nat.add_assoc, IH. by rewrite Hom.
Qed.

(** Every string is the join of pieces without the splitter. *)
Fixpoint pieces (c : Z) (s : list Z) : list (list Z) :=
  match s with
  | [] => [[]]
  | x :: s' =>
      if x =? c then [] :: pieces c s'
      else match pieces c s' with p :: ps => (x :: p) :: ps | [] => [[x]] end
  end.

Lemma pieces_spec c s : join c (pieces c s) = s ∧ Forall (λ f, c ∉ f) (pieces c s) ∧ pieces c s ≠ [].
Proof.
  induction s as [|x s (IH1 & IH2 & IH3)]; simpl.
  - split_and!; [done|repeat constructor; set_solver|done].
  - destruct (x =? c) eqn:E; bprop.
    + split_and!; [|constructor; [set_solver|done]|done]. destruct (pieces c s); [done|]. rewrite E, <- IH1. done.
    + destruct (pieces c s) as [|p ps]; [done|]. apply Forall_cons in IH2 as [Hp Hps].
      split_and!; [|constructor; [set_solver|done]|done].
      destruct ps; simpl in *; f_equal; exact IH1.
Qed.

Lemma pieces_unique c fs : fs ≠ [] → Forall (λ f, c ∉ f) fs → pieces c (join c fs) = fs.
Proof.
  assert (∀ p, c ∉ p → pieces c p = [p]) as Hone.
  { induction p as [|x p IH]; intros Hp; simpl; [done|].
    destruct (x =? c) eqn:E; bprop; [set_solver|]. rewrite IH; [done|set_solver]. }
  assert (∀ p s, c ∉ p → pieces c (p ++ c :: s) = p :: pieces c s) as Hcons.
  { induction p as [|x p IH]; intros s Hp; simpl; [by rewrite Z.eqb_refl|].
    destruct (x =? c) eqn:E; bprop; [set_solver|]. rewrite IH; [done|set_solver]. }
  intros Hn Hf. induction Hf as [|f fs Hc Hfs IH]; [done|].
  destruct fs as [|g fs]; [by apply Hone|]. change (join c (f :: g :: fs)) with (f ++ c :: join c (g :: fs)).
  rewrite Hcons by done. f_equal. by apply IH.
Qed.

Lemma SplitString_pieces c null trimmed s :
  SplitString s c null trimmed = Done (omap (kept null trimmed) (pieces c s)).
Proof.
  destruct (pieces_spec c s) as (Hj & Hf & Hn). unfold SplitString.
  rewrite <- Hj at 2. apply (split_loop_join c null trimmed (pieces c s) Hn Hf []).
  assert (∀ t, length (pieces c t) <= S (length t))%nat as Hlen; [|apply Hlen].
  induction t as [|x t IH]; simpl; [lia|]. case_if; simpl; [lia|].
  destruct (pieces c t); simpl in *; lia.
Qed.

(** C33: Splitting undoes joining: fields without the splitter, joined with it,
    come back from [SplitString] one by one, trimmed if asked for, and without
    the empty ones unless they are asked for; and every string is such a join,
    so that keeping everything loses nothing. *)
Theorem split_join c fs null trimmed s :
  fs ≠ [] → Forall (λ f, c ∉ f) fs →
  SplitString (join c fs) c null trimmed = Done (omap (kept null trimmed) fs) ∧
  (∃ ps, SplitString s c true false = Done ps ∧ join c ps = s).
Proof.
  intros Hn Hf. rewrite !SplitString_pieces, pieces_unique by done. split; [done|].
  eexists. split; [done|]. rewrite <- (proj1 (pieces_spec c s)) at 2. f_equal.
  induction (pieces c s) as [|p ps IH]; [done|]. cbn. unfold kept at 1. rewrite orb_true_r. by f_equal.
Qed.

(** The example of the comment above [SplitString], and a field of blanks. *)
Lemma split_join_witness :
  SplitString (lit "1, 2 ,,3,  ") 44 false true = Done [lit "1"; lit "2"; lit "3"] ∧
  (∃ ps, SplitString (lit ",a,") 44 true false = Done ps ∧ join 44 ps = lit ",a,").
Proof.
  apply (split_join 44 [lit "1"; lit " 2 "; lit ""; lit "3"; lit "  "] false true (lit ",a,")).
  - done.
  - repeat constructor; simpl; set_solver.
Defined.

(** ** Quoted fields *)

Inductive csv_field := Plain (f : list Z) | Quoted (f : list Z).

Definition csv_text (x : csv_field) : list Z := match x with Plain f | Quoted f => f end.

Definition csv_render (x : csv_field) : list Z :=
  match x with Plain f => f | Quoted f => quote :: f ++ [quote] end.

(** A plain field has no quote and no splitter; a quoted one only no quote. *)
Definition csv_field_ok (splitter : Z) (x : csv_field) : Prop :=
  0 ∉ csv_text x ∧ quote ∉ csv_text x ∧ match x with Plain f => splitter ∉ f | Quoted _ => True end.

Lemma csv_inside f rest sp v tmp : 0 ∉ f → quote ∉ f →
  csv_loop true (f ++ rest) sp v tmp = csv_loop true rest sp (v ++ f) tmp.
Proof.
  revert v. induction f as [|c f IH]; intros v H0 Hq; simpl; [by rewrite app_nil_r|].
  apply not_elem_of_cons in H0 as [? ?]. apply not_elem_of_cons in Hq as [? ?].
  rewrite (proj2 (Z.eqb_neq c quote)), (proj2 (Z.eqb_neq c 0)) by congruence. simpl.
  rewrite IH by done. by rewrite <- app_assoc.
Qed.

Lemma csv_outside f rest sp v tmp : 0 ∉ f → quote ∉ f → sp ∉ f →
  csv_loop false (f ++ rest) sp v tmp = csv_loop false rest sp (v ++ f) tmp.
Proof.
  revert v. induction f as [|c f IH]; intros v H0 Hq Hs; simpl; [by rewrite app_nil_r|].
  apply not_elem_of_cons in H0 as [? ?]. apply not_elem_of_cons in Hq as [? ?]. apply not_elem_of_cons in Hs as [? ?].
  rewrite (proj2 (Z.eqb_neq c quote)), (proj2 (Z.eqb_neq c 0)), (proj2 (Z.eqb_neq c sp)) by congruence.
  rewrite IH by done. by rewrite <- app_assoc.
Qed.

Lemma csv_field_step x rest sp tmp : csv_field_ok sp x →
  csv_loop false (csv_render x ++ rest) sp [] tmp = csv_loop false rest sp (csv_text x) tmp.
Proof.
  intros (H0 & Hq & Hs). destruct x as [f|f]; simpl in *; [by rewrite csv_outside|].
  rewrite <- app_assoc, csv_inside by done. done.
Qed.

Lemma csv_loop_join sp xs rest tmp : sp ≠ 0 → sp ≠ quote → xs ≠ [] → Forall (csv_field_ok sp) xs →
  ∃ x ys, xs = ys ++ [x] ∧
  csv_loop false (join sp (csv_render <$> xs) ++ rest) sp [] tmp =
  csv_loop false rest sp (csv_text x) (tmp ++ ((trim ∘ csv_text) <$> ys)).
Proof.
  intros Hs0 Hsq Hn Hf. revert tmp. induction Hf as [|x xs Hx Hxs IH]; [done|]. intros tmp.
  destruct xs as [|y xs].
  - exists x, []. split; [done|]. simpl. rewrite app_nil_r. by apply csv_field_step.
  - change (join sp (csv_render <$> x :: y :: xs)) with (csv_render x ++ sp :: join sp (csv_render <$> y :: xs)).
    destruct (IH ltac:(done) (tmp ++ [trim (csv_text x)])) as (z & ys & Heq & Hr).
    exists z, (x :: ys). split; [by rewrite Heq|].
    rewrite <- app_assoc, csv_field_step, <- app_comm_cons by done.
    cbn [csv_loop]. rewrite (proj2 (Z.eqb_neq sp 0)), (proj2 (Z.eqb_neq sp quote)), Z.eqb_refl by done.
    rewrite TrimString_spec. cbn [obind]. rewrite Hr, <- app_assoc. done.
Qed.

(** [SplitCsvString] reads back the fields of a line, trimmed, a field in
    quotes even when it contains the splitter.  When the quotes of the last
    field are not closed, the loop runs past the end of the string. *)
Theorem csv_fields sp xs f :
  sp ≠ 0 → sp ≠ quote → xs ≠ [] → Forall (csv_field_ok sp) xs → 0 ∉ f → quote ∉ f →
  SplitCsvString (join sp (csv_render <$> xs)) sp = Done ((trim ∘ csv_text) <$> xs) ∧
  SplitCsvString (join sp (csv_render <$> xs) ++ quote :: f) sp = Fault OutOfBounds.
Proof.
  intros Hs0 Hsq Hn Hf H0 Hq. unfold SplitCsvString. split.
  - destruct (csv_loop_join sp xs [0] [] Hs0 Hsq Hn Hf) as (x & ys & -> & ->).
    simpl. rewrite TrimString_spec. simpl. by rewrite fmap_app.
  - destruct (csv_loop_join sp xs (quote :: f ++ [0]) [] Hs0 Hsq Hn Hf) as (x & ys & Hxs & Hr).
    rewrite <- app_assoc. simpl app at 2. rewrite Hr. simpl. by rewrite csv_inside.
Qed.

Lemma csv_fields_witness :
  SplitCsvString (lit "ab ," ++ [quote] ++ lit "c,d" ++ [quote]) 44 = Done [lit "ab"; lit "c,d"] ∧
  SplitCsvString ((lit "ab ," ++ [quote] ++ lit "c,d" ++ [quote]) ++ quote :: lit "x") 44 = Fault OutOfBounds.
Proof.
  apply (csv_fields 44 [Plain (lit "ab "); Quoted (lit "c,d")] (lit "x")); try done.
  - repeat constructor; simpl; set_solver.
  - simpl. set_solver.
  - simpl. set_solver.
Defined.

(** ** Replacing *)

Lemma first_occurrence_some p s i : first_occurrence p s = Some i → ∃ a b, s = a ++ p ++ b ∧ length a = i.
Proof.
  revert i. induction s as [|x s IH]; intros i; simpl; case_bool_decide as Hp; intros H; simplify_eq.
  - destruct Hp as [b ->]. by exists [], b.
  - destruct Hp as [b ->]. by exists [], b.
  - destruct (first_occurrence p s) as [j|]; [|done]. injection H as <-.
    destruct (IH j eq_refl) as (a & b & -> & <-). by exists (x :: a), b.
Qed.

(** No occurrence of [p] starts before position [n] of [s]. *)
Definition absent_before (p s : list Z) (n : nat) : Prop := ∀ a b, s = a ++ p ++ b → (n <= length a)%nat.

Lemma first_occurrence_first p s i : first_occurrence p s = Some i → absent_before p s i.
Proof.
  revert i. induction s as [|x s IH]; intros i; simpl; case_bool_decide as Hp; intros H a b Hs; simplify_eq; [lia..|].
  destruct (first_occurrence p s) as [j|] eqn:E; [|done]. injection H as <-.
  destruct a as [|y a]; simpl in Hs.
  - exfalso. apply Hp. rewrite Hs. by exists b.
  - injection Hs as -> Hs. pose proof (IH j eq_refl a b Hs). simpl. lia.
Qed.

Lemma first_occurrence_none p s : first_occurrence p s = None → ∀ a b, s ≠ a ++ p ++ b.
Proof.
  induction s as [|x s IH]; simpl; case_bool_decide as Hp; intros H a b Hs; try done.
  - apply Hp. destruct a; [|done]. simpl in Hs. rewrite Hs. by exists b.
  - destruct (first_occurrence p s) as [j|] eqn:E; [done|].
    destruct a as [|y a]; simpl in Hs; [apply Hp; rewrite Hs; by exists b|].
    injection Hs as -> Hs. by apply (IH eq_refl a b).
Qed.

(** The result of replacing the occurrences of [from], from the left and
    without overlaps. *)
Inductive replaced (from to : list Z) : list Z → list Z → Prop :=
  | replaced_none s : (∀ a b, s ≠ a ++ from ++ b) → replaced from to s s
  | replaced_some a b r : absent_before from (a ++ from ++ b) (length a) → replaced from to b r →
      replaced from to (a ++ from ++ b) (a ++ to ++ r).

Lemma replaced_unique from to s r r' : from ≠ [] → replaced from to s r → replaced from to s r' → r = r'.
Proof.
  intros Hn H. revert r'. induction H as [s Hs|a b r Ha Hr IH]; intros r' H'.
  - inversion H' as [|a b r0 Ha Hr]; simplify_eq; [done|]. by destruct (Hs a b).
  - inversion H' as [s Hs|a' b' r0 Ha' Hr' Heq]; simplify_eq; [by destruct (Hs a b)|].
    pose proof (Ha a' b' (eq_sym Heq)). pose proof (Ha' a b Heq).
    apply app_inj_1 in Heq as [-> Heq]; [|lia]. apply app_inv_head in Heq as ->. by rewrite (IH r0).
Qed.

Lemma until_zero_id s : 0 ∉ s → until_zero s = s.
Proof.
  intros H. unfold until_zero. replace (list_find (λ x, x = 0) s) with (@None (nat * Z)); [done|].
  symmetry. apply list_find_None, Forall_forall. by intros x Hx ->.
Qed.

Lemma replace_loop_spec from to : from ≠ [] → 0 ∉ to → ∀ fuel pre s,
  (length s < fuel)%nat →
  ∃ r, replace_loop fuel from to (pre ++ s) (length pre) = Done (pre ++ r) ∧ replaced from to s r.
Proof.
  intros Hn H0. induction fuel as [|fuel IH]; intros pre s Hfuel; [lia|]. simpl.
  unfold find_str. rewrite length_app. replace (length pre + length s <? length pre)%nat with false
    by (symmetry; apply Nat.ltb_ge; lia).
  rewrite drop_app_length. destruct (first_occurrence from s) as [i|] eqn:E.
  - pose proof (first_occurrence_first _ _ _ E) as Hfirst.
    apply first_occurrence_some in E as (a & b & -> & <-).
    unfold replace_at. rewrite !length_app.
    case_if; bprop; [lia|]. cbn [obind]. rewrite until_zero_id by done.
    assert (take (length pre + length a) (pre ++ a ++ from ++ b) = pre ++ a) as ->
      by (by rewrite <- length_app, app_assoc, take_app_length).
    assert (drop (length pre + length a + length from) (pre ++ a ++ from ++ b) = b) as ->
      by (rewrite <- !length_app, !app_assoc; apply drop_app_length).
    rewrite !length_app in Hfuel. assert (0 < length from)%nat by (destruct from; [done|simpl; lia]).
    destruct (IH (pre ++ a ++ to) b ltac:(lia)) as (r & Hr & Hrep).
    rewrite !length_app in Hr. exists (a ++ to ++ r). split; [|by apply replaced_some].
    rewrite <- !app_assoc in Hr. rewrite <- !app_assoc, <- Hr. f_equal. lia.
  - exists s. split; [done|]. apply replaced_none. by apply first_occurrence_none.
Qed.

(** [ReplaceString] ends for every input, also when the new text contains
    the old one, and gives the one string in which the occurrences of [from] are
    replaced from the left without overlaps. *)
Theorem replace_string_spec input from to :
  from ≠ [] → 0 ∉ to →
  ∃ r, ReplaceString input from to = Done r ∧ replaced from to input r ∧
       ∀ r', replaced from to input r' → r' = r.
Proof.
  intros Hn H0.
  assert (∃ r, ReplaceString input from to = Done r ∧ replaced from to input r) as (r & Hr & Hrep).
  2: { exists r. split_and!; [done..|]. intros r' H'. by eapply replaced_unique. }
  destruct (replace_loop_spec from to Hn H0 (S (length input)) [] input ltac:(lia)) as (r & Hr & Hrep).
  unfold ReplaceString. replace (length from =? 0)%nat with false by (by destruct from). simpl orb.
  case_bool_decide as Heq; [|eauto]. exists input. split; [done|]. subst to. clear Hr H0.
  induction Hrep as [s Hs|a b r Ha Hr IH]; [by apply replaced_none|by apply replaced_some].
Qed.

Lemma replace_string_spec_witness :
  ∃ r, ReplaceString (lit "abcdab") (lit "ab") (lit "abab") = Done r ∧ replaced (lit "ab") (lit "abab") (lit "abcdab") r ∧
       ∀ r', replaced (lit "ab") (lit "abab") (lit "abcdab") r' → r' = r.
Proof.
  apply (replace_string_spec (lit "abcdab") (lit "ab") (lit "abab")).
  - done.
  - simpl. set_solver.
Defined.

(** ** Cutting out *)

Lemma find_str_here p pre a b : absent_before p (a ++ p ++ b) (length a) →
  find_str p (pre ++ a ++ p ++ b) (length pre) = Some (length pre + length a)%nat.
Proof.
  intros Ha. unfold find_str. rewrite length_app. case_if; bprop; [lia|]. rewrite drop_app_length.
  destruct (first_occurrence p (a ++ p ++ b)) as [i|] eqn:E.
  - pose proof (first_occurrence_first _ _ _ E a b eq_refl).
    apply first_occurrence_some in E as (a' & b' & Heq & <-). pose proof (Ha a' b' Heq). f_equal. lia.
  - by destruct (first_occurrence_none _ _ E a b).
Qed.

(** [GetSubString] gives what stands between the first [start] and the first
    [end_] after it. *)
Lemma get_sub_string_spec a start m end_ b : start ≠ [] → end_ ≠ [] →
  absent_before start (a ++ start ++ m ++ end_ ++ b) (length a) →
  absent_before end_ (m ++ end_ ++ b) (length m) →
  GetSubString (a ++ start ++ m ++ end_ ++ b) start end_ = Done m.
Proof.
  intros Hs He Ha Hm. unfold GetSubString.
  replace (length start =? 0)%nat with false by (by destruct start).
  replace (length end_ =? 0)%nat with false by (by destruct end_). simpl orb. cbv iota.
  pose proof (find_str_here start [] a (m ++ end_ ++ b) Ha) as Hst. simpl in Hst. rewrite Hst.
  rewrite <- length_app, app_assoc, find_str_here by done.
  rewrite <- (substr_here (a ++ start) m (end_ ++ b)). f_equal. lia.
Qed.
