(* ===== verification/Dispatch.v ===== *)
(** * Dispatch: typed callbacks and what is configured with them

    [PacketDispatcher] (ServerLib/Dispatcher.h) keeps a callback per message
    type, under the address of the type's descriptor, and casts a message to the
    type of its callback before calling it.  The proxy and the services register
    their handlers with it; Rpc describes them by cases on the packet, and the
    lemmas here show that the dispatcher makes the same choice and that its casts
    never fail.  Also [RpcServiceProvider::Connect] (rpc_service.h) over Strop
    and the protocol table of Gateway.cpp. *)

From S2P Require Import Prelude Rpc Strop.

(** The type of a message, as [GetDescriptor] tells it. *)
Inductive msg_type := TLogin | TRequest | TResponse | TOther (name : string).

#[export] Instance msg_type_eq_dec : EqDecision msg_type.
Proof. solve_decision. Defined.

Definition type_of (p : packet) : msg_type :=
  match p with Login _ => TLogin | Request _ => TRequest | Response _ => TResponse | Other n => TOther n end.

(** [dynamic_cast] to the three types of RpcServer.proto. *)
Definition to_login (p : packet) : option LoginRequest := match p with Login r => Some r | _ => None end.
Definition to_request (p : packet) : option RpcRequest := match p with Request r => Some r | _ => None end.
Definition to_response (p : packet) : option RpcResponse := match p with Response r => Some r | _ => None end.

Section Dispatcher.
(** [descriptor t] is the address of the descriptor of type [t]; [E] is what a
    handler does. *)
Context {E : Type} (descriptor : msg_type → Z).

Record PacketDispatcher := {
  callbacks_ : gmap Z (Z → packet → outcome E);
  default_callback_ : Z → packet → E
}.

Definition GetIdFromPtr (ptr : Z) : Z := u64 ptr.

(** [PacketCallbackT::OnMessage]: a failed cast gives a null pointer, which is
    dereferenced. *)
Definition PacketCallbackT {T2} (cast : packet → option T2) (cb : Z → T2 → E) (t1 : Z) (msg : packet) : outcome E :=
  match cast msg with
  | None => Fault NullDeref
  | Some t2 => Done (cb t1 t2)
  end.

Definition RegisterMessageCallback {T2} (t : msg_type) (cast : packet → option T2) (cb : Z → T2 → E)
    (d : PacketDispatcher) : PacketDispatcher :=
  {| callbacks_ := <[GetIdFromPtr (descriptor t) := PacketCallbackT cast cb]> (callbacks_ d);
     default_callback_ := default_callback_ d |}.

Definition dispatcher_OnMessage (d : PacketDispatcher) (conn : Z) (message : packet) : outcome E :=
  match callbacks_ d !! GetIdFromPtr (descriptor (type_of message)) with
  | Some cb => cb conn message
  | None => Done (default_callback_ d conn message)
  end.
End Dispatcher.
Arguments PacketDispatcher : clear implicits.

(** ** The proxy and the services *)

Section Handlers.
Context {M : Type} (SerializeError : string → string) (ParseMessage : string → string → option M).
Context (descriptor : msg_type → Z).

(** The constructor of [RpcProxyServer]; handlers act on its [ConnMgr]. *)
Definition proxy_dispatcher : PacketDispatcher (ConnMgr → ConnMgr * list (Z * packet)) :=
  RegisterMessageCallback descriptor TResponse to_response proxy_HandleRpcResponse
    (RegisterMessageCallback descriptor TRequest to_request (proxy_HandleRpcRequest SerializeError)
      (RegisterMessageCallback descriptor TLogin to_login proxy_HandleLoginRequest
        {| callbacks_ := ∅; default_callback_ := λ _ _ m, (m, []) |})).

(** [RpcServiceProvider::RegisterHanlders]; a request becomes a task, a response
    a callback. *)
Inductive service_action := RunTask (r : option RpcRequest) | RunCallback (r : option (nat * RpcResult)) | Ignore.

Definition service_dispatcher
  : PacketDispatcher (RpcServiceProvider M → RpcServiceProvider M * service_action) :=
  RegisterMessageCallback descriptor TResponse to_response
    (λ _ r p, let '(p, cb) := HandleRpcResponse r p in (p, RunCallback cb))
    (RegisterMessageCallback descriptor TRequest to_request (λ _ r p, (p, RunTask (HandleRpcRequest r p)))
      {| callbacks_ := ∅; default_callback_ := λ _ _ p, (p, Ignore) |}).

(** Descriptors of different types have different addresses. *)
Context (Hdesc : ∀ t t', GetIdFromPtr (descriptor t) = GetIdFromPtr (descriptor t') → t = t').

Lemma lookup_other {A} t t' (x : A) (m : gmap Z A) : t ≠ t' →
  <[GetIdFromPtr (descriptor t) := x]> m !! GetIdFromPtr (descriptor t') = m !! GetIdFromPtr (descriptor t').
Proof. intros Hne. apply lookup_insert_ne. intros H. by apply Hne, Hdesc. Qed.

Ltac find_callback := unfold dispatcher_OnMessage; simpl; rewrite ?lookup_other by done; try rewrite lookup_insert_eq.

(** The dispatcher of the proxy calls the handler of the packet's type, with the
    packet as that type, and the empty default handler for any other type. *)
Lemma proxy_dispatches conn p m :
  ∃ act, dispatcher_OnMessage descriptor proxy_dispatcher conn p = Done act ∧ act m = proxy_OnMessage SerializeError conn p m.
Proof. destruct p; find_callback; by eexists. Qed.

Lemma service_dispatches conn p s :
  ∃ act, dispatcher_OnMessage descriptor service_dispatcher conn p = Done act ∧
    act s = match p with
            | Request r => (s, RunTask (HandleRpcRequest r s))
            | Response r => let '(s, cb) := HandleRpcResponse r s in (s, RunCallback cb)
            | _ => (s, Ignore)
            end.
Proof. destruct p; find_callback; by eexists. Qed.
End Handlers.

(** ** Connect *)

Local Open Scope Z_scope.

(** The host and the port it connects to, [None] when it answers false. *)
Definition Connect (rpc_server : list Z) : outcome (option (list Z * list Z)) :=
  do! vec <- SplitString rpc_server 58 false true;
  match vec with
  | host :: port :: _ => Done (Some (host, port))
  | _ => Done None
  end.

Lemma connect_host_port host port : host ≠ [] → port ≠ [] → tight host → tight port → 58 ∉ host → 58 ∉ port →
  Connect (host ++ 58 :: port) = Done (Some (host, port)).
Proof.
  intros Hh Hp Th Tp Nh Np. unfold Connect. change (host ++ 58 :: port) with (join 58 [host; port]).
  rewrite SplitString_pieces, pieces_unique; [|done|by repeat constructor]. cbn. unfold kept.
  rewrite !trim_tight by done. by destruct host, port.
Qed.

(** Without a port, or with a port of blanks, it answers false. *)
Lemma connect_no_port s : 58 ∉ s → Connect s = Done None.
Proof.
  intros Hs. unfold Connect. change s with (join 58 [s]) at 1. rewrite SplitString_pieces, pieces_unique; [|done|by repeat constructor].
  cbn. by destruct (kept false true s).
Qed.

(** ** The protocol table of the gateway *)

(** The handler of [ReportAvailable]: the server is added to the handlers of
    each of its protocols. *)
Definition ReportAvailable (serv_name : string) (protocols : list string) (protocol_handlers_ : gmap string (gset string))
  : gmap string (gset string) :=
  foldl (λ m p, <[p := {[serv_name]} ∪ default ∅ (m !! p)]> m) protocol_handlers_ protocols.

Lemma report_available_spec serv protocols m p s :
  s ∈ default ∅ (ReportAvailable serv protocols m !! p) ↔ s ∈ default ∅ (m !! p) ∨ (s = serv ∧ p ∈ protocols).
Proof.
  unfold ReportAvailable. revert m. induction protocols as [|q l IH]; intros m; simpl; [set_solver|].
  rewrite IH. destruct (decide (p = q)) as [->|Hne].
  - rewrite lookup_insert_eq. simpl. set_solver.
  - rewrite lookup_insert_ne by done. set_solver.
Qed.
