(* ===== verification/CfgReader.v ===== *)
(** * CfgReader: configuration files

    ServerLib/CfgReader.h.  A file is the list of its bytes, or [None] when it
    cannot be opened; [fgets] fills a buffer of 1000 characters, so that a longer
    line comes in several pieces.  [content_] is a [std::map], kept when another
    file is read, and [ForEach] walks it in the order of the keys. *)

From stdpp Require Import sorting.
From S2P Require Import Prelude Strop.
Local Open Scope Z_scope.

Record CfgReader := { err_msg_ : list (list Z); content_ : gmap (list Z) (list Z) }.

Definition CfgReader_new : CfgReader := {| err_msg_ := []; content_ := ∅ |}.

Definition PushError (line : Z) (msg : list Z) (r : CfgReader) : CfgReader :=
  {| err_msg_ := err_msg_ r ++ [lit "error at line " ++ decimal line ++ lit ": " ++ msg]; content_ := content_ r |}.

(** [fgets]: at most [n] characters, up to and with a newline; with the rest of
    the file. *)
Fixpoint fgets_chars (n : nat) (s : list Z) : list Z * list Z :=
  match n, s with
  | O, _ | _, [] => ([], s)
  | S n, c :: s' =>
      if c =? 10 then ([c], s')
      else let '(l, rest) := fgets_chars n s' in (c :: l, rest)
  end.

Definition fgets (size : nat) (s : list Z) : option (list Z * list Z) :=
  match s with [] => None | _ => Some (fgets_chars (size - 1) s) end.

(** The body of the loop of [Read], after [line_no++]. *)
Definition read_line (line_no : Z) (line : list Z) (r : CfgReader) : outcome CfgReader :=
  do! l <- TrimString (until_zero line);
  match l with
  | [] => Done r
  | c :: _ =>
      if c =? 35 then Done r
      else
        do! kv <- SplitString l 61 false true;
        match kv with
        | [k; v] => Done {| err_msg_ := err_msg_ r; content_ := <[k := v]> (content_ r) |}
        | _ => Done (PushError line_no (lit "invalid k/v, skip it.") r)
        end
  end.

Fixpoint cfg_loop (fuel : nat) (fp : list Z) (line_no : Z) (r : CfgReader) : outcome CfgReader :=
  match fuel with
  | O => Fault OutOfFuel
  | S fuel =>
      match fgets 1000 fp with
      | None => Done r
      | Some (line, fp) =>
          let line_no := line_no + 1 in
          do! r <- read_line line_no line r;
          cfg_loop fuel fp line_no r
      end
  end.

Definition BOM : list Z := [239; 187; 191].

(** [Read]; every round of the loop takes at least one byte of the file. *)
Definition Read (file : option (list Z)) (r : CfgReader) : outcome (bool * CfgReader) :=
  let r := {| err_msg_ := []; content_ := content_ r |} in
  match file with
  | None => Done (false, r)
  | Some bytes =>
      let fp := if bool_decide (take 3 bytes = BOM) then drop 3 bytes else bytes in
      do! r <- cfg_loop (S (length bytes)) fp 1 r;
      Done (true, r)
  end.

(** [operator[]] *)
Definition cfg_get (r : CfgReader) (key : list Z) : list Z := default [] (content_ r !! key).

(** The order of [std::string], and the calls [ForEach] makes. *)
Fixpoint str_le (a b : list Z) : bool :=
  match a, b with
  | [], _ => true
  | _ :: _, [] => false
  | x :: a, y :: b => (x <? y) || ((x =? y) && str_le a b)
  end.

Definition kv_le (p q : list Z * list Z) : Prop := str_le p.1 q.1 = true.
#[export] Instance kv_le_dec p q : Decision (kv_le p q) := decide (str_le p.1 q.1 = true).

Definition ForEach (r : CfgReader) : list (list Z * list Z) := merge_sort kv_le (map_to_list (content_ r)).

(** ** Lines

    The text of a file, by lines.  An entry may have blanks around its key and
    its value; [Wrong] is any other text that is neither blank nor a comment. *)
Inductive cfg_item :=
  | Entry (k v b1 b2 b3 b4 : list Z)
  | Comment (s b : list Z)
  | Space (b : list Z)
  | Wrong (s : list Z).

Definition item_text (i : cfg_item) : list Z :=
  match i with
  | Entry k v b1 b2 b3 b4 => b1 ++ (k ++ b2 ++ 61 :: b3 ++ v) ++ b4
  | Comment s b => b ++ 35 :: s
  | Space b => b
  | Wrong s => s
  end.

Definition blanks (b : list Z) : Prop := Forall (λ c, is_blank c = true) b.

Definition word (w : list Z) : Prop := w ≠ [] ∧ tight w ∧ 61 ∉ w.

Definition item_ok (i : cfg_item) : Prop :=
  (length (item_text i) < 999)%nat ∧ 10 ∉ item_text i ∧ 0 ∉ item_text i ∧
  match i with
  | Entry k v b1 b2 b3 b4 =>
      word k ∧ word v ∧ head k ≠ Some 35 ∧ blanks b1 ∧ blanks b2 ∧ blanks b3 ∧ blanks b4
  | Comment s b => blanks b
  | Space b => blanks b
  | Wrong s => trim s ≠ [] ∧ head (trim s) ≠ Some 35 ∧ length (omap (kept false true) (pieces 61 (trim s))) ≠ 2%nat
  end.

(** What a line does; [n] is the number given to the line. *)
Definition item_apply (n : Z) (i : cfg_item) (r : CfgReader) : CfgReader :=
  match i with
  | Entry k v _ _ _ _ => {| err_msg_ := err_msg_ r; content_ := <[k := v]> (content_ r) |}
  | Wrong _ => PushError n (lit "invalid k/v, skip it.") r
  | _ => r
  end.

Fixpoint items_apply (n : Z) (items : list cfg_item) (r : CfgReader) : CfgReader :=
  match items with
  | [] => r
  | i :: items => items_apply (n + 1) items (item_apply n i r)
  end.

Definition cfg_text (items : list cfg_item) : list Z := concat ((λ i, item_text i ++ [10]) <$> items).

Lemma fgets_line l rest n : 10 ∉ l → (length l < n)%nat → fgets_chars n (l ++ 10 :: rest) = (l ++ [10], rest).
Proof.
  revert n. induction l as [|c l IH]; intros [|n] Hl Hn; simpl in *; try lia; [done|].
  apply not_elem_of_cons in Hl as [Hc Hl]. rewrite (proj2 (Z.eqb_neq c 10)) by congruence.
  rewrite IH by (done || lia). done.
Qed.

Lemma read_line_trim n line r t : 0 ∉ line → trim line = t →
  read_line n line r =
  match t with
  | [] => Done r
  | c :: _ =>
      if c =? 35 then Done r
      else match omap (kept false true) (pieces 61 t) with
           | [k; v] => Done {| err_msg_ := err_msg_ r; content_ := <[k := v]> (content_ r) |}
           | _ => Done (PushError n (lit "invalid k/v, skip it.") r)
           end
  end.
Proof.
  intros H0 <-. unfold read_line. rewrite until_zero_id, TrimString_spec by done. cbn [obind].
  destruct (trim line) as [|c t] eqn:E; [done|]. case_if; [done|]. by rewrite SplitString_pieces.
Qed.

Lemma blanks_app a b : blanks a → blanks b → blanks (a ++ b).
Proof. apply Forall_app_2. Qed.

Lemma blanks_nl : blanks [10].
Proof. by repeat constructor. Qed.

Lemma trim_nl s : trim (s ++ [10]) = trim s.
Proof.
  destruct (trim_split s) as (a & b & Hs & Ha & Hb & Ht). rewrite Hs at 1.
  rewrite <- !app_assoc. apply trim_around; [done| |done]. apply blanks_app; [done|apply blanks_nl].
Qed.

Lemma trim_blanks b : blanks b → trim b = [].
Proof. intros H. rewrite <- (app_nil_r b). by apply (trim_around b [] []). Qed.

(** An entry trims to [key blanks = blanks value]. *)
Lemma trim_entry k v b1 b2 b3 b4 : word k → word v → blanks b1 → blanks b4 →
  trim (b1 ++ (k ++ b2 ++ 61 :: b3 ++ v) ++ b4) = k ++ b2 ++ 61 :: b3 ++ v.
Proof.
  intros (Hk & Htk & _) (Hv & Htv & _) H1 H4. apply trim_around; [done..|]. split; intros c.
  - destruct k as [|x k]; [done|]. apply (proj1 Htk c).
  - destruct (exists_last Hv) as (l & z & ->). intros H. apply (proj2 Htv c).
    rewrite last_snoc in *. revert H. rewrite app_comm_cons, !app_assoc, last_snoc. done.
Qed.

Lemma kept_word w b1 b2 : word w → blanks b1 → blanks b2 → kept false true (b1 ++ w ++ b2) = Some w.
Proof.
  intros (Hn & Ht & _) H1 H2. unfold kept. rewrite trim_around by done. by destruct w.
Qed.

Lemma blank_not_eq b : blanks b → 61 ∉ b.
Proof. unfold blanks. rewrite Forall_forall. intros H Hin. by apply H in Hin. Qed.

Lemma entry_pieces k v b2 b3 : word k → word v → blanks b2 → blanks b3 →
  omap (kept false true) (pieces 61 (k ++ b2 ++ 61 :: b3 ++ v)) = [k; v].
Proof.
  intros Hk Hv H2 H3. change (k ++ b2 ++ 61 :: b3 ++ v) with (k ++ b2 ++ [61] ++ b3 ++ v).
  rewrite (app_assoc k). change ((k ++ b2) ++ [61] ++ b3 ++ v) with (join 61 [k ++ b2; b3 ++ v]).
  rewrite pieces_unique; [|done|].
  - pose proof (kept_word k [] b2 Hk (Forall_nil_2 _) H2) as Ek.
    pose proof (kept_word v b3 [] Hv H3 (Forall_nil_2 _)) as Ev. rewrite app_nil_r in Ev.
    cbn in Ek |- *. by rewrite Ek, Ev.
  - pose proof (blank_not_eq b2 H2). pose proof (blank_not_eq b3 H3).
    destruct Hk as (_ & _ & ?), Hv as (_ & _ & ?). repeat constructor; set_solver.
Qed.

Lemma trim_comment b s : blanks b → ∃ t, trim (b ++ 35 :: s) = 35 :: t.
Proof.
  intros Hb. destruct (trim_split s) as (a1 & a2 & Hs & Ha1 & Ha2 & Ht).
  destruct (decide (trim s = [])) as [He|He].
  - exists []. rewrite He in Hs. simpl in Hs. apply (trim_around b [35] s); [done|..].
    + rewrite Hs. by apply blanks_app.
    + by split; intros c [= <-].
  - exists (a1 ++ trim s). rewrite Hs at 1. rewrite app_assoc, app_comm_cons. apply trim_around; [done..|].
    split; intros c; [by intros [= <-]|]. destruct (exists_last He) as (l & z & Hz). intros H.
    apply (proj2 Ht c). rewrite Hz in *. rewrite app_assoc, app_comm_cons, last_snoc in H. by rewrite last_snoc.
Qed.

Lemma read_item n i r : item_ok i → read_line n (item_text i ++ [10]) r = Done (item_apply n i r).
Proof.
  intros (_ & _ & H0 & Hi). assert (0 ∉ item_text i ++ [10]) as H0' by set_solver.
  rewrite (read_line_trim n _ r _ H0' (trim_nl _)). destruct i as [k v b1 b2 b3 b4|s b|b|s]; simpl in *.
  - destruct Hi as (Hk & Hv & Hh & H1 & H2 & H3 & H4). rewrite trim_entry by done.
    rewrite entry_pieces by done. destruct k as [|c k]; [by destruct Hk|]. simpl.
    rewrite (proj2 (Z.eqb_neq c 35)) by (intros ->; by apply Hh). done.
  - destruct (trim_comment b s) as [t ->]; done.
  - by rewrite trim_blanks.
  - destruct Hi as (Hn & Hh & Hp). destruct (trim s) as [|c t] eqn:E; [done|]. simpl in Hh.
    rewrite (proj2 (Z.eqb_neq c 35)) by congruence.
    destruct (omap (kept false true) (pieces 61 (c :: t))) as [|x [|y [|z l]]]; done.
Qed.

Lemma cfg_loop_items items r fuel n : Forall item_ok items → (length (cfg_text items) < fuel)%nat →
  cfg_loop fuel (cfg_text items) n r = Done (items_apply (n + 1) items r).
Proof.
  intros Hok. revert r fuel n. induction Hok as [|i items Hi _ IH]; intros r fuel n Hf.
  - destruct fuel; [lia|done].
  - destruct fuel as [|fuel]; [lia|]. unfold cfg_text in *. cbn [fmap list_fmap concat] in *.
    rewrite <- app_assoc in *. simpl app in *. rewrite !length_app in Hf. simpl in Hf.
    cbn [cfg_loop]. replace (fgets 1000 (item_text i ++ 10 :: concat ((λ i, item_text i ++ [10]) <$> items)))
      with (Some (item_text i ++ [10], concat ((λ i, item_text i ++ [10]) <$> items))).
    2: { unfold fgets. change (1000 - 1)%nat with 999%nat.
         rewrite fgets_line by apply Hi. by destruct (item_text i). }
    rewrite read_item by done. cbn [obind]. rewrite IH by lia. done.
Qed.

(** The entries of a file, last one first, and the errors of its wrong lines. *)
Definition entries (items : list cfg_item) : list (list Z * list Z) :=
  reverse (omap (λ i, match i with Entry k v _ _ _ _ => Some (k, v) | _ => None end) items).

Fixpoint wrong_lines (n : Z) (items : list cfg_item) : list (list Z) :=
  match items with
  | [] => []
  | Wrong _ :: items => (lit "error at line " ++ decimal n ++ lit ": invalid k/v, skip it.") :: wrong_lines (n + 1) items
  | _ :: items => wrong_lines (n + 1) items
  end.

Lemma cfg_entries_cons k v b1 b2 b3 b4 items : entries (Entry k v b1 b2 b3 b4 :: items) = entries items ++ [(k, v)].
Proof. unfold entries. rewrite <- reverse_cons. done. Qed.

Lemma items_apply_spec items n r :
  content_ (items_apply n items r) = list_to_map (entries items) ∪ content_ r ∧
  err_msg_ (items_apply n items r) = err_msg_ r ++ wrong_lines n items.
Proof.
  revert n r. induction items as [|i items IH]; intros n r.
  - simpl. rewrite app_nil_r. split; [|done]. change (entries []) with (@nil (list Z * list Z)). simpl.
    by rewrite (left_id_L ∅ (∪)).
  - cbn [items_apply]. destruct (IH (n + 1) (item_apply n i r)) as [-> ->]. split.
    + destruct i as [k v b1 b2 b3 b4|s b|b|s]; try done. rewrite cfg_entries_cons, list_to_map_app.
      cbn. rewrite insert_empty, <- (assoc_L (∪)), <- insert_union_singleton_l. done.
    + destruct i as [k v b1 b2 b3 b4|s b|b|s]; try done. cbn. by rewrite <- app_assoc.
Qed.

(** What [Read] does to a file given by its lines. *)
Lemma read_items items bom r :
  Forall item_ok items → (bom = false → take 3 (cfg_text items) ≠ BOM) →
  ∃ r', Read (Some ((if bom then BOM else []) ++ cfg_text items)) r = Done (true, r') ∧
        err_msg_ r' = wrong_lines 2 items ∧
        ∀ k, cfg_get r' k = default (cfg_get r k) (list_to_map (M := gmap _ _) (entries items) !! k).
Proof.
  intros Hok Hbom. exists (items_apply 2 items {| err_msg_ := []; content_ := content_ r |}).
  destruct (items_apply_spec items 2 {| err_msg_ := []; content_ := content_ r |}) as [Hc He].
  split_and!.
  - unfold Read. destruct bom; [rewrite take_app_length', drop_app_length' by done|];
      (case_bool_decide; [|try done]); simpl app.
    + rewrite cfg_loop_items; [done|done|]. simpl. lia.
    + by destruct (Hbom eq_refl).
    + rewrite cfg_loop_items; [done|done|]. lia.
  - done.
  - intros k. unfold cfg_get. rewrite Hc, lookup_union. cbn [content_].
    by destruct (list_to_map (M := gmap _ _) (entries items) !! k), (content_ r !! k).
Qed.

(** C31: Reading a configuration file, with or without a byte order mark, stores
    every entry under its key, without the blanks around key and value, the last
    entry of a key winning and entries of files read before being kept; comments
    and blank lines are skipped, and each other line is reported, under a number
    that is one more than its own (the first line is line 2). *)
Theorem cfg_read_file items bom r :
  Forall item_ok items → (bom = false → take 3 (cfg_text items) ≠ BOM) →
  ∃ r', Read (Some ((if bom then BOM else []) ++ cfg_text items)) r = Done (true, r') ∧
        err_msg_ r' = wrong_lines 2 items ∧
        ∀ k, cfg_get r' k = default (cfg_get r k) (list_to_map (M := gmap _ _) (entries items) !! k).
Proof. apply read_items. Qed.

(** Gateway.cfg has lines like these. *)
Definition demo_cfg : list cfg_item :=
  [Comment (lit " gateway") []; Entry (lit "port") (lit "4001") [] [32] [32] [13]; Space [32; 9];
   Wrong (lit "pool"); Entry (lit "port") (lit "4002") [9] [] [] []].

Lemma demo_cfg_ok : Forall item_ok demo_cfg.
Proof.
  repeat constructor; simpl; try lia; try (by intros [= ?]); try set_solver; try (by split; intros c [= <-]).
Qed.

Lemma cfg_read_file_witness :
  ∃ r', Read (Some (BOM ++ cfg_text demo_cfg)) CfgReader_new = Done (true, r') ∧
        err_msg_ r' = [lit "error at line 5: invalid k/v, skip it."] ∧
        ∀ k, cfg_get r' k = default [] (list_to_map (M := gmap _ _) (entries demo_cfg) !! k).
Proof. apply (cfg_read_file demo_cfg true CfgReader_new); [apply demo_cfg_ok|done]. Defined.

(** ** [ForEach] *)

#[export] Instance kv_le_trans : Transitive kv_le.
Proof.
  intros [a va] [b vb] [c vc]. unfold kv_le. simpl. revert b c.
  induction a as [|x a IH]; intros [|y b] [|z c]; simpl; try done.
  rewrite !orb_true_iff, !andb_true_iff, !Z.ltb_lt, !Z.eqb_eq.
  intros [?|[-> ?]] [?|[? ?]]; [left; lia|left; lia|by left|right]. split; [lia|]. by eapply IH.
Qed.

#[export] Instance kv_le_total : Total kv_le.
Proof.
  intros [a va] [b vb]. unfold kv_le. simpl. revert b.
  induction a as [|x a IH]; intros [|y b]; simpl; auto.
  rewrite !orb_true_iff, !andb_true_iff, !Z.ltb_lt, !Z.eqb_eq. 
  destruct (Z.lt_trichotomy x y) as [?|[<-|?]]; [by left; left| |right; left; lia].
  destruct (IH b); [left|right]; by right.
Qed.

(** Every entry is visited once, in the order of the keys. *)
Lemma ForEach_spec r : StronglySorted kv_le (ForEach r) ∧ ForEach r ≡ₚ map_to_list (content_ r).
Proof. split; [apply (StronglySorted_merge_sort kv_le)|apply merge_sort_Permutation]. Qed.
