(* ===== verification/Timers.v ===== *)
(** * Timers: the timer managers

    ServerLib/TimerMgr.cpp with Timer.h, and the older Driver/TimerMgr.cpp.

    Every use of a [cpu_timer] reads the clock: [clock n] is the [n]-th reading,
    in nanoseconds, and [reads] counts them.  The callbacks are code of the users
    of the manager; [body f st] is what callback [f] asks of the manager when it
    is called in state [st], a list of calls of [AddTimer] and [Cancel].  The
    manager is used from one io_service thread.  [log] records the timers added,
    cancelled and run.  [timer_id_] is not initialised by the constructor. *)

From S2P Require Import Prelude.
Local Open Scope Z_scope.

Section Timers.
Context {F : Type}.

Record Timer := { interval : Z; func : F; started : Z }.

Inductive event :=
  | EvAdd (id : Z)
  | EvCancel (id : Z)
  | EvRun (id : Z) (f : F) (since now : Z).

Record TimerMgr := {
  timer_id_ : Z;
  timer_map_ : gmap Z Timer;
  server_logic_timer_ : bool;  (** a wait is pending *)
  reads : nat;
  log : list event
}.

Inductive act := ActAdd (f : F) (i : Z) | ActCancel (id : Z).

Context (clock : nat → Z) (body : F → TimerMgr → list act).

(** Reading the clock, and writing to the log. *)
Definition read_clock (st : TimerMgr) : Z * TimerMgr :=
  (clock (reads st),
   {| timer_id_ := timer_id_ st; timer_map_ := timer_map_ st; server_logic_timer_ := server_logic_timer_ st;
      reads := S (reads st); log := log st |}).

Definition note (e : event) (st : TimerMgr) : TimerMgr :=
  {| timer_id_ := timer_id_ st; timer_map_ := timer_map_ st; server_logic_timer_ := server_logic_timer_ st;
     reads := reads st; log := log st ++ [e] |}.

Definition set_map (m : gmap Z Timer) (st : TimerMgr) : TimerMgr :=
  {| timer_id_ := timer_id_ st; timer_map_ := m; server_logic_timer_ := server_logic_timer_ st;
     reads := reads st; log := log st |}.

Definition set_armed (b : bool) (st : TimerMgr) : TimerMgr :=
  {| timer_id_ := timer_id_ st; timer_map_ := timer_map_ st; server_logic_timer_ := b;
     reads := reads st; log := log st |}.

Definition ResetLogicTimer (st : TimerMgr) : TimerMgr := set_armed true st.

(** The constructor; [junk] is what the memory of [timer_id_] held. *)
Definition TimerMgr_new (junk : Z) : TimerMgr :=
  ResetLogicTimer {| timer_id_ := u32 junk; timer_map_ := ∅; server_logic_timer_ := false; reads := 0; log := [] |}.

Definition AddTimer (f : F) (i : Z) (st : TimerMgr) : Z * TimerMgr :=
  let timer_id := timer_id_ st in
  let st := {| timer_id_ := u32 (timer_id + 1); timer_map_ := timer_map_ st;
               server_logic_timer_ := server_logic_timer_ st; reads := reads st; log := log st |} in
  let '(now, st) := read_clock st in
  let st := set_map (<[timer_id := {| interval := i; func := f; started := now |}]> (timer_map_ st)) st in
  (timer_id, note (EvAdd timer_id) st).

Definition Cancel (timer_id : Z) (st : TimerMgr) : TimerMgr :=
  note (EvCancel timer_id) (set_map (delete timer_id (timer_map_ st)) st).

(** [Timer::GetRestTick] and [TimerMgr::GetRestTime] *)
Definition GetRestTick (tm : Timer) (st : TimerMgr) : Z * TimerMgr :=
  let '(now, st) := read_clock st in
  (s32 (Z.quot (interval tm * 1000000 - (now - started tm)) 1000000), st).

Definition GetRestTime (time_id : Z) (st : TimerMgr) : Z * TimerMgr :=
  match timer_map_ st !! time_id with
  | Some tm => GetRestTick tm st
  | None => (0, st)
  end.

Definition perform (a : act) (st : TimerMgr) : TimerMgr :=
  match a with ActAdd f i => (AddTimer f i st).2 | ActCancel id => Cancel id st end.

(** Calling a callback. *)
Definition call (f : F) (st : TimerMgr) : TimerMgr := foldl (λ st a, perform a st) st (body f st).

(** ** ServerLib: [logic_timer_func]

    The first loop collects the timers whose time has come, in the order in which
    the unordered map is walked ([order], a permutation of the numbers in the
    map); the second runs those that are still there. *)
Fixpoint scan (order : list Z) (st : TimerMgr) : list Z * TimerMgr :=
  match order with
  | [] => ([], st)
  | id :: order =>
      match timer_map_ st !! id with
      | None => scan order st
      | Some tm =>
          let '(now, st) := read_clock st in
          let '(due, st) := scan order st in
          (if interval tm * 1000000 <=? now - started tm then id :: due else due, st)
      end
  end.

Definition execute_one (id : Z) (st : TimerMgr) : TimerMgr :=
  match timer_map_ st !! id with
  | None => st
  | Some tm =>
      let '(now, st) := read_clock st in
      let st := set_map (<[id := {| interval := interval tm; func := func tm; started := now |}]> (timer_map_ st)) st in
      call (func tm) (note (EvRun id (func tm) (started tm) now) st)
  end.

Definition execute (due : list Z) (st : TimerMgr) : TimerMgr := foldl (λ st id, execute_one id st) st due.

Definition logic_timer_func (order : list Z) (st : TimerMgr) : TimerMgr :=
  let st := set_armed false st in
  let '(timer_need_to_execute, st) := scan order st in
  ResetLogicTimer (execute timer_need_to_execute st).

(** ** Driver: the same function of Driver/TimerMgr.cpp

    Its map is ordered, and the iterator stays on the timer while its callback
    runs: when the callback removes that timer, the iterator no longer refers to
    anything.  [successor] is [it++]. *)
Definition successor (k : option Z) (m : gmap Z Timer) : option Z :=
  foldr (λ x acc, if match k with Some k => k <? x | None => true end
                  then Some (match acc with Some y => Z.min x y | None => x end) else acc)
        None (map_to_list m).*1.

Fixpoint driver_loop (fuel : nat) (it : option Z) (st : TimerMgr) : outcome TimerMgr :=
  match fuel, it with
  | O, _ => Fault OutOfFuel
  | _, None => Done st
  | S fuel, Some id =>
      match timer_map_ st !! id with
      | None => Fault BadRead
      | Some tm =>
          let '(now, st) := read_clock st in
          if interval tm * 1000000 <=? now - started tm then
            let st := call (func tm) (note (EvRun id (func tm) (started tm) now) st) in
            match timer_map_ st !! id with
            | None => Fault BadRead
            | Some tm' =>
                let '(now, st) := read_clock st in
                let st := set_map (<[id := {| interval := interval tm'; func := func tm'; started := now |}]> (timer_map_ st)) st in
                driver_loop fuel (successor (Some id) (timer_map_ st)) st
            end
          else driver_loop fuel (successor (Some id) (timer_map_ st)) st
      end
  end.

Definition driver_logic_timer_func (fuel : nat) (st : TimerMgr) : outcome TimerMgr :=
  let st := set_armed false st in
  do! st <- driver_loop fuel (successor None (timer_map_ st)) st;
  Done (ResetLogicTimer st).

(** [TimerMgr::Cancel] of the driver *)
Definition driver_Cancel (timer_id : Z) (st : TimerMgr) : TimerMgr :=
  match timer_map_ st !! timer_id with
  | None => st
  | Some _ => Cancel timer_id st
  end.
End Timers.
Arguments Timer : clear implicits.
Arguments TimerMgr : clear implicits.
Arguments event : clear implicits.
Arguments act : clear implicits.

(** ** What the operations leave alone *)

Section Frame.
Context {F : Type} (clock : nat → Z) (body : F → TimerMgr F → list (act F)).
Implicit Types (st : TimerMgr F) (evs : list (event F)) (id : Z).

Notation AddTimer := (AddTimer clock).
Notation perform := (perform clock).
Notation call := (call clock body).
Notation execute_one := (execute_one clock body).
Notation execute := (execute clock body).
Notation logic_timer_func := (logic_timer_func clock body).

(** The runs of timer [id] among some events: callback, when it had been
    started, and when it was run. *)
Definition runs id evs : list (F * Z * Z) :=
  omap (λ e, match e with EvRun i f s t => if decide (i = id) then Some (f, s, t) else None | _ => None end) evs.

Definition untouched id evs : Prop := EvAdd id ∉ evs ∧ EvCancel id ∉ evs.

Lemma runs_app id evs evs' : runs id (evs ++ evs') = runs id evs ++ runs id evs'.
Proof. apply omap_app. Qed.

Lemma runs_elem id f s t evs : (f, s, t) ∈ runs id evs → EvRun id f s t ∈ evs.
Proof.
  intros Hin. apply list_elem_of_omap in Hin as ([i|i|i f' s' t'] & Hin & Heq); try done.
  case_decide; [|done]. by simplify_eq.
Qed.

Lemma untouched_app id evs evs' : untouched id (evs ++ evs') ↔ untouched id evs ∧ untouched id evs'.
Proof. unfold untouched. rewrite !not_elem_of_app. tauto. Qed.

(** [quiet id st st']: from [st] to [st'] timer [id] is not run, and its entry
    changes only by being added or cancelled. *)
Definition quiet id st st' : Prop :=
  ∃ evs, log st' = log st ++ evs ∧ (reads st <= reads st')%nat ∧ runs id evs = [] ∧
         (untouched id evs → timer_map_ st' !! id = timer_map_ st !! id).

#[local] Instance quiet_refl id : Reflexive (quiet id).
Proof. intros st. exists []. rewrite app_nil_r. done. Qed.

#[local] Instance quiet_trans id : Transitive (quiet id).
Proof.
  intros st1 st2 st3 (e1 & H1 & R1 & Q1 & M1) (e2 & H2 & R2 & Q2 & M2). exists (e1 ++ e2).
  rewrite H2, H1, app_assoc, runs_app, Q1, Q2, untouched_app. split_and!; [done|lia|done|].
  intros [U1 U2]. by rewrite M2, M1.
Qed.

Lemma untouched_add id i : untouched id [EvAdd (F := F) i] → i ≠ id.
Proof. intros [H _] ->. apply H. set_solver. Qed.

Lemma untouched_cancel id i : untouched id [EvCancel (F := F) i] → i ≠ id.
Proof. intros [_ H] ->. apply H. set_solver. Qed.

Lemma quiet_perform id a st : quiet id st (perform a st).
Proof.
  destruct a as [f i|i]; [exists [EvAdd (timer_id_ st)]|exists [EvCancel i]]; simpl; split_and!; try done; try lia; intros Hu.
  - apply lookup_insert_ne. by apply untouched_add.
  - apply lookup_delete_ne. by apply untouched_cancel.
Qed.

Lemma quiet_foldl {A} id (op : TimerMgr F → A → TimerMgr F) l : (∀ st a, a ∈ l → quiet id st (op st a)) →
  ∀ st, quiet id st (foldl op st l).
Proof.
  induction l as [|a l IH]; intros H st; simpl; [done|].
  transitivity (op st a); [apply H; set_solver|]. apply IH. intros. apply H. set_solver.
Qed.

Lemma quiet_call id f st : quiet id st (call f st).
Proof. apply quiet_foldl. intros. apply quiet_perform. Qed.

Lemma quiet_execute_one id i st : i ≠ id → quiet id st (execute_one i st).
Proof.
  intros Hi. unfold Timers.execute_one. destruct (timer_map_ st !! i) as [tm|]; [|done]. simpl.
  eapply quiet_trans; [|apply quiet_call]. exists [EvRun i (func tm) (started tm) (clock (reads st))]. simpl.
  split_and!; [done|lia|by rewrite decide_False|]. intros _. by apply lookup_insert_ne.
Qed.

(** ** One tick *)

Lemma scan_frame order st due st1 : scan clock order st = (due, st1) →
  timer_map_ st1 = timer_map_ st ∧ log st1 = log st ∧ timer_id_ st1 = timer_id_ st ∧
  reads st1 = (reads st + length (filter (λ i, is_Some (timer_map_ st !! i)) order))%nat ∧
  due `sublist_of` order.
Proof.
  revert st due st1. induction order as [|i order IH]; intros st due st1; simpl.
  - intros [= <- <-]. split_and!; [done..|simpl; lia|done].
  - rewrite filter_cons. destruct (timer_map_ st !! i) as [tm|] eqn:Hi.
    + rewrite decide_True by eauto. destruct (scan clock order _) as [d s1] eqn:E. intros [= <- <-].
      apply IH in E as (? & ? & ? & Hr & ?). simpl in *. split_and!; [done..|lia|].
      case_if; by constructor.
    + rewrite decide_False by (intros [? ?]; done). intros E. apply IH in E as (? & ? & ? & ? & ?).
      split_and!; [done..|]. by constructor.
Qed.

Lemma scan_due o1 id o2 st due st1 tm : NoDup (o1 ++ id :: o2) →
  (∀ i, i ∈ o1 → is_Some (timer_map_ st !! i)) → timer_map_ st !! id = Some tm →
  scan clock (o1 ++ id :: o2) st = (due, st1) →
  id ∈ due ↔ interval tm * 1000000 <= clock (reads st + length o1) - started tm.
Proof.
  revert st due st1. induction o1 as [|i o1 IH]; intros st due st1 Hnd Hp Hid; simpl; intros E.
  - rewrite Hid in E. destruct (scan clock o2 _) as [d s1] eqn:E2. injection E as <- <-.
    apply scan_frame in E2 as (_ & _ & _ & _ & Hs). rewrite Nat.add_0_r.
    apply NoDup_cons in Hnd as [Hn _].
    assert (id ∉ d) as Hd by (intros Hd; apply Hn; eapply elem_of_submseteq; [done|by apply sublist_submseteq]).
    case_if; bprop; [split; [done|set_solver]|]. split; [done|lia].
  - destruct (Hp i) as [tmi Hi]; [set_solver|]. rewrite Hi in E.
    destruct (scan clock _ _) as [d s1] eqn:E2. injection E as <- <-.
    simpl in Hnd. apply NoDup_cons in Hnd as [Hn Hnd].
    assert (id ≠ i) as Hne by set_solver.
    pose proof (IH (read_clock clock st).2 d s1 Hnd (λ j Hj, Hp j (list_elem_of_further _ _ _ Hj)) Hid E2) as IH'.
    simpl in IH'. rewrite Nat.add_succ_r. rewrite <- IH'. case_if; set_solver.
Qed.

Definition in_order (order : list Z) st : Prop := order ≡ₚ (map_to_list (timer_map_ st)).*1.

Lemma in_order_spec order st : in_order order st → NoDup order ∧ ∀ i, i ∈ order ↔ is_Some (timer_map_ st !! i).
Proof.
  intros H. split; [rewrite H; apply NoDup_fst_map_to_list|]. intros i. rewrite H, list_elem_of_fmap. split.
  - intros ([j tm] & -> & Hm). apply elem_of_map_to_list in Hm. by exists tm.
  - intros [tm Hm]. exists (i, tm). by rewrite elem_of_map_to_list.
Qed.

(** What a tick may do to timer [id] with entry [tm]. *)
Definition restart (tm : Timer F) (now : Z) : Timer F := {| interval := interval tm; func := func tm; started := now |}.

Lemma execute_one_log i st : ∃ evs, log (execute_one i st) = log st ++ evs ∧ (reads st <= reads (execute_one i st))%nat.
Proof. destruct (quiet_execute_one (i + 1) i st) as (evs & ? & ? & _); [lia|]. eauto. Qed.

Lemma quiet_execute id due st : id ∉ due → quiet id st (execute due st).
Proof. intros H. apply quiet_foldl. intros st' i Hi. apply quiet_execute_one. by intros ->. Qed.

(** A timer that is there when its turn comes is restarted, then run. *)
Lemma execute_one_runs id st tm evs : timer_map_ st !! id = Some tm →
  log (execute_one id st) = log st ++ evs → untouched id evs →
  runs id evs = [(func tm, started tm, clock (reads st))] ∧
  timer_map_ (execute_one id st) !! id = Some (restart tm (clock (reads st))).
Proof.
  intros Hid. unfold Timers.execute_one. rewrite Hid. simpl.
  match goal with |- context [call ?f ?s] => destruct (quiet_call id f s) as (e & -> & _ & Hr & Hm) end.
  simpl in *. rewrite <- app_assoc. intros <-%app_inv_head Hu.
  apply (untouched_app id [_]) in Hu as [_ Hu]. split.
  - simpl. rewrite decide_True by done. by f_equal.
  - rewrite Hm by done. by rewrite lookup_insert_eq.
Qed.

Lemma execute_runs due id st tm : NoDup due → id ∈ due → timer_map_ st !! id = Some tm →
  ∃ evs, log (execute due st) = log st ++ evs ∧ (reads st <= reads (execute due st))%nat ∧
    (untouched id evs → ∃ k, (reads st <= k)%nat ∧ runs id evs = [(func tm, started tm, clock k)] ∧
       timer_map_ (execute due st) !! id = Some (restart tm (clock k))).
Proof.
  intros Hnd Hin Hid. apply list_elem_of_split in Hin as (d1 & d2 & ->).
  apply NoDup_app in Hnd as (_ & Hd1 & Hd2). apply NoDup_cons in Hd2 as [Hd2 _].
  assert (id ∉ d1) as Hn1 by (intros Hx; by apply (Hd1 id Hx), list_elem_of_here).
  unfold Timers.execute. rewrite foldl_app. cbn [foldl]. fold (execute d1 st).
  destruct (quiet_execute id d1 st Hn1) as (e1 & L1 & R1 & Q1 & M1).
  destruct (execute_one_log id (execute d1 st)) as (e2 & L2 & R2).
  destruct (quiet_execute id d2 (execute_one id (execute d1 st)) Hd2) as (e3 & L3 & R3 & Q3 & M3).
  exists (e1 ++ e2 ++ e3). unfold Timers.execute in *. rewrite L3, L2, L1, !app_assoc. split_and!; [done|lia|].
  intros Hu. rewrite !untouched_app in Hu. destruct Hu as [[U1 U2] U3]. rewrite Hid in M1.
  destruct (execute_one_runs id _ tm e2 (M1 U1) L2 U2) as [Hr Hm].
  eexists. split_and!; [exact R1| |by rewrite M3].
  by rewrite !runs_app, Q1, Q3, Hr, app_nil_r.
Qed.

Lemma length_filter_all {A} (P : A → Prop) `{!∀ x, Decision (P x)} (l : list A) : Forall P l → length (filter P l) = length l.
Proof. induction 1 as [|x l Hx _ IH]; [done|]. rewrite filter_cons_True by done. simpl. by f_equal. Qed.

Lemma tick_spec order st id tm : in_order order st → timer_map_ st !! id = Some tm →
  ∃ evs o1 o2, order = o1 ++ id :: o2 ∧ log (logic_timer_func order st) = log st ++ evs ∧
    (reads st < reads (logic_timer_func order st))%nat ∧
    (untouched id evs →
     if bool_decide (interval tm * 1000000 <= clock (reads st + length o1) - started tm)
     then ∃ k, (reads st + length o1 <= k)%nat ∧ runs id evs = [(func tm, started tm, clock k)] ∧
               timer_map_ (logic_timer_func order st) !! id = Some (restart tm (clock k))
     else runs id evs = [] ∧ timer_map_ (logic_timer_func order st) !! id = Some tm).
Proof.
  intros Ho Hid. apply in_order_spec in Ho as [Hnd Hin].
  assert (id ∈ order) as Hio by (apply Hin; eauto). apply list_elem_of_split in Hio as (o1 & o2 & Heq).
  unfold Timers.logic_timer_func. destruct (scan clock order _) as [due st1] eqn:E.
  pose proof (scan_frame _ _ _ _ E) as (Hm1 & Hl1 & _ & Hr1 & Hsub). simpl in Hm1, Hl1, Hr1.
  rewrite length_filter_all in Hr1 by (apply Forall_forall; intros i; apply Hin).
  rewrite Heq in E, Hnd, Hr1. rewrite length_app in Hr1. simpl in Hr1.
  apply scan_due with (tm := tm) in E; [|done| |done].
  2: { intros i Hi. simpl. apply Hin. rewrite Heq. set_solver. }
  simpl in E. assert (NoDup due) as Hndue by (eapply sublist_NoDup; [exact Hnd|by rewrite <- Heq]).
  rewrite <- Hm1 in Hid.
  destruct (decide (interval tm * 1000000 <= clock (reads st + length o1) - started tm)) as [Hd|Hd].
  - destruct (execute_runs due id st1 tm Hndue (proj2 E Hd) Hid) as (evs & L & R & H).
    exists evs, o1, o2. simpl. rewrite L, Hl1. split_and!; [done..|lia|].
    intros Hu. rewrite bool_decide_eq_true_2 by done. destruct (H Hu) as (k & Hk & ?). exists k. split; [lia|done].
  - destruct (quiet_execute id due st1) as (evs & L & R & Q & M); [by rewrite E|].
    exists evs, o1, o2. simpl. rewrite L, Hl1. split_and!; [done..|lia|].
    intros Hu. rewrite bool_decide_eq_false_2 by done. split; [done|]. by rewrite M.
Qed.
End Frame.

(** ** The manager in use *)

Section Runs.
Context {F : Type} (clock : nat → Z) (body : F → TimerMgr F → list (act F)).
Implicit Types (st : TimerMgr F) (evs : list (event F)) (id : Z).

(** What can happen next: a call from outside of the ticks, or a tick. *)
Inductive tlabel := TAdd (f : F) (i : Z) | TCancel (id : Z) | TRest (id : Z) | TTick (order : list Z).

Definition tdo (l : tlabel) st : TimerMgr F :=
  match l with
  | TAdd f i => (AddTimer clock f i st).2
  | TCancel id => Cancel id st
  | TRest id => (GetRestTime clock id st).2
  | TTick order => logic_timer_func clock body order st
  end.

Definition tallowed (l : tlabel) st : Prop :=
  match l with TTick order => in_order order st ∧ server_logic_timer_ st = true | _ => True end.

Inductive treach (junk : Z) : TimerMgr F → Prop :=
  | treach_new : treach junk (TimerMgr_new junk)
  | treach_step l st : treach junk st → tallowed l st → treach junk (tdo l st).

(** ** Cancelled timers *)

Definition alive_step id (b : bool) (e : event F) : bool :=
  match e with
  | EvAdd i => if decide (i = id) then true else b
  | EvCancel i => if decide (i = id) then false else b
  | EvRun _ _ _ _ => b
  end.
Definition alive evs id : bool := foldl (alive_step id) false evs.

Lemma alive_snoc evs e id : alive (evs ++ [e]) id = alive_step id (alive evs id) e.
Proof. unfold alive. by rewrite foldl_app. Qed.

Lemma alive_spec evs id : alive evs id = true → ∃ l1 l2, evs = l1 ++ EvAdd id :: l2 ∧ EvCancel id ∉ l2.
Proof.
  induction evs as [|e evs IH] using rev_ind; [done|]. rewrite alive_snoc.
  assert (alive evs id = true → EvCancel id ≠ e → ∃ l1 l2, evs ++ [e] = l1 ++ EvAdd id :: l2 ∧ EvCancel id ∉ l2) as Hold.
  { intros Ha Hne. destruct (IH Ha) as (l1 & l2 & -> & Hc). exists l1, (l2 ++ [e]).
    rewrite <- app_assoc. split; [done|]. apply not_elem_of_app. split; [done|]. by rewrite list_elem_of_singleton. }
  destruct e as [i|i|i f s t]; simpl; [case_decide as Hi| |].
  - intros _. exists evs, []. subst i. split; [done|]. apply not_elem_of_nil.
  - intros Ha. by apply Hold.
  - case_decide; [done|]. intros Ha. apply Hold; [done|]. congruence.
  - intros Ha. by apply Hold.
Qed.

(** The map has the timers alive, and only timers alive were run. *)
Definition timers_ok st : Prop :=
  (∀ id, is_Some (timer_map_ st !! id) ↔ alive (log st) id = true) ∧
  (∀ pre id f s t suf, log st = pre ++ EvRun id f s t :: suf → alive pre id = true).

Lemma timers_ok_event e st m :
  timers_ok st → (∀ id, is_Some (m !! id) ↔ alive (log st ++ [e]) id = true) →
  (∀ id f s t, e = EvRun id f s t → alive (log st) id = true) →
  ∀ st', timer_map_ st' = m → log st' = log st ++ [e] → timers_ok st'.
Proof.
  intros [_ Hr] Hm He st' Hm' Hl. split; [by rewrite Hm', Hl|]. rewrite Hl. intros pre id f s t suf Heq.
  destruct suf as [|x suf _] using rev_ind.
  - apply app_inj_tail in Heq as [<- ->]. by eapply He.
  - rewrite app_comm_cons, app_assoc in Heq. apply app_inj_tail in Heq as [Heq _]. by eapply Hr.
Qed.

Lemma perform_timers_ok a st : timers_ok st → timers_ok (perform clock a st).
Proof.
  intros Hok. destruct Hok as [Hm Hr] eqn:E. clear E. destruct a as [f i|i].
  - eapply (timers_ok_event (EvAdd (timer_id_ st)) st); [done| |done|done|done]. intros id. simpl. rewrite alive_snoc. simpl.
    case_decide as Hi; [subst id; rewrite lookup_insert_eq; by split; eauto|]. rewrite lookup_insert_ne by done. apply Hm.
  - eapply (timers_ok_event (EvCancel i) st); [done| |done|done|done]. intros id. simpl. rewrite alive_snoc. simpl.
    case_decide as Hi; [subst id; rewrite lookup_delete_eq; split; [by intros []|done]|].
    rewrite lookup_delete_ne by done. apply Hm.
Qed.

Lemma call_timers_ok f st : timers_ok st → timers_ok (call clock body f st).
Proof.
  unfold call. generalize (body f st). intros l. revert st. induction l as [|a l IH]; intros st H; [done|].
  apply IH. by apply perform_timers_ok.
Qed.

Lemma execute_one_timers_ok id st : timers_ok st → timers_ok (execute_one clock body id st).
Proof.
  intros Hok. unfold execute_one. destruct (timer_map_ st !! id) as [tm|] eqn:Hid; [|done]. simpl.
  apply call_timers_ok. pose proof Hok as [Hm _].
  eapply (timers_ok_event (EvRun id (func tm) (started tm) (clock (reads st))) st); [done| | |done|done].
  - intros i. simpl. rewrite alive_snoc. simpl. rewrite <- Hm.
    destruct (decide (id = i)) as [<-|]; [rewrite lookup_insert_eq, Hid; by split; eauto|by rewrite lookup_insert_ne].
  - intros i f s t [= <- _ _ _]. apply Hm. eauto.
Qed.

Lemma execute_timers_ok due st : timers_ok st → timers_ok (execute clock body due st).
Proof.
  revert st. induction due as [|i due IH]; intros st H; [done|]. apply IH. by apply execute_one_timers_ok.
Qed.

Lemma timers_ok_same st st' : timers_ok st → timer_map_ st' = timer_map_ st → log st' = log st → timers_ok st'.
Proof. intros [Hm Hr] Em El. split; [by rewrite Em, El|by rewrite El]. Qed.

Lemma tdo_timers_ok l st : timers_ok st → timers_ok (tdo l st).
Proof.
  intros Hok. destruct l as [f i|i|i|order]; simpl.
  - by apply (perform_timers_ok (ActAdd f i)).
  - by apply (perform_timers_ok (ActCancel i)).
  - unfold GetRestTime. destruct (timer_map_ st !! i); [|done]. by apply (timers_ok_same st).
  - unfold logic_timer_func. destruct (scan clock order _) as [due st1] eqn:E.
    apply scan_frame in E as (Hm & Hl & _). eapply timers_ok_same; [|done|done].
    apply execute_timers_ok. by apply (timers_ok_same st).
Qed.

Lemma treach_ok junk st : treach junk st → timers_ok st.
Proof.
  induction 1 as [|l st _ IH _]; [|by apply tdo_timers_ok].
  split; simpl; [intros id; rewrite lookup_empty; split; [by intros []|done]|].
  intros pre id f s t suf H. by destruct pre.
Qed.
End Runs.
Arguments tlabel : clear implicits.

(** C27: A callback is run only for a timer that has been added and not cancelled
    since, also when the timers are added and cancelled by the callbacks of the
    same tick, and whatever callbacks do. *)
Theorem cancelled_never_runs {F} clock (body : F → TimerMgr F → list (act F)) junk st pre id f s t suf :
  treach clock body junk st → log st = pre ++ EvRun id f s t :: suf →
  ∃ l1 l2, pre = l1 ++ EvAdd id :: l2 ∧ EvCancel id ∉ l2.
Proof. intros Hr Hl. apply treach_ok in Hr as [_ H]. by eapply alive_spec, H. Qed.

(** In a tick, a timer that nobody cancels is run exactly when its interval
    has passed at the moment it is looked at: then its callback is called once,
    not before the interval has passed since it was started, and it is restarted
    at the time of the call; otherwise it is not called and keeps its start. *)
Theorem timer_tick {F} clock (body : F → TimerMgr F → list (act F)) order st id tm :
  (∀ n m, (n <= m)%nat → clock n <= clock m) → in_order order st → timer_map_ st !! id = Some tm →
  ∃ evs o1 o2, order = o1 ++ id :: o2 ∧ log (logic_timer_func clock body order st) = log st ++ evs ∧
    (untouched id evs →
     if bool_decide (interval tm * 1000000 <= clock (reads st + length o1)%nat - started tm)
     then ∃ now, runs id evs = [(func tm, started tm, now)] ∧ interval tm * 1000000 <= now - started tm ∧
          timer_map_ (logic_timer_func clock body order st) !! id = Some (restart tm now)
     else runs id evs = [] ∧ timer_map_ (logic_timer_func clock body order st) !! id = Some tm).
Proof.
  intros Hc Ho Hid. destruct (tick_spec clock body order st id tm Ho Hid) as (evs & o1 & o2 & Heq & Hl & _ & H).
  exists evs, o1, o2. split_and!; [done..|]. intros Hu. specialize (H Hu).
  case_bool_decide as Hd; [|done]. destruct H as (k & Hk & Hr & Hm). exists (clock k). split_and!; [done| |done].
  pose proof (Hc _ _ Hk). lia.
Qed.

(** ** Timers run for ever *)

(** A run of the manager in which ticks keep coming and time goes on. *)
Record timer_run {F} (clock : nat → Z) (body : F → TimerMgr F → list (act F)) (run : nat → TimerMgr F)
    (lab : nat → tlabel F) : Prop := {
  tr_clock n m : (n <= m)%nat → clock n <= clock m;
  tr_unbounded t : ∃ n, t <= clock n;
  tr_step n : run (S n) = tdo clock body (lab n) (run n);
  tr_allowed n : tallowed (lab n) (run n);
  tr_ticks n : ∃ m order, (n <= m)%nat ∧ lab m = TTick order
}.

(** Runs of a timer with the interval [i] and the callback [f], the first of a timer
    started at [s]: each is at least the interval after the start, and starts the
    timer anew, the last one at [e]. *)
Fixpoint paced {F} (i : Z) (f : F) (s : Z) (l : list (F * Z * Z)) (e : Z) : Prop :=
  match l with
  | [] => e = s
  | (f', s', t) :: l => f' = f ∧ s' = s ∧ i * 1000000 <= t - s ∧ paced i f t l e
  end.

Lemma paced_app {F} i (f : F) l l' m e : ∀ s, paced i f s l m → paced i f m l' e → paced i f s (l ++ l') e.
Proof. induction l as [|[[f' s'] t] l IH]; intros s; simpl; [by intros ->|]. intros (? & ? & ? & ?) ?. eauto. Qed.

Lemma paced_callback {F} i (f : F) l e r : ∀ s, paced i f s l e → r ∈ l → r.1.1 = f.
Proof.
  induction l as [|[[f' s'] t] l IH]; intros s; simpl; [by intros _ ?%elem_of_nil|].
  intros (-> & _ & _ & Hp) [->|Hin]%elem_of_cons; [done|]. by eapply IH.
Qed.

Section Forever.
Context {F : Type} (clock : nat → Z) (body : F → TimerMgr F → list (act F)) (run : nat → TimerMgr F) (lab : nat → tlabel F).
Context (Hrun : timer_run clock body run lab) (id : Z) (n0 : nat) (tm0 : Timer F).
Context (Htm0 : timer_map_ (run n0) !! id = Some tm0).
Context (Hun : ∀ m evs, (n0 <= m)%nat → log (run m) = log (run n0) ++ evs → untouched id evs).

(** Timer [id] has entry [tm] at step [n], and was run in time so far. *)
Definition holds (n : nat) (tm : Timer F) : Prop :=
  (n0 <= n)%nat ∧ timer_map_ (run n) !! id = Some tm ∧ interval tm = interval tm0 ∧ func tm = func tm0 ∧
  ∃ evs, log (run n) = log (run n0) ++ evs ∧ paced (interval tm0) (func tm0) (started tm0) (runs id evs) (started tm).

(** Step [n] runs timer [id]. *)
Definition fires (n : nat) : Prop := ∃ evs, log (run (S n)) = log (run n) ++ evs ∧ runs id evs ≠ [].

Lemma quiet_tdo l st : (∀ order, l ≠ TTick order) → quiet id st (tdo clock body l st).
Proof.
  intros Hl. destruct l as [f i|i|i|order]; simpl.
  - apply (quiet_perform clock id (ActAdd f i)).
  - apply (quiet_perform clock id (ActCancel i)).
  - unfold GetRestTime. exists []. rewrite app_nil_r.
    destruct (timer_map_ st !! i); simpl; split_and!; done || lia.
  - by destruct (Hl order).
Qed.

(** Timers that were run are restarted, others are left. *)
Lemma holds_next n tm evs : holds n tm → log (run (S n)) = log (run n) ++ evs →
  (untouched id evs → (∃ t, runs id evs = [(func tm, started tm, t)] ∧ interval tm * 1000000 <= t - started tm ∧
      timer_map_ (run (S n)) !! id = Some (restart tm t)) ∨ (runs id evs = [] ∧ timer_map_ (run (S n)) !! id = Some tm)) →
  (fires n ∧ ∃ tm', holds (S n) tm') ∨ holds (S n) tm.
Proof.
  intros (Hn & Hm & Hi & Hf & evs0 & Hl0 & Hp) Hl H.
  assert (log (run (S n)) = log (run n0) ++ evs0 ++ evs) as Hl1 by (by rewrite Hl, Hl0, app_assoc).
  assert (untouched id evs) as Hu.
  { pose proof (Hun (S n) _ ltac:(lia) Hl1) as Hu. by apply untouched_app in Hu as [_ ?]. }
  destruct (H Hu) as [(t & Hr & Hle & Hmap)|[Hr Hmap]].
  - left. split; [exists evs; by rewrite Hr|]. exists (restart tm t). split_and!; [lia|done..|].
    exists (evs0 ++ evs). split; [done|]. rewrite runs_app, Hr. eapply paced_app; [exact Hp|]. simpl. by rewrite <- Hi, <- Hf.
  - right. split_and!; [lia|done..|]. exists (evs0 ++ evs). by rewrite runs_app, Hr, app_nil_r.
Qed.

Lemma holds_step n tm : holds n tm →
  (reads (run n) <= reads (run (S n)))%nat ∧ ((fires n ∧ ∃ tm', holds (S n) tm') ∨ holds (S n) tm).
Proof.
  intros Hh. pose proof Hh as (Hn & Hm & _). pose proof (tr_step _ _ _ _ Hrun n) as Hs.
  pose proof (tr_allowed _ _ _ _ Hrun n) as Ha. pose proof (tr_clock _ _ _ _ Hrun) as Hc.
  destruct (lab n) as [f i|i|i|order] eqn:El.
  4: { simpl in Hs, Ha. destruct (tick_spec clock body order (run n) id tm (proj1 Ha) Hm) as (evs & o1 & o2 & _ & Hl & Hr & H).
       rewrite <- Hs in *. split; [lia|]. eapply holds_next; [done..|]. intros Hu. specialize (H Hu).
       case_bool_decide as Hd; [left|by right]. destruct H as (k & Hk & H1 & H2).
       exists (clock k). split_and!; [done| |done]. pose proof (Hc _ _ Hk). lia. }
  all: destruct (quiet_tdo (lab n) (run n)) as (evs & Hl & Hr & Hq0 & Hq); [by rewrite El|];
    rewrite El, <- Hs in *; (split; [done|]); eapply holds_next; [done..|];
    intros Hu; right; by rewrite Hq.
Qed.

Lemma holds_tick n tm order : holds n tm → lab n = TTick order →
  (reads (run n) < reads (run (S n)))%nat ∧
  (interval tm * 1000000 <= clock (reads (run n)) - started tm → fires n).
Proof.
  intros Hh El. pose proof Hh as (Hn & Hm & Hi & Hf & evs0 & Hl0 & _). pose proof (tr_step _ _ _ _ Hrun n) as Hs.
  pose proof (tr_allowed _ _ _ _ Hrun n) as Ha. pose proof (tr_clock _ _ _ _ Hrun) as Hc. rewrite El in Hs, Ha. simpl in Hs, Ha.
  destruct (tick_spec clock body order (run n) id tm (proj1 Ha) Hm) as (evs & o1 & o2 & _ & Hl & Hr & H).
  rewrite <- Hs in *. split; [done|]. intros Hd.
  assert (untouched id evs) as Hu.
  { assert (log (run (S n)) = log (run n0) ++ evs0 ++ evs) as Hl1 by (by rewrite Hl, Hl0, app_assoc).
    pose proof (Hun (S n) _ ltac:(lia) Hl1) as Hu. by apply untouched_app in Hu as [_ ?]. }
  specialize (H Hu). rewrite bool_decide_eq_true_2 in H
    by (pose proof (Hc (reads (run n)) (reads (run n) + length o1)%nat ltac:(lia)); lia).
  destruct H as (k & _ & Hr' & _). exists evs. by rewrite Hr'.
Qed.

Lemma holds_until n tm m : holds n tm → (n <= m)%nat →
  (∃ k, (n <= k < m)%nat ∧ fires k) ∨ (holds m tm ∧ (reads (run n) <= reads (run m))%nat).
Proof.
  intros Hh Hm. induction Hm as [|m Hm IH]; [by right|].
  destruct IH as [(k & Hk & Hf)|[Hh' Hr]]; [left; exists k; split; [lia|done]|].
  destruct (holds_step m tm Hh') as [Hr' [[Hf _]|Hh'']]; [left; exists m; split; [lia|done]|].
  right. split; [done|lia].
Qed.

Lemma reads_grow n tm k : holds n tm →
  ∃ m, (n <= m)%nat ∧ (fires m ∨ (holds m tm ∧ (k <= reads (run m))%nat)).
Proof.
  intros Hh. induction k as [|k IH]; [exists n; split; [done|]; right; split; [done|lia]|].
  destruct IH as (m & Hm & [Hf|[Hh' Hk]]); [eauto|].
  destruct (tr_ticks _ _ _ _ Hrun m) as (m' & order & Hm' & El).
  destruct (holds_until m tm m' Hh' Hm') as [(j & Hj & Hf)|[Hh'' Hr]]; [exists j; split; [lia|auto]|].
  destruct (holds_tick m' tm order Hh'' El) as [Hlt _].
  destruct (holds_step m' tm Hh'') as [_ [[Hf _]|Hn]]; [exists m'; split; [lia|auto]|].
  exists (S m'). split; [lia|]. right. split; [done|lia].
Qed.

Lemma fires_later n tm : holds n tm → ∃ m, (n <= m)%nat ∧ fires m.
Proof.
  intros Hh. destruct (tr_unbounded _ _ _ _ Hrun (started tm + interval tm * 1000000)) as [k Hk].
  destruct (reads_grow n tm k Hh) as (m & Hm & [Hf|[Hh' Hr]]); [eauto|].
  destruct (tr_ticks _ _ _ _ Hrun m) as (m' & order & Hm' & El).
  destruct (holds_until m tm m' Hh' Hm') as [(j & Hj & Hf)|[Hh'' Hr']]; [exists j; split; [lia|done]|].
  exists m'. split; [lia|]. apply (holds_tick m' tm order Hh'' El).
  pose proof (tr_clock _ _ _ _ Hrun k (reads (run m')) ltac:(lia)). lia.
Qed.

Lemma holds_always n : (n0 <= n)%nat → ∃ tm, holds n tm.
Proof.
  intros Hn. induction Hn as [|n Hn [tm IH]].
  - exists tm0. split_and!; [done..|]. exists []. by rewrite app_nil_r.
  - destruct (holds_step n tm IH) as [_ [[_ ?]|?]]; eauto.
Qed.

(** What a step that runs the timer calls. *)
Lemma fires_callback n : (n0 <= n)%nat → fires n →
  ∃ evs s t, log (run (S n)) = log (run n) ++ evs ∧ EvRun id (func tm0) s t ∈ evs.
Proof.
  intros Hn (evs & Hl & Hne). exists evs.
  destruct (holds_always n Hn) as [tm (_ & _ & _ & _ & e1 & Hl1 & _)].
  destruct (holds_always (S n) ltac:(lia)) as [tm' (_ & _ & _ & _ & e2 & Hl2 & Hp)].
  assert (e2 = e1 ++ evs) as -> by (rewrite Hl, Hl1, <- app_assoc in Hl2; by apply app_inv_head in Hl2).
  destruct (runs id evs) as [|[[f s] t] rs] eqn:Er; [done|].
  assert ((f, s, t) ∈ runs id evs) as Hin by (rewrite Er; by left).
  rewrite runs_app, Er in Hp. apply (paced_callback _ _ _ _ (f, s, t)) in Hp; [|set_solver]. simpl in Hp. subst f.
  exists s, t. split; [done|]. by apply runs_elem.
Qed.
End Forever.

(** C24: As long as ticks keep coming and time goes on, a timer that is neither
    cancelled nor replaced is run again and again, for ever, and never too early.
    Up to every moment, its runs are calls of its callback, of which the first is
    at least the interval after the timer had been started and each of the others
    at least the interval after the one before ([paced]); and after every moment
    there is a step in which the timer is run. *)
Theorem timer_runs_forever {F} clock (body : F → TimerMgr F → list (act F)) run lab id n0 tm n :
  timer_run clock body run lab → timer_map_ (run n0) !! id = Some tm →
  (∀ m evs, (n0 <= m)%nat → log (run m) = log (run n0) ++ evs → untouched id evs) → (n0 <= n)%nat →
  (∃ evs last, log (run n) = log (run n0) ++ evs ∧ paced (interval tm) (func tm) (started tm) (runs id evs) last)
  ∧ ∃ m evs, (n <= m)%nat ∧ log (run (S m)) = log (run m) ++ evs ∧ runs id evs ≠ [].
Proof.
  intros Hr Hm Hu Hn. destruct (holds_always clock body run lab Hr id n0 tm Hm Hu n Hn) as [tm' Hh]. split.
  - destruct Hh as (_ & _ & _ & _ & evs & ? & ?). by exists evs, (started tm').
  - destruct (fires_later clock body run lab Hr id n0 tm Hu n tm' Hh) as (m & Hm' & evs & ?). by exists m, evs.
Qed.

(** A manager with one timer of at most ten milliseconds, on a clock that advances
    by ten milliseconds at every reading. *)
Definition demo_clock (n : nat) : Z := Z.of_nat n * 10000000.
Definition demo_body {F} (f : F) (st : TimerMgr F) : list (act F) := [].

Lemma demo_clock_fair : (∀ n m, (n <= m)%nat → demo_clock n <= demo_clock m) ∧ ∀ t, ∃ n, t <= demo_clock n.
Proof. unfold demo_clock. split; [lia|]. intros t. exists (Z.to_nat t). lia. Qed.

Definition demo_timers {F} (f : F) (i : Z) (n : nat) : TimerMgr F :=
  {| timer_id_ := 1;
     timer_map_ := {[0 := {| interval := i; func := f; started := demo_clock (2 * n) |}]};
     server_logic_timer_ := true; reads := 2 * n + 1;
     log := EvAdd 0 :: ((λ k, EvRun 0 f (demo_clock (2 * k)) (demo_clock (2 * k + 2))) <$> seq 0 n) |}.

Lemma demo_timers_order {F} (f : F) i n : in_order [0] (demo_timers f i n).
Proof. unfold in_order. simpl. by rewrite map_to_list_singleton. Qed.

Lemma demo_timers_tick {F} (f : F) i n : i <= 10 → logic_timer_func demo_clock demo_body [0] (demo_timers f i n) = demo_timers f i (S n).
Proof.
  intros Hi. unfold logic_timer_func, demo_timers at 1, set_armed, scan. cbn [timer_map_]. rewrite lookup_singleton_eq.
  cbn -[demo_clock Nat.mul Z.mul seq]. replace (i * 1000000 <=? demo_clock (2 * n + 1) - demo_clock (2 * n)) with true
    by (symmetry; apply Z.leb_le; unfold demo_clock; lia).
  unfold execute, foldl, execute_one. cbn [timer_map_]. rewrite lookup_singleton_eq.
  cbn -[demo_clock Nat.mul Z.mul seq]. unfold demo_timers, call, demo_body, ResetLogicTimer, set_armed, note, set_map. cbn -[demo_clock Nat.mul Z.mul seq].
  rewrite insert_singleton_eq, seq_S, fmap_app. cbn -[demo_clock Nat.mul Z.mul seq].
  replace (S (2 * n + 1)) with (2 * n + 2)%nat by lia. replace (2 * S n)%nat with (2 * n + 2)%nat by lia.
  f_equal. lia.
Qed.

Definition demo_timer_lab (n : nat) : tlabel unit := match n with O => TAdd tt 1 | S _ => TTick [0] end.
Definition demo_timer_run (n : nat) : TimerMgr unit := match n with O => TimerMgr_new 0 | S n => demo_timers tt 1 n end.

Lemma demo_timer_fair : timer_run demo_clock demo_body demo_timer_run demo_timer_lab.
Proof.
  split.
  - apply demo_clock_fair.
  - apply demo_clock_fair.
  - intros [|n]; [done|]. symmetry. by apply demo_timers_tick.
  - intros [|n]; [done|]. split; [apply demo_timers_order|done].
  - intros n. exists (S n), [0]. split; [lia|done].
Qed.

Lemma demo_timers_untouched m evs : (1 <= m)%nat →
  log (demo_timer_run m) = log (demo_timer_run 1) ++ evs → untouched 0 evs.
Proof.
  intros Hm. destruct m as [|m]; [lia|]. simpl. intros [= <-].
  split; intros (k & Hk & _)%list_elem_of_fmap; done.
Qed.

Lemma timer_runs_forever_witness :
  (∃ evs last, log (demo_timer_run 5) = log (demo_timer_run 1) ++ evs ∧ paced 1 tt 0 (runs 0 evs) last)
  ∧ ∃ m evs, (5 <= m)%nat ∧ log (demo_timer_run (S m)) = log (demo_timer_run m) ++ evs ∧ runs 0 evs ≠ [].
Proof.
  apply (timer_runs_forever demo_clock demo_body demo_timer_run demo_timer_lab 0 1
           {| interval := 1; func := tt; started := 0 |} 5).
  - apply demo_timer_fair.
  - reflexivity.
  - apply demo_timers_untouched.
  - lia.
Defined.

Lemma timer_tick_witness :
  ∃ evs o1 o2, [0] = o1 ++ 0 :: o2 ∧
    log (logic_timer_func demo_clock demo_body [0] (demo_timers tt 1 0)) = log (demo_timers tt 1 0) ++ evs ∧
    (untouched 0 evs →
     if bool_decide (1 * 1000000 <= demo_clock (1 + length o1)%nat - 0)
     then ∃ now, runs 0 evs = [(tt, 0, now)] ∧ 1 * 1000000 <= now - 0 ∧
          timer_map_ (logic_timer_func demo_clock demo_body [0] (demo_timers tt 1 0)) !! 0 =
          Some (restart {| interval := 1; func := tt; started := 0 |} now)
     else runs 0 evs = [] ∧ timer_map_ (logic_timer_func demo_clock demo_body [0] (demo_timers tt 1 0)) !! 0 =
          Some {| interval := 1; func := tt; started := 0 |}).
Proof.
  apply (timer_tick demo_clock demo_body [0] (demo_timers tt 1 0) 0 {| interval := 1; func := tt; started := 0 |}).
  - apply demo_clock_fair.
  - apply demo_timers_order.
  - reflexivity.
Defined.

Lemma demo_timers_reach n : treach demo_clock demo_body 0 (demo_timers tt 1 n).
Proof.
  induction n as [|n IH].
  - apply (treach_step _ _ _ (TAdd tt 1) (TimerMgr_new 0)); [apply treach_new|done].
  - rewrite <- demo_timers_tick by done. apply (treach_step _ _ _ (TTick [0])); [done|]. split; [apply demo_timers_order|done].
Qed.

Lemma cancelled_never_runs_witness :
  ∃ l1 l2, [EvAdd (F := unit) 0] = l1 ++ EvAdd 0 :: l2 ∧ EvCancel 0 ∉ l2.
Proof.
  apply (cancelled_never_runs demo_clock demo_body 0 (demo_timers tt 1 1) [EvAdd 0] 0 tt 0 20000000 []).
  - apply (demo_timers_reach 1).
  - reflexivity.
Defined.

(** ** The rest of a timer's time *)

(** [GetRestTime] answers the whole milliseconds left, between 0 and the
    interval while the timer is not overdue, for intervals below 2^31. *)
Lemma rest_time_bounds {F} clock (st : TimerMgr F) id tm :
  timer_map_ st !! id = Some tm → 0 <= interval tm < 2 ^ 31 →
  started tm <= clock (reads st) <= started tm + interval tm * 1000000 →
  let rest := (GetRestTime clock id st).1 in
  0 <= rest <= interval tm ∧
  clock (reads st) + rest * 1000000 <= started tm + interval tm * 1000000 < clock (reads st) + (rest + 1) * 1000000.
Proof.
  intros Hid Hi Hc. unfold GetRestTime. rewrite Hid. simpl.
  set (d := interval tm * 1000000 - (clock (reads st) - started tm)).
  assert (0 <= d <= interval tm * 1000000) as Hd by lia.
  rewrite Z.quot_div_nonneg by lia. rewrite s32_id by (unfold is_s32; zmod). subst d. zmod.
Qed.

(** A longer interval is answered as a negative rest. *)
Lemma rest_time_wraps {F} clock (st : TimerMgr F) id tm :
  timer_map_ st !! id = Some tm → 2 ^ 31 <= interval tm < 2 ^ 32 → clock (reads st) = started tm →
  (GetRestTime clock id st).1 = interval tm - 2 ^ 32.
Proof.
  intros Hid Hi Hc. unfold GetRestTime. rewrite Hid. simpl. rewrite Hc, Z.sub_diag, Z.sub_0_r, Z.quot_mul by lia.
  unfold s32. zmod.
Qed.

(** ** The driver's manager *)

Lemma driver_cancel_same {F} id (st : TimerMgr F) : timer_map_ (driver_Cancel id st) = timer_map_ (Cancel id st).
Proof.
  unfold driver_Cancel. destruct (timer_map_ st !! id) eqn:E; [done|]. simpl. by rewrite delete_id.
Qed.

(** A callback that cancels its own timer leaves the iterator of the loop
    without a timer; the collected numbers of ServerLib do not have this fault. *)
Lemma driver_self_cancel {F} clock (body : F → TimerMgr F → list (act F)) fuel st id tm :
  timer_map_ st = {[id := tm]} → (∀ st', body (func tm) st' = [ActCancel id]) →
  interval tm * 1000000 <= clock (reads st) - started tm →
  driver_logic_timer_func clock body (S fuel) st = Fault BadRead.
Proof.
  intros Hm Hb Hd. unfold driver_logic_timer_func. cbn [timer_map_ set_armed]. rewrite Hm.
  unfold successor. rewrite map_to_list_singleton. cbn [fmap list_fmap foldr fst].
  cbn [driver_loop timer_map_ set_armed]. rewrite Hm, lookup_singleton_eq. cbn [read_clock set_armed reads].
  rewrite (proj2 (Z.leb_le _ _) Hd). unfold call. rewrite Hb.
  cbn [foldl perform Cancel note set_map timer_map_ set_armed]. rewrite Hm, lookup_delete_eq. done.
Qed.
