(* ===== verification/Driver.v ===== *)
(** * Driver: the script server

    Driver/Driver.cpp, DriverFunc.cpp, GameScript.cpp, LuaVM.cpp and LuaVM.h: the
    driver owns a Lua machine and a timer manager (Timers) and calls the function
    [game_main] of the script every few milliseconds.  The Lua machine is a
    parameter: its state is [L], [call_function] is luabind's, which returns or
    throws, and [dofile] is [luaL_dofile].  [called] records the calls of Lua
    functions and [logged] the lines of the log. *)

From S2P Require Import Prelude Context Timers.
Local Open Scope Z_scope.

(** ** The script *)

(** What is passed to a Lua function. *)
Inductive lua_arg := AInt (n : Z) | AStr (s : list Z).

Section Driver.
Context {L : Type} (newstate : option L) (open_libs bind : L → L) (dofile : string → L → L * bool)
  (call_function : string → list lua_arg → L → L * bool).

(** [vm_] is the pointer to the LuaVM, an object with the pointer [L]. *)
Record GameScript := {
  vm_ : option (option L);
  running_ : bool;
  called : list (string * list lua_arg);
  logged : list string
}.

Definition GameScript_new : GameScript := {| vm_ := None; running_ := false; called := []; logged := [] |}.

Definition set_vm (vm : option (option L)) (g : GameScript) : GameScript :=
  {| vm_ := vm; running_ := running_ g; called := called g; logged := logged g |}.

Definition set_running (b : bool) (g : GameScript) : GameScript :=
  {| vm_ := vm_ g; running_ := b; called := called g; logged := logged g |}.

Definition LOG (line : string) (g : GameScript) : GameScript :=
  {| vm_ := vm_ g; running_ := running_ g; called := called g; logged := logged g ++ [line] |}.

(** The constructor of LuaVM opens the libraries of a state that may be null. *)
Definition LuaVM_new : outcome (option L) :=
  match newstate with
  | None => Fault NullDeref
  | Some l => Done (Some (open_libs l))
  end.

(** [LuaVM::Load] *)
Definition vm_Load (file : string) (vm : option L) : option L * bool :=
  match vm with
  | None => (None, false)
  | Some l => let '(l, ok) := dofile file l in (Some l, ok)
  end.

(** [LuaVM::Call]: exceptions end here. *)
Definition vm_Call (func : string) (args : list lua_arg) (g : GameScript) : outcome GameScript :=
  match vm_ g with
  | None => Fault NullDeref
  | Some None => Done g
  | Some (Some l) =>
      let '(l, threw) := call_function func args l in
      let g := {| vm_ := Some (Some l); running_ := running_ g; called := called g ++ [(func, args)]; logged := logged g |} in
      Done (if (threw : bool) then LOG ("exception @ lua function: " +:+ func) g else g)
  end.

Definition GameScript_Init (g : GameScript) : outcome GameScript :=
  do! vm <- LuaVM_new;
  let vm := match vm with Some l => Some (bind l) | None => None end in
  let '(vm, ok) := vm_Load "./game_main.lua" vm in
  let g := set_vm (Some vm) g in
  Done (if (ok : bool) then set_running true g else LOG "Load game main script fail" g).

(** [CHECK_VM_RUNNING] *)
Definition vm_running (g : GameScript) : bool := running_ g && match vm_ g with Some _ => true | None => false end.

Definition GameScript_Run (g : GameScript) : outcome GameScript :=
  if vm_running g then vm_Call "game_main" [] g else Done g.

Definition GameScript_Stop (g : GameScript) : GameScript := set_running false g.

Definition OnUserConnected (conn_id : Z) (g : GameScript) : outcome GameScript :=
  if vm_running g then vm_Call "OnUserConnected" [AInt conn_id] g else Done g.

Definition OnUserDisconnected (conn_id : Z) (g : GameScript) : outcome GameScript :=
  if vm_running g then vm_Call "OnUserDisconnected" [AInt conn_id] g else Done g.

Definition OnUserData (conn_id : Z) (buf : list Z) (len : Z) (g : GameScript) : outcome GameScript :=
  if vm_running g then do! pkt <- bytes_at buf 0 len; vm_Call "OnUserData" [AInt conn_id; AStr pkt] g else Done g.

(** ** The driver *)

(** The one function that is given to the timer manager; it does not use the
    manager. *)
Inductive frame_func := ScriptFrame.

Definition frame_body (f : frame_func) (st : TimerMgr frame_func) : list (act frame_func) := [].

Definition SCRIPT_FRAME_INTERVAL : Z := 6.

Record Driver := { script_ : GameScript; timer_mgr_ : TimerMgr frame_func; script_timer_ : Z }.

Context (clock : nat → Z).

Definition Driver_new (junk : Z) : outcome Driver :=
  do! script <- GameScript_Init GameScript_new;
  let '(id, tm) := AddTimer clock ScriptFrame SCRIPT_FRAME_INTERVAL (TimerMgr_new junk) in
  Done {| script_ := script; timer_mgr_ := tm; script_timer_ := id |}.

Definition Driver_Stop (d : Driver) : Driver :=
  {| script_ := GameScript_Stop (script_ d); timer_mgr_ := Cancel (script_timer_ d) (timer_mgr_ d); script_timer_ := script_timer_ d |}.

(** [DriverFunc.cpp]: the length is an [int32] passed as an [uint32]. *)
Definition Driver_Dispatch (conn_id : Z) (buf : list Z) (len : Z) (d : Driver) : outcome Driver :=
  do! script <- OnUserData conn_id buf (u32 len) (script_ d);
  Done {| script_ := script; timer_mgr_ := timer_mgr_ d; script_timer_ := script_timer_ d |}.

(** The frames that a tick of the timer manager ran. *)
Definition is_frame (e : event frame_func) : bool := match e with EvRun _ ScriptFrame _ _ => true | _ => false end.

Fixpoint run_frames (n : nat) (g : GameScript) : outcome GameScript :=
  match n with
  | O => Done g
  | S n => do! g <- GameScript_Run g; run_frames n g
  end.

(** A tick: the callbacks run on the script, which the manager does not see. *)
Definition Driver_tick (order : list Z) (d : Driver) : outcome Driver :=
  let tm := logic_timer_func clock frame_body order (timer_mgr_ d) in
  do! script <- run_frames (length (List.filter is_frame (drop (length (log (timer_mgr_ d))) (log tm)))) (script_ d);
  Done {| script_ := script; timer_mgr_ := tm; script_timer_ := script_timer_ d |}.

(** What happens to a driver: a tick, data of a user, a stop. *)
Inductive dlabel := DTick (order : list Z) | DData (conn_id : Z) (buf : list Z) (len : Z) | DStop.

Definition ddo (l : dlabel) (d : Driver) : outcome Driver :=
  match l with
  | DTick order => Driver_tick order d
  | DData conn_id buf len => Driver_Dispatch conn_id buf len d
  | DStop => Done (Driver_Stop d)
  end.

(** A run of a driver in which ticks keep coming and time goes on. *)
Record driver_run (run : nat → Driver) (lab : nat → dlabel) : Prop := {
  dr_start : ∃ junk, Driver_new junk = Done (run 0%nat);
  dr_clock n m : (n <= m)%nat → clock n <= clock m;
  dr_unbounded t : ∃ n, t <= clock n;
  dr_step n : ddo (lab n) (run n) = Done (run (S n));
  dr_order n order : lab n = DTick order → in_order order (timer_mgr_ (run n));
  dr_ticks n : ∃ m order, (n <= m)%nat ∧ lab m = DTick order
}.

(** ** Lemmas *)

Definition vm_up (g : GameScript) : Prop := ∃ l, vm_ g = Some (Some l).

Lemma call_up func args g : vm_up g → ∃ g', vm_Call func args g = Done g' ∧ vm_up g' ∧ running_ g' = running_ g ∧ called g' = called g ++ [(func, args)].
Proof.
  intros [l Hl]. unfold vm_Call. rewrite Hl. destruct (call_function func args l) as [l' []]; eexists; (split; [done|]); (split; [by eexists | done]).
Qed.

Lemma run_frames_up n : ∀ g, vm_up g → ∃ g', run_frames n g = Done g' ∧ vm_up g' ∧ running_ g' = running_ g
  ∧ called g' = called g ++ (if running_ g then replicate n ("game_main"%string, []) else []).
Proof.
  induction n as [|n IH]; intros g Hup; cbn [run_frames].
  { exists g. split; [done|]. split; [done|]. split; [done|]. destruct (running_ g); by rewrite app_nil_r. }
  unfold GameScript_Run, vm_running. destruct Hup as [l Hl] eqn:Eup. rewrite Hl. rewrite andb_true_r. destruct (running_ g) eqn:Er; cbn [obind].
  - destruct (call_up "game_main" [] g) as (g1 & -> & Hup1 & Hr1 & Hc1); [by exists l|]. cbn [obind]. destruct (IH g1 Hup1) as (g2 & -> & Hup2 & Hr2 & Hc2).
    exists g2. rewrite Hr2, Hc2, Hc1, Hr1, Er. split_and!; try done. by rewrite <- app_assoc.
  - destruct (IH g Hup) as (g2 & -> & Hup2 & Hr2 & Hc2). exists g2. rewrite Hr2, Hc2, Er. done.
Qed.

(** A tick only adds runs to the log. *)
Lemma tick_runs order st : ∃ evs, log (logic_timer_func clock frame_body order st) = log st ++ evs ∧ ∀ e, e ∈ evs → ∃ id s t, e = EvRun id ScriptFrame s t.
Proof.
  unfold logic_timer_func. destruct (scan clock order _) as [due st1] eqn:Es. apply scan_frame in Es as (_ & Hl & _). cbn [log set_armed] in Hl.
  change (log (ResetLogicTimer (execute clock frame_body due st1))) with (log (execute clock frame_body due st1)). rewrite <- Hl. clear Hl.
  unfold execute. revert st1. induction due as [|id due IH]; intros st1; cbn [foldl].
  { exists []. rewrite app_nil_r. split; [done|]. intros e He. by apply elem_of_nil in He. }
  destruct (IH (execute_one clock frame_body id st1)) as (evs & -> & Hevs). clear IH. unfold execute_one.
  destruct (timer_map_ st1 !! id) as [tm|]; [|eauto]. cbn. destruct (func tm).
  exists (EvRun id ScriptFrame (started tm) (clock (reads st1)) :: evs). rewrite <- app_assoc. split; [done|].
  intros e [->|He]%elem_of_cons; eauto.
Qed.

Lemma data_script conn_id buf len d d' : Driver_Dispatch conn_id buf len d = Done d' → vm_up (script_ d) →
  timer_mgr_ d' = timer_mgr_ d ∧ script_timer_ d' = script_timer_ d ∧ vm_up (script_ d') ∧ running_ (script_ d') = running_ (script_ d)
  ∧ (running_ (script_ d) = false → called (script_ d') = called (script_ d)).
Proof.
  unfold Driver_Dispatch, OnUserData. intros H Hup. destruct (vm_running (script_ d)) eqn:Ev.
  - destruct (bytes_at _ _ _) as [pkt|]; cbn [obind] in H; [|discriminate H]. destruct (call_up "OnUserData" [AInt conn_id; AStr pkt] (script_ d) Hup) as (g' & Hg & Hup' & Hr & Hc).
    rewrite Hg in H. cbn [obind] in H. injection H as <-. cbn. split_and!; try done. intros Hno. unfold vm_running in Ev. by rewrite Hno in Ev.
  - cbn [obind] in H. injection H as <-. done.
Qed.

Lemma tick_script order d d' : Driver_tick order d = Done d' → vm_up (script_ d) →
  timer_mgr_ d' = logic_timer_func clock frame_body order (timer_mgr_ d) ∧ script_timer_ d' = script_timer_ d ∧ vm_up (script_ d')
  ∧ running_ (script_ d') = running_ (script_ d)
  ∧ ∀ evs, log (timer_mgr_ d') = log (timer_mgr_ d) ++ evs →
      called (script_ d') = called (script_ d) ++ (if running_ (script_ d) then replicate (length (List.filter is_frame evs)) ("game_main"%string, []) else []).
Proof.
  unfold Driver_tick. intros H Hup. destruct (run_frames_up (length (List.filter is_frame (drop (length (log (timer_mgr_ d)))
    (log (logic_timer_func clock frame_body order (timer_mgr_ d)))))) (script_ d) Hup) as (g' & Hg & Hup' & Hr & Hc).
  rewrite Hg in H. cbn [obind] in H. injection H as <-. cbn. split_and!; try done. intros evs Hl. by rewrite Hc, Hl, drop_app_length.
Qed.

Lemma driver_new_up junk d : Driver_new junk = Done d → vm_up (script_ d) ∧ called (script_ d) = [] ∧ server_logic_timer_ (timer_mgr_ d) = true
  ∧ ∃ tm, timer_map_ (timer_mgr_ d) !! script_timer_ d = Some tm ∧ func tm = ScriptFrame.
Proof.
  unfold Driver_new, GameScript_Init, LuaVM_new. destruct newstate as [l|]; cbn [obind]; [|discriminate].
  destruct (vm_Load _ _) as [vm ok] eqn:El. unfold vm_Load in El. destruct (dofile _ _) as [l1 ok1]. injection El as <- <-.
  intros H. injection H as <-. cbn. split; [destruct ok1; by eexists|]. split; [by destruct ok1|]. split; [done|].
  eexists. by rewrite lookup_insert_eq.
Qed.

(** ** Runs *)

Section Runs.
Context (run : nat → Driver) (lab : nat → dlabel) (Hrun : driver_run run lab).

(** The machine stays up, the tick is always awaited and the number of the timer
    does not change. *)
Lemma run_up n : vm_up (script_ (run n)) ∧ server_logic_timer_ (timer_mgr_ (run n)) = true ∧ script_timer_ (run n) = script_timer_ (run 0%nat).
Proof.
  induction n as [|n (Hup & Ha & Ht)].
  - destruct (dr_start _ _ Hrun) as [junk Hn]. by apply driver_new_up in Hn as (? & _ & ? & _).
  - pose proof (dr_step _ _ Hrun n) as Hs. destruct (lab n) as [order|conn_id buf len|]; cbn [ddo] in Hs.
    + apply tick_script in Hs as (Hm & -> & Hup' & _); [|done]. rewrite Hm. split; [done|]. split; [|done].
      unfold logic_timer_func. by destruct (scan _ _ _).
    + apply data_script in Hs as (-> & -> & Hup' & _); [|done]. done.
    + injection Hs as <-. destruct Hup as [l Hl]. split; [by exists l|]. done.
Qed.

(** A script that does not run calls nothing any more. *)
Lemma run_stopped n m : running_ (script_ (run n)) = false → (n <= m)%nat →
  running_ (script_ (run m)) = false ∧ called (script_ (run m)) = called (script_ (run n)).
Proof.
  intros Hn Hm. induction Hm as [|m Hm [Hr Hc]]; [done|]. destruct (run_up m) as [Hup _].
  pose proof (dr_step _ _ Hrun m) as Hs. destruct (lab m) as [order|conn_id buf len|]; cbn [ddo] in Hs.
  - apply tick_script in Hs as (Hl & _ & _ & Hr' & Hc'); [|done]. rewrite Hr', Hr. split; [done|].
    destruct (tick_runs order (timer_mgr_ (run m))) as (evs & Hlog & _). rewrite <- Hl in Hlog. rewrite (Hc' evs Hlog), Hr, app_nil_r. done.
  - apply data_script in Hs as (_ & _ & _ & Hr' & Hc'); [|done]. rewrite Hr', Hr, Hc' by done. done.
  - injection Hs as <-. done.
Qed.

Section Going.
Context (Hgo : ∀ n, lab n ≠ DStop) (Hload : running_ (script_ (run 0%nat)) = true).

Lemma run_running n : running_ (script_ (run n)) = true.
Proof using Hrun Hgo Hload.
  induction n as [|n IH]; [done|]. destruct (run_up n) as [Hup _].
  pose proof (dr_step _ _ Hrun n) as Hs. pose proof (Hgo n). destruct (lab n) as [order|conn_id buf len|]; cbn [ddo] in Hs; [| |done].
  - apply tick_script in Hs as (_ & _ & _ & -> & _); done.
  - apply data_script in Hs as (_ & _ & _ & -> & _); done.
Qed.

(** The timer manager alone: data of users does not touch it. *)
Definition timer_lab (n : nat) : tlabel frame_func :=
  match lab n with DTick order => TTick order | _ => TRest (fresh (dom (timer_map_ (timer_mgr_ (run n))))) end.

Lemma run_timers : timer_run clock frame_body (λ n, timer_mgr_ (run n)) timer_lab.
Proof using Hrun Hgo.
  split; [apply (dr_clock _ _ Hrun)|apply (dr_unbounded _ _ Hrun)|..]; intros n.
  - unfold timer_lab. destruct (run_up n) as [Hup _]. pose proof (dr_step _ _ Hrun n) as Hs. pose proof (Hgo n).
    destruct (lab n) as [order|conn_id buf len|]; cbn [ddo] in Hs; [| |done].
    + by apply tick_script in Hs as (-> & _).
    + apply data_script in Hs as (-> & _); [|done]. cbn [tdo]. unfold GetRestTime.
      pose proof (is_fresh (dom (timer_map_ (timer_mgr_ (run n))))) as Hf. apply not_elem_of_dom in Hf. by rewrite Hf.
  - unfold timer_lab, tallowed. destruct (lab n) as [order|conn_id buf len|] eqn:El; try done.
    split; [by apply (dr_order _ _ Hrun)|]. apply run_up.
  - destruct (dr_ticks _ _ Hrun n) as (m & order & Hm & El). exists m, order. unfold timer_lab. by rewrite El.
Qed.

Lemma run_log n : ∃ evs, log (timer_mgr_ (run n)) = log (timer_mgr_ (run 0%nat)) ++ evs ∧ ∀ e, e ∈ evs → ∃ id s t, e = EvRun id ScriptFrame s t.
Proof using Hrun Hgo.
  induction n as [|n (evs & Hl & He)]; [exists []; rewrite app_nil_r; split; [done|]; intros e H; by apply elem_of_nil in H|].
  destruct (run_up n) as [Hup _]. pose proof (dr_step _ _ Hrun n) as Hs. pose proof (Hgo n).
  destruct (lab n) as [order|conn_id buf len|]; cbn [ddo] in Hs; [| |done].
  - apply tick_script in Hs as (-> & _); [|done]. destruct (tick_runs order (timer_mgr_ (run n))) as (evs' & -> & He').
    exists (evs ++ evs'). rewrite Hl, app_assoc. split; [done|]. intros e [H1|H1]%elem_of_app; auto.
  - apply data_script in Hs as (-> & _); [|done]. eauto.
Qed.

Lemma run_fires n : ∃ m evs id s t, (n <= m)%nat ∧ log (timer_mgr_ (run (S m))) = log (timer_mgr_ (run m)) ++ evs ∧ EvRun id ScriptFrame s t ∈ evs.
Proof using Hrun Hgo.
  destruct (dr_start _ _ Hrun) as [junk Hn]. apply driver_new_up in Hn as (_ & _ & _ & tm & Htm & Hf).
  assert (∀ m evs, (0 <= m)%nat → log (timer_mgr_ (run m)) = log (timer_mgr_ (run 0%nat)) ++ evs → untouched (script_timer_ (run 0%nat)) evs) as Hun.
  { intros m evs _ Hl. destruct (run_log m) as (evs' & Hl' & He). rewrite Hl' in Hl. apply app_inv_head in Hl as ->.
    split; intros (? & ? & ? & H)%He; discriminate H. }
  destruct (holds_always clock frame_body _ _ run_timers _ 0%nat tm Htm Hun n (Nat.le_0_l n)) as [tm' Hh].
  destruct (fires_later clock frame_body _ _ run_timers _ 0%nat tm Hun n tm' Hh) as (m & Hm & Hfires).
  destruct (fires_callback clock frame_body _ _ run_timers _ 0%nat tm Htm Hun m (Nat.le_0_l m) Hfires) as (evs & s & t & Hl & Hin).
  rewrite Hf in Hin. eauto 10.
Qed.

Lemma frames_counted evs id s t : EvRun id ScriptFrame s t ∈ evs → (0 < length (List.filter is_frame evs))%nat.
Proof.
  intros Hin. destruct (List.filter is_frame evs) as [|e l] eqn:E; [|cbn; lia].
  assert (In (EvRun id ScriptFrame s t) (List.filter is_frame evs)) as H by (apply filter_In; split; [by apply list_elem_of_In|done]).
  by rewrite E in H.
Qed.

Lemma run_frame_later n : ∃ m k, (n <= m)%nat ∧ called (script_ (run (S m))) = called (script_ (run m)) ++ replicate (S k) ("game_main"%string, []).
Proof using Hrun Hgo Hload.
  destruct (run_fires n) as (m & evs & id & s & t & Hm & Hl & Hin). exists m. apply frames_counted in Hin.
  destruct (run_up m) as [Hup _]. pose proof (run_running m) as Hr. pose proof (dr_step _ _ Hrun m) as Hs. pose proof (Hgo m).
  destruct (lab m) as [order|conn_id buf len|]; cbn [ddo] in Hs; [| |done].
  - apply tick_script in Hs as (_ & _ & _ & _ & Hc); [|done]. specialize (Hc evs Hl). rewrite Hr in Hc.
    exists (pred (length (List.filter is_frame evs))). split; [done|]. rewrite Hc. do 2 f_equal. lia.
  - apply data_script in Hs as (He & _); [|done]. rewrite He in Hl.
    assert (evs = []) as -> by (eapply app_inv_head; by rewrite <- Hl, app_nil_r). cbn in Hin. lia.
Qed.
End Going.
End Runs.
End Driver.
Arguments GameScript : clear implicits.
Arguments Driver : clear implicits.


(** A machine that counts the calls and in which every call throws. *)
Definition demo_call (func : string) (args : list lua_arg) (l : nat) : nat * bool := (S l, true).
Definition demo_dofile (file : string) (l : nat) : nat * bool := (l, true).

Definition demo_driver (n : nat) : Driver nat :=
  {| script_ := {| vm_ := Some (Some n); running_ := true; called := replicate n ("game_main"%string, []);
                   logged := replicate n "exception @ lua function: game_main"%string |};
     timer_mgr_ := demo_timers ScriptFrame 6 n; script_timer_ := 0 |}.

Lemma demo_driver_tick n : Driver_tick demo_call demo_clock [0] (demo_driver n) = Done (demo_driver (S n)).
Proof.
  unfold Driver_tick. cbn [timer_mgr_ demo_driver]. change frame_body with (@demo_body frame_func). rewrite demo_timers_tick by done.
  unfold demo_timers at 1 2. cbn [log]. rewrite seq_S, fmap_app, app_comm_cons, drop_app_length. cbn -[demo_timers replicate].
  unfold demo_driver, LOG. cbn -[demo_timers replicate]. by rewrite !replicate_S_end.
Qed.

Lemma demo_driver_run : driver_run (Some 0%nat) id id demo_dofile demo_call demo_clock demo_driver (λ _, DTick [0]).
Proof.
  split.
  - by exists 0.
  - apply demo_clock_fair.
  - apply demo_clock_fair.
  - apply demo_driver_tick.
  - intros n order [= <-]. apply demo_timers_order.
  - intros n. by exists n, [0].
Qed.

