(* ===== verification/Startup.v ===== *)
(** * Startup: the configurations of the servers

    The Main.cpp of the gateway, of the driver and of the data server: what they
    read from their configuration files (CfgReader), and how the gateway starts
    from it ([Gateway::Run], [GenericServer::Run]: Dispatch for the connection to
    the RPC proxy, Sessions for the server).  A file is the bytes it has, [None]
    when it cannot be opened.  [pool_size] is [None] when it was not set. *)

From S2P Require Import Prelude Register Defaults Strop CfgReader Dispatch Sessions.
Local Open Scope Z_scope.

Definition atoi (s : list Z) : Z := s32 (strtol s).

Definition empty (s : list Z) : bool := match s with [] => true | _ => false end.

Record GatewayStartupConfig := {
  service_name : list Z;
  rpc_server_addr : list Z;
  ip : list Z;
  port : list Z;
  pool_size : option Z
}.

(** [GetConfig] of Gateway/Main.cpp *)
Definition gateway_GetConfig (file : option (list Z)) : outcome GatewayStartupConfig :=
  do! (_, reader) <- Read file CfgReader_new;
  let config size := {| service_name := cfg_get reader (lit "ServiceName"); rpc_server_addr := cfg_get reader (lit "RpcProxyServerAddr");
                        ip := cfg_get reader (lit "IP"); port := cfg_get reader (lit "Port"); pool_size := size |} in
  let pool_size := cfg_get reader (lit "IoServicePoolSize") in
  if empty (service_name (config None)) || empty (rpc_server_addr (config None)) || empty (ip (config None)) || empty (port (config None))
  then Done (config None)
  else
    let pool_size := if empty pool_size then lit "1" else pool_size in
    Done (config (Some (atoi pool_size))).

Record DriverStartupConfig := {
  driver_service_name : list Z;
  driver_rpc_server_addr : list Z;
  gateway_name : list Z;
  driver_pool_size : option Z
}.

(** [GetConfig] of Driver/Main.cpp *)
Definition driver_GetConfig (file : option (list Z)) : outcome DriverStartupConfig :=
  do! (_, reader) <- Read file CfgReader_new;
  let config size := {| driver_service_name := cfg_get reader (lit "ServiceName"); driver_rpc_server_addr := cfg_get reader (lit "RpcProxyServerAddr");
                        gateway_name := cfg_get reader (lit "GatewayServiceName"); driver_pool_size := size |} in
  let pool_size := cfg_get reader (lit "IoServicePoolSize") in
  if empty (driver_service_name (config None)) || empty (driver_rpc_server_addr (config None)) || empty (gateway_name (config None))
  then Done (config None)
  else
    let pool_size := if empty pool_size then lit "1" else pool_size in
    Done (config (Some (atoi pool_size))).

(** [GetConfig] of DataServer/Main.cpp *)
Definition data_GetConfig (file : option (list Z)) : outcome (list (list Z)) :=
  do! (_, reader) <- Read file CfgReader_new;
  let ip := cfg_get reader (lit "IP") in
  let port := cfg_get reader (lit "Port") in
  if empty ip || empty port then Done [] else Done [ip; port].

Section Startup.
Context {T : Type} `{!ConnTable T}.

(** [GenericServer::Run], up to [server->Run]: an [int] becomes a [size_t]. *)
Definition GenericServer_Run (pool_size : Z) : outcome (Server T) := Server_new (Z.to_nat (u64 pool_size)).

(** [main] and [Gateway::Run]: the proxy it connects to, if any, and the server.
    The answer of [Connect] is not looked at. *)
Definition gateway_main (file : option (list Z)) : outcome (option (list Z * list Z) * Server T) :=
  do! config <- gateway_GetConfig file;
  do! proxy <- Connect (rpc_server_addr config);
  match pool_size config with
  | None => Fault BadRead
  | Some size => do! server <- GenericServer_Run size; Done (proxy, server)
  end.

(** [main] of the data server, whose pool has the default size. *)
Definition data_main (file : option (list Z)) : outcome (option (Server T)) :=
  do! cfg <- data_GetConfig file;
  match cfg with
  | ip :: port :: _ => do! server <- GenericServer_Run 1; Done (Some server)
  | _ => Done None
  end.

(** ** Lemmas *)

(** The value a file gives to a key. *)
Definition setting (items : list cfg_item) (key : string) : list Z :=
  default [] (list_to_map (M := gmap (list Z) (list Z)) (entries items) !! lit key).

Definition plain_file (items : list cfg_item) : Prop := Forall item_ok items ∧ take 3 (cfg_text items) ≠ BOM.

Lemma read_settings items : plain_file items →
  ∃ r, Read (Some (cfg_text items)) CfgReader_new = Done (true, r) ∧ ∀ key, cfg_get r (lit key) = setting items key.
Proof.
  intros [Hok Hb]. destruct (read_items items false CfgReader_new Hok (λ _, Hb)) as (r & Hr & _ & Hg).
  exists r. split; [done|]. intros key. apply (Hg (lit key)).
Qed.

Lemma connect_total s : ∃ c, Connect s = Done c.
Proof. unfold Connect. rewrite SplitString_pieces. cbn [obind]. destruct (omap _ _) as [|h [|p t]]; eauto. Qed.

Lemma empty_false s : s ≠ [] → empty s = false.
Proof. by destruct s. Qed.

Lemma atoi_decimal n : is_s32 n → atoi (decimal n) = n.
Proof. intros Hn. unfold atoi, strtol. rewrite strtoll_decimal by width. by apply s32_id. Qed.

Definition gateway_keys : list string := ["ServiceName"; "RpcProxyServerAddr"; "IP"; "Port"]%string.

(** The size of the pool that a complete file asks for. *)
Definition pool_setting (items : list cfg_item) : Z :=
  if empty (setting items "IoServicePoolSize") then 1 else atoi (setting items "IoServicePoolSize").

Lemma gateway_config items : plain_file items →
  ∃ config, gateway_GetConfig (Some (cfg_text items)) = Done config ∧ rpc_server_addr config = setting items "RpcProxyServerAddr" ∧
    pool_size config = if bool_decide (Forall (λ key, setting items key ≠ []) gateway_keys) then Some (pool_setting items) else None.
Proof.
  intros Hp. destruct (read_settings items Hp) as (r & Hr & Hg). unfold gateway_GetConfig. rewrite Hr. cbn [obind].
  cbv zeta. cbn [service_name rpc_server_addr ip port]. unfold pool_setting. rewrite !Hg.
  case_bool_decide as Hk.
  - unfold gateway_keys in Hk. rewrite !Forall_cons in Hk. destruct Hk as (H1 & H2 & H3 & H4 & _).
    rewrite !empty_false by done. cbn [orb]. eexists. split; [done|]. cbn [rpc_server_addr pool_size]. split; [done|].
    by destruct (empty (setting items "IoServicePoolSize")).
  - match goal with |- context [if ?b then _ else _] => destruct b eqn:Eb end; [by eexists|]. destruct Hk.
    rewrite !orb_false_iff in Eb. destruct Eb as [[[H1 H2] H3] H4].
    unfold gateway_keys. rewrite !Forall_cons. split_and!; try done; intros E; by rewrite E in *.
Qed.

Lemma generic_server n : 0 < n < 2 ^ 31 → ∃ s, GenericServer_Run n = Done s ∧ srv_ok (Z.to_nat n) s.
Proof. intros Hn. unfold GenericServer_Run. rewrite u64_id by width. apply Server_new_ok. lia. Qed.
End Startup.


(** Gateway.cfg *)
Definition gateway_cfg : list cfg_item :=
  [Space []; Entry (lit "ServiceName") (lit "Gateway") [] [32] [32] [];
   Entry (lit "RpcProxyServerAddr") (lit "127.0.0.1:10001") [] [32] [32] []; Space [];
   Entry (lit "IP") (lit "0.0.0.0") [] [32] [32] []; Entry (lit "Port") (lit "8990") [] [32] [32] []; Space [];
   Entry (lit "IoServicePoolSize") (lit "2") [] [32] [32] []].

Lemma gateway_cfg_ok : plain_file gateway_cfg.
Proof.
  split; [|done]. repeat constructor; simpl; try lia; try (by intros [= ?]); try set_solver; try (by split; intros c [= <-]).
Qed.


(** A file without an IP. *)
Example gateway_without_ip : gateway_main (T := GateUserManager) (Some (lit "ServiceName=Gateway")) = Fault BadRead.
Proof. by vm_compute. Qed.

(** The data server checks its file: it runs only with an IP and a port. *)
Lemma data_startup {T} `{!ConnTable T} items : plain_file items →
  if bool_decide (setting items "IP" ≠ [] ∧ setting items "Port" ≠ [])
  then ∃ s, data_main (T := T) (Some (cfg_text items)) = Done (Some s) ∧ srv_ok 1 s
  else data_main (T := T) (Some (cfg_text items)) = Done None.
Proof.
  intros Hp. destruct (read_settings items Hp) as (r & Hr & Hg). unfold data_main, data_GetConfig. rewrite Hr. cbn [obind].
  cbv zeta. rewrite !Hg. case_bool_decide as Hd.
  - destruct Hd as [H1 H2]. rewrite !empty_false by done. cbn [orb obind].
    destruct (generic_server (T := T) 1) as (s & -> & Hok); [lia|]. exists s. done.
  - destruct (setting items "IP") as [|a l]; [done|]. destruct (setting items "Port"); [done|]. by destruct Hd.
Qed.
