(* ===== verification/Md5.v ===== *)
(** * Md5: the digest of ServerLib/md5.cpp and md5.h

    [MD5Init], [MD5Update] and [MD5Final] over a context that keeps a partial
    block, and the unrolled [MD5Transform], against the definition of MD5 in
    RFC 1321: the message is padded, cut into blocks of 64 bytes and folded with
    the four rounds of sixteen steps.

    The words of [ctx->in] are also accessed as bytes: [in_] are the 64 bytes of
    the array, little-endian as on the hosts of the build files.  What they hold
    before the first update is a parameter of [MD5Init]. *)

From S2P Require Import Prelude.
Local Open Scope Z_scope.

Notation regs := (Z * Z * Z * Z)%type.

Record MD5Context := { buf : regs; bytes : Z * Z; in_ : list Z }.

(** ** [MD5Transform] *)

Inductive fn := F1 | F2 | F3 | F4.
Inductive register := A | B | C | D.

#[export] Instance fn_eq_dec : EqDecision fn.
Proof. solve_decision. Defined.
#[export] Instance register_eq_dec : EqDecision register.
Proof. solve_decision. Defined.

(** The macros [F1] to [F4]. *)
Definition apply_fn (f : fn) (x y z : Z) : Z :=
  match f with
  | F1 => Z.lxor z (Z.land x (Z.lxor y z))
  | F2 => Z.lxor y (Z.land z (Z.lxor x y))
  | F3 => Z.lxor (Z.lxor x y) z
  | F4 => Z.lxor y (Z.lor x (u32 (Z.lnot z)))
  end.

(** One use of the macro [MD5STEP], and what it does to the registers. *)
Record step := MD5STEP { s_f : fn; s_w : register; s_x : register; s_y : register; s_z : register;
                         s_in : nat; s_k : Z; s_s : Z }.

#[export] Instance step_eq_dec : EqDecision step.
Proof. solve_decision. Defined.

Definition get (r : register) (s : regs) : Z :=
  let '(a, b, c, d) := s in match r with A => a | B => b | C => c | D => d end.

Definition put (r : register) (v : Z) (s : regs) : regs :=
  let '(a, b, c, d) := s in
  match r with A => (v, b, c, d) | B => (a, v, c, d) | C => (a, b, v, d) | D => (a, b, c, v) end.

(** [w << s | w >> (32 - s)] *)
Definition rotate (w s : Z) : Z := Z.lor (u32 (Z.shiftl w s)) (Z.shiftr w (32 - s)).

Definition run_step (inw : list Z) (r : regs) (st : step) : regs :=
  let x := get (s_x st) r in
  let w := u32 (get (s_w st) r + u32 (apply_fn (s_f st) x (get (s_y st) r) (get (s_z st) r)
                                      + u32 (nth (s_in st) inw 0 + s_k st))) in
  put (s_w st) (u32 (rotate w (s_s st) + x)) r.

Definition transform_steps : list step :=
  [MD5STEP F1 A B C D 0 0xd76aa478 7; MD5STEP F1 D A B C 1 0xe8c7b756 12;
   MD5STEP F1 C D A B 2 0x242070db 17; MD5STEP F1 B C D A 3 0xc1bdceee 22;
   MD5STEP F1 A B C D 4 0xf57c0faf 7; MD5STEP F1 D A B C 5 0x4787c62a 12;
   MD5STEP F1 C D A B 6 0xa8304613 17; MD5STEP F1 B C D A 7 0xfd469501 22;
   MD5STEP F1 A B C D 8 0x698098d8 7; MD5STEP F1 D A B C 9 0x8b44f7af 12;
   MD5STEP F1 C D A B 10 0xffff5bb1 17; MD5STEP F1 B C D A 11 0x895cd7be 22;
   MD5STEP F1 A B C D 12 0x6b901122 7; MD5STEP F1 D A B C 13 0xfd987193 12;
   MD5STEP F1 C D A B 14 0xa679438e 17; MD5STEP F1 B C D A 15 0x49b40821 22;
   MD5STEP F2 A B C D 1 0xf61e2562 5; MD5STEP F2 D A B C 6 0xc040b340 9;
   MD5STEP F2 C D A B 11 0x265e5a51 14; MD5STEP F2 B C D A 0 0xe9b6c7aa 20;
   MD5STEP F2 A B C D 5 0xd62f105d 5; MD5STEP F2 D A B C 10 0x02441453 9;
   MD5STEP F2 C D A B 15 0xd8a1e681 14; MD5STEP F2 B C D A 4 0xe7d3fbc8 20;
   MD5STEP F2 A B C D 9 0x21e1cde6 5; MD5STEP F2 D A B C 14 0xc33707d6 9;
   MD5STEP F2 C D A B 3 0xf4d50d87 14; MD5STEP F2 B C D A 8 0x455a14ed 20;
   MD5STEP F2 A B C D 13 0xa9e3e905 5; MD5STEP F2 D A B C 2 0xfcefa3f8 9;
   MD5STEP F2 C D A B 7 0x676f02d9 14; MD5STEP F2 B C D A 12 0x8d2a4c8a 20;
   MD5STEP F3 A B C D 5 0xfffa3942 4; MD5STEP F3 D A B C 8 0x8771f681 11;
   MD5STEP F3 C D A B 11 0x6d9d6122 16; MD5STEP F3 B C D A 14 0xfde5380c 23;
   MD5STEP F3 A B C D 1 0xa4beea44 4; MD5STEP F3 D A B C 4 0x4bdecfa9 11;
   MD5STEP F3 C D A B 7 0xf6bb4b60 16; MD5STEP F3 B C D A 10 0xbebfbc70 23;
   MD5STEP F3 A B C D 13 0x289b7ec6 4; MD5STEP F3 D A B C 0 0xeaa127fa 11;
   MD5STEP F3 C D A B 3 0xd4ef3085 16; MD5STEP F3 B C D A 6 0x04881d05 23;
   MD5STEP F3 A B C D 9 0xd9d4d039 4; MD5STEP F3 D A B C 12 0xe6db99e5 11;
   MD5STEP F3 C D A B 15 0x1fa27cf8 16; MD5STEP F3 B C D A 2 0xc4ac5665 23;
   MD5STEP F4 A B C D 0 0xf4292244 6; MD5STEP F4 D A B C 7 0x432aff97 10;
   MD5STEP F4 C D A B 14 0xab9423a7 15; MD5STEP F4 B C D A 5 0xfc93a039 21;
   MD5STEP F4 A B C D 12 0x655b59c3 6; MD5STEP F4 D A B C 3 0x8f0ccc92 10;
   MD5STEP F4 C D A B 10 0xffeff47d 15; MD5STEP F4 B C D A 1 0x85845dd1 21;
   MD5STEP F4 A B C D 8 0x6fa87e4f 6; MD5STEP F4 D A B C 15 0xfe2ce6e0 10;
   MD5STEP F4 C D A B 6 0xa3014314 15; MD5STEP F4 B C D A 13 0x4e0811a1 21;
   MD5STEP F4 A B C D 4 0xf7537e82 6; MD5STEP F4 D A B C 11 0xbd3af235 10;
   MD5STEP F4 C D A B 2 0x2ad7d2bb 15; MD5STEP F4 B C D A 9 0xeb86d391 21].

Definition MD5Transform (b : regs) (inw : list Z) : regs :=
  let '(a', b', c', d') := foldl (run_step inw) b transform_steps in
  let '(a, b, c, d) := b in
  (u32 (a + a'), u32 (b + b'), u32 (c + c'), u32 (d + d')).

(** ** The context *)

(** [byteSwap]: each word is rebuilt from its bytes and stored. *)
Fixpoint byteSwap (words : nat) (p : list Z) : list Z :=
  match words, p with
  | S words, p0 :: p1 :: p2 :: p3 :: p' =>
      le_split 4 (Z.lor (u32 (Z.shiftl (Z.lor (Z.shiftl p3 8) p2) 16)) (Z.lor (Z.shiftl p1 8) p0)) ++ byteSwap words p'
  | _, _ => p
  end.

(** The words of [in]. *)
Fixpoint words_of (p : list Z) : list Z :=
  match p with
  | p0 :: p1 :: p2 :: p3 :: p' => le_join [p0; p1; p2; p3] :: words_of p'
  | _ => []
  end.

Definition MD5Init (junk : list Z) : MD5Context :=
  {| buf := (0x67452301, 0xefcdab89, 0x98badcfe, 0x10325476); bytes := (0, 0); in_ := junk |}.

(** [byteSwap(ctx->in, 16); MD5Transform(ctx->buf, ctx->in)] *)
Definition transform_in (ctx : MD5Context) : MD5Context :=
  let inb := byteSwap 16 (in_ ctx) in
  {| buf := MD5Transform (buf ctx) (words_of inb); bytes := bytes ctx; in_ := inb |}.

(** A [memcpy] or [memset] into the bytes of [ctx->in]. *)
Definition store_in (off : Z) (src : list Z) (ctx : MD5Context) : outcome MD5Context :=
  do! i <- write_at (in_ ctx) off src;
  Done {| buf := buf ctx; bytes := bytes ctx; in_ := i |}.

(** The loop over 64-byte chunks, and the copy of the rest; [fuel] bounds the
    number of chunks. *)
Fixpoint update_chunks (fuel : nat) (data : list Z) (ctx : MD5Context) : outcome MD5Context :=
  match fuel with
  | O => Fault OutOfFuel
  | S fuel =>
      if 64 <=? zlen data then
        do! ctx <- store_in 0 (take 64 data) ctx;
        update_chunks fuel (drop 64 data) (transform_in ctx)
      else store_in 0 data ctx
  end.

Definition MD5Update (data : list Z) (ctx : MD5Context) : outcome MD5Context :=
  let len := zlen data in
  let '(t, hi) := bytes ctx in
  let lo := u32 (t + len) in
  let ctx := {| buf := buf ctx; bytes := (lo, if lo <? t then u32 (hi + 1) else hi); in_ := in_ ctx |} in
  let t := 64 - Z.land t 0x3f in
  if len <? t then store_in (64 - t) data ctx
  else
    do! ctx <- store_in (64 - t) (take (Z.to_nat t) data) ctx;
    update_chunks (S (length data)) (drop (Z.to_nat t) data) (transform_in ctx).

Definition le_words (r : regs) : list Z :=
  let '(a, b, c, d) := r in le_split 4 a ++ le_split 4 b ++ le_split 4 c ++ le_split 4 d.

(** The end of [MD5Final], from [byteSwap(ctx->in, 14)] on; [sizeof(ctx)] is the
    size of a pointer, so that only [buf[0]] and [buf[1]] are cleared. *)
Definition finish_block (ctx : MD5Context) : list Z * MD5Context :=
  let inb := byteSwap 14 (in_ ctx) in
  let '(lo, hi) := bytes ctx in
  let inw := take 14 (words_of inb) ++ [u32 (Z.shiftl lo 3); Z.lor (u32 (Z.shiftl hi 3)) (Z.shiftr lo 29)] in
  let r := MD5Transform (buf ctx) inw in
  let digest := byteSwap 4 (le_words r) in
  let '(_, _, c, d) := r in
  (digest, {| buf := (0, 0, c, d); bytes := bytes ctx; in_ := concat (le_split 4 <$> inw) |}).

Definition MD5Final (ctx : MD5Context) : outcome (list Z * MD5Context) :=
  let count := Z.land (fst (bytes ctx)) 0x3f in
  do! ctx <- store_in count [0x80] ctx;
  let p := count + 1 in
  let count := 56 - 1 - count in
  do! (p, count, ctx) <-
    (if count <? 0 then
       do! ctx <- store_in p (replicate (Z.to_nat (count + 8)) 0) ctx;
       Done (0, 56, transform_in ctx)
     else Done (p, count, ctx));
  do! ctx <- store_in p (replicate (Z.to_nat count) 0) ctx;
  Done (finish_block ctx).

Definition GetMD5 (junk : list Z) (data : list Z) : outcome (list Z) :=
  do! ctx <- MD5Update data (MD5Init junk);
  do! (digest, _) <- MD5Final ctx;
  Done digest.
