(* ===== verification/Md5Spec.v ===== *)
(** * Md5Spec: the digest is that of RFC 1321

    The definition of MD5 as the RFC gives it, and the proof that the code of
    Md5 computes it, however the message is cut into updates. *)

From S2P Require Import Prelude Md5.
Local Open Scope Z_scope.

(** ** The reference *)

(** RFC 1321, 3.4: the auxiliary functions. *)
Definition rfc_fn (f : fn) (x y z : Z) : Z :=
  match f with
  | F1 => Z.lor (Z.land x y) (Z.land (Z.lnot x) z)
  | F2 => Z.lor (Z.land x z) (Z.land y (Z.lnot z))
  | F3 => Z.lxor x (Z.lxor y z)
  | F4 => Z.lxor y (Z.lor x (u32 (Z.lnot z)))
  end.

(** The table [T]: [T i] is the integer part of 2^32 times the absolute value of
    the sine of [i + 1] radians.  The sine and cosine of 1 are summed from their
    series in 96 binary places, and the others follow by rotation. *)
Definition SCALE : Z := 2 ^ 96.

Fixpoint series (n : nat) (k term : Z) : Z :=
  match n with
  | O => 0
  | S n => term + series n (k + 2) (- term / ((k + 1) * (k + 2)))
  end.

Definition sin1 : Z := series 20 1 SCALE.
Definition cos1 : Z := series 20 0 SCALE.

Fixpoint sines (n : nat) (s c : Z) : list Z :=
  match n with
  | O => []
  | S n => s :: sines n ((s * cos1 + c * sin1) / SCALE) ((c * cos1 - s * sin1) / SCALE)
  end.

Definition rfc_T : list Z := (λ s, Z.abs s * 2 ^ 32 / SCALE) <$> sines 64 sin1 cos1.

(** The round, the word of the block and the shift of step [i]. *)
Definition rfc_round (i : nat) : fn := match (i / 16)%nat with 0%nat => F1 | 1%nat => F2 | 2%nat => F3 | _ => F4 end.

Definition rfc_word (i : nat) : nat :=
  match rfc_round i with
  | F1 => (i `mod` 16)%nat | F2 => ((5 * i + 1) `mod` 16)%nat
  | F3 => ((3 * i + 5) `mod` 16)%nat | F4 => ((7 * i) `mod` 16)%nat
  end.

Definition rfc_shift (i : nat) : Z :=
  nth (i `mod` 4) (match rfc_round i with
                   | F1 => [7; 12; 17; 22] | F2 => [5; 9; 14; 20]
                   | F3 => [4; 11; 16; 23] | F4 => [6; 10; 15; 21]
                   end) 0.

Definition rfc_step (X : list Z) (r : regs) (i : nat) : regs :=
  let '(a, b, c, d) := r in
  (d, u32 (b + rotate (u32 (a + rfc_fn (rfc_round i) b c d + nth (rfc_word i) X 0 + nth i rfc_T 0)) (rfc_shift i)), b, c).

Definition rfc_transform (r : regs) (X : list Z) : regs :=
  let '(a', b', c', d') := foldl (rfc_step X) r (seq 0 64) in
  let '(a, b, c, d) := r in
  (u32 (a + a'), u32 (b + b'), u32 (c + c'), u32 (d + d')).

(** 3.1 and 3.2: a bit 1, zeros up to 8 bytes before the end of a block, and the
    length in bits. *)
Definition rfc_pad (m : list Z) : list Z :=
  m ++ [128] ++ replicate (Z.to_nat ((55 - zlen m) mod 64)) 0 ++ le_split 8 (8 * zlen m).

Fixpoint rfc_blocks (n : nat) (r : regs) (p : list Z) : regs :=
  match n with
  | O => r
  | S n => rfc_blocks n (rfc_transform r (words_of (take 64 p))) (drop 64 p)
  end.

Definition rfc_init : regs := (0x67452301, 0xefcdab89, 0x98badcfe, 0x10325476).

Definition md5 (m : list Z) : list Z :=
  let p := rfc_pad m in le_words (rfc_blocks (length p / 64) rfc_init p).

(** The test suite of the RFC (A.5), in part. *)
Lemma md5_tests :
  md5 [] = [212; 29; 140; 217; 143; 0; 178; 4; 233; 128; 9; 152; 236; 248; 66; 126] ∧
  md5 (lit "abc") = [144; 1; 80; 152; 60; 210; 79; 176; 214; 150; 63; 125; 40; 225; 127; 114].
Proof. by vm_compute. Qed.

(** ** The unrolled steps *)

Definition R (j : nat) : register :=
  match (j `mod` 4)%nat with 0%nat => A | 1%nat => B | 2%nat => C | _ => D end.

(** Step [i] of [MD5Transform] is step [i] of the RFC, with the registers turned
    by [i] instead of their contents. *)
Definition turned (i : nat) : step :=
  let r := (4 - i `mod` 4)%nat in
  MD5STEP (rfc_round i) (R r) (R (r + 1)) (R (r + 2)) (R (r + 3)) (rfc_word i) (nth i rfc_T 0) (rfc_shift i).

Lemma transform_steps_turned : transform_steps = turned <$> seq 0 64.
Proof. by vm_compute. Qed.

Definition view (i : nat) (s : regs) : regs :=
  let r := (4 - i `mod` 4)%nat in (get (R r) s, get (R (r + 1)) s, get (R (r + 2)) s, get (R (r + 3)) s).

Lemma apply_fn_rfc f x y z : apply_fn f x y z = rfc_fn f x y z.
Proof.
  destruct f; [| |by simpl; rewrite Z.lxor_assoc|done]; simpl; apply Z.bits_inj'; intros n Hn;
    rewrite ?Z.lxor_spec, ?Z.land_spec, ?Z.lor_spec, ?Z.lxor_spec, ?Z.land_spec, ?Z.lnot_spec by done;
    by destruct (Z.testbit x n), (Z.testbit y n), (Z.testbit z n).
Qed.

Lemma u32_add_r a b : u32 (a + u32 b) = u32 (a + b).
Proof. unfold u32. by rewrite Zplus_mod_idemp_r. Qed.

(** The two ways to write a step. *)
Lemma step_value (a b c d k t s : Z) f :
  u32 (rotate (u32 (a + u32 (apply_fn f b c d + u32 (k + t)))) s + b) =
  u32 (b + rotate (u32 (a + rfc_fn f b c d + k + t)) s).
Proof.
  rewrite apply_fn_rfc, (Z.add_comm (rotate _ _) b), u32_add_r.
  rewrite (Z.add_assoc a (rfc_fn f b c d) (u32 (k + t))), u32_add_r. by rewrite Z.add_assoc.
Qed.

Lemma view_step X i s : view (S i) (run_step X s (turned i)) = rfc_step X (view i s) i.
Proof.
  destruct s as [[[a b] c] d].
  assert (i `mod` 4 = 0 ∧ S i `mod` 4 = 1 ∨ i `mod` 4 = 1 ∧ S i `mod` 4 = 2 ∨
          i `mod` 4 = 2 ∧ S i `mod` 4 = 3 ∨ i `mod` 4 = 3 ∧ S i `mod` 4 = 0)%nat as H
    by (pose proof (Nat.div_mod_eq i 4); pose proof (Nat.div_mod_eq (S i) 4);
        pose proof (Nat.mod_upper_bound i 4); pose proof (Nat.mod_upper_bound (S i) 4); lia).
  unfold view, run_step, turned, rfc_step. cbn [s_f s_w s_x s_y s_z s_in s_k s_s].
  generalize (rfc_round i) (rfc_word i) (nth i rfc_T 0) (rfc_shift i). intros f w t sh.
  destruct H as [[-> ->]|[[-> ->]|[[-> ->]|[-> ->]]]]; cbn -[u32 rotate apply_fn rfc_fn nth]; by rewrite step_value.
Qed.

Lemma transform_rfc r X : MD5Transform r X = rfc_transform r X.
Proof.
  assert (∀ n s, view n (foldl (run_step X) s (turned <$> seq 0 n)) = foldl (rfc_step X) s (seq 0 n)) as H.
  { intros n s. induction n as [|n IH]; [by destruct s as [[[a b] c] d]|].
    rewrite !seq_S, fmap_app, !foldl_app, <- IH.
    cbn [fmap list_fmap foldl]. change (0 + n)%nat with n. apply view_step. }
  unfold MD5Transform, rfc_transform. rewrite transform_steps_turned, <- (H 64%nat r).
  by destruct (foldl _ r _) as [[[a b] c] d].
Qed.

(** ** Bytes and words *)

Lemma byteSwap_word p0 p1 p2 p3 : is_u8 p0 → is_u8 p1 → is_u8 p2 → is_u8 p3 →
  Z.lor (u32 (Z.shiftl (Z.lor (Z.shiftl p3 8) p2) 16)) (Z.lor (Z.shiftl p1 8) p0) = le_join [p0; p1; p2; p3].
Proof.
  unfold is_u8. intros H0 H1 H2 H3.
  rewrite (Z.lor_comm (Z.shiftl p3 8)), (Z.lor_comm (Z.shiftl p1 8)), !lor_shiftl_add by lia.
  rewrite u32_id by (unfold is_u32; rewrite Z.shiftl_mul_pow2 by lia; lia).
  rewrite Z.lor_comm, lor_shiftl_add by lia. simpl. lia.
Qed.

(** On a little-endian host [byteSwap] changes nothing. *)
Lemma byteSwap_id n p : bytes_ok p → byteSwap n p = p.
Proof.
  revert p. induction n as [|n IH]; intros p Hp; [done|].
  destruct p as [|p0 [|p1 [|p2 [|p3 p]]]]; try done. cbn [byteSwap].
  apply Forall_cons in Hp as [H0 Hp]. apply Forall_cons in Hp as [H1 Hp].
  apply Forall_cons in Hp as [H2 Hp]. apply Forall_cons in Hp as [H3 Hp].
  rewrite byteSwap_word, IH by done. change 4%nat with (length [p0; p1; p2; p3]).
  rewrite le_split_join; [done|]. unfold bytes_ok. by rewrite !Forall_cons, Forall_nil.
Qed.

Lemma words_of_app n p q : length p = (4 * n)%nat → words_of (p ++ q) = words_of p ++ words_of q.
Proof.
  revert p. induction n as [|n IH]; intros p Hp; [by destruct p|].
  destruct p as [|p0 [|p1 [|p2 [|p3 p]]]]; simpl in Hp; try lia. simpl. f_equal. apply IH. lia.
Qed.

Lemma length_words_of n p : length p = (4 * n)%nat → length (words_of p) = n.
Proof.
  revert p. induction n as [|n IH]; intros p Hp; [by destruct p|].
  destruct p as [|p0 [|p1 [|p2 [|p3 p]]]]; simpl in Hp; try lia. simpl. f_equal. apply IH. lia.
Qed.

Lemma words_of_le8 v : words_of (le_split 8 v) = [v mod 2 ^ 32; (v / 2 ^ 32) mod 2 ^ 32].
Proof.
  change 8%nat with (4 + 4)%nat. rewrite le_split_app, (words_of_app 1) by apply length_le_split.
  change (256 ^ Z.of_nat 4) with (2 ^ 32).
  assert (∀ z, words_of (le_split 4 z) = [z mod 2 ^ 32]) as H; [|by rewrite !H].
  intros z. change (words_of (le_split 4 z)) with [le_join (le_split 4 z)]. by rewrite le_join_split.
Qed.

(** The two words of the length in bits. *)
Lemma length_words n : 0 <= n →
  [u32 (Z.shiftl (u32 n) 3); Z.lor (u32 (Z.shiftl (u32 (n / 2 ^ 32)) 3)) (Z.shiftr (u32 n) 29)] =
  words_of (le_split 8 (8 * n)).
Proof.
  intros Hn. rewrite words_of_le8.
  rewrite !Z.shiftl_mul_pow2, Z.shiftr_div_pow2 by lia.
  assert (0 <= u32 n / 2 ^ 29 < 2 ^ 3) as Hlo by (pose proof (u32_range n); unfold is_u32 in *; zmod).
  replace (u32 (u32 (n / 2 ^ 32) * 2 ^ 3)) with (Z.shiftl (n / 2 ^ 32 mod 2 ^ 29) 3)
    by (rewrite Z.shiftl_mul_pow2 by lia; unfold u32; zmod).
  rewrite Z.lor_comm, lor_shiftl_add by lia. unfold u32.
  assert (n mod 2 ^ 32 * 2 ^ 3 mod 2 ^ 32 = 8 * n mod 2 ^ 32) as -> by zmod.
  assert (n mod 2 ^ 32 / 2 ^ 29 + n / 2 ^ 32 mod 2 ^ 29 * 2 ^ 3 = 8 * n / 2 ^ 32 mod 2 ^ 32) as -> by zmod. done.
Qed.

(** ** Blocks *)

Lemma rfc_blocks_app n k r p q : length p = (64 * n)%nat →
  rfc_blocks (n + k) r (p ++ q) = rfc_blocks k (rfc_blocks n r p) q.
Proof.
  revert r p. induction n as [|n IH]; intros r p Hp; [by destruct p|]. cbn [Nat.add rfc_blocks].
  rewrite take_app_le, drop_app_le by lia. apply IH. rewrite length_drop. lia.
Qed.

Lemma rfc_blocks_snoc n r p b : length p = (64 * n)%nat → length b = 64%nat →
  rfc_blocks (S n) r (p ++ b) = rfc_transform (rfc_blocks n r p) (words_of b).
Proof.
  intros Hp Hb. rewrite <- Nat.add_1_r, rfc_blocks_app by done. cbn [rfc_blocks]. by rewrite take_ge by lia.
Qed.

Lemma transform_in_spec ctx : bytes_ok (in_ ctx) →
  transform_in ctx = {| buf := rfc_transform (buf ctx) (words_of (in_ ctx)); bytes := bytes ctx; in_ := in_ ctx |}.
Proof. intros H. unfold transform_in. by rewrite byteSwap_id, transform_rfc. Qed.

(** ** What a context stands for *)

(** The context has seen the whole blocks of the message and keeps the rest. *)
Record holds_message (ctx : MD5Context) (m : list Z) (q : nat) (full part rest : list Z) : Prop := {
  hm_split : m = full ++ part;
  hm_full : length full = (64 * q)%nat;
  hm_part : (length part < 64)%nat;
  hm_buf : buf ctx = rfc_blocks q rfc_init full;
  hm_in : in_ ctx = part ++ rest;
  hm_len : length (in_ ctx) = 64%nat;
  hm_ok : bytes_ok (in_ ctx);
  hm_bytes : bytes ctx = (u32 (zlen m), u32 (zlen m / 2 ^ 32))
}.

Definition represents (ctx : MD5Context) (m : list Z) : Prop := ∃ q full part rest, holds_message ctx m q full part rest.

Lemma count_part (m full part : list Z) (q : nat) : m = full ++ part → length full = (64 * q)%nat → (length part < 64)%nat →
  Z.land (u32 (zlen m)) 63 = zlen part.
Proof.
  intros -> Hf Hp. change 63 with (2 ^ 6 - 1). rewrite land_low, zlen_app by lia. unfold zlen, u32. rewrite Hf.
  zmod.
Qed.

Lemma store_in_here ctx a old b src : in_ ctx = a ++ old ++ b → length old = length src →
  store_in (zlen a) src ctx = Done {| buf := buf ctx; bytes := bytes ctx; in_ := a ++ src ++ b |}.
Proof. intros Hi Hl. unfold store_in. rewrite Hi, write_at_here by done. done. Qed.

(** A [memcpy] behind the part that is kept, when it fits. *)
Lemma store_in_after ctx part rest src : in_ ctx = part ++ rest → (length src <= length rest)%nat →
  store_in (zlen part) src ctx =
  Done {| buf := buf ctx; bytes := bytes ctx; in_ := part ++ src ++ drop (length src) rest |}.
Proof.
  intros Hi Hl. rewrite <- (take_drop (length src) rest) in Hi.
  rewrite (store_in_here ctx part _ _ src Hi) by (rewrite length_take; lia). done.
Qed.

Lemma store_in_start ctx src : (length src <= length (in_ ctx))%nat →
  store_in 0 src ctx = Done {| buf := buf ctx; bytes := bytes ctx; in_ := src ++ drop (length src) (in_ ctx) |}.
Proof. exact (store_in_after ctx [] (in_ ctx) src eq_refl). Qed.

#[local] Hint Resolve bytes_ok_take bytes_ok_drop : core.

(** The loop takes whole chunks and keeps the rest. *)
Lemma update_chunks_spec fuel m full q data ctx : (length data < fuel)%nat →
  m = full ++ data → length full = (64 * q)%nat → buf ctx = rfc_blocks q rfc_init full →
  length (in_ ctx) = 64%nat → bytes_ok (in_ ctx) → bytes_ok data →
  bytes ctx = (u32 (zlen m), u32 (zlen m / 2 ^ 32)) →
  ∃ ctx', update_chunks fuel data ctx = Done ctx' ∧ represents ctx' m.
Proof.
  revert full q data ctx. induction fuel as [|fuel IH]; intros full q data ctx Hf Hm Hfull Hb Hl Hok Hd Hby; [lia|].
  cbn [update_chunks]. case_if; bprop.
  - assert (64 <= length data)%nat as H64 by (unfold zlen in *; lia). rewrite store_in_start by (rewrite length_take; lia). cbn [obind].
    rewrite (length_take_le data 64), (drop_ge (in_ ctx)) by lia. rewrite app_nil_r.
    rewrite transform_in_spec by (cbn [in_]; auto). cbn [buf bytes in_].
    apply (IH (full ++ take 64 data) (S q)); cbn [buf bytes in_]; auto.
    + rewrite length_drop. lia.
    + by rewrite <- app_assoc, take_drop.
    + rewrite length_app, length_take_le by lia. lia.
    + rewrite rfc_blocks_snoc, Hb by (done || (rewrite length_take; lia)). done.
    + rewrite length_take. lia.
  - assert (length data < 64)%nat as H64 by (unfold zlen in *; lia). rewrite store_in_start by lia. eexists. split; [done|].
    exists q, full, data, (drop (length data) (in_ ctx)).
    split; cbn [buf bytes in_]; auto; try lia.
    + rewrite length_app, length_drop. lia.
    + apply bytes_ok_app. auto.
Qed.

(** The byte counter of [MD5Update] counts to 64 bits. *)
Lemma count_bytes n len : 0 <= n → 0 <= len < 2 ^ 32 →
  (u32 (u32 n + len), if u32 (u32 n + len) <? u32 n then u32 (u32 (n / 2 ^ 32) + 1) else u32 (n / 2 ^ 32)) =
  (u32 (n + len), u32 ((n + len) / 2 ^ 32)).
Proof. intros Hn Hl. unfold u32. case_if; bprop; f_equal; zmod. Qed.

Lemma MD5Update_spec ctx m data : represents ctx m → bytes_ok data → zlen data < 2 ^ 32 →
  ∃ ctx', MD5Update data ctx = Done ctx' ∧ represents ctx' (m ++ data).
Proof.
  intros (q & full & part & rest & [Hm Hfull Hpart Hbuf Hin Hlen Hok Hby]) Hd Hl.
  unfold MD5Update. rewrite Hby, (count_part m full part q Hm Hfull Hpart).
  rewrite count_bytes by (unfold zlen in *; lia).
  replace (64 - (64 - zlen part)) with (zlen part) by lia. rewrite <- zlen_app.
  pose proof Hlen as Hlen'. rewrite Hin, length_app in Hlen'.
  assert (bytes_ok part ∧ bytes_ok rest) as [Hop Hor] by (apply bytes_ok_app; by rewrite <- Hin).
  case_if; bprop.
  - rewrite (store_in_after _ part rest data) by (done || (unfold zlen in *; lia)). eexists. split; [done|].
    exists q, full, (part ++ data), (drop (length data) rest). unfold zlen in *.
    split; cbn [buf bytes in_]; auto; rewrite ?Hm, ?length_app, ?length_drop, ?app_assoc; try done; try lia.
    rewrite !bytes_ok_app. auto.
  - assert (length part + Z.to_nat (64 - zlen part) = 64)%nat as Ht by (unfold zlen; lia).
    set (t := Z.to_nat (64 - zlen part)) in *. assert (t <= length data)%nat as Htd by (unfold zlen in *; lia).
    rewrite (store_in_after _ part rest (take t data)) by (done || (rewrite length_take; lia)). cbn [obind].
    rewrite (drop_ge rest), app_nil_r by (rewrite length_take; lia).
    rewrite transform_in_spec by (cbn [in_]; rewrite bytes_ok_app; auto). cbn [buf bytes in_].
    apply (update_chunks_spec _ _ (full ++ part ++ take t data) (S q)); cbn [buf bytes in_]; auto.
    + rewrite length_drop. lia.
    + by rewrite <- !app_assoc, take_drop, Hm, <- app_assoc.
    + rewrite !length_app, length_take_le by lia. lia.
    + rewrite rfc_blocks_snoc, Hbuf by (done || (rewrite length_app, length_take; lia)). done.
    + rewrite length_app, length_take. lia.
    + rewrite bytes_ok_app. auto.
Qed.

(** ** The last block *)

Lemma le_words_ok r : bytes_ok (le_words r).
Proof. destruct r as [[[a b] c] d]. unfold le_words. rewrite !bytes_ok_app. auto using le_split_bytes. Qed.

Lemma last_words p t n : length p = 56%nat → length t = 8%nat → bytes_ok (p ++ t) → 0 <= n →
  take 14 (words_of (byteSwap 14 (p ++ t))) ++
    [u32 (Z.shiftl (u32 n) 3); Z.lor (u32 (Z.shiftl (u32 (n / 2 ^ 32)) 3)) (Z.shiftr (u32 n) 29)] =
  words_of (p ++ le_split 8 (8 * n)).
Proof.
  intros Hp Ht Hok Hn. rewrite byteSwap_id, length_words, !(words_of_app 14) by done.
  rewrite take_app_length' by (symmetry; by apply length_words_of). done.
Qed.

(** From the padding on: [p] is what the last block has before the length. *)
Lemma final_block ctx (m : list Z) q full p t :
  buf ctx = rfc_blocks q rfc_init full → length full = (64 * q)%nat → in_ ctx = p ++ t →
  length p = 56%nat → length t = 8%nat → bytes_ok (p ++ t) →
  bytes ctx = (u32 (zlen m), u32 (zlen m / 2 ^ 32)) →
  (finish_block ctx).1 = le_words (rfc_blocks (S q) rfc_init (full ++ p ++ le_split 8 (8 * zlen m))).
Proof.
  intros Hb Hf Hi Hp Ht Hok Hby. unfold finish_block. cbv zeta. rewrite Hi, Hby, last_words by (done || apply zlen_nonneg).
  rewrite (byteSwap_id 4 (le_words _)) by apply le_words_ok.
  rewrite transform_rfc, Hb, <- rfc_blocks_snoc by (done || (rewrite length_app, length_le_split; lia)).
  by destruct (rfc_blocks (S q) rfc_init _) as [[[a b] c] d].
Qed.

Lemma finish_result ctx d : (finish_block ctx).1 = d → ∃ ctx', Done (finish_block ctx) = Done (d, ctx').
Proof. intros <-. exists (finish_block ctx).2. by destruct (finish_block ctx). Qed.

(** The zeros of the padding. *)
Lemma pad_zeros (m full part : list Z) (q : nat) : m = full ++ part → length full = (64 * q)%nat → (length part < 64)%nat →
  Z.to_nat ((55 - zlen m) mod 64) = if decide (length part <= 55)%nat then (55 - length part)%nat else (119 - length part)%nat.
Proof.
  intros -> Hf Hp. unfold zlen. rewrite length_app, Hf. case_decide; [|].
  - replace ((55 - Z.of_nat (64 * q + length part)) mod 64) with (55 - Z.of_nat (length part)) by zmod. lia.
  - replace ((55 - Z.of_nat (64 * q + length part)) mod 64) with (119 - Z.of_nat (length part)) by zmod. lia.
Qed.

Lemma md5_blocks m p n : rfc_pad m = p → length p = (64 * n)%nat → md5 m = le_words (rfc_blocks n rfc_init p).
Proof.
  intros <- Hl. unfold md5. rewrite Hl, (Nat.mul_comm 64), Nat.div_mul by lia. done.
Qed.

Lemma zeros_ok n : bytes_ok (replicate n 0).
Proof. apply Forall_replicate. unfold is_u8. lia. Qed.

(** The end of [MD5Final]: zeros up to the length, when [a] leaves room for it. *)
Lemma final_fill ctx (m : list Z) q full a b :
  buf ctx = rfc_blocks q rfc_init full → length full = (64 * q)%nat → in_ ctx = a ++ b → (length a <= 56)%nat →
  length (in_ ctx) = 64%nat → bytes_ok (in_ ctx) → bytes ctx = (u32 (zlen m), u32 (zlen m / 2 ^ 32)) →
  rfc_pad m = full ++ a ++ replicate (56 - length a) 0 ++ le_split 8 (8 * zlen m) →
  ∃ ctx', (do! ctx <- store_in (zlen a) (replicate (56 - length a) 0) ctx; Done (finish_block ctx)) = Done (md5 m, ctx').
Proof.
  intros Hbuf Hfull Hin Ha Hlen Hok Hby Hpad. rewrite Hin, length_app in Hlen. rewrite Hin, bytes_ok_app in Hok.
  rewrite (store_in_after ctx a b) by (done || (rewrite length_replicate; lia)). cbn [obind].
  rewrite length_replicate, app_assoc. apply finish_result.
  rewrite (final_block _ m q full (a ++ replicate (56 - length a) 0) (drop (56 - length a) b)); cbn [buf bytes in_]; try done.
  - symmetry. apply md5_blocks; [by rewrite Hpad, <- !app_assoc|].
    rewrite !length_app, length_replicate, length_le_split. lia.
  - rewrite length_app, length_replicate. lia.
  - rewrite length_drop. lia.
  - rewrite !bytes_ok_app. destruct Hok. auto using zeros_ok.
Qed.

Lemma MD5Final_spec ctx m : represents ctx m → ∃ ctx', MD5Final ctx = Done (md5 m, ctx').
Proof.
  intros (q & full & part & rest & [Hm Hfull Hpart Hbuf Hin Hlen Hok Hby]).
  pose proof Hlen as Hlen'. rewrite Hin, length_app in Hlen'. rewrite Hin, bytes_ok_app in Hok. destruct Hok as [Hop Hor].
  unfold MD5Final. rewrite Hby. cbn [fst]. rewrite (count_part m full part q Hm Hfull Hpart).
  rewrite (store_in_after ctx part rest [128] Hin) by (simpl; lia). cbn [obind length].
  set (part' := part ++ [128]). assert (zlen part + 1 = zlen part') as -> by (unfold part'; by rewrite zlen_app).
  assert (bytes_ok part') as Hop' by (unfold part'; rewrite bytes_ok_app; split; [done|]; by repeat constructor).
  assert (length part' = S (length part)) as Hl' by (unfold part'; rewrite length_app; simpl; lia).
  assert (rfc_pad m = full ++ part' ++ replicate (Z.to_nat ((55 - zlen m) mod 64)) 0 ++ le_split 8 (8 * zlen m)) as Hpad
    by (unfold rfc_pad, part'; rewrite Hm at 1; by rewrite <- !app_assoc).
  rewrite (pad_zeros m full part q Hm Hfull Hpart) in Hpad.
  rewrite (app_assoc part [128] (drop 1 rest)). fold part'.
  assert (length (drop 1 rest) = 63 - length part)%nat as Hlr by (rewrite length_drop; lia).
  assert (bytes_ok (drop 1 rest)) as Hor' by auto. generalize dependent (drop 1 rest). intros r1 Hlr Hor1.
  destruct (decide (length part <= 55)%nat) as [Hs|Hs].
  - replace (56 - 1 - zlen part <? 0) with false by (symmetry; apply Z.ltb_ge; unfold zlen; lia). cbn [obind].
    assert (Z.to_nat (56 - 1 - zlen part) = (56 - length part')%nat) as -> by (unfold zlen; lia).
    apply (final_fill _ m q full part' r1); cbn [buf bytes in_]; try done; try lia.
    + rewrite length_app. lia.
    + rewrite bytes_ok_app. auto.
    + rewrite Hpad. do 4 f_equal. lia.
  - replace (56 - 1 - zlen part <? 0) with true by (symmetry; apply Z.ltb_lt; unfold zlen; lia).
    assert (Z.to_nat (56 - 1 - zlen part + 8) = (63 - length part)%nat) as -> by (unfold zlen; lia).
    rewrite (store_in_after _ part' r1) by (done || (rewrite length_replicate; lia)). cbn [obind].
    rewrite length_replicate, drop_ge, app_nil_r by lia.
    assert (bytes_ok (part' ++ replicate (63 - length part) 0)) as Hok' by (rewrite bytes_ok_app; auto using zeros_ok).
    rewrite transform_in_spec by done. cbn [buf bytes in_ obind].
    assert (length (part' ++ replicate (63 - length part) 0) = 64%nat) as H64 by (rewrite length_app, length_replicate; lia).
    apply (final_fill _ m (S q) (full ++ part' ++ replicate (63 - length part) 0) [] (part' ++ replicate (63 - length part) 0));
      cbn [buf bytes in_]; try done.
    + by rewrite rfc_blocks_snoc, Hbuf.
    + rewrite length_app, H64. lia.
    + simpl. lia.
    + rewrite Hpad. replace (119 - length part)%nat with (63 - length part + 56)%nat by lia.
      rewrite replicate_add. by rewrite <- !app_assoc.
Qed.

Lemma MD5Init_represents junk : length junk = 64%nat → bytes_ok junk → represents (MD5Init junk) [].
Proof. intros Hl Hok. exists 0%nat, [], [], junk. split; cbn; auto; lia. Qed.

Lemma updates_represent chunks ctx m : Forall (λ d, bytes_ok d ∧ zlen d < 2 ^ 32) chunks → represents ctx m →
  ∃ ctx', foldl (λ o d, do! c <- o; MD5Update d c) (Done ctx) chunks = Done ctx' ∧ represents ctx' (m ++ concat chunks).
Proof.
  intros Hc. revert ctx m. induction Hc as [|d chunks [Hd Hl] _ IH]; intros ctx m Hr; simpl.
  - exists ctx. by rewrite app_nil_r.
  - destruct (MD5Update_spec ctx m d Hr Hd Hl) as (ctx1 & -> & Hr1). destruct (IH ctx1 _ Hr1) as (ctx2 & -> & Hr2).
    exists ctx2. by rewrite app_assoc.
Qed.

(** C23: However a message is cut into updates, [MD5Init], the updates and
    [MD5Final] compute the MD5 digest of RFC 1321 of the whole message, never
    write outside of the block, and do not depend on what the context held
    before; in particular the unrolled steps are the sixty-four of the RFC with
    its table of sines. *)
Theorem md5_reference junk chunks :
  length junk = 64%nat → bytes_ok junk → Forall (λ d, bytes_ok d ∧ zlen d < 2 ^ 32) chunks →
  ∃ ctx, (do! c <- foldl (λ o d, do! c <- o; MD5Update d c) (Done (MD5Init junk)) chunks; MD5Final c) =
         Done (md5 (concat chunks), ctx).
Proof.
  intros Hl Hok Hc. destruct (updates_represent chunks _ [] Hc (MD5Init_represents junk Hl Hok)) as (ctx & -> & Hr).
  apply (MD5Final_spec ctx _ Hr).
Qed.

Lemma md5_reference_witness :
  ∃ ctx, (do! c <- foldl (λ o d, do! c <- o; MD5Update d c) (Done (MD5Init (replicate 64 7))) [lit "ab"; []; lit "c"];
          MD5Final c) = Done (md5 (lit "abc"), ctx).
Proof.
  apply (md5_reference (replicate 64 7) [lit "ab"; []; lit "c"]).
  - reflexivity.
  - apply Forall_replicate. unfold is_u8. lia.
  - repeat constructor; simpl; unfold is_u8; lia.
Defined.
